(* ===== verification/_CoqProject ===== *)
-Q . S2P
Prelude.v
Paths.v
Values.v
IpcController.v
IpcLock.v
Threads.v
Callback.v
Engine.v
Http.v
HttpObjects.v
Scripts.v
Fs.v
Gzip.v
Async.v
Regex.v
HttpText.v
HttpHeaders.v
HttpStream.v
HttpPatterns.v
HttpMessage.v
HttpClient.v
Fetch.v
GzipBuffer.v
HttpFetch.v
Db.v
DbObjects.v
Jobs.v
IpcObject.v
Registration.v
Types.v
MsgObject.v
MsgParse.v
MsgStream.v
MsgTree.v
MsgRoundTrip.v
MsgSafety.v
MsgVisitor.v
MsgSession.v
MsgUnpacker.v
MsgUnpackerRefines.v
MsgClient.v
MsgAdaptor.v
MsgContainers.v
MsgTypes.v
MsgZone.v
MsgClone.v
RpcWriter.v
Rpc.v
