(* ===== verification/Prelude.v ===== *)
(** * IISModuleJS: a verification development

    IISModuleJS is a native module of IIS that hands the notifications of a
    request to a JavaScript function.  IIS calls [OnBeginRequest],
    [OnSendResponse] and [OnGlobalPreBeginRequest] (http_module.cpp) on its own
    threads; they call [handle_callback] (v8_wrapper.cpp), which enters V8 under
    one lock and calls the function the script registered.  A second thread,
    the engine ([start], [load_and_watch]), loads Main.js, polls the write times
    of all loaded scripts and starts over in a new context when one changed.
    Scripts reach the world through the objects that [create_shell_context] and
    [initialize_objects] make: the response and the request, [fs], [http],
    [gzip], [crypto], [db] and [ipc]; the asynchronous ones work on threads of
    their own, at most [MAX_THREADS] of them.  The [ipc] object is a table in
    memory shared by processes (ipckv.h).  In debug builds a server of the rpc
    library (Include/rpc) executes the scripts that the tests send it, as calls
    in MessagePack.  All paths below are under src/.

    ** The files

    - Prelude.v (this file): machine integers, strings, buffers, the
      state-and-exception monad [M] in which handlers are written, [keeps]
      (assertions a run keeps), invariants along reachable states.  A handler
      of type [M S A] ends with [Ok], with a C++ exception ([Throw], which v8pp
      turns into a JavaScript one), or brings the process down ([Crash]).
    - Paths.v: [get_relative_file_path], its two loops, its static cache.
    - Values.v: the JavaScript values, the converters of
      Include/v8pp/convert.hpp and [forward_function] of function.hpp.
    - IpcController.v: [IPC_KV_Controller] of Include/ipckv/ipckv.h, the
      double-buffered header and entries and their transactions.
    - IpcLock.v: [IPC_Lock] of the same file, as steps of processes on a
      semaphore and a mutex.
    - Threads.v: [thread_count], [thread_count_cv] and the [v8::Locker], as
      steps of threads: the wait of a caller, the work of the started thread,
      its notification, its wait for the locker.
    - Callback.v: [register], [handle_callback] and the completion function it
      attaches to a promise; http_module.cpp.  [server_step] interleaves server
      threads (the check and the locked part of [handle_callback] are two
      steps), the start and resets of the engine, its scripts, which register
      functions, and promises that settle, whose continuations can register too.
    - Engine.v: [start], [reset_engine], [get_path],
      [find_or_create_eternal_name_cache], [load_and_watch],
      [directory_change_callback], [execute_file], [execute_string],
      [report_exception], [vs_printf], [print], [load], and the remote execution
      of debug builds.
    - Http.v: every method of the HttpResponse and HttpRequest objects,
      [Utf8ValueScoped], [ArrayBufferScoped], [sock_to_ip].
    - HttpObjects.v: the contexts IIS gives and takes back, by the answers it
      was given ([iis_holds]), the objects of each request, which keep the bare
      pointer of its context, and the steps of Callback.v in between; a method
      runs on what its object points to.
    - Scripts.v: a script that [register] installed, run by a notification on
      the methods of its request; the scripts of read_write_tests.cpp.
    - Fs.v: [fs.copy], [fs.exists], [fs.delete], [fs.write], [fs.read].
    - Gzip.v: the loops of Include/gzip/compress.hpp and decompress.hpp.
    - Async.v: what all asynchronous functions share: the promise, the detached
      thread with its calls of the resolver, any number of them, [SetWeak] and
      [AdjustAmountOfExternalAllocatedMemory].
    - The HTTP client of [http.fetch], which is Include/httplib/httplib.h:
      Regex.v, the [std::regex_match] it uses, with the language of a pattern;
      HttpText.v, its number and URL texts; HttpHeaders.v, the multimap of
      headers and [Response]; HttpStream.v, [Stream] and its three classes,
      [stream_line_reader], [write_format]; HttpPatterns.v, its three patterns;
      HttpMessage.v, [read_response_line], [read_headers], [read_content],
      [write_headers], [write_content_chunked]; HttpClient.v, [write_request],
      [process_request], [send] and the methods of [Client] and [SSLClient].
    - Fetch.v: [http.fetch], the FetchResponse object, [gzip.compress],
      [gzip.decompress], [crypto.bcrypt.hash], [crypto.bcrypt.check].
      HttpFetch.v: the thread of [http.fetch] on that client and a network.
      GzipBuffer.v: the arrays scripts share with threads of [gzip.decompress].
    - Db.v: the methods of the db object and the work of its threads, on one
      [DbContext].  DbObjects.v: [db.init] and all db objects together: the
      contexts on the heap, the threads that hold their addresses, the weak
      callback that deletes them.  Jobs.v: the threads of Fetch.v and Db.v beside
      each other.
    - IpcObject.v: [ipc.init], [ipc.set], [ipc.get], [ipc.close] and the weak
      callback, on the heap of all ipc objects; the tables belong to what all
      processes share, which other processes change in any way.
    - Registration.v: [RegisterModule] of main.cpp, [ModuleFactory], and the
      constants of the global objects.  Types.v: the types of all functions a
      script can call.
    - Remote execution, which is Include/rpc, from the bytes up.  MsgObject.v: the
      objects of MessagePack, the packer (msgpack/v1/pack.hpp, object.hpp).
      MsgParse.v: the parser (v2/parse.hpp), a state machine over a visitor;
      MsgStream.v, that it can be stopped and resumed.  MsgTree.v: the visitor
      that builds objects, by its meaning; MsgVisitor.v, the one of the library
      (v2/create_object_visitor.hpp), with its pointers into a zone, and
      [unpack_imp].  MsgRoundTrip.v, MsgSafety.v: what was packed, and any bytes,
      as input of the parser.  MsgSession.v: a stream of objects, the abstract
      form of the unpacker; MsgUnpacker.v, the unpacker itself (v2/unpack.hpp,
      v2/parse.hpp), with its buffers, counts and finalizers;
      MsgUnpackerRefines.v and MsgClient.v, that it implements the stream under
      every sequence of calls.  MsgZone.v: the zone (v1/detail/cpp11_zone.hpp) on
      [malloc].  MsgClone.v: deep copies ([clone], object.hpp).  MsgAdaptor.v,
      MsgContainers.v: how values of C++ types become objects and return
      (v1/adaptor); MsgTypes.v, the types that are built of one another.
      RpcWriter.v: the buffer of a message (v1/sbuffer.hpp) and the queue of a connection (detail/async_writer.h).  Rpc.v: packing a call
      (client.inl), binding and calling a function (dispatcher.inl), and the
      remote execution from the client to the engine.

    Paths is used by Engine (the path of a script) and Fs (the path of a
    file); Values by all handlers; Callback by Engine, which resets what
    Callback registers; Gzip, Async and HttpHeaders by Fetch; Gzip, Async and
    Fetch by GzipBuffer; HttpClient and Fetch by HttpFetch; Async by Db and
    IpcObject; Callback and Http by HttpObjects and Scripts; Db and Async by
    DbObjects; Fetch and DbObjects by Jobs; Callback, Fetch and Db by
    Registration; all objects by Types;
    MsgObject by all Msg files, each of which builds on those before it, but for
    MsgZone, which is by itself: the visitor sees of it only that pieces are apart,
    and MsgClone shows what a copy asks of it;
    MsgAdaptor, MsgClient, RpcWriter and Engine by Rpc.
    What is not in the repository is an interface, a [Class] with the
    operations the source calls, and where a theorem needs it a second [Class]
    with their documented
    laws: V8 ([V8Strings], [V8Host], [JSRuntime]), Windows and V8's script
    execution ([Host]), semaphores ([Win32Semaphore]), IIS ([IIS]), the file
    system ([FileSystem]), zlib ([Zlib]), bcrypt ([Native], which also has the
    HTTP client as Fetch.v sees it; HttpFetch.v gives it the one of
    HttpClient.v), Winsock and OpenSSL ([Network]), cppdb
    ([CppDb]), the table behind [IPC_KV] ([IpcKv]), C's allocator under a zone
    ([Malloc]), the part of the rpc library that is compiled ([RpcServer]); asio is
    what may happen in the steps of RpcWriter.v.  Every file with laws ends
    with a small instance, in which the witnesses evaluate the definitions.

    ** What the theorems show

    - Paths: the cleaning ends for every input and equals a one-pass reference
      definition on segments; a cleaned name resolves below the directory;
      cleaning twice changes nothing; the cache never changes an answer.
    - Callback: the status returned for every possible result, and, over all
      interleavings, scripts that register anew behind a reset among them, that a
      request answered with PENDING has exactly one completion to come or made;
      [register] installs one function and leaves the others; the check before
      the lock can be out of date.
    - Http: [response.write] sends the body cut in chunks of at most 65535
      bytes, in order and complete, and ends; [request.read] and
      [response.read] return the whole body, and [request.read] throws only where
      IIS fails a read; no method touches IIS without a context; [request.read(true)] leaves the body for the next module.
    - IpcController: a transaction is an update of the abstract record or
      entry, invisible until its commit and complete at it, with the fields it
      did not set kept.  IpcLock: writers exclude each other; a reader that
      leaves can let a writer in beside another reader, and a permit can be
      lost for ever, shown by reachable states.
    - Threads: at most [MAX_THREADS] threads work, and a caller that waits can
      always be admitted.
    - Engine: scripts whose loads are ranked end; a round reloads exactly when
      a script changed, and one reload is enough; after any number of rounds
      the request and response objects are of the newest context.
    - HttpObjects: requests with their objects implement the contract of IIS, a
      machine that knows a context only by the notifications it sent and the
      answers it was given: free, notified, or with a completion outstanding.
      IIS keeps a context that is notified or outstanding, so that while a
      notification of a request runs, or its promise is pending, its objects
      work on its context; an object that is kept longer can reach a deleted
      context, or the next request at its address.
    - Scripts: from [register] to the answer, a script that reads the body of the
      request and writes it answers with the bytes of the request, unless a call
      it makes was refused by IIS.
    - The HTTP client, from the pieces up: the matcher decides the language of
      a pattern; texts of numbers and URLs are read back; the header multimap is
      sorted and stable; the line reader and [write_format] do not depend on
      their buffers or on how the bytes arrive; headers and chunked bodies that
      are written are read back; [process_request] sends exactly the request and
      returns exactly the answer.  HttpFetch puts them under [http.fetch]: what
      the promise settles with for a well-formed answer, a truncated one and a
      malformed one, and that the socket is closed.
    - Gzip, Fetch: the loops give the whole stream or refuse it for its size,
      with the sizes that are refused; decompressing undoes
      compressing, as loops and as promises; [http.fetch] starts one request
      with exactly the options given.  GzipBuffer: the same for arrays that are
      shared, as long as the script leaves the one array alone.  Async: the memory V8
      is told of is that of the objects alive.  Jobs: each promise is waiting or
      had its resolver called once, since every thread calls it once.
    - DbObjects: the db objects implement the machine of Async.v; a thread
      finds its context as long as the script keeps the object, and can use a
      deleted one otherwise.  Registration: the constants scripts are given
      are the codes the handlers read.  Types: every function returns values of
      the type its comment gives.
    - Fs, Db: what was written or bound is what is read or fetched, of a file as
      much as the C library wrote; [fs] calls stay below the directory.
    - IpcObject: whatever an [IPC_KV] does, each is constructed, used, closed and
      deleted in this order by the one object that owns it, and none is lost; a
      closed object throws for ever; the heap implements the machine of Async.v.
      What a table keeps under a key is up to code that is not in the repository,
      and nothing is said of it.
    - The Msg files: packing any object, or any value of the types MsgTypes.v has,
      and unpacking it gives it back;
      any bytes, less than 4 GiB of them, make the parser end inside its buffer with an object or an
      exception; where the input is cut does not matter; the unpacker gives the
      objects of the stream in order, each once, and no buffer is used outside of
      its bounds or after it was freed; a zone gives pieces that are aligned and
      apart, and gives everything back; a copy of an object is the object, and does not
      depend on what it was copied from.
    - RpcWriter, Rpc: messages are sent in order and whole, and can always be;
      a script that was sent is executed as if the server had it, and its result
      has the number of its call; nothing but a text or binary value is executed.
    - Several theorems pin behaviour that surprises: lost sizes, leaked
      handles, a hang on empty input, a header length cut to 16 bits.

    ** Bounds and fuel

    Integers are [Z]; where the width matters the wrap-around is written with
    [u16], [u32], [i32].  Loops whose recursion is not structural take fuel and
    report its end as an error no theorem accepts.  The fuel is not a bound of
    the program: [relative_path] takes the length of its input, and both its
    loops are proved to end within it; [write_loop] takes one more than the length of the body
    and [read_loop] the number of bytes IIS says remain, and each round sends or
    reads a byte;
    [compress_loop] and [decompress_loop] take more than the length of the
    stream, and each round makes progress; [execute_file] takes more than the
    rank of the script; the loops of the HTTP client that read take more than
    the bytes the connection delivers, [getline] and [read_headers] among them;
    [write_format] doubles its buffer 64 times at most, 20 are enough for an
    [int]; [from_i_to_hex] takes the 16 digits of a [size_t], [to_string] 20.
    The visitor's cells are loaded and copied with more fuel than there are blocks.
    The parser's loop takes as many rounds as the input and the stack allow
    ([rounds], MsgParse.v), proved to be enough; the loops that double a size take 64
    ([double_size_enough]); the loops over the chunks of a zone take the number of
    blocks in use.  The engine's loop is endless, so [watch] takes the
    number of rounds and its theorems hold for every number.

    ** What is not modelled

    The class wrapping of v8pp, and the bodies of third-party libraries: simdb,
    openssl, V8, the predef and preprocessor macros of msgpack.  Of the rpc library,
    what its headers only declare (client, server, session, [dispatch], the checks
    of the dispatcher) is compiled and not in the repository; of msgpack, the
    adaptors of the unordered containers, whose order is not specified, of C arrays,
    optional, the tr1 and boost types, the generated C++03 tuples and [define]s, the parser of
    version 1, the C interface (zone.h, object.h, unpack.h) and moves of an
    unpacker.  The garbage collector is modelled only
    where the source registers a callback with it (Async.v, DbObjects.v,
    IpcObject.v).  A statement of a database and a request of the HTTP client run as one step,
    so two threads on one [DbContext] do not overlap in the model.  Of httplib,
    the server, and of its client what the module never turns on: proxies,
    redirects, authentication, keep-alive, progress and receiver functions,
    multipart bodies, certificates; the resolution of host names is part of
    [create_client_socket].  The limits of [std::regex] on stack and steps.  The
    configuration is that of the release build, but for [rpc_execute]:
    [DISABLE_INTERNAL_POINTER_RESET] is defined in v8_wrapper.h, [_DEBUG] is
    not.  The thread of [gzip.decompress] reads its array in one step.  A failed
    allocation is modelled in MsgZone.v and MsgClone.v only, and time nowhere. *)
From Stdlib Require Export ZArith Lia.
From stdpp Require Export base tactics option list gmap strings relations.
Open Scope Z_scope.

(** ** Machine integers *)

(** The value an unsigned integer of [w] bits holds after a conversion. *)
Definition wrap (w z : Z) : Z := z mod 2 ^ w.

Abbreviation u8 := (wrap 8).
Abbreviation u16 := (wrap 16).
Abbreviation u32 := (wrap 32).
Abbreviation u64 := (wrap 64).

(** The value a signed integer of 32 bits holds after a conversion. *)
Definition i32 (z : Z) : Z :=
  let r := z mod 2 ^ 32 in if r <? 2 ^ 31 then r else r - 2 ^ 32.

Lemma wrap_range w z : 0 <= w -> 0 <= wrap w z < 2 ^ w.
Proof. intros; unfold wrap; apply Z.mod_pos_bound; lia. Qed.

Lemma wrap_small w z : 0 <= z < 2 ^ w -> wrap w z = z.
Proof. intros; unfold wrap; apply Z.mod_small; lia. Qed.

Lemma i32_range z : - 2 ^ 31 <= i32 z < 2 ^ 31.
Proof.
  unfold i32. pose proof (Z.mod_pos_bound z (2 ^ 32)).
  destruct (Z.ltb_spec (z mod 2 ^ 32) (2 ^ 31)); lia.
Qed.

Lemma i32_small z : - 2 ^ 31 <= z < 2 ^ 31 -> i32 z = z.
Proof.
  intros Hz. unfold i32.
  destruct (Z.neg_nonneg_cases z) as [Hn|Hp].
  - rewrite <- (Z.mod_add z 1), Z.mod_small by lia.
    destruct (Z.ltb_spec (z + 1 * 2 ^ 32) (2 ^ 31)); lia.
  - rewrite Z.mod_small by lia. destruct (Z.ltb_spec z (2 ^ 31)); lia.
Qed.

(** The loops of the MessagePack library that double a size until it is [n], or take
    [n] when the size overflows; 64 rounds are enough. *)
Fixpoint double_size (fuel : nat) (next_size n : Z) : Z :=
  match fuel with
  | O => next_size
  | S fuel =>
      if next_size <? n then
        let tmp_next_size := u64 (next_size * 2) in
        if tmp_next_size <=? next_size then n else double_size fuel tmp_next_size n
      else next_size
  end.

Lemma double_size_exact fuel start n :
  1 <= start < 2 ^ 47 -> n < 2 ^ 46 -> n <= start * 2 ^ Z.of_nat fuel ->
  Z.max start n <= double_size fuel start n <= Z.max start (2 * n).
Proof.
  revert start. induction fuel as [|fuel IH]; intros start Hs Hn Hf.
  - simpl. lia.
  - cbn [double_size]. rewrite Nat2Z.inj_succ, Z.pow_succ_r in Hf by lia.
    destruct (Z.ltb_spec start n); [|lia].
    assert (u64 (start * 2) = start * 2) as -> by (apply wrap_small; lia).
    destruct (Z.leb_spec (start * 2) start); [lia|]. specialize (IH (start * 2)). lia.
Qed.

(** Whatever the sizes are, the loop ends with enough. *)
Lemma double_size_enough fuel start n :
  0 <= start < 2 ^ 64 -> n < 2 ^ 64 -> (0 < start -> n <= start * 2 ^ Z.of_nat fuel) -> (0 < fuel)%nat ->
  n <= double_size fuel start n.
Proof.
  revert start. induction fuel as [|fuel IH]; intros start Hs Hn Hf Hfuel; [lia|].
  cbn [double_size]. rewrite Nat2Z.inj_succ, Z.pow_succ_r in Hf by lia.
  destruct (Z.ltb_spec start n); [|lia]. destruct (Z.leb_spec (u64 (start * 2)) start) as [|Hu]; [lia|].
  assert (u64 (start * 2) = start * 2) as E.
  { unfold wrap in *. destruct (Z.lt_ge_cases (start * 2) (2 ^ 64)); [apply Z.mod_small; lia|].
    rewrite <- (Z.mod_add _ (-1)), Z.mod_small in Hu by lia. lia. }
  pose proof (wrap_range 64 (start * 2)). rewrite E in *. destruct fuel as [|fuel]; [change (Z.of_nat 0) with 0 in Hf; rewrite Z.pow_0_r in Hf; cbn [double_size]; lia|].
  apply IH; [lia..| |lia]. intros _. rewrite <- Z.mul_assoc. apply Hf. lia.
Qed.

(** ** Strings

    A [std::string] is the list of its bytes and a [std::wstring] (like a
    JavaScript string) the list of its UTF-16 code units; both are lists of
    [Z].  [L "text"] writes an ASCII literal. *)
Abbreviation bytes := (list Z).
Abbreviation wstring := (list Z).

Fixpoint L (s : string) : list Z :=
  match s with
  | EmptyString => []
  | String a s' => Z.of_nat (Ascii.nat_of_ascii a) :: L s'
  end.

(** What a callee that receives [s.c_str()] reads: the bytes before the first
    NUL. *)
Fixpoint c_str (s : list Z) : list Z :=
  match s with
  | [] => []
  | c :: s' => if c =? 0 then [] else c :: c_str s'
  end.

Lemma c_str_prefix s : c_str s `prefix_of` s.
Proof.
  induction s as [|c s IH]; simpl; [done|].
  case_match; [apply prefix_nil|by apply prefix_cons].
Qed.

Lemma c_str_id s : 0 ∉ s -> c_str s = s.
Proof.
  induction s as [|c s IH]; simpl; [done|].
  rewrite not_elem_of_cons. intros [Hc Hs].
  destruct (Z.eqb_spec c 0); [congruence|]. by rewrite IH.
Qed.

(** ** Buffers *)

(** [std::memcpy(buffer + offset, ...)]; [None] writes past the end. *)
Definition memcpy (buffer : bytes) (offset : nat) (src : bytes) : option bytes :=
  if (offset + length src <=? length buffer)%nat
  then Some (take offset buffer ++ src ++ drop (offset + length src) buffer)
  else None.

(** [std::string::resize]. *)
Definition resize (s : bytes) (n : nat) : bytes := take n s ++ replicate (n - length s) 0.

Lemma memcpy_at_end done_ todo src :
  (length src <= length todo)%nat ->
  memcpy (done_ ++ todo) (length done_) src = Some (done_ ++ src ++ drop (length src) todo).
Proof.
  intros Hl. unfold memcpy. rewrite length_app, (proj2 (Nat.leb_le _ _)) by lia.
  rewrite take_app_length, drop_app_ge by lia.
  by replace (length done_ + length src - length done_)%nat with (length src) by lia.
Qed.

Lemma length_resize s n : length (resize s n) = n.
Proof. unfold resize. rewrite length_app, length_take, length_replicate. lia. Qed.

(** Resizing to more keeps the text. *)
Lemma resize_more s n :
  (length s <= n)%nat -> resize s n = s ++ replicate (n - length s) 0.
Proof. intros Hn. unfold resize. by rewrite take_ge. Qed.

(** Resizing back to a prefix cuts. *)
Lemma resize_app s t : resize (s ++ t) (length s) = s.
Proof.
  unfold resize. rewrite take_app_length, length_app.
  replace (length s - (length s + length t))%nat with 0%nat by lia. apply app_nil_r.
Qed.

(** ** Exceptions and state

    A handler of the program changes a state and either returns, throws a C++
    exception that v8pp turns into a JavaScript one, or brings the process
    down (a failed [ToLocalChecked], a C runtime constraint violation, an
    access the language leaves undefined).  The state survives an exception,
    as it does in C++. *)
Inductive exn :=
| StdException (what : string)
| InvalidArgument (expected typeof : string).

Inductive outcome (A : Type) :=
| Ok (a : A)
| Throw (e : exn)
| Crash (why : string).
Arguments Ok {A} a.
Arguments Throw {A} e.
Arguments Crash {A} why.

Definition M (S A : Type) : Type := S -> outcome A * S.

#[global] Instance M_ret {S} : MRet (M S) := fun A a s => (Ok a, s).

#[global] Instance M_bind {S} : MBind (M S) := fun A B f m s =>
  match m s with
  | (Ok a, s') => f a s'
  | (Throw e, s') => (Throw e, s')
  | (Crash w, s') => (Crash w, s')
  end.

Section state_ops.
Context {S : Type}.

Definition throw {A} (e : exn) : M S A := fun s => (Throw e, s).
Definition crash {A} (w : string) : M S A := fun s => (Crash w, s).
Definition get : M S S := fun s => (Ok s, s).
Definition put (s' : S) : M S unit := fun _ => (Ok (), s').
Definition modify (f : S -> S) : M S unit := fun s => (Ok (), f s).

(** [throw std::exception(what)]. *)
Definition raise {A} (what : string) : M S A := throw (StdException what).

(** [if (b) throw std::exception(what);] *)
Definition throw_if (b : bool) (what : string) : M S unit :=
  if b then raise what else mret ().

(** A call of an outside operation that returns a value and a new state. *)
Definition call {A} (f : S -> A * S) : M S A :=
  fun s => let '(a, s') := f s in (Ok a, s').

(** A call of an outside operation that may throw. *)
Definition lift_outcome {A} (o : outcome A) : M S A := fun s => (o, s).

(** Runs [m] on a part of the state. *)
Definition zoom {T A} (f : S -> T) (g : T -> S -> S) (m : M T A) : M S A :=
  fun s => let '(r, t) := m (f s) in (r, g t s).
End state_ops.

Create HintDb run_M.
#[export] Hint Unfold mret mbind M_ret M_bind throw crash get put modify raise
  throw_if call lift_outcome zoom : run_M.

(** Unfolds the monad in the goal. *)
Ltac run_M := repeat (autounfold with run_M in *; cbn beta iota in *).

Section state_laws.
Context {S : Type}.

Lemma bind_ok {A B} (m : M S A) (k : A -> M S B) s a s' :
  m s = (Ok a, s') -> (m ≫= k) s = k a s'.
Proof. intros E. unfold mbind, M_bind. by rewrite E. Qed.

Lemma bind_ret {A B} (a : A) (k : A -> M S B) s : (mret a ≫= k) s = k a s.
Proof. done. Qed.

Lemma bind_get {B} (k : S -> M S B) s : (get ≫= k) s = k s s.
Proof. done. Qed.

Lemma bind_modify {B} f (k : () -> M S B) s : (modify f ≫= k) s = k () (f s).
Proof. done. Qed.

(** A guard that does not fire, and one that does. *)
Lemma bind_throw_if {B} b w (k : () -> M S B) s :
  b = false -> (throw_if b w ≫= k) s = k () s.
Proof. by intros ->. Qed.

Lemma bind_throw_if_true {B} b w (k : () -> M S B) s :
  b = true -> (throw_if b w ≫= k) s = (Throw (StdException w), s).
Proof. by intros ->. Qed.

(** A guard that let the run go on. *)
Lemma throw_if_ok_inv b w x (s s' : S) : throw_if b w s = (Ok x, s') -> b = false /\ s' = s.
Proof. destruct b; by inversion 1. Qed.

Lemma bind_throw {A B} (m : M S A) (k : A -> M S B) s e s' :
  m s = (Throw e, s') -> (m ≫= k) s = (Throw e, s').
Proof. intros E. unfold mbind, M_bind. by rewrite E. Qed.

Lemma bind_crash {A B} (m : M S A) (k : A -> M S B) s w s' :
  m s = (Crash w, s') -> (m ≫= k) s = (Crash w, s').
Proof. intros E. unfold mbind, M_bind. by rewrite E. Qed.

(** A bind that returned ran both its parts to a return. *)
Lemma bind_ok_inv {A B} (m : M S A) (k : A -> M S B) s b s2 :
  (m ≫= k) s = (Ok b, s2) ->
  exists a s1, m s = (Ok a, s1) /\ k a s1 = (Ok b, s2).
Proof.
  unfold mbind, M_bind. destruct (m s) as [[a|e|w] s1]; intros; simplify_eq.
  eauto.
Qed.

Lemma bind_assoc {A B C} (m : M S A) (f : A -> M S B) (g : B -> M S C) s :
  mbind g (mbind f m) s = mbind (fun a => mbind g (f a)) m s.
Proof. unfold mbind, M_bind. by destruct (m s) as [[]]. Qed.
End state_laws.

(** ** State assertions

    [keeps P m]: [m] keeps [P], however it ends. *)
Definition keeps {S A} (P : S -> Prop) (m : M S A) : Prop := forall s, P s -> P (snd (m s)).

Section keeps_laws.
Context {S : Type} (P : S -> Prop).

Lemma keeps_ret {A} (a : A) : keeps P (mret a : M S A).
Proof. by intros s. Qed.

Lemma keeps_throw {A} e : keeps P (throw e : M S A).
Proof. by intros s. Qed.

Lemma keeps_raise {A} w : keeps P (raise w : M S A).
Proof. by intros s. Qed.

Lemma keeps_throw_if b w : keeps P (throw_if b w : M S unit).
Proof. by destruct b; intros s. Qed.

Lemma keeps_crash {A} w : keeps P (crash w : M S A).
Proof. by intros s. Qed.

Lemma keeps_get : keeps P get.
Proof. by intros s. Qed.

Lemma keeps_modify f : (forall s, P s -> P (f s)) -> keeps P (modify f).
Proof. intros Hf s. apply Hf. Qed.

Lemma keeps_call {A} (f : S -> A * S) :
  (forall s, P s -> P (snd (f s))) -> keeps P (call f).
Proof. intros Hf s Hs. specialize (Hf s Hs). unfold call. by destruct (f s). Qed.

Lemma keeps_bind {A B} (m : M S A) (k : A -> M S B) :
  keeps P m -> (forall a, keeps P (k a)) -> keeps P (m ≫= k).
Proof.
  intros Hm Hk s Hs. specialize (Hm s Hs). unfold mbind, M_bind.
  destruct (m s) as [[a|e|w] s']; simpl in *; auto. by apply Hk.
Qed.

(** A bind on [get] may use the state it read. *)
Lemma keeps_bind_get {B} (k : S -> M S B) :
  (forall s, P s -> P (snd (k s s))) -> keeps P (get ≫= k).
Proof. intros Hk s Hs. rewrite bind_get. by apply Hk. Qed.
End keeps_laws.

Create HintDb keeps.
#[export] Hint Resolve keeps_ret keeps_throw keeps_raise keeps_throw_if keeps_crash keeps_get
  : keeps.
#[export] Hint Extern 2 (keeps _ (_ ≫= _)) => apply keeps_bind; [|intros] : keeps.
#[export] Hint Extern 3 (keeps _ (if ?b then _ else _)) => destruct b : keeps.
#[export] Hint Extern 3 (keeps _ (match ?x with _ => _ end)) => destruct x : keeps.

(** Proves the assertion after a run from the [keeps] of what ran. *)
Ltac keeps_here :=
  match goal with
  | |- ?P (snd (?m ?s)) => cut (keeps P m); [intros K; apply K; assumption|]
  end.

(** ** Reachability *)

(** An assertion every step keeps holds in every reachable state. *)
Lemma rtc_invariant {A} (R : relation A) (I : A -> Prop) x y :
  (forall a b, I a -> R a b -> I b) -> I x -> rtc R x y -> I y.
Proof. intros HR Hx Hxy. induction Hxy; eauto. Qed.

(** ** Lists *)

Lemma fold_left_app_map {A B C} (f : C -> B -> C) (g : A -> B) l c :
  fold_left f (map g l) c = fold_left (fun c a => f c (g a)) l c.
Proof. revert c. induction l; simpl; auto. Qed.

Lemma take_drop_Z {A} (l : list A) (n : Z) :
  take (Z.to_nat n) l ++ drop (Z.to_nat n) l = l.
Proof. apply take_drop. Qed.

Lemma Z_length_drop {A} (l : list A) (n : Z) :
  0 <= n <= Z.of_nat (length l) ->
  Z.of_nat (length (drop (Z.to_nat n) l)) = Z.of_nat (length l) - n.
Proof. intros. rewrite length_drop. lia. Qed.

Lemma Z_length_take {A} (l : list A) (n : Z) :
  0 <= n <= Z.of_nat (length l) ->
  Z.of_nat (length (take (Z.to_nat n) l)) = n.
Proof. intros. rewrite length_take. lia. Qed.

(** One of the equal members taken out, and their sum. *)
Lemma replicate_middle {A} n (x y : A) before after :
  replicate n x = before ++ y :: after -> before ++ after = replicate (pred n) x.
Proof.
  revert before. induction n as [|n IH]; intros [|b before] E; try discriminate E.
  - by injection E as _ <-.
  - simpl in E. injection E as <- E. destruct n as [|n]; [by destruct before|].
    cbn. by rewrite (IH _ E).
Qed.

Lemma sum_replicate n c : foldr Z.add 0 (replicate n c) = Z.of_nat n * c.
Proof. induction n as [|n IH]; cbn; [done|]. rewrite IH. lia. Qed.
