(* ===== verification/Paths.v ===== *)
(** * Paths: [get_relative_file_path] of v8_wrapper.cpp *)
From S2P Require Import Prelude.

(** ** The operations of [std::wstring] the source uses *)

Fixpoint prefixb (pat s : wstring) : bool :=
  match pat, s with
  | [], _ => true
  | _, [] => false
  | a :: pat', b :: s' => (a =? b) && prefixb pat' s'
  end.

Fixpoint find_at (pat s : wstring) : option nat :=
  if prefixb pat s then Some 0%nat
  else match s with
       | [] => None
       | _ :: s' => S <$> find_at pat s'
       end.

(** [s.find(pat, pos)]; [None] is [npos]. *)
Definition find (s pat : wstring) (pos : nat) : option nat :=
  (fun i => (i + pos)%nat) <$> find_at pat (drop pos s).

(** [s.replace(pos, n, r)]. *)
Definition replace (s : wstring) (pos n : nat) (r : wstring) : wstring :=
  take pos s ++ r ++ drop (pos + n) s.

(** [s.find_last_of(L"c")]. *)
Fixpoint find_last_of (s : wstring) (c : Z) : option nat :=
  match s with
  | [] => None
  | a :: s' =>
      match find_last_of s' c with
      | Some i => Some (S i)
      | None => if a =? c then Some 0%nat else None
      end
  end.

(** [s.substr(pos, n)]. *)
Definition substr (s : wstring) (pos n : nat) : wstring := take n (drop pos s).

Abbreviation SLASH := 47.
Abbreviation BACKSLASH := 92.
Abbreviation DOT := 46.

(** [input.find(pat, 0, n) == 0]. *)
Definition begins_with (input pat : wstring) : bool :=
  bool_decide (find input pat 0 = Some 0%nat).

(** ** The loops *)

(** The loop that turns every backslash into a slash.  [None] is a run that
    needs more than [fuel] iterations. *)
Fixpoint replace_backslashes (fuel : nat) (input : wstring) : option wstring :=
  match find input (L "\") 0 with
  | None => Some input
  | Some pos =>
      match fuel with
      | O => None
      | S fuel' => replace_backslashes fuel' (replace input pos 1 (L "/"))
      end
  end.

(** The part branches C share: remove the last segment of the output. *)
Definition remove_last_segment (output : wstring) : wstring :=
  match find_last_of output SLASH with
  | Some position => substr output 0 position
  | None => output
  end.

(** Branch E: where the first segment of the input ends. *)
Definition segment_end (input : wstring) : nat :=
  let position := find input (L "/") 0 in
  let position :=
    match position with
    | Some O => find input (L "/") 1
    | p => p
    end in
  default (length input) position.

(** Branch E: move the first segment of the input to the output. *)
Definition move_segment (input output : wstring) : wstring * wstring :=
  let position := segment_end input in
  (drop position input, output ++ substr input 0 position).

(** One iteration of the RFC 3986 loop on the input and output buffers. *)
Definition dot_step (input output : wstring) : wstring * wstring :=
  if begins_with input (L "../") then (replace input 0 3 [], output)
  else if begins_with input (L "./") then (replace input 0 2 [], output)
  else if begins_with input (L "/./") then (replace input 0 3 (L "/"), output)
  else if bool_decide (input = L "/.") then (replace input 0 2 (L "/"), output)
  else if begins_with input (L "/../") then
    (replace input 0 4 (L "/"), remove_last_segment output)
  else if bool_decide (input = L "/..") then
    (replace input 0 3 (L "/"), remove_last_segment output)
  else if bool_decide (input = L ".") || bool_decide (input = L "..") then
    ([], output)
  else move_segment input output.

(** [while (!input.empty())]. *)
Fixpoint dot_loop (fuel : nat) (input output : wstring) : option wstring :=
  match input with
  | [] => Some output
  | _ =>
      match fuel with
      | O => None
      | S fuel' =>
          let '(input', output') := dot_step input output in
          dot_loop fuel' input' output'
      end
  end.

(** The string [get_relative_file_path] appends to [fs_directory]. *)
Definition relative_path (raw_input : wstring) : option wstring :=
  input ← replace_backslashes (length raw_input) raw_input;
  dot_loop (length input) input [].


(** ** The reference: RFC 3986 on segments *)

(** The text between the slashes. *)
Fixpoint segments (s : wstring) : list wstring :=
  match s with
  | [] => [[]]
  | c :: s' =>
      if c =? SLASH then [] :: segments s'
      else match segments s' with
           | seg :: rest => (c :: seg) :: rest
           | [] => [[c]]
           end
  end.

(** Each segment behind a slash. *)
Definition render (segs : list wstring) : wstring :=
  concat (map (fun seg => SLASH :: seg) segs).

(** The segments of an absolute path, dot segments removed: "." is dropped,
    ".." pops the stack of what was kept, and a final dot segment leaves an
    empty segment (a trailing slash). *)
Fixpoint remove_dots (stack segs : list wstring) : list wstring :=
  match segs with
  | [] => stack
  | seg :: rest =>
      let last := match rest with [] => true | _ => false end in
      if bool_decide (seg = L ".") then
        if last then [] :: stack else remove_dots stack rest
      else if bool_decide (seg = L "..") then
        if last then [] :: tail stack else remove_dots (tail stack) rest
      else remove_dots (seg :: stack) rest
  end.

Definition absolute_path (s : wstring) : wstring :=
  render (rev (remove_dots [] (segments s))).

Definition is_dots (seg : wstring) : bool :=
  bool_decide (seg = L ".") || bool_decide (seg = L "..").

(** The whole reference.  The segments are those of the input after every
    backslash became a slash; leading dot segments of a relative path are
    dropped, and its first other segment is kept whatever follows. *)
Fixpoint clean (segs : list wstring) : wstring :=
  match segs with
  | [] => []
  | seg :: rest =>
      if bool_decide (seg = []) then
        match rest with
        | [] => []
        | _ => render (rev (remove_dots [] rest))
        end
      else if is_dots seg then clean rest
      else seg ++ match rest with
                  | [] => []
                  | _ => render (rev (remove_dots [] rest))
                  end
  end.

Definition slashed (raw : wstring) : wstring :=
  map (fun c => if c =? BACKSLASH then SLASH else c) raw.

(** ** Lemmas on the string operations *)

Lemma find_at_zero pat s : find_at pat s = Some 0%nat <-> prefixb pat s = true.
Proof.
  destruct s as [|c s]; simpl; destruct (prefixb _ _); try done.
  split; [|done]. by destruct (find_at pat s).
Qed.

Lemma begins_with_prefixb input pat : begins_with input pat = prefixb pat input.
Proof.
  unfold begins_with, find. rewrite drop_0.
  destruct (prefixb pat input) eqn:E.
  - apply bool_decide_eq_true_2. by apply find_at_zero in E as ->.
  - apply bool_decide_eq_false_2. intros H.
    destruct (find_at pat input) as [i|] eqn:F; simpl in H; simplify_eq.
    rewrite Nat.add_0_r in H. subst.
    apply find_at_zero in F. congruence.
Qed.

Lemma find_at_single c s :
  c ∉ s -> find_at [c] s = None.
Proof.
  induction s as [|a s IH]; simpl; [done|].
  rewrite not_elem_of_cons. intros [Ha Hs].
  destruct (Z.eqb_spec c a); [congruence|]. simpl. by rewrite IH.
Qed.

Lemma find_at_single_app c s t :
  c ∉ s -> find_at [c] (s ++ c :: t) = Some (length s).
Proof.
  induction s as [|a s IH]; simpl; [by rewrite Z.eqb_refl; destruct t|].
  rewrite not_elem_of_cons. intros [Ha Hs].
  destruct (Z.eqb_spec c a); [congruence|]. simpl. by rewrite IH.
Qed.

Lemma find_last_of_none s c : c ∉ s -> find_last_of s c = None.
Proof.
  induction s as [|a s IH]; simpl; [done|].
  rewrite not_elem_of_cons. intros [Ha Hs]. rewrite IH by done.
  destruct (Z.eqb_spec a c); [congruence|done].
Qed.

Lemma find_last_of_app s t c :
  c ∉ t -> find_last_of (s ++ c :: t) c = Some (length s).
Proof.
  intros Ht. induction s as [|a s IH]; simpl.
  - by rewrite find_last_of_none, Z.eqb_refl.
  - by rewrite IH.
Qed.

Lemma remove_last_segment_none s :
  SLASH ∉ s -> remove_last_segment s = s.
Proof. intros. unfold remove_last_segment. by rewrite find_last_of_none. Qed.

Lemma remove_last_segment_app s t :
  SLASH ∉ t -> remove_last_segment (s ++ SLASH :: t) = s.
Proof.
  intros. unfold remove_last_segment, substr.
  rewrite find_last_of_app, drop_0 by done. by rewrite take_app_length.
Qed.

(** Whether a segment is [q] is decided by the prefix test on the text. *)
Lemma prefixb_segment q seg rest :
  SLASH ∉ q -> SLASH ∉ seg ->
  prefixb (q ++ [SLASH]) (seg ++ SLASH :: rest) = bool_decide (q = seg).
Proof.
  revert seg. induction q as [|a q IH]; intros [|b seg]; cbn [app prefixb].
  - done.
  - rewrite not_elem_of_cons. intros _ [Hb _].
    destruct (Z.eqb_spec SLASH b); [congruence|done].
  - rewrite not_elem_of_cons. intros [Ha _] _.
    destruct (Z.eqb_spec a SLASH); [congruence|done].
  - rewrite !not_elem_of_cons. intros [Ha Hq] [Hb Hs]. rewrite IH by done.
    destruct (Z.eqb_spec a b) as [->|Hne]; cbn [andb].
    + apply bool_decide_ext. naive_solver.
    + symmetry. apply bool_decide_eq_false_2. congruence.
Qed.

Lemma prefixb_segment_last q seg :
  SLASH ∉ seg -> prefixb (q ++ [SLASH]) seg = false.
Proof.
  revert seg. induction q as [|a q IH]; intros [|b seg]; cbn [app prefixb]; try done.
  - rewrite not_elem_of_cons. intros [Hb _].
    destruct (Z.eqb_spec SLASH b); [congruence|done].
  - rewrite not_elem_of_cons. intros [_ Hs]. rewrite IH by done.
    apply andb_false_r.
Qed.

(** A string is one segment, or a segment, a slash and the rest. *)
Lemma segments_split s :
  ((SLASH ∉ s) ∧ segments s = [s]) ∨
  exists seg rest, s = seg ++ SLASH :: rest ∧ (SLASH ∉ seg) ∧
                   segments s = seg :: segments rest.
Proof.
  induction s as [|c s IH]; simpl.
  - left. split; [apply not_elem_of_nil|done].
  - destruct (Z.eqb_spec c SLASH) as [->|Hc].
    + right. exists [], s. split_and!; [done|apply not_elem_of_nil|done].
    + destruct IH as [[Hs ->]|(seg & rest & -> & Hs & ->)].
      * left. split; [|done]. rewrite not_elem_of_cons. split; congruence.
      * right. exists (c :: seg), rest. split_and!; [done| |done].
        rewrite not_elem_of_cons. split; congruence.
Qed.

Lemma segments_no_slash s : Forall (fun seg => SLASH ∉ seg) (segments s).
Proof.
  remember (length s) as n eqn:Hn. revert s Hn.
  induction n as [n IH] using lt_wf_ind; intros s ->.
  destruct (segments_split s) as [[Hs ->]|(seg & rest & -> & Hs & ->)]; [auto|].
  constructor; [done|]. eapply IH; [|done]. rewrite length_app. simpl. lia.
Qed.

(** ** One iteration, by the shape of the input *)

Lemma prefixb_dots q seg rest :
  SLASH ∉ q -> SLASH ∉ seg ->
  prefixb (SLASH :: q ++ [SLASH]) (SLASH :: seg ++ SLASH :: rest)
  = bool_decide (q = seg).
Proof. intros. cbn [prefixb]. rewrite Z.eqb_refl. by apply prefixb_segment. Qed.

Lemma prefixb_dots_last q seg :
  SLASH ∉ seg -> prefixb (SLASH :: q ++ [SLASH]) (SLASH :: seg) = false.
Proof. intros. cbn [prefixb]. rewrite Z.eqb_refl. by apply prefixb_segment_last. Qed.

Lemma not_one_segment q seg rest :
  SLASH ∉ q -> bool_decide (seg ++ SLASH :: rest = q) = false.
Proof.
  intros Hq. apply bool_decide_eq_false_2. intros <-.
  apply Hq. rewrite elem_of_app, elem_of_cons. auto.
Qed.

Lemma no_slash_dot : SLASH ∉ L ".".
Proof. by apply (bool_decide_unpack _). Qed.

Lemma no_slash_dotdot : SLASH ∉ L "..".
Proof. by apply (bool_decide_unpack _). Qed.

#[local] Hint Resolve no_slash_dot no_slash_dotdot : core.

Lemma bool_decide_cons (c : Z) (s t : wstring) :
  bool_decide (c :: s = c :: t) = bool_decide (s = t).
Proof. apply bool_decide_ext. naive_solver. Qed.

Lemma bool_decide_sym (s t : wstring) : bool_decide (s = t) = bool_decide (t = s).
Proof. by apply bool_decide_ext. Qed.

(** The tests of the loop, with the literals as segments. *)
Lemma dot_step_tests input output :
  dot_step input output =
  if prefixb (L ".." ++ [SLASH]) input then (drop 3 input, output)
  else if prefixb (L "." ++ [SLASH]) input then (drop 2 input, output)
  else if prefixb (SLASH :: L "." ++ [SLASH]) input then
    (SLASH :: drop 3 input, output)
  else if bool_decide (input = SLASH :: L ".") then
    (SLASH :: drop 2 input, output)
  else if prefixb (SLASH :: L ".." ++ [SLASH]) input then
    (SLASH :: drop 4 input, remove_last_segment output)
  else if bool_decide (input = SLASH :: L "..") then
    (SLASH :: drop 3 input, remove_last_segment output)
  else if bool_decide (input = L ".") || bool_decide (input = L "..") then
    ([], output)
  else move_segment input output.
Proof. unfold dot_step. by rewrite !begins_with_prefixb. Qed.

Lemma find_slash_at_zero s : find (SLASH :: s) (L "/") 0 = Some 0%nat.
Proof. by destruct s. Qed.

Lemma find_slash s pos :
  find s (L "/") pos = (fun i => (i + pos)%nat) <$> find_at [SLASH] (drop pos s).
Proof. done. Qed.

Lemma segment_end_abs seg rest :
  SLASH ∉ seg -> segment_end (SLASH :: seg ++ SLASH :: rest) = S (length seg).
Proof.
  intros Hs. unfold segment_end. rewrite find_slash_at_zero, find_slash.
  cbn [drop]. rewrite drop_0, find_at_single_app by done. simpl. lia.
Qed.

Lemma segment_end_abs_last seg :
  SLASH ∉ seg -> segment_end (SLASH :: seg) = S (length seg).
Proof.
  intros Hs. unfold segment_end. rewrite find_slash_at_zero, find_slash.
  cbn [drop]. by rewrite drop_0, find_at_single.
Qed.

Lemma segment_end_rel seg rest :
  SLASH ∉ seg -> seg ≠ [] -> segment_end (seg ++ SLASH :: rest) = length seg.
Proof.
  intros Hs Hne. unfold segment_end. rewrite find_slash, drop_0.
  rewrite find_at_single_app by done. destruct seg; [done|]. simpl. lia.
Qed.

Lemma segment_end_rel_last seg : SLASH ∉ seg -> segment_end seg = length seg.
Proof.
  intros Hs. unfold segment_end.
  by rewrite find_slash, drop_0, find_at_single.
Qed.

(** Both parts of the move, once the end of the segment is known. *)
Lemma move_segment_split seg rest output :
  segment_end (seg ++ rest) = length seg ->
  move_segment (seg ++ rest) output = (rest, output ++ seg).
Proof.
  intros E. unfold move_segment, substr.
  by rewrite E, drop_0, drop_app_length, take_app_length.
Qed.

Lemma move_segment_abs seg rest output :
  SLASH ∉ seg ->
  move_segment (SLASH :: seg ++ SLASH :: rest) output
  = (SLASH :: rest, output ++ SLASH :: seg).
Proof.
  intros. apply (move_segment_split (SLASH :: seg) (SLASH :: rest)).
  by apply segment_end_abs.
Qed.

Lemma move_segment_abs_last seg output :
  SLASH ∉ seg -> move_segment (SLASH :: seg) output = ([], output ++ SLASH :: seg).
Proof.
  intros. rewrite <- (app_nil_r (SLASH :: seg)) at 1.
  apply move_segment_split. rewrite app_nil_r. by apply segment_end_abs_last.
Qed.

Lemma move_segment_rel seg rest output :
  SLASH ∉ seg -> seg ≠ [] ->
  move_segment (seg ++ SLASH :: rest) output = (SLASH :: rest, output ++ seg).
Proof. intros. by apply move_segment_split, segment_end_rel. Qed.

Lemma move_segment_rel_last seg output :
  SLASH ∉ seg -> move_segment seg output = ([], output ++ seg).
Proof.
  intros. rewrite <- (app_nil_r seg) at 1.
  apply move_segment_split. rewrite app_nil_r. by apply segment_end_rel_last.
Qed.

Lemma prefixb_rel_abs q c s : c ≠ SLASH -> prefixb (c :: q) (SLASH :: s) = false.
Proof. intros. cbn [prefixb]. by destruct (Z.eqb_spec c SLASH). Qed.

Lemma dot_step_abs seg rest output :
  SLASH ∉ seg ->
  dot_step (SLASH :: seg ++ SLASH :: rest) output =
  if bool_decide (seg = L ".") then (SLASH :: rest, output)
  else if bool_decide (seg = L "..") then
    (SLASH :: rest, remove_last_segment output)
  else (SLASH :: rest, output ++ SLASH :: seg).
Proof.
  intros Hs. rewrite dot_step_tests.
  rewrite !prefixb_dots by done. rewrite !bool_decide_cons.
  rewrite !not_one_segment by done.
  change (L ".." ++ [SLASH]) with (DOT :: [DOT; SLASH]).
  change (L "." ++ [SLASH]) with (DOT :: [SLASH]).
  rewrite !prefixb_rel_abs by done.
  rewrite (bool_decide_sym (L ".")), (bool_decide_sym (L "..")).
  destruct (bool_decide_reflect (seg = L ".")) as [->|Hd]; [done|].
  destruct (bool_decide_reflect (seg = L "..")) as [->|Hdd]; [done|].
  rewrite !bool_decide_eq_false_2 by done. by rewrite move_segment_abs.
Qed.

Lemma dot_step_abs_last seg output :
  SLASH ∉ seg ->
  dot_step (SLASH :: seg) output =
  if bool_decide (seg = L ".") then ([SLASH], output)
  else if bool_decide (seg = L "..") then ([SLASH], remove_last_segment output)
  else ([], output ++ SLASH :: seg).
Proof.
  intros Hs. rewrite dot_step_tests.
  rewrite !prefixb_dots_last by done. rewrite !bool_decide_cons.
  change (L ".." ++ [SLASH]) with (DOT :: [DOT; SLASH]).
  change (L "." ++ [SLASH]) with (DOT :: [SLASH]).
  rewrite !prefixb_rel_abs by done.
  destruct (bool_decide_reflect (seg = L ".")) as [->|Hd]; [done|].
  destruct (bool_decide_reflect (seg = L "..")) as [->|Hdd]; [done|].
  rewrite !bool_decide_eq_false_2 by done. by rewrite move_segment_abs_last.
Qed.

Lemma prefixb_abs_rel q seg s :
  SLASH ∉ seg -> seg ≠ [] -> prefixb (SLASH :: q) (seg ++ s) = false.
Proof.
  destruct seg as [|c seg]; [done|]. rewrite not_elem_of_cons. intros [Hc _] _.
  cbn [app prefixb]. by destruct (Z.eqb_spec SLASH c).
Qed.

Lemma bool_decide_abs_rel q seg s :
  SLASH ∉ seg -> seg ≠ [] -> bool_decide (seg ++ s = SLASH :: q) = false.
Proof.
  destruct seg as [|c seg]; [done|]. rewrite not_elem_of_cons. intros [Hc _] _.
  apply bool_decide_eq_false_2. cbn [app]. congruence.
Qed.

Lemma dot_step_rel seg rest output :
  SLASH ∉ seg -> seg ≠ [] ->
  dot_step (seg ++ SLASH :: rest) output =
  if is_dots seg then (rest, output) else (SLASH :: rest, output ++ seg).
Proof.
  intros Hs Hne. rewrite dot_step_tests. unfold is_dots.
  rewrite !prefixb_segment by done.
  rewrite (not_one_segment (L ".")), (not_one_segment (L "..")) by done.
  rewrite !prefixb_abs_rel, !bool_decide_abs_rel by done.
  rewrite (bool_decide_sym (L ".")), (bool_decide_sym (L "..")).
  destruct (bool_decide_reflect (seg = L "..")) as [->|Hdd]; [done|].
  destruct (bool_decide_reflect (seg = L ".")) as [->|Hd]; [done|].
  cbn [orb]. by rewrite move_segment_rel.
Qed.

Lemma dot_step_rel_last seg output :
  SLASH ∉ seg -> seg ≠ [] ->
  dot_step seg output =
  if is_dots seg then ([], output) else ([], output ++ seg).
Proof.
  intros Hs Hne. rewrite dot_step_tests. unfold is_dots.
  rewrite !prefixb_segment_last by done.
  assert (Hp : forall q, prefixb (SLASH :: q) seg = false).
  { intros q. pose proof (prefixb_abs_rel q seg []) as H.
    rewrite app_nil_r in H. auto. }
  assert (Hb : forall q, bool_decide (seg = SLASH :: q) = false).
  { intros q. pose proof (bool_decide_abs_rel q seg []) as H.
    rewrite app_nil_r in H. auto. }
  rewrite !Hp, !Hb.
  destruct (bool_decide (seg = L ".") || bool_decide (seg = L ".."));
    [done|by rewrite move_segment_rel_last].
Qed.

(** ** The loop computes the reference *)

Lemma render_app l1 l2 : render (l1 ++ l2) = render l1 ++ render l2.
Proof. unfold render. by rewrite map_app, concat_app. Qed.

Lemma render_snoc l seg : render (l ++ [seg]) = render l ++ SLASH :: seg.
Proof. rewrite render_app. cbn. by rewrite app_nil_r. Qed.

(** Popping the rendered stack; a base without a slash is never popped. *)
Lemma remove_last_segment_render base stack :
  SLASH ∉ base -> Forall (fun seg => SLASH ∉ seg) stack ->
  remove_last_segment (base ++ render (rev stack))
  = base ++ render (rev (tail stack)).
Proof.
  intros Hb Hst. destruct Hst as [|seg stack Hseg _]; cbn [rev tail].
  - cbn. rewrite app_nil_r. by apply remove_last_segment_none.
  - rewrite render_snoc, app_assoc. by apply remove_last_segment_app.
Qed.

Lemma no_slash_tail (stack : list wstring) :
  Forall (fun seg => SLASH ∉ seg) stack ->
  Forall (fun seg => SLASH ∉ seg) (tail stack).
Proof. by destruct 1. Qed.

Lemma dot_loop_nil fuel output : dot_loop fuel [] output = Some output.
Proof. by destruct fuel. Qed.

Lemma dot_loop_step fuel input output :
  input ≠ [] ->
  dot_loop (S fuel) input output =
  dot_loop fuel (dot_step input output).1 (dot_step input output).2.
Proof. destruct input; [done|]. cbn [dot_loop]. by destruct (dot_step _ _). Qed.

(** The loop on an absolute path, behind a base that holds no slash. *)
Lemma dot_loop_abs fuel s base stack :
  (S (length s) <= fuel)%nat -> SLASH ∉ base ->
  Forall (fun seg => SLASH ∉ seg) stack ->
  dot_loop fuel (SLASH :: s) (base ++ render (rev stack))
  = Some (base ++ render (rev (remove_dots stack (segments s)))).
Proof.
  revert s stack. induction fuel as [|fuel IH]; intros s stack Hf Hb Hst; [lia|].
  rewrite dot_loop_step by done.
  destruct (segments_split s) as [[Hs ->]|(seg & rest & -> & Hs & ->)].
  - rewrite dot_step_abs_last by done. cbn [remove_dots].
    rewrite (remove_last_segment_render base) by done.
    assert (Hslash : forall st, Forall (fun seg => SLASH ∉ seg) st -> s ≠ [] ->
      dot_loop fuel [SLASH] (base ++ render (rev st))
      = Some (base ++ render (rev ([] :: st)))).
    { intros st Hst' Hne. destruct s; [done|]. simpl in Hf.
      rewrite (IH [] st) by (done || simpl; lia). done. }
    case_bool_decide as Hd; [apply Hslash; [done|by subst]|].
    case_bool_decide as Hdd; [apply Hslash; [by apply no_slash_tail|by subst]|].
    cbn [fst snd]. rewrite dot_loop_nil. cbn [rev].
    by rewrite render_snoc, app_assoc.
  - rewrite dot_step_abs by done. rewrite length_app in Hf. simpl in Hf.
    rewrite (remove_last_segment_render base) by done. cbn [remove_dots].
    assert (exists a b, segments rest = a :: b) as (a & b & E).
    { destruct (segments_split rest) as [[_ ->]|(?&?&_&_&->)]; eauto. }
    rewrite E. rewrite <- E.
    case_bool_decide; [|case_bool_decide]; cbn [fst snd].
    + apply IH; auto; lia.
    + apply IH; auto using no_slash_tail; lia.
    + rewrite <- (IH rest (seg :: stack)) by (auto; lia). cbn [rev].
      by rewrite render_snoc, app_assoc.
Qed.

Lemma segments_cons s : exists seg rest, segments s = seg :: rest.
Proof. destruct (segments_split s) as [[_ ->]|(?&?&_&_&->)]; eauto. Qed.

(** The loop from an empty output. *)
Lemma dot_loop_clean fuel s :
  (length s <= fuel)%nat -> dot_loop fuel s [] = Some (clean (segments s)).
Proof.
  revert s. induction fuel as [|fuel IH]; intros s Hf.
  { destruct s; [done|simpl in Hf; lia]. }
  destruct (segments_split s) as [[Hs ->]|(seg & rest & -> & Hs & ->)].
  - cbn [clean]. case_bool_decide as He; [by subst|].
    rewrite dot_loop_step, dot_step_rel_last by done.
    destruct (is_dots s); cbn [fst snd]; rewrite dot_loop_nil; [done|].
    by rewrite app_nil_r.
  - rewrite length_app in Hf. simpl in Hf. cbn [clean].
    destruct (segments_cons rest) as (a & b & E).
    case_bool_decide as He.
    + subst seg. rewrite E. rewrite <- E. cbn [app].
      apply (dot_loop_abs (S fuel) rest [] []); [lia| |done].
      apply not_elem_of_nil.
    + rewrite dot_loop_step, dot_step_rel; [|done..|by destruct seg].
      destruct (is_dots seg); cbn [fst snd]; [apply IH; lia|].
      rewrite E, <- E. cbn [app].
      rewrite <- (app_nil_r seg) at 1.
      apply (dot_loop_abs fuel rest seg []); [|done..].
      destruct seg; [done|]. simpl in Hf. lia.
Qed.

Lemma slashed_cons c s :
  slashed (c :: s) = (if c =? BACKSLASH then SLASH else c) :: slashed s.
Proof. done. Qed.

Lemma slashed_app s t : slashed (s ++ t) = slashed s ++ slashed t.
Proof. apply map_app. Qed.

Lemma replace_one pre c post r :
  replace (pre ++ c :: post) (length pre) 1 r = pre ++ r ++ post.
Proof. unfold replace. by rewrite take_app_length, <- drop_drop, drop_app_length. Qed.

Lemma replace_backslashes_app fuel pre post :
  BACKSLASH ∉ pre -> (length post <= fuel)%nat ->
  replace_backslashes fuel (pre ++ post) = Some (pre ++ slashed post).
Proof.
  revert pre fuel. induction post as [|c post IH]; intros pre fuel Hpre Hf.
  - assert (E : find pre (L "\") 0 = None).
    { unfold find. by rewrite drop_0, (find_at_single BACKSLASH). }
    rewrite app_nil_r. destruct fuel; cbn [replace_backslashes]; rewrite E;
      by rewrite app_nil_r.
  - rewrite slashed_cons. destruct (Z.eqb_spec c BACKSLASH) as [->|Hc].
    + destruct fuel as [|fuel]; [simpl in Hf; lia|]. cbn [replace_backslashes].
      assert (E : find (pre ++ BACKSLASH :: post) (L "\") 0 = Some (length pre)).
      { unfold find. rewrite drop_0, (find_at_single_app BACKSLASH) by done.
        simpl. f_equal. lia. }
      assert (R : replace (pre ++ BACKSLASH :: post) (length pre) 1 (L "/")
                  = (pre ++ [SLASH]) ++ post).
      { by rewrite replace_one, app_assoc. }
      rewrite E, R. rewrite (cons_middle SLASH pre (slashed post)), app_assoc.
      apply IH; [|simpl in Hf; lia].
      rewrite elem_of_app, elem_of_cons, elem_of_nil. intuition lia.
    + rewrite (cons_middle c pre post), (cons_middle c pre (slashed post)), !app_assoc.
      apply IH; [|simpl in Hf; lia].
      rewrite elem_of_app, elem_of_cons, elem_of_nil. intuition congruence.
Qed.

Lemma length_slashed s : length (slashed s) = length s.
Proof. apply length_map. Qed.

(** ** What the reference leaves *)

(** A segment that [remove_dots] may leave. *)
Definition safe (seg : wstring) : Prop :=
  is_dots seg = false ∧ (SLASH ∉ seg) ∧ (BACKSLASH ∉ seg).

Definition plain (seg : wstring) : Prop := (SLASH ∉ seg) ∧ (BACKSLASH ∉ seg).

Lemma safe_nil : safe [].
Proof. split_and!; [done|apply not_elem_of_nil..]. Qed.

Lemma safe_of_plain seg :
  plain seg -> bool_decide (seg = L ".") = false ->
  bool_decide (seg = L "..") = false -> safe seg.
Proof. intros [??] H1 H2. split_and!; [unfold is_dots; by rewrite H1, H2|done..]. Qed.

Lemma safe_tail stack : Forall safe stack -> Forall safe (tail stack).
Proof. by destruct 1. Qed.

#[local] Hint Resolve safe_nil safe_tail safe_of_plain : core.

Lemma remove_dots_safe stack segs :
  Forall plain segs -> Forall safe stack -> Forall safe (remove_dots stack segs).
Proof.
  intros Hs. revert stack. induction Hs as [|seg rest Hseg Hrest IH]; intros stack Hst;
    cbn [remove_dots]; [done|].
  destruct (bool_decide (seg = L ".")) eqn:E1; [destruct rest; auto|].
  destruct (bool_decide (seg = L "..")) eqn:E2; [destruct rest; auto|]. auto.
Qed.

(** Without dot segments there is nothing to remove. *)
Lemma remove_dots_id stack segs :
  Forall safe segs -> remove_dots stack segs = rev segs ++ stack.
Proof.
  intros Hs. revert stack. induction Hs as [|seg rest [Hd _] Hrest IH]; intros stack;
    cbn [remove_dots rev]; [done|].
  unfold is_dots in Hd. apply orb_false_iff in Hd as [-> ->].
  by rewrite IH, <- app_assoc.
Qed.

Lemma plain_segments s : BACKSLASH ∉ s -> Forall plain (segments s).
Proof.
  remember (length s) as n eqn:Hn. revert s Hn.
  induction n as [n IH] using lt_wf_ind; intros s -> Hb.
  destruct (segments_split s) as [[Hs ->]|(seg & rest & -> & Hs & ->)].
  - repeat constructor; done.
  - rewrite elem_of_app, elem_of_cons in Hb. constructor; [split; naive_solver|].
    eapply IH; [|done|naive_solver]. rewrite length_app. simpl. lia.
Qed.

Lemma slashed_no_backslash s : BACKSLASH ∉ slashed s.
Proof.
  unfold slashed. rewrite list_elem_of_In, in_map_iff.
  intros (c & Hc & _). destruct (Z.eqb_spec c BACKSLASH); congruence.
Qed.

Lemma slashed_id s : BACKSLASH ∉ s -> slashed s = s.
Proof.
  induction s as [|c s IH]; [done|]. rewrite not_elem_of_cons. intros [Hc Hs].
  rewrite slashed_cons, IH by done. by destruct (Z.eqb_spec c BACKSLASH).
Qed.

(** What [clean] returns: one segment and then rendered segments, all safe. *)
Lemma clean_shape segs :
  Forall plain segs ->
  exists s0 l, clean segs = s0 ++ render l ∧ safe s0 ∧ Forall safe l.
Proof.
  intros Hs. induction Hs as [|seg rest Hseg Hrest IH]; cbn [clean].
  { exists [], []. auto. }
  assert (Hl : Forall safe (rev (remove_dots [] rest))).
  { apply Forall_rev. by apply remove_dots_safe. }
  case_bool_decide as He.
  - destruct rest as [|r rest]; [exists [], []; auto|].
    exists [], (rev (remove_dots [] (r :: rest))). auto.
  - destruct (is_dots seg) eqn:Ed; [done|].
    apply orb_false_iff in Ed as [E1 E2].
    destruct rest as [|r rest]; [exists seg, []|
      exists seg, (rev (remove_dots [] (r :: rest)))]; split_and!; auto.
Qed.

Lemma segments_one s : SLASH ∉ s -> segments s = [s].
Proof.
  destruct (segments_split s) as [[_ ->]|(seg & rest & -> & _ & _)]; [done|].
  rewrite elem_of_app, elem_of_cons. naive_solver.
Qed.

Lemma segments_app s t : segments (s ++ SLASH :: t) = segments s ++ segments t.
Proof.
  induction s as [|c s IH]; [done|]. cbn [app segments].
  destruct (c =? SLASH); rewrite IH; [done|].
  destruct (segments_cons s) as (a & b & ->). done.
Qed.

Lemma segments_render s0 l :
  SLASH ∉ s0 -> Forall (fun seg => SLASH ∉ seg) l ->
  segments (s0 ++ render l) = s0 :: l.
Proof.
  intros Hs0 Hl. induction l as [|seg l IH] using rev_ind.
  - cbn. rewrite app_nil_r. by apply segments_one.
  - apply Forall_app in Hl as [Hl [Hseg _]%Forall_cons].
    rewrite render_snoc, app_assoc, segments_app, IH by done.
    by rewrite segments_one.
Qed.

Lemma safe_no_slash l : Forall safe l -> Forall (fun seg => SLASH ∉ seg) l.
Proof. intros H. eapply Forall_impl; [exact H|]. by intros seg (_ & ? & _). Qed.

Lemma render_no_backslash l : Forall safe l -> BACKSLASH ∉ render l.
Proof.
  induction 1 as [|seg l (_ & _ & Hb) _ IH]; cbn; [apply not_elem_of_nil|].
  rewrite elem_of_cons, elem_of_app. intuition congruence.
Qed.

Lemma clean_safe segs :
  Forall plain segs -> Forall safe (segments (clean segs)).
Proof.
  intros Hs. destruct (clean_shape segs Hs) as (s0 & l & -> & H0 & Hl).
  rewrite segments_render; [by constructor|by destruct H0 as (_ & ? & _)|].
  by apply safe_no_slash.
Qed.

Lemma clean_id segs s0 l :
  segs = s0 :: l -> Forall safe segs -> clean segs = s0 ++ render l.
Proof.
  intros -> Hs. apply Forall_cons in Hs as [(Hd & _) Hl]. cbn [clean].
  rewrite remove_dots_id, app_nil_r, rev_involutive by done.
  case_bool_decide as He; [subst; by destruct l|]. rewrite Hd. by destruct l.
Qed.

(** ** [get_relative_file_path] *)

(** [operator/] of [std::experimental::filesystem::path] on Windows: the right
    side is appended behind a separator, unless one is there already or the
    left side is empty. *)
Definition is_separator (c : Z) : bool := (c =? SLASH) || (c =? BACKSLASH).

Definition path_append (p q : wstring) : wstring :=
  match q with
  | [] => p
  | c :: _ =>
      match list.last p with
      | None => q
      | Some d =>
          if is_separator c || is_separator d then p ++ q
          else p ++ BACKSLASH :: q
      end
  end.

Record paths_state := {
  fs_directory : wstring;
  cached_paths : gmap wstring wstring;
}.

Definition get_relative_file_path (raw_input : wstring) : M paths_state wstring :=
  st ← get;
  match cached_paths st !! raw_input with
  | Some path => mret path
  | None =>
      match relative_path raw_input with
      | None => crash "the loop does not end"
      | Some output =>
          let path := path_append (fs_directory st) output in
          _ ← put {| fs_directory := fs_directory st;
                     cached_paths := <[raw_input := path]> (cached_paths st) |};
          mret path
      end
  end.

(** Every entry of the cache is what the function would compute. *)
Definition cache_coherent (st : paths_state) : Prop :=
  map_Forall (fun raw path =>
    path = path_append (fs_directory st) (clean (segments (slashed raw))))
    (cached_paths st).

(** The directory a path denotes when it is walked from the left: an empty
    segment and "." stay, ".." goes up, any other segment goes down. *)
Definition walk (stack : list wstring) (seg : wstring) : list wstring :=
  if bool_decide (seg = []) || bool_decide (seg = L ".") then stack
  else if bool_decide (seg = L "..") then tail stack
  else seg :: stack.

Definition resolve (path : wstring) : list wstring :=
  fold_left walk (segments (slashed path)) [].

Lemma walk_safe stack seg :
  safe seg -> exists suffix, walk stack seg = suffix ++ stack.
Proof.
  intros (Hd & _). unfold is_dots in Hd. apply orb_false_iff in Hd as [E1 E2].
  unfold walk. rewrite E1, E2. destruct (bool_decide (seg = [])).
  - by exists [].
  - by exists [seg].
Qed.

Lemma fold_walk_safe segs stack :
  Forall safe segs -> exists suffix, fold_left walk segs stack = suffix ++ stack.
Proof.
  intros Hs. revert stack. induction Hs as [|seg segs Hseg _ IH]; intros stack; simpl.
  - by exists [].
  - destruct (walk_safe stack seg Hseg) as [s1 ->].
    destruct (IH (s1 ++ stack)) as [s2 ->]. exists (s2 ++ s1). by rewrite app_assoc.
Qed.

(** Behind a directory, a text with only safe segments resolves below it. *)
Lemma resolve_app_safe dir sep q :
  is_separator sep = true -> BACKSLASH ∉ q -> Forall safe (segments q) ->
  exists suffix, resolve (dir ++ sep :: q) = suffix ++ resolve dir.
Proof.
  intros Hsep Hb Hq. unfold resolve.
  rewrite slashed_app, slashed_cons.
  replace (if sep =? BACKSLASH then SLASH else sep) with SLASH.
  2: { unfold is_separator in Hsep. apply orb_true_iff in Hsep as [->%Z.eqb_eq| ->%Z.eqb_eq]; done. }
  rewrite segments_app, fold_left_app.
  rewrite (slashed_id q) by done. by apply fold_walk_safe.
Qed.

Lemma resolve_sep_end dir sep :
  is_separator sep = true -> resolve (dir ++ [sep]) = resolve dir.
Proof.
  intros Hsep. unfold resolve. rewrite slashed_app, slashed_cons.
  replace (if sep =? BACKSLASH then SLASH else sep) with SLASH.
  2: { unfold is_separator in Hsep. apply orb_true_iff in Hsep as [->%Z.eqb_eq| ->%Z.eqb_eq]; done. }
  by rewrite segments_app, fold_left_app.
Qed.

Lemma last_snoc_inv {A} (l : list A) d : list.last l = Some d -> exists l', l = l' ++ [d].
Proof. intros H. apply last_Some in H. naive_solver. Qed.

Lemma resolve_path_append dir q :
  BACKSLASH ∉ q -> Forall safe (segments q) ->
  exists suffix, resolve (path_append dir q) = suffix ++ resolve dir.
Proof.
  intros Hb Hq. destruct q as [|c q]; [by exists []|]. cbn [path_append].
  destruct (list.last dir) as [d|] eqn:El.
  2: { apply last_None in El as ->. exists (resolve (c :: q)). by rewrite app_nil_r. }
  destruct (is_separator c) eqn:Ec; cbn [orb].
  - apply resolve_app_safe; [done|rewrite not_elem_of_cons in Hb; naive_solver|].
    rewrite not_elem_of_cons in Hb. cbn [segments] in Hq.
    unfold is_separator in Ec. apply orb_true_iff in Ec as [E|E%Z.eqb_eq]; [|intuition congruence].
    rewrite E in Hq. by apply Forall_cons in Hq as [_ ?].
  - destruct (is_separator d) eqn:Ed; [|by apply resolve_app_safe].
    apply last_snoc_inv in El as [dir' ->]. rewrite <- app_assoc, resolve_sep_end by done.
    by apply resolve_app_safe.
Qed.

Lemma relative_path_clean raw :
  relative_path raw = Some (clean (segments (slashed raw))).
Proof.
  unfold relative_path.
  rewrite (replace_backslashes_app _ [] raw) by (apply not_elem_of_nil || done).
  cbn [app mbind option_bind]. by apply dot_loop_clean.
Qed.

Lemma relative_no_backslash raw : BACKSLASH ∉ clean (segments (slashed raw)).
Proof.
  destruct (clean_shape (segments (slashed raw))) as (s0 & l & -> & (_ & _ & H0) & Hl).
  { apply plain_segments, slashed_no_backslash. }
  rewrite elem_of_app. intros [?|?%render_no_backslash]; done.
Qed.

Lemma relative_safe raw : Forall safe (segments (clean (segments (slashed raw)))).
Proof. apply clean_safe, plain_segments, slashed_no_backslash. Qed.

Lemma get_relative_file_path_eq raw st :
  cache_coherent st ->
  exists st',
    get_relative_file_path raw st
      = (Ok (path_append (fs_directory st) (clean (segments (slashed raw)))), st') ∧
    fs_directory st' = fs_directory st ∧ cache_coherent st' ∧
    cached_paths st' !! raw
      = Some (path_append (fs_directory st) (clean (segments (slashed raw)))).
Proof.
  intros Hc. unfold get_relative_file_path. run_M.
  destruct (cached_paths st !! raw) as [path|] eqn:E.
  - exists st. pose proof (Hc _ _ E) as ->. auto.
  - rewrite relative_path_clean. run_M. eexists. split_and!; [done|done| |].
    + unfold cache_coherent. simpl. by apply map_Forall_insert_2.
    + apply lookup_insert_eq.
Qed.

Lemma plain_cons c s : plain (c :: s) <-> is_separator c = false ∧ plain s.
Proof.
  unfold plain, is_separator. rewrite !not_elem_of_cons, orb_false_iff, !Z.eqb_neq.
  intuition congruence.
Qed.

Lemma plain_app s t : plain (s ++ t) <-> plain s ∧ plain t.
Proof. unfold plain. rewrite !not_elem_of_app. tauto. Qed.

Lemma plain_nil : plain [].
Proof. split; apply not_elem_of_nil. Qed.

Lemma resolve_sep dir sep q :
  is_separator sep = true -> plain q -> resolve (dir ++ sep :: q) = walk (resolve dir) q.
Proof.
  intros Hsep [Hs Hb]. unfold resolve. rewrite slashed_app, slashed_cons.
  replace (if sep =? BACKSLASH then SLASH else sep) with SLASH.
  2: { unfold is_separator in Hsep. apply orb_true_iff in Hsep as [->%Z.eqb_eq| ->%Z.eqb_eq]; done. }
  by rewrite segments_app, fold_left_app, slashed_id, segments_one.
Qed.

Lemma resolve_append_plain dir q :
  dir ≠ [] -> plain q -> resolve (path_append dir q) = walk (resolve dir) q.
Proof.
  intros Hd Hq. destruct q as [|c q]; [done|]. unfold path_append.
  destruct (list.last dir) as [d|] eqn:El; [|by apply last_None in El].
  destruct (proj1 (plain_cons c q) Hq) as [-> _]. cbn [orb].
  destruct (is_separator d) eqn:Ed; [|by apply resolve_sep].
  apply last_snoc_inv in El as [dir' ->]. rewrite <- app_assoc, resolve_sep_end by done.
  by apply resolve_sep.
Qed.

Lemma resolve_append_root dir : dir ≠ [] -> resolve (path_append dir [BACKSLASH]) = resolve dir.
Proof.
  intros Hd. unfold path_append. destruct (list.last dir) eqn:El; [|by apply last_None in El].
  cbn [orb is_separator]. by apply resolve_sep_end.
Qed.

(** ** The properties *)

(** C1 (functional, termination).  For every input the two loops of
    [get_relative_file_path] end, and the output buffer is the reference:
    backslashes become slashes, and the dot segments are removed segment by
    segment with a stack. *)
Theorem relative_path_spec raw :
  relative_path raw = Some (clean (segments (slashed raw))).
Proof. apply relative_path_clean. Qed.

(** (safety).  The relative path a script can make the module use has no
    segment "." or ".." and no backslash, whatever the script passes. *)
Theorem relative_path_no_dots raw :
  exists output, relative_path raw = Some output ∧ (BACKSLASH ∉ output) ∧
    Forall (fun seg => seg ≠ L "." ∧ seg ≠ L "..") (segments output).
Proof.
  exists (clean (segments (slashed raw))).
  split_and!; [apply relative_path_clean|apply relative_no_backslash|].
  eapply Forall_impl; [apply relative_safe|]. intros seg (Hd & _).
  unfold is_dots in Hd. apply orb_false_iff in Hd as [H1%bool_decide_eq_false H2%bool_decide_eq_false].
  done.
Qed.

(** C2 (safety).  From a coherent cache, [get_relative_file_path] returns a
    path that resolves at or below [fs_directory], and the cache stays
    coherent. *)
Theorem get_relative_file_path_contained raw st :
  cache_coherent st ->
  exists path st' suffix,
    get_relative_file_path raw st = (Ok path, st') ∧
    cache_coherent st' ∧ fs_directory st' = fs_directory st ∧
    resolve path = suffix ++ resolve (fs_directory st).
Proof.
  intros Hc. destruct (get_relative_file_path_eq raw st Hc) as (st' & E & Hd & Hc' & _).
  destruct (resolve_path_append (fs_directory st) (clean (segments (slashed raw))))
    as [suffix Hs]; [apply relative_no_backslash|apply relative_safe|].
  eauto 10.
Qed.

(** (invariant).  The cache is transparent: a second call with the same
    input returns the path of the first call and changes nothing, whatever
    other calls come between the two. *)
Theorem get_relative_file_path_cached raw raws st :
  cache_coherent st ->
  let run st raw := snd (get_relative_file_path raw st) in
  let st1 := fold_left run raws (run st raw) in
  get_relative_file_path raw st1 =
    (fst (get_relative_file_path raw st), st1).
Proof.
  intros Hc. cbn zeta.
  destruct (get_relative_file_path_eq raw st Hc) as (st0 & -> & Hd & Hc0 & Hk).
  cbn [fst snd].
  assert (HI : forall st2, cache_coherent st2 -> fs_directory st2 = fs_directory st ->
    cached_paths st2 !! raw = cached_paths st0 !! raw ->
    forall st3, st3 = fold_left (fun s r => snd (get_relative_file_path r s)) raws st2 ->
    cached_paths st3 !! raw = cached_paths st0 !! raw).
  { induction raws as [|r raws IH]; intros st2 H2 Hd2 Hk2 st3 ->; [done|]. simpl.
    destruct (get_relative_file_path_eq r st2 H2) as (st4 & E4 & Hd4 & H4 & Hk4).
    eapply (IH st4); [done|congruence| |by rewrite E4].
    destruct (decide (r = raw)) as [->|Hne].
    - rewrite Hk4, Hd2. congruence.
    - rewrite <- Hk2. revert E4. unfold get_relative_file_path. run_M.
      destruct (cached_paths st2 !! r); [congruence|].
      rewrite relative_path_clean. run_M. intros ?; simplify_eq. cbn [cached_paths].
      by apply lookup_insert_ne. }
  set (st1 := fold_left _ _ _).
  assert (Hk1 : cached_paths st1 !! raw = cached_paths st0 !! raw)
    by (by eapply (HI st0)).
  unfold get_relative_file_path. run_M. by rewrite Hk1, Hk.
Qed.

(** (roundtrip).  The relative path is a fixed point: a path the function
    has cleaned is not changed when it is given to the function again. *)
Theorem relative_path_idempotent raw :
  (output ← relative_path raw; relative_path output) = relative_path raw.
Proof.
  rewrite relative_path_clean. cbn [mbind option_bind]. rewrite relative_path_clean.
  rewrite slashed_id by apply relative_no_backslash.
  pose proof (relative_safe raw) as Hs.
  destruct (clean_shape (segments (slashed raw))) as (s0 & l & E & H0 & Hl).
  { apply plain_segments, slashed_no_backslash. }
  rewrite E in *. f_equal.
  rewrite (segments_render s0 l) in * by (by apply safe_no_slash || by destruct H0 as (_ & ? & _)).
  by erewrite clean_id.
Qed.

(** (functional).  On a relative path a ".." right behind the first segment
    removes nothing: the first segment stays and the rest is read as if the
    ".." were not there.  RFC 3986, which the comments of the function quote,
    removes that segment. *)
Theorem relative_path_first_segment_kept seg rest :
  safe seg -> seg ≠ [] ->
  relative_path (seg ++ L "/../" ++ rest) = relative_path (seg ++ L "/" ++ rest).
Proof.
  intros (Hd & Hs & Hb) Hne. rewrite !relative_path_clean.
  rewrite !slashed_app, (slashed_id seg) by done.
  change (slashed (L "/../")) with (SLASH :: L ".." ++ [SLASH]).
  change (slashed (L "/")) with ([SLASH] : wstring).
  cbn [app]. rewrite <- app_assoc. rewrite !segments_app. cbn [app].
  rewrite segments_app, (segments_one seg), (segments_one (L "..")) by done. cbn [app clean].
  rewrite !bool_decide_eq_false_2, Hd by done.
  destruct (segments_cons (slashed rest)) as (a & b & E). rewrite E. done.
Qed.

(** ** Witnesses *)

Definition example_state : paths_state :=
  {| fs_directory := L "C:\Users\Public\pool\filesystem"; cached_paths := ∅ |}.

Lemma get_relative_file_path_contained_witness :
  exists path st' suffix,
    get_relative_file_path (L "a/..\../b") example_state = (Ok path, st') ∧
    cache_coherent st' ∧ fs_directory st' = fs_directory example_state ∧
    resolve path = suffix ++ resolve (fs_directory example_state).
Proof. apply get_relative_file_path_contained. apply map_Forall_empty. Defined.

Lemma get_relative_file_path_cached_witness :
  let run st raw := snd (get_relative_file_path raw st) in
  let st1 := fold_left run [L "x"; L "../y"] (run example_state (L "a/../b")) in
  get_relative_file_path (L "a/../b") st1 =
    (fst (get_relative_file_path (L "a/../b") example_state), st1).
Proof. apply get_relative_file_path_cached. apply map_Forall_empty. Defined.

Lemma relative_path_first_segment_kept_witness :
  relative_path (L "a" ++ L "/../" ++ L "b") = relative_path (L "a" ++ L "/" ++ L "b").
Proof.
  apply relative_path_first_segment_kept; [|done].
  split_and!; [done|by apply (bool_decide_unpack _)..].
Defined.
