(* ===== verification/Values.v ===== *)
(** * Values: the JavaScript values a handler receives, and the v8pp
    converters it reads them with (Include/v8pp/convert.hpp, function.hpp)

    V8 itself is not part of the repository.  What the module asks of a value
    is modelled on the value types of JavaScript; V8's UTF-8 transcoding is
    the interface [V8Strings]. *)
From S2P Require Import Prelude.
From Stdlib Require Export Floats.SpecFloat.

(** ** Values *)

(** A [Uint8Array]: a view of an [ArrayBuffer] given by the bytes of the
    buffer, the offset and the length of the view. *)
Record uint8array := {
  array_buffer : bytes;
  byte_offset : nat;
  byte_length : nat;
}.

(** The bytes JavaScript sees through the view. *)
Definition view (u : uint8array) : bytes :=
  take (byte_length u) (drop (byte_offset u) (array_buffer u)).

(** A property key: a name, or an array index. *)
Inductive key :=
| KName (name : wstring)
| KIndex (i : Z).

(** A value.  An object lists the properties [GetPropertyNames] reports, in
    order; a property whose value is [None] has a getter that throws. *)
Inductive value :=
| VUndefined
| VNull
| VBoolean (b : bool)
| VNumber (f : spec_float)
| VString (s : wstring)
| VSymbol
| VFunction (id : nat)
| VUint8Array (u : uint8array)
| VPromise (id : nat)
| VObject (props : list (key * option value)).

#[export] Instance key_eq_dec : EqDecision key.
Proof. solve_decision. Defined.

(** *** Numbers *)

(** The number with the integer value [z]. *)
Definition num (z : Z) : spec_float :=
  match z with
  | Z0 => S754_zero false
  | Zpos p => S754_finite false p 0
  | Zneg p => S754_finite true p 0
  end.

Definition VInt (z : Z) : value := VNumber (num z).

Definition with_sign (s : bool) (z : Z) : Z := if s then - z else z.

(** The integer a finite number truncates to. *)
Definition sf_trunc (s : bool) (m : positive) (e : Z) : Z :=
  with_sign s (Z.shiftl (Zpos m) e).

(** [Int32Value]: ECMAScript's ToInt32 of a number. *)
Definition to_int32 (f : spec_float) : Z :=
  match f with
  | S754_finite s m e => i32 (sf_trunc s m e)
  | _ => 0
  end.

(** [IsInt32]: an integer in the 32-bit range that is not minus zero. *)
Definition is_int32_sf (f : spec_float) : bool :=
  match f with
  | S754_zero s => negb s
  | S754_finite s m e =>
      (Z.shiftl (Z.shiftl (Zpos m) e) (- e) =? Zpos m) &&
      (- 2 ^ 31 <=? sf_trunc s m e) && (sf_trunc s m e <? 2 ^ 31)
  | _ => false
  end.

(** *** Type tests of [v8::Value] *)

Definition IsString (v : value) : bool := match v with VString _ => true | _ => false end.
Definition IsNumber (v : value) : bool := match v with VNumber _ => true | _ => false end.
Definition IsBoolean (v : value) : bool := match v with VBoolean _ => true | _ => false end.
Definition IsFunction (v : value) : bool := match v with VFunction _ => true | _ => false end.
Definition IsPromise (v : value) : bool := match v with VPromise _ => true | _ => false end.
Definition IsUint8Array (v : value) : bool := match v with VUint8Array _ => true | _ => false end.
Definition IsInt32 (v : value) : bool := match v with VNumber f => is_int32_sf f | _ => false end.
Definition IsNullOrUndefined (v : value) : bool :=
  match v with VUndefined | VNull => true | _ => false end.
Definition IsObject (v : value) : bool :=
  match v with
  | VFunction _ | VUint8Array _ | VPromise _ | VObject _ => true
  | _ => false
  end.

(** [typeof]. *)
Definition TypeOf (v : value) : string :=
  match v with
  | VUndefined => "undefined"
  | VBoolean _ => "boolean"
  | VNumber _ => "number"
  | VString _ => "string"
  | VSymbol => "symbol"
  | VFunction _ => "function"
  | _ => "object"
  end.

(** ** Strings across the boundary

    [Utf8Value] is the UTF-8 text V8 makes of a JavaScript string, and
    [NewFromUtf8] the JavaScript string V8 makes of UTF-8 text. *)
Class V8Strings := {
  Utf8Value : wstring -> bytes;
  NewFromUtf8 : bytes -> wstring;
}.

(** Text that holds no lone surrogate survives the round trip through UTF-8. *)
Class V8StringsLaws `{V8Strings} := {
  well_formed : wstring -> Prop;
  NewFromUtf8_Utf8Value s : well_formed s -> NewFromUtf8 (Utf8Value s) = s;
}.

(** On ASCII text both directions are the identity. *)
Definition ascii_strings : V8Strings := {| Utf8Value := id; NewFromUtf8 := id |}.

(** Of V8: the UTF-8 text of any value ([None] when its conversion throws),
    and whether a string of that length can be made. *)
Class V8Host := {
  Utf8Value_of : value -> option bytes;
  NewExternalOneByte : bytes -> option wstring;
  (** The value of a pointer member that no constructor wrote, as a test. *)
  uninitialised : bool;
}.

(** ** Converters: [v8pp::convert<T>] *)

(** [v8pp::convert<T>] for the types the module converts to: the test
    [is_valid], the name in the error, and the conversion of a valid value. *)
Class Convert (T : Type) := {
  is_valid : value -> bool;
  type_name : string;
  from_valid : value -> T;
}.

Definition from_v8 {S} (T : Type) `{Convert T} (v : value) : M S T :=
  if is_valid v then mret (from_valid v)
  else throw (InvalidArgument type_name (TypeOf v)).

(** The overload with a default: an invalid value is replaced, not refused. *)
Definition from_v8_default (T : Type) `{Convert T} (v : value) (d : T) : T :=
  if is_valid v then from_valid v else d.

(** [std::string] and [std::wstring] are both lists here, so their converters
    are told apart by these wrappers. *)
Record utf8 := Utf8 { utf8_bytes : bytes }.
Record utf16 := Utf16 { utf16_units : wstring }.

#[export] Instance convert_string `{V8Strings} : Convert utf8 := {|
  is_valid := IsString;
  type_name := "String";
  from_valid v := match v with VString s => Utf8 (Utf8Value s) | _ => Utf8 [] end;
|}.

#[export] Instance convert_wstring : Convert utf16 := {|
  is_valid := IsString;
  type_name := "String";
  from_valid v := match v with VString s => Utf16 s | _ => Utf16 [] end;
|}.

#[export] Instance convert_bool : Convert bool := {|
  is_valid := IsBoolean;
  type_name := "Boolean";
  from_valid v := match v with VBoolean b => b | _ => false end;
|}.

(** [int]: a signed integral type of 32 bits. *)
#[export] Instance convert_int : Convert Z := {|
  is_valid := IsNumber;
  type_name := "Number";
  from_valid v := match v with VNumber f => to_int32 f | _ => 0 end;
|}.

(** [double]. *)
#[export] Instance convert_double : Convert spec_float := {|
  is_valid := IsNumber;
  type_name := "Number";
  from_valid v := match v with VNumber f => f | _ => S754_nan end;
|}.

Section conversions.
Context {S : Type} `{V8Strings}.

Definition from_v8_string (v : value) : M S bytes := x ← from_v8 utf8 v; mret (utf8_bytes x).
Definition from_v8_wstring (v : value) : M S wstring := x ← from_v8 utf16 v; mret (utf16_units x).
Definition from_v8_int (v : value) : M S Z := from_v8 Z v.
Definition from_v8_bool (v : value) : M S bool := from_v8 bool v.
Definition from_v8_double (v : value) : M S spec_float := from_v8 spec_float v.
End conversions.

(** [v8pp::to_v8]. *)
Definition to_v8_string `{V8Strings} (s : bytes) : value := VString (NewFromUtf8 s).
Definition to_v8_wstring (s : wstring) : value := VString s.
Definition to_v8_bool (b : bool) : value := VBoolean b.
Definition to_v8_int (z : Z) : value := VInt (i32 z).
Definition to_v8_unsigned (z : Z) : value := VInt (u32 z).

(** ** Handlers *)

(** [v8::FunctionCallbackInfo]: whether the internal field 0 of the receiver
    holds a pointer, and the arguments. *)
Record callback_info := {
  this_field : bool;
  argv : list value;
}.

(** [args[i]]: V8 gives undefined past the end. *)
Definition arg (args : callback_info) (i : nat) : value := default VUndefined (argv args !! i).

(** [args.Length()]. *)
Definition args_Length (args : callback_info) : Z := Z.of_nat (length (argv args)).

(** A handler returns the value it leaves in [args.GetReturnValue()]. *)
Definition handler (S : Type) : Type := callback_info -> M S value.

(** [std::exception::what]. *)
Definition what (e : exn) : string :=
  match e with
  | StdException w => w
  | InvalidArgument expected typeof =>
      ("expected " ++ expected ++ ", typeof=" ++ typeof)%string
  end.

(** What the JavaScript caller sees. *)
Inductive js_result :=
| Returned (v : value)
| Thrown (msg : string)
| Crashed (why : string).

(** [forward_function]: a C++ exception becomes a JavaScript exception with
    its message. *)
Definition forward_function {S} (f : handler S) (args : callback_info) (s : S)
  : js_result * S :=
  match f args s with
  | (Ok v, s') => (Returned v, s')
  | (Throw e, s') => (Thrown (what e), s')
  | (Crash w, s') => (Crashed w, s')
  end.

(** ** Lemmas on the converters *)

Lemma from_v8_valid {S} (T : Type) `{Convert T} v (s : S) :
  is_valid v = true -> from_v8 T v s = (Ok (from_valid v), s).
Proof. intros E. unfold from_v8. by rewrite E. Qed.

Lemma from_v8_invalid {S} (T : Type) `{Convert T} v (s : S) :
  is_valid v = false ->
  from_v8 T v s = (Throw (InvalidArgument type_name (TypeOf v)), s).
Proof. intros E. unfold from_v8. by rewrite E. Qed.

(** A converter never changes the state. *)
Lemma from_v8_state {S} (T : Type) `{Convert T} v (s : S) :
  snd (from_v8 T v s) = s.
Proof. unfold from_v8. by destruct (is_valid v). Qed.

Lemma from_v8_string_state `{V8Strings} {S} v (s : S) : snd (from_v8_string v s) = s.
Proof. unfold from_v8_string, from_v8. by destruct (is_valid v). Qed.

(** A string argument is read as its UTF-16 units, or as its UTF-8 text. *)
Lemma bind_from_v8_wstring {S A} v s (k : wstring -> M S A) st :
  v = VString s -> (from_v8_wstring v ≫= k) st = k s st.
Proof. by intros ->. Qed.

Lemma bind_from_v8_string `{V8Strings} {S A} v s (k : bytes -> M S A) st :
  v = VString s -> (from_v8_string v ≫= k) st = k (Utf8Value s) st.
Proof. by intros ->. Qed.

Lemma to_int32_num z : to_int32 (num z) = i32 z.
Proof. destruct z; unfold to_int32, num, sf_trunc; cbn [with_sign]; try rewrite Z.shiftl_0_r; done. Qed.

Lemma to_int32_range f : - 2 ^ 31 <= to_int32 f < 2 ^ 31.
Proof. destruct f; simpl; try lia. apply i32_range. Qed.

Lemma is_int32_num z : - 2 ^ 31 <= z < 2 ^ 31 -> is_int32_sf (num z) = true.
Proof.
  intros Hz. destruct z as [|p|p]; [done|..]; unfold is_int32_sf, num, sf_trunc;
    cbn [with_sign Z.opp]; rewrite !Z.shiftl_0_r; rewrite !andb_true_iff; lia.
Qed.

(** On an [IsInt32] value, ToInt32 does not wrap. *)
Lemma to_int32_exact s m e :
  is_int32_sf (S754_finite s m e) = true ->
  to_int32 (S754_finite s m e) = sf_trunc s m e.
Proof. simpl. rewrite !andb_true_iff. intros [[_ ?] ?]. apply i32_small. lia. Qed.

(** An integer argument in the range of [int] is read as it is. *)
Lemma bind_from_v8_int {S A} v z (k : Z -> M S A) st :
  v = VInt z -> - 2 ^ 31 <= z < 2 ^ 31 -> (from_v8_int v ≫= k) st = k z st.
Proof.
  intros -> Hz. unfold from_v8_int, from_v8, mbind, M_bind. cbn.
  by rewrite to_int32_num, i32_small.
Qed.

Lemma IsInt32_num z : - 2 ^ 31 <= z < 2 ^ 31 -> IsInt32 (VInt z) = true.
Proof. apply is_int32_num. Qed.
