(* ===== verification/IpcController.v ===== *)
(** * The double-buffered shared table of the IPC store: [IPC_KV_Controller]
    of Include/ipckv/ipckv.h

    The header record and every entry keep two copies of their fields and a
    bit that says which copy is current.  A transaction writes the other copy
    and [commit*] flips the bit. *)
From S2P Require Import Prelude.

Abbreviation IPCKV_DATA_SIZE := 2048.
Abbreviation IPCKV_KEY_SIZE := 260.
Abbreviation IPCKV_BIT_HIGH := 1.

(** ** Data *)

(** A C array of two elements, indexed by a [bool]. *)
Record two (A : Type) := Two { slot0 : A; slot1 : A }.
Arguments Two {A} slot0 slot1.
Arguments slot0 {A} t.
Arguments slot1 {A} t.

Definition sel {A} (b : bool) (t : two A) : A := if b then slot1 t else slot0 t.
Definition upd {A} (b : bool) (x : A) (t : two A) : two A :=
  if b then Two (slot0 t) x else Two x (slot1 t).

Inductive IPC_KV_Data_State := Empty | Deleted | Occupied.

Record IPC_KV_Data := {
  m_state : two IPC_KV_Data_State;
  m_key : two bytes;
  m_value : two bytes;
  m_size : two Z;
  d_buffer_state : Z;
}.

Record IPC_KV_Info := {
  i_buffer_state : Z;
  i_capacity : two Z;
  i_size : two Z;
  i_resize_count : two Z;
}.

(** The controller: the flags of the open transactions and the two mapped
    views ([None] is the null pointer). *)
Record IPC_KV_Controller := {
  m_has_started_info_transaction : bool;
  m_info_transaction_flags : Z;
  m_has_started_data_transaction : bool;
  m_data_transaction_flags : Z;
  m_info : option IPC_KV_Info;
  m_data : option (list IPC_KV_Data);
}.

(** [enum InfoTransaction]. *)
Abbreviation InfoNone := 0.
Abbreviation InfoResizeCount := 1.
Abbreviation InfoCapacity := 2.
Abbreviation InfoSize := 4.

(** [enum DataTransaction]. *)
Abbreviation DataNone := 0.
Abbreviation DataState := 1.
Abbreviation DataKey := 2.
Abbreviation DataValue := 4.
Abbreviation DataSize := 8.

Definition has_flag (flags flag : Z) : bool := negb (Z.land flags flag =? 0).

Abbreviation M_ := (M IPC_KV_Controller).

Definition invalid_state {A} : M_ A := raise "class is in an invalid state.".

Definition with_info_flags (started : bool) (flags : Z) (i : option IPC_KV_Info)
  (c : IPC_KV_Controller) : IPC_KV_Controller :=
  {| m_has_started_info_transaction := started;
     m_info_transaction_flags := flags;
     m_has_started_data_transaction := m_has_started_data_transaction c;
     m_data_transaction_flags := m_data_transaction_flags c;
     m_info := i;
     m_data := m_data c |}.

Definition with_data_flags (started : bool) (flags : Z)
  (d : option (list IPC_KV_Data)) (c : IPC_KV_Controller) : IPC_KV_Controller :=
  {| m_has_started_info_transaction := m_has_started_info_transaction c;
     m_info_transaction_flags := m_info_transaction_flags c;
     m_has_started_data_transaction := started;
     m_data_transaction_flags := flags;
     m_info := m_info c;
     m_data := d |}.

Definition put_info (i : IPC_KV_Info) : M_ unit :=
  modify (fun c => with_info_flags (m_has_started_info_transaction c)
                     (m_info_transaction_flags c) (Some i) c).

Definition add_info_flag (flag : Z) : M_ unit :=
  modify (fun c => with_info_flags (m_has_started_info_transaction c)
                     (Z.lor (m_info_transaction_flags c) flag) (m_info c) c).

(** ** The header record *)

(** [if (!m_info) throw ...] *)
Definition require_info : M_ IPC_KV_Info :=
  c ← get;
  match m_info c with
  | None => invalid_state
  | Some i => mret i
  end.

Definition require_info_transaction : M_ unit :=
  c ← get;
  throw_if (negb (m_has_started_info_transaction c))
    "a info transaction has not been started.".

(** [InterlockedAnd8(&m_info->m_buffer_state, IPCKV_BIT_HIGH)]: the value
    before the operation is returned, the memory keeps its lowest bit. *)
Definition InterlockedAnd8_info : M_ Z :=
  i ← require_info;
  _ ← put_info {| i_buffer_state := Z.land (i_buffer_state i) IPCKV_BIT_HIGH;
                  i_capacity := i_capacity i; i_size := i_size i;
                  i_resize_count := i_resize_count i |};
  mret (i_buffer_state i).

(** Conversion of a [char] to [bool]. *)
Definition to_bool (z : Z) : bool := negb (z =? 0).

Definition startInfoTransaction : M_ unit :=
  _ ← require_info;
  c ← get;
  _ ← throw_if (m_has_started_info_transaction c)
        "a info transaction has already been started.";
  modify (fun c => with_info_flags true InfoNone (m_info c) c).

Definition setResizeCount (resize_count : Z) : M_ unit :=
  _ ← require_info;
  _ ← require_info_transaction;
  s ← InterlockedAnd8_info;
  let buffer_state := negb (to_bool s) in
  i ← require_info;
  _ ← put_info {| i_buffer_state := i_buffer_state i;
                  i_capacity := i_capacity i; i_size := i_size i;
                  i_resize_count := upd buffer_state resize_count (i_resize_count i) |};
  add_info_flag InfoResizeCount.

Definition setCapacity (capacity : Z) : M_ unit :=
  _ ← require_info;
  _ ← require_info_transaction;
  s ← InterlockedAnd8_info;
  let buffer_state := negb (to_bool s) in
  i ← require_info;
  _ ← put_info {| i_buffer_state := i_buffer_state i;
                  i_capacity := upd buffer_state capacity (i_capacity i);
                  i_size := i_size i; i_resize_count := i_resize_count i |};
  add_info_flag InfoCapacity.

Definition setSize (size : Z) : M_ unit :=
  _ ← require_info;
  _ ← require_info_transaction;
  s ← InterlockedAnd8_info;
  let buffer_state := negb (to_bool s) in
  i ← require_info;
  _ ← put_info {| i_buffer_state := i_buffer_state i;
                  i_capacity := i_capacity i;
                  i_size := upd buffer_state size (i_size i);
                  i_resize_count := i_resize_count i |};
  add_info_flag InfoSize.

Definition getCapacity : M_ Z :=
  _ ← require_info;
  s ← InterlockedAnd8_info;
  i ← require_info;
  mret (sel (to_bool s) (i_capacity i)).

Definition getSize : M_ Z :=
  _ ← require_info;
  s ← InterlockedAnd8_info;
  i ← require_info;
  mret (sel (to_bool s) (i_size i)).

Definition getResizeCount : M_ Z :=
  _ ← require_info;
  s ← InterlockedAnd8_info;
  i ← require_info;
  mret (sel (to_bool s) (i_resize_count i)).

(** [if (!(m_info_transaction_flags & flag)) m] *)
Definition unless_info_flag (flag : Z) (m : M_ unit) : M_ unit :=
  c ← get;
  if has_flag (m_info_transaction_flags c) flag then mret () else m.

Definition commitInfo : M_ unit :=
  _ ← require_info;
  _ ← require_info_transaction;
  _ ← unless_info_flag InfoResizeCount (n ← getResizeCount; setResizeCount n);
  _ ← unless_info_flag InfoCapacity (n ← getCapacity; setCapacity n);
  _ ← unless_info_flag InfoSize (n ← getSize; setSize n);
  i ← require_info;
  _ ← put_info {| i_buffer_state := Z.lxor (i_buffer_state i) IPCKV_BIT_HIGH;
                  i_capacity := i_capacity i; i_size := i_size i;
                  i_resize_count := i_resize_count i |};
  modify (fun c => with_info_flags false (m_info_transaction_flags c) (m_info c) c).

(** ** The entries *)

Definition require_data : M_ (list IPC_KV_Data) :=
  c ← get;
  match m_data c with
  | None => invalid_state
  | Some d => mret d
  end.

(** [m_data[index]]: an index past the mapped table is an invalid access. *)
Definition entry (index : nat) : M_ IPC_KV_Data :=
  d ← require_data;
  match d !! index with
  | Some e => mret e
  | None => crash "access past the mapped table"
  end.

Definition put_entry (index : nat) (e : IPC_KV_Data) : M_ unit :=
  modify (fun c => with_data_flags (m_has_started_data_transaction c)
                     (m_data_transaction_flags c)
                     ((fun d => <[index := e]> d) <$> m_data c) c).

Definition add_data_flag (flag : Z) : M_ unit :=
  modify (fun c => with_data_flags (m_has_started_data_transaction c)
                     (Z.lor (m_data_transaction_flags c) flag) (m_data c) c).

(** [InterlockedAnd8(&m_data[index].m_buffer_state, IPCKV_BIT_HIGH)]. *)
Definition InterlockedAnd8_data (index : nat) : M_ Z :=
  e ← entry index;
  _ ← put_entry index
        {| m_state := m_state e; m_key := m_key e; m_value := m_value e;
           m_size := m_size e;
           d_buffer_state := Z.land (d_buffer_state e) IPCKV_BIT_HIGH |};
  mret (d_buffer_state e).

Definition startDataTransaction (index : nat) : M_ unit :=
  _ ← require_data;
  c ← get;
  _ ← throw_if (m_has_started_data_transaction c)
        "a data transaction has already been started.";
  modify (fun c => with_data_flags true DataNone (m_data c) c).

Definition setDataSize (index : nat) (size : Z) : M_ unit :=
  _ ← require_data;
  s ← InterlockedAnd8_data index;
  let buffer_state := negb (to_bool s) in
  e ← entry index;
  _ ← put_entry index
        {| m_state := m_state e; m_key := m_key e; m_value := m_value e;
           m_size := upd buffer_state size (m_size e);
           d_buffer_state := d_buffer_state e |};
  add_data_flag DataSize.

Definition setDataState (index : nat) (state : IPC_KV_Data_State) : M_ unit :=
  _ ← require_data;
  s ← InterlockedAnd8_data index;
  let buffer_state := negb (to_bool s) in
  e ← entry index;
  _ ← put_entry index
        {| m_state := upd buffer_state state (m_state e); m_key := m_key e;
           m_value := m_value e; m_size := m_size e;
           d_buffer_state := d_buffer_state e |};
  add_data_flag DataState.

(** [memcpy_s(dest, IPCKV_DATA_SIZE, data, size)]: a size past the
    destination calls the invalid-parameter handler; a size past the source
    reads memory that is not the caller's. *)
Definition memcpy_s (dest data : bytes) (size : Z) : M_ bytes :=
  if IPCKV_DATA_SIZE <? size then crash "memcpy_s: invalid parameter"
  else if Z.of_nat (length data) <? size then crash "memcpy_s: read past the source"
  else mret (take (Z.to_nat size) data ++ drop (Z.to_nat size) dest).

Definition setData (index : nat) (data : bytes) (size : Z) : M_ unit :=
  _ ← require_data;
  s ← InterlockedAnd8_data index;
  let buffer_state := negb (to_bool s) in
  e ← entry index;
  v ← memcpy_s (sel buffer_state (m_value e)) data size;
  _ ← put_entry index
        {| m_state := m_state e; m_key := m_key e;
           m_value := upd buffer_state v (m_value e);
           m_size := upd buffer_state size (m_size e);
           d_buffer_state := d_buffer_state e |};
  _ ← add_data_flag DataValue;
  add_data_flag DataSize.

(** [strncpy_s(dest, key, size)] on a destination of [IPCKV_KEY_SIZE] bytes:
    the first [size] bytes of the C string, and a NUL behind them. *)
Definition strncpy_s (dest key : bytes) (size : Z) : M_ bytes :=
  let copied := take (Z.to_nat size) (c_str key) in
  if IPCKV_KEY_SIZE <=? Z.of_nat (length copied)
  then crash "strncpy_s: invalid parameter"
  else mret (copied ++ 0 :: drop (S (length copied)) dest).

Definition setDataKey (index : nat) (key : bytes) (size : Z) : M_ unit :=
  _ ← require_data;
  s ← InterlockedAnd8_data index;
  let buffer_state := negb (to_bool s) in
  e ← entry index;
  k ← strncpy_s (sel buffer_state (m_key e)) key size;
  _ ← put_entry index
        {| m_state := m_state e; m_key := upd buffer_state k (m_key e);
           m_value := m_value e; m_size := m_size e;
           d_buffer_state := d_buffer_state e |};
  add_data_flag DataKey.

(** [getData] and [getDataKey] return pointers into the current copy: here,
    its contents. *)
Definition getData (index : nat) : M_ bytes :=
  _ ← require_data;
  s ← InterlockedAnd8_data index;
  e ← entry index;
  mret (sel (to_bool s) (m_value e)).

Definition getDataSize (index : nat) : M_ Z :=
  _ ← require_data;
  s ← InterlockedAnd8_data index;
  e ← entry index;
  mret (sel (to_bool s) (m_size e)).

Definition getDataState (index : nat) : M_ IPC_KV_Data_State :=
  _ ← require_data;
  s ← InterlockedAnd8_data index;
  e ← entry index;
  mret (sel (to_bool s) (m_state e)).

Definition getDataKey (index : nat) : M_ bytes :=
  _ ← require_data;
  s ← InterlockedAnd8_data index;
  e ← entry index;
  mret (sel (to_bool s) (m_key e)).

(** [strlen]: a buffer without a NUL is read past its end. *)
Definition strlen (buf : bytes) : M_ Z :=
  if bool_decide (0 ∈ buf) then mret (Z.of_nat (length (c_str buf)))
  else crash "strlen: no terminator".

Definition unless_data_flag (flag : Z) (m : M_ unit) : M_ unit :=
  c ← get;
  if has_flag (m_data_transaction_flags c) flag then mret () else m.

Definition commitData (index : nat) : M_ unit :=
  _ ← require_data;
  c ← get;
  _ ← throw_if (negb (m_has_started_data_transaction c))
        "a data transaction has not been started.";
  _ ← unless_data_flag DataSize (n ← getDataSize index; setDataSize index n);
  _ ← unless_data_flag DataState (n ← getDataState index; setDataState index n);
  _ ← unless_data_flag DataValue
        (d ← getData index; n ← getDataSize index; setData index d n);
  _ ← unless_data_flag DataKey
        (k ← getDataKey index; n ← strlen k; setDataKey index k n);
  e ← entry index;
  _ ← put_entry index
        {| m_state := m_state e; m_key := m_key e; m_value := m_value e;
           m_size := m_size e;
           d_buffer_state := Z.lxor (d_buffer_state e) IPCKV_BIT_HIGH |};
  modify (fun c => with_data_flags false (m_data_transaction_flags c) (m_data c) c).

(** ** Flags *)

Lemma has_flag_lor f g k : has_flag (Z.lor f g) k = has_flag f k || has_flag g k.
Proof.
  unfold has_flag. rewrite Z.land_lor_distr_l, <- negb_andb. f_equal.
  apply eq_true_iff_eq. rewrite andb_true_iff, !Z.eqb_eq. apply Z.lor_eq_0_iff.
Qed.

Lemma has_flag_0 k : has_flag 0 k = false.
Proof. unfold has_flag. by rewrite Z.land_0_l. Qed.

(** Decides the flag tests of an or of constants. *)
Ltac flags :=
  rewrite ?has_flag_lor, ?has_flag_0 in *;
  repeat match goal with
  | |- context [has_flag ?a ?b] =>
      let r := eval vm_compute in (has_flag a b) in
      match r with
      | true => change (has_flag a b) with true
      | false => change (has_flag a b) with false
      end
  end;
  rewrite ?orb_false_r, ?orb_true_r in *.

(** ** The abstract header: what the getters show *)

Record info_view := InfoView { v_capacity : Z; v_size : Z; v_resize_count : Z }.

Definition info_wf (i : IPC_KV_Info) : Prop := i_buffer_state i = 0 ∨ i_buffer_state i = 1.

Definition current_info (i : IPC_KV_Info) : info_view :=
  let b := to_bool (i_buffer_state i) in
  InfoView (sel b (i_capacity i)) (sel b (i_size i)) (sel b (i_resize_count i)).

(** The values a commit of the open transaction would publish. *)
Definition pending_info (flags : Z) (i : IPC_KV_Info) : info_view :=
  let b := to_bool (i_buffer_state i) in
  let pick flag (t : two Z) := sel (if has_flag flags flag then negb b else b) t in
  InfoView (pick InfoCapacity (i_capacity i)) (pick InfoSize (i_size i))
           (pick InfoResizeCount (i_resize_count i)).

Inductive info_op :=
| SetCapacity (n : Z)
| SetSize (n : Z)
| SetResizeCount (n : Z).

Definition run_info_op (op : info_op) : M_ unit :=
  match op with
  | SetCapacity n => setCapacity n
  | SetSize n => setSize n
  | SetResizeCount n => setResizeCount n
  end.

Definition apply_info_op (v : info_view) (op : info_op) : info_view :=
  match op with
  | SetCapacity n => InfoView n (v_size v) (v_resize_count v)
  | SetSize n => InfoView (v_capacity v) n (v_resize_count v)
  | SetResizeCount n => InfoView (v_capacity v) (v_size v) n
  end.

Fixpoint run_all {S} (ms : list (M S unit)) : M S unit :=
  match ms with
  | [] => mret ()
  | m :: ms' => _ ← m; run_all ms'
  end.

(** The controller is in an open header transaction with the flags [f] that
    shows [v] and would publish [p]; the rest of it is as in [c0]. *)
Definition info_transaction (c0 : IPC_KV_Controller) (f : Z) (c : IPC_KV_Controller)
  (v p : info_view) : Prop :=
  exists i, c = with_info_flags true f (Some i) c0 ∧ info_wf i ∧
    current_info i = v ∧ pending_info f i = p.

Ltac split_info_wf :=
  match goal with
  | H : info_wf ?i |- _ =>
      destruct i as [bs [cap0 cap1] [sz0 sz1] [rc0 rc1]];
      unfold info_wf in H; simpl in H; destruct H; subst
  end.

(** Runs the operations of the header on a literal record. *)
Ltac run_info := lazy -[Z.lor with_info_flags has_flag]; reflexivity.

Lemma startInfoTransaction_ok c i :
  m_info c = Some i -> m_has_started_info_transaction c = false -> info_wf i ->
  exists c', startInfoTransaction c = (Ok (), c') ∧
    info_transaction c InfoNone c' (current_info i) (current_info i).
Proof.
  intros Hi Hs Hwf. destruct c; simpl in *; subst.
  eexists. split; [reflexivity|]. exists i. split_and!; [done..|].
  unfold pending_info. by flags.
Qed.

Lemma run_info_op_ok c0 f c v p op :
  info_transaction c0 f c v p ->
  exists f' c', run_info_op op c = (Ok (), c') ∧
    info_transaction c0 f' c' v (apply_info_op p op).
Proof.
  intros (i & -> & Hwf & <- & <-).
  destruct op as [n|n|n]; split_info_wf; eexists _, _;
    (split; [run_info|]); eexists;
    (split; [reflexivity|]); (split; [by (left + right)|]); (split; [done|]);
    unfold pending_info; cbn -[has_flag Z.lor]; flags; done.
Qed.

Lemma run_info_ops_ok c0 f c v p ops :
  info_transaction c0 f c v p ->
  exists f' c', run_all (map run_info_op ops) c = (Ok (), c') ∧
    info_transaction c0 f' c' v (fold_left apply_info_op ops p).
Proof.
  revert f c p. induction ops as [|op ops IH]; intros f c p Hc; simpl; [by exists f, c|].
  destruct (run_info_op_ok c0 f c v p op Hc) as (f1 & c1 & E & H1).
  rewrite (bind_ok _ _ _ _ _ E). by eapply IH.
Qed.

(** One of the three completions of [commitInfo]: the field is written if it
    was not, and what will be published does not change. *)
Definition completes (flag : Z) (m : M_ unit) : Prop :=
  forall c0 f c v p, info_transaction c0 f c v p ->
  exists f' c', unless_info_flag flag m c = (Ok (), c') ∧
    info_transaction c0 f' c' v p ∧ has_flag f' flag = true ∧
    (forall k, has_flag f k = true -> has_flag f' k = true).

Ltac complete_info flag :=
  intros c0 f c v p (i & -> & Hwf & <- & <-);
  destruct (has_flag f flag) eqn:Ef;
  [ eexists f, _; split_and!;
      [unfold unless_info_flag; run_M; simpl; rewrite Ef; reflexivity
      |by exists i|done|done]
  | split_info_wf; (eexists (Z.lor f flag), _; split_and!;
    [ unfold unless_info_flag; run_M; simpl; rewrite Ef; run_info
    | eexists; (split; [reflexivity|]); (split; [by (left + right)|]);
      (split; [done|]); unfold pending_info; cbn -[has_flag Z.lor];
      flags; rewrite ?Ef; done
    | flags; done
    | intros k Hk; rewrite has_flag_lor, Hk; done ]) ].

Lemma complete_resize_count : completes InfoResizeCount (n ← getResizeCount; setResizeCount n).
Proof. complete_info 1. Qed.

Lemma complete_capacity : completes InfoCapacity (n ← getCapacity; setCapacity n).
Proof. complete_info 2. Qed.

Lemma complete_size : completes InfoSize (n ← getSize; setSize n).
Proof. complete_info 4. Qed.

Lemma in_transaction_required c0 f c v p :
  info_transaction c0 f c v p ->
  exists i, require_info c = (Ok i, c) ∧ require_info_transaction c = (Ok (), c).
Proof. intros (i & -> & _). exists i. split; reflexivity. Qed.

Lemma commitInfo_ok c0 f c v p :
  info_transaction c0 f c v p ->
  exists f' i', commitInfo c = (Ok (), with_info_flags false f' (Some i') c0) ∧
    info_wf i' ∧ current_info i' = p.
Proof.
  intros Hc.
  destruct (in_transaction_required _ _ _ _ _ Hc) as (i0 & R1 & R2).
  destruct (complete_resize_count _ _ _ _ _ Hc) as (f1 & c1 & E1 & H1 & F1 & _).
  destruct (complete_capacity _ _ _ _ _ H1) as (f2 & c2 & E2 & H2 & F2 & K2).
  destruct (complete_size _ _ _ _ _ H2) as (f3 & c3 & E3 & H3 & F3 & K3).
  unfold commitInfo.
  rewrite (bind_ok _ _ _ _ _ R1), (bind_ok _ _ _ _ _ R2), (bind_ok _ _ _ _ _ E1),
    (bind_ok _ _ _ _ _ E2), (bind_ok _ _ _ _ _ E3).
  destruct H3 as (i & -> & Hwf & _ & <-).
  unfold pending_info. rewrite F3, (K3 _ F2), (K3 _ (K2 _ F1)).
  split_info_wf; eexists f3, _; (split; [lazy -[with_info_flags]; reflexivity|]);
    (split; [by (left + right)|done]).
Qed.

(** ** The abstract entry *)

Record data_view := DataView {
  v_state : IPC_KV_Data_State;
  v_key : bytes;
  v_value : bytes;
}.

(** What the getters of the copy [b] show: the key as a C string and the
    bytes of the value up to the size. *)
Definition view_copy (bstate bkey bvalue : bool) (e : IPC_KV_Data) : data_view :=
  DataView (sel bstate (m_state e)) (c_str (sel bkey (m_key e)))
    (take (Z.to_nat (sel bvalue (m_size e))) (sel bvalue (m_value e))).

Definition current (e : IPC_KV_Data) : bool := to_bool (d_buffer_state e).

Definition current_data (e : IPC_KV_Data) : data_view :=
  view_copy (current e) (current e) (current e) e.

(** The copy a commit under the flags [f] would publish for a field. *)
Definition pending_copy (f flag : Z) (e : IPC_KV_Data) : bool :=
  if has_flag f flag then negb (current e) else current e.

Definition pending_data (f : Z) (e : IPC_KV_Data) : data_view :=
  view_copy (pending_copy f DataState e) (pending_copy f DataKey e)
    (pending_copy f DataValue e) e.

(** A key buffer of the right size with a terminator, a value buffer of the
    right size with a size it can hold. *)
Definition key_wf (k : bytes) : Prop := length k = Z.to_nat IPCKV_KEY_SIZE ∧ 0 ∈ k.
Definition size_wf (n : Z) : Prop := 0 <= n <= IPCKV_DATA_SIZE.

Definition data_wf_at (bkey bvalue : bool) (e : IPC_KV_Data) : Prop :=
  (d_buffer_state e = 0 ∨ d_buffer_state e = 1) ∧
  (forall b, length (sel b (m_key e)) = Z.to_nat IPCKV_KEY_SIZE) ∧
  (forall b, length (sel b (m_value e)) = Z.to_nat IPCKV_DATA_SIZE) ∧
  0 ∈ sel bkey (m_key e) ∧ size_wf (sel bvalue (m_size e)).

Definition data_wf (e : IPC_KV_Data) : Prop := data_wf_at (current e) (current e) e.

(** The operations of an entry's transaction. *)
Inductive data_op :=
| PutState (s : IPC_KV_Data_State)
| PutKey (key : bytes) (n : Z)
| PutValue (data : bytes) (n : Z)
| PutSize (n : Z).

Definition run_data_op (index : nat) (op : data_op) : M_ unit :=
  match op with
  | PutState s => setDataState index s
  | PutKey k n => setDataKey index k n
  | PutValue d n => setData index d n
  | PutSize n => setDataSize index n
  end.

(** What each operation is worth at commit.  [PutSize] is worth nothing. *)
Definition apply_data_op (v : data_view) (op : data_op) : data_view :=
  match op with
  | PutState s => DataView s (v_key v) (v_value v)
  | PutKey k n => DataView (v_state v) (take (Z.to_nat n) (c_str k)) (v_value v)
  | PutValue d n => DataView (v_state v) (v_key v) (take (Z.to_nat n) d)
  | PutSize _ => v
  end.

(** Arguments within the buffers, and no [PutSize] after a [PutValue]. *)
Fixpoint data_ops_ok (touched : bool) (ops : list data_op) : Prop :=
  match ops with
  | [] => True
  | PutState _ :: ops' => data_ops_ok touched ops'
  | PutKey k n :: ops' =>
      Z.of_nat (length (take (Z.to_nat n) (c_str k))) < IPCKV_KEY_SIZE ∧
      data_ops_ok touched ops'
  | PutValue d n :: ops' =>
      size_wf n ∧ n <= Z.of_nat (length d) ∧ data_ops_ok true ops'
  | PutSize _ :: ops' => touched = false ∧ data_ops_ok touched ops'
  end.

(** *** C strings *)

Lemma c_str_no_nul s : 0 ∉ c_str s.
Proof.
  induction s as [|c s IH]; simpl; [apply not_elem_of_nil|].
  destruct (Z.eqb_spec c 0); [apply not_elem_of_nil|].
  rewrite not_elem_of_cons. split; congruence.
Qed.

Lemma c_str_app_nul s t : 0 ∉ s -> c_str (s ++ 0 :: t) = s.
Proof.
  induction s as [|c s IH]; simpl; [done|].
  rewrite not_elem_of_cons. intros [Hc Hs].
  destruct (Z.eqb_spec c 0); [congruence|]. by rewrite IH.
Qed.

Lemma take_no_nul n s : 0 ∉ take n (c_str s).
Proof. intros H. apply (c_str_no_nul s). by apply elem_of_take in H as (?&?%list_elem_of_lookup_2&_). Qed.

Lemma c_str_length_lt s : 0 ∈ s -> (length (c_str s) < length s)%nat.
Proof.
  induction s as [|c s IH]; simpl; [by intros ?%elem_of_nil|].
  rewrite elem_of_cons. destruct (Z.eqb_spec c 0); simpl; [lia|].
  intros [?|?%IH]; [congruence|lia].
Qed.

(** ** One entry of the table *)

Section entry_transaction.
Context (c0 : IPC_KV_Controller) (d : list IPC_KV_Data) (index : nat).
Hypothesis Hindex : (index < length d)%nat.

(** The controller with the transaction flags [f] and the entry [e]. *)
Definition at_entry (started : bool) (f : Z) (e : IPC_KV_Data) : IPC_KV_Controller :=
  with_data_flags started f (Some (<[index := e]> d)) c0.

Lemma require_data_at s f e :
  require_data (at_entry s f e) = (Ok (<[index := e]> d), at_entry s f e).
Proof. reflexivity. Qed.

Lemma entry_at s f e : entry index (at_entry s f e) = (Ok e, at_entry s f e).
Proof. unfold entry. rewrite (bind_ok _ _ _ _ _ (require_data_at s f e)).
  by rewrite list_lookup_insert_eq. Qed.

Lemma put_entry_at s f e e' :
  put_entry index e' (at_entry s f e) = (Ok (), at_entry s f e').
Proof.
  unfold put_entry, modify, at_entry, with_data_flags. simpl.
  by rewrite list_insert_insert_eq.
Qed.

Lemma add_data_flag_at s f e g :
  add_data_flag g (at_entry s f e) = (Ok (), at_entry s (Z.lor f g) e).
Proof. reflexivity. Qed.

Lemma InterlockedAnd8_at s f e :
  d_buffer_state e = 0 ∨ d_buffer_state e = 1 ->
  InterlockedAnd8_data index (at_entry s f e) = (Ok (d_buffer_state e), at_entry s f e).
Proof.
  intros Hb. unfold InterlockedAnd8_data.
  rewrite (bind_ok _ _ _ _ _ (entry_at s f e)), (bind_ok _ _ _ _ _ (put_entry_at s f e _)).
  replace (Z.land (d_buffer_state e) 1) with (d_buffer_state e) by (destruct Hb as [-> | ->]; done).
  by destruct e.
Qed.

(** *** The getters *)

Ltac at_steps Hb :=
  rewrite (bind_ok _ _ _ _ _ (require_data_at _ _ _));
  rewrite (bind_ok _ _ _ _ _ (InterlockedAnd8_at _ _ _ Hb));
  rewrite (bind_ok _ _ _ _ _ (entry_at _ _ _)).

Definition bit_ok (e : IPC_KV_Data) : Prop := d_buffer_state e = 0 ∨ d_buffer_state e = 1.

Lemma getDataState_at s f e : bit_ok e ->
  getDataState index (at_entry s f e) = (Ok (sel (current e) (m_state e)), at_entry s f e).
Proof. intros Hb. unfold getDataState. by at_steps Hb. Qed.

Lemma getDataKey_at s f e : bit_ok e ->
  getDataKey index (at_entry s f e) = (Ok (sel (current e) (m_key e)), at_entry s f e).
Proof. intros Hb. unfold getDataKey. by at_steps Hb. Qed.

Lemma getData_at s f e : bit_ok e ->
  getData index (at_entry s f e) = (Ok (sel (current e) (m_value e)), at_entry s f e).
Proof. intros Hb. unfold getData. by at_steps Hb. Qed.

Lemma getDataSize_at s f e : bit_ok e ->
  getDataSize index (at_entry s f e) = (Ok (sel (current e) (m_size e)), at_entry s f e).
Proof. intros Hb. unfold getDataSize. by at_steps Hb. Qed.

(** *** The setters: the entry each leaves *)

Definition store_op (op : data_op) (e : IPC_KV_Data) : IPC_KV_Data :=
  let b := negb (current e) in
  {| m_state := match op with PutState s => upd b s (m_state e) | _ => m_state e end;
     m_key :=
       match op with
       | PutKey k n =>
           let copied := take (Z.to_nat n) (c_str k) in
           upd b (copied ++ 0 :: drop (S (length copied)) (sel b (m_key e))) (m_key e)
       | _ => m_key e
       end;
     m_value :=
       match op with
       | PutValue v n =>
           upd b (take (Z.to_nat n) v ++ drop (Z.to_nat n) (sel b (m_value e))) (m_value e)
       | _ => m_value e
       end;
     m_size :=
       match op with
       | PutValue _ n | PutSize n => upd b n (m_size e)
       | _ => m_size e
       end;
     d_buffer_state := d_buffer_state e |}.

Definition store_flags (op : data_op) (f : Z) : Z :=
  match op with
  | PutState _ => Z.lor f DataState
  | PutKey _ _ => Z.lor f DataKey
  | PutValue _ _ => Z.lor (Z.lor f DataValue) DataSize
  | PutSize _ => Z.lor f DataSize
  end.

Lemma run_data_op_at s f e op touched :
  bit_ok e -> data_ops_ok touched [op] ->
  run_data_op index op (at_entry s f e)
    = (Ok (), at_entry s (store_flags op f) (store_op op e)).
Proof.
  intros Hb Hok. destruct op as [st|k n|v n|n]; simpl in Hok; unfold run_data_op.
  - unfold setDataState. at_steps Hb. by rewrite (bind_ok _ _ _ _ _ (put_entry_at _ _ _ _)).
  - unfold setDataKey. at_steps Hb. unfold strncpy_s.
    destruct (Z.leb_spec IPCKV_KEY_SIZE
      (Z.of_nat (length (take (Z.to_nat n) (c_str k))))); [lia|].
    by rewrite bind_ret, (bind_ok _ _ _ _ _ (put_entry_at _ _ _ _)).
  - unfold setData. at_steps Hb. destruct Hok as ([Hn1 Hn2] & Hd & _). unfold memcpy_s.
    destruct (Z.ltb_spec IPCKV_DATA_SIZE n); [lia|].
    destruct (Z.ltb_spec (Z.of_nat (length v)) n); [lia|].
    rewrite bind_ret, (bind_ok _ _ _ _ _ (put_entry_at _ _ _ _)).
    by rewrite (bind_ok _ _ _ _ _ (add_data_flag_at _ _ _ _)).
  - unfold setDataSize. at_steps Hb. by rewrite (bind_ok _ _ _ _ _ (put_entry_at _ _ _ _)).
Qed.
End entry_transaction.

(** ** The transaction of an entry *)

(** The entry shows [v], a commit under the flags [f] would publish [p], and
    what it would publish fits the buffers. *)
Definition data_transaction (f : Z) (e : IPC_KV_Data) (v p : data_view) : Prop :=
  data_wf e ∧
  data_wf_at (pending_copy f DataKey e) (pending_copy f DataValue e) e ∧
  (has_flag f DataValue = true -> has_flag f DataSize = true) ∧
  current_data e = v ∧ pending_data f e = p.

Lemma current_store op e : current (store_op op e) = current e.
Proof. done. Qed.

Lemma pending_copy_store f op e flag :
  pending_copy f flag (store_op op e) = pending_copy f flag e.
Proof. done. Qed.

Lemma sel_upd {A} b b' (x : A) t : sel b (upd b' x t) = if eqb b b' then x else sel b t.
Proof. by destruct b, b'. Qed.

Lemma eqb_negb2 b : eqb b (negb b) = false.
Proof. by destruct b. Qed.

Lemma length_new_key copied old :
  Z.of_nat (length copied) < IPCKV_KEY_SIZE -> length old = Z.to_nat IPCKV_KEY_SIZE ->
  length (copied ++ 0 :: drop (S (length copied)) old) = Z.to_nat IPCKV_KEY_SIZE.
Proof. intros. rewrite length_app. cbn [length]. rewrite length_drop. lia. Qed.

Lemma length_new_value n v (old : bytes) :
  size_wf n -> n <= Z.of_nat (length v) -> length old = Z.to_nat IPCKV_DATA_SIZE ->
  length (take (Z.to_nat n) v ++ drop (Z.to_nat n) old) = Z.to_nat IPCKV_DATA_SIZE.
Proof. intros [??] ??. rewrite length_app, length_take, length_drop. lia. Qed.

Lemma take_new_value n (v old : bytes) :
  0 <= n <= Z.of_nat (length v) ->
  take (Z.to_nat n) (take (Z.to_nat n) v ++ drop (Z.to_nat n) old) = take (Z.to_nat n) v.
Proof. intros. apply take_app_length'. rewrite length_take. lia. Qed.

(** A copy of the stored entry is an old copy, except for the field the
    operation wrote in the copy that is not current. *)
Ltac store_cases :=
  unfold view_copy, store_op; cbn [m_state m_key m_value m_size d_buffer_state];
  repeat rewrite sel_upd; repeat rewrite eqb_negb2.

Lemma store_current_view op e : current_data (store_op op e) = current_data e.
Proof.
  unfold current_data. rewrite current_store. destruct op; store_cases; done.
Qed.

Lemma store_wf touched op e :
  data_wf e -> data_ops_ok touched [op] -> data_wf (store_op op e).
Proof.
  intros (Hb & Hk & Hv & Hnul & Hn) Hok. unfold data_wf. rewrite current_store.
  split_and!; [done|intros b|intros b| |]; destruct op; store_cases; try done;
    simpl in Hok; try (destruct (eqb b _); [|done]).
  - apply length_new_key; [tauto|done].
  - apply length_new_value; [tauto..|done].
Qed.

Lemma store_transaction f e v p op :
  data_transaction f e v p -> data_ops_ok (has_flag f DataValue) [op] ->
  data_transaction (store_flags op f) (store_op op e) v (apply_data_op p op).
Proof.
  intros (Hwf & (Hb & Hk & Hv & Hnul & Hn) & Hfl & <- & <-) Hok.
  pose proof (store_wf _ _ _ Hwf Hok) as Hwf'.
  pose proof Hwf' as (Hb' & Hk' & Hv' & _ & _).
  split; [done|]. rewrite store_current_view. rewrite !pending_copy_store.
  unfold pending_data, data_wf_at. rewrite !pending_copy_store.
  destruct op as [st|k n|v n|n]; simpl in Hok; unfold pending_copy, store_flags in *;
    flags; store_cases; rewrite ?eqb_reflx.
  - by split_and!.
  - rewrite c_str_app_nul by apply take_no_nul. split_and!; try done.
    rewrite elem_of_app, elem_of_cons. auto.
  - destruct Hok as (Hn' & ? & _).
    rewrite take_new_value by (destruct Hn'; lia). by split_and!.
  - destruct Hok as [Hv4 _]. rewrite Hv4, ?eqb_negb2 in *. by split_and!.
Qed.

Lemma store_flags_mono op f k : has_flag f k = true -> has_flag (store_flags op f) k = true.
Proof. intros H. destruct op; simpl; by rewrite !has_flag_lor, H. Qed.

Section commit_entry.
Context (c0 : IPC_KV_Controller) (d : list IPC_KV_Data) (index : nat).
Hypothesis Hindex : (index < length d)%nat.

Local Abbreviation at_ := (at_entry c0 d index).

(** One of the four completions of [commitData]. *)
Definition data_completes (flag : Z) (m : M_ unit) : Prop :=
  forall f e v p, data_transaction f e v p ->
  exists f' e', unless_data_flag flag m (at_ true f e) = (Ok (), at_ true f' e') ∧
    data_transaction f' e' v p ∧ has_flag f' flag = true ∧
    (forall k, has_flag f k = true -> has_flag f' k = true).

(** A completion is an operation that publishes what is there already. *)
Lemma completes_by_op flag m :
  (forall f e v p, data_transaction f e v p -> has_flag f flag = false ->
    exists op, m (at_ true f e) = run_data_op index op (at_ true f e) ∧
      data_ops_ok (has_flag f DataValue) [op] ∧ apply_data_op p op = p ∧
      has_flag (store_flags op f) flag = true) ->
  data_completes flag m.
Proof.
  intros Hm f e v p Ht. unfold unless_data_flag, get, mbind, M_bind at 1. simpl.
  destruct (has_flag f flag) eqn:Ef; [by exists f, e|].
  destruct (Hm f e v p Ht Ef) as (op & -> & Hok & Hp & Hf).
  exists (store_flags op f), (store_op op e). split_and!.
  - destruct Ht as ((Hb & _) & _).
    by rewrite (run_data_op_at c0 d index Hindex _ _ _ _ _ Hb Hok).
  - rewrite <- Hp. by apply store_transaction.
  - done.
  - intros k. apply store_flags_mono.
Qed.

Lemma complete_data_size :
  data_completes DataSize (n ← getDataSize index; setDataSize index n).
Proof.
  apply completes_by_op. intros f e v p ((Hb & _) & _ & Hfl & _ & Hp) Ef.
  exists (PutSize (sel (current e) (m_size e))). split_and!.
  - by rewrite (bind_ok _ _ _ _ _ (getDataSize_at _ _ _ Hindex _ _ _ Hb)).
  - split; [|done]. destruct (has_flag f DataValue); [|done].
    rewrite Hfl in Ef by done. done.
  - done.
  - simpl. by flags.
Qed.

Lemma complete_data_state :
  data_completes DataState (n ← getDataState index; setDataState index n).
Proof.
  apply completes_by_op. intros f e v p ((Hb & _) & _ & _ & _ & Hp) Ef.
  exists (PutState (sel (current e) (m_state e))). split_and!; [|done| |].
  - by rewrite (bind_ok _ _ _ _ _ (getDataState_at _ _ _ Hindex _ _ _ Hb)).
  - subst p. unfold pending_data, view_copy, pending_copy. rewrite Ef. done.
  - simpl. by flags.
Qed.

Lemma complete_data_value :
  data_completes DataValue
    (d ← getData index; n ← getDataSize index; setData index d n).
Proof.
  apply completes_by_op. intros f e v p ((Hb & _ & Hv & _ & Hn) & _ & _ & _ & Hp) Ef.
  exists (PutValue (sel (current e) (m_value e)) (sel (current e) (m_size e))).
  split_and!.
  - by rewrite (bind_ok _ _ _ _ _ (getData_at _ _ _ Hindex _ _ _ Hb)),
      (bind_ok _ _ _ _ _ (getDataSize_at _ _ _ Hindex _ _ _ Hb)).
  - split; [done|]. split; [|done]. rewrite Hv. destruct Hn. lia.
  - subst p. unfold pending_data, view_copy, pending_copy. rewrite Ef. done.
  - simpl. by flags.
Qed.

Lemma complete_data_key :
  data_completes DataKey
    (k ← getDataKey index; n ← strlen k; setDataKey index k n).
Proof.
  apply completes_by_op. intros f e v p ((Hb & Hk & _ & Hnul & _) & _ & _ & _ & Hp) Ef.
  set (k := sel (current e) (m_key e)) in *.
  exists (PutKey k (Z.of_nat (length (c_str k)))). split_and!.
  - rewrite (bind_ok _ _ _ _ _ (getDataKey_at _ _ _ Hindex _ _ _ Hb)).
    unfold strlen. rewrite bool_decide_eq_true_2 by done. by rewrite bind_ret.
  - split; [|done]. rewrite Nat2Z.id, firstn_all.
    pose proof (c_str_length_lt _ Hnul) as Hl. unfold k in *. rewrite Hk in Hl. lia.
  - subst p. unfold pending_data, view_copy, pending_copy. rewrite Ef.
    cbn [apply_data_op v_state v_value]. by rewrite Nat2Z.id, firstn_all.
  - simpl. by flags.
Qed.

Definition flip (e : IPC_KV_Data) : IPC_KV_Data :=
  {| m_state := m_state e; m_key := m_key e; m_value := m_value e; m_size := m_size e;
     d_buffer_state := Z.lxor (d_buffer_state e) IPCKV_BIT_HIGH |}.

Lemma current_flip e : bit_ok e -> current (flip e) = negb (current e) ∧ bit_ok (flip e).
Proof. unfold bit_ok, current, flip; simpl. intros [-> | ->]; auto. Qed.

Lemma commitData_ok f e v p :
  data_transaction f e v p ->
  exists f' e', commitData index (at_ true f e) = (Ok (), at_ false f' e') ∧
    data_wf e' ∧ current_data e' = p.
Proof.
  intros Ht.
  destruct (complete_data_size _ _ _ _ Ht) as (f1 & e1 & E1 & H1 & F1 & _).
  destruct (complete_data_state _ _ _ _ H1) as (f2 & e2 & E2 & H2 & F2 & K2).
  destruct (complete_data_value _ _ _ _ H2) as (f3 & e3 & E3 & H3 & F3 & K3).
  destruct (complete_data_key _ _ _ _ H3) as (f4 & e4 & E4 & H4 & F4 & K4).
  pose proof (K4 _ F3) as F3'. pose proof (K4 _ (K3 _ F2)) as F2'.
  exists f4, (flip e4). destruct H4 as ((Hb & Hk & Hv & _) & (_ & _ & _ & Hnul & Hn) & _ & _ & <-).
  destruct (current_flip e4 Hb) as [Hc Hb'].
  unfold pending_data, pending_copy in *. rewrite F2', F3', F4 in *.
  split_and!.
  - unfold commitData. rewrite (bind_ok _ _ _ _ _ (require_data_at _ _ _ _ _ _)).
    rewrite bind_get, bind_throw_if by done.
    rewrite (bind_ok _ _ _ _ _ E1), (bind_ok _ _ _ _ _ E2), (bind_ok _ _ _ _ _ E3),
      (bind_ok _ _ _ _ _ E4).
    rewrite (bind_ok _ _ _ _ _ (entry_at _ _ _ Hindex _ _ _)).
    by rewrite (bind_ok _ _ _ _ _ (put_entry_at _ _ _ _ _ _ _)).
  - unfold data_wf, data_wf_at. rewrite Hc. done.
  - unfold current_data. rewrite Hc. done.
Qed.

Lemma run_data_ops_ok f e v p ops :
  data_transaction f e v p -> data_ops_ok (has_flag f DataValue) ops ->
  exists f' e', run_all (map (run_data_op index) ops) (at_ true f e)
      = (Ok (), at_ true f' e') ∧
    data_transaction f' e' v (fold_left apply_data_op ops p).
Proof.
  revert f e p. induction ops as [|op ops IH]; intros f e p Ht Hok; simpl; [by exists f, e|].
  assert (data_ops_ok (has_flag f DataValue) [op] ∧
          data_ops_ok (has_flag (store_flags op f) DataValue) ops) as [H1 H2].
  { destruct op; simpl in *; flags; tauto. }
  pose proof Ht as ((Hb & _) & _).
  rewrite (bind_ok _ _ _ _ _ (run_data_op_at c0 d index Hindex _ _ _ _ _ Hb H1)).
  apply IH; [by apply store_transaction|done].
Qed.
End commit_entry.

Lemma fold_PutSize v ns : fold_left apply_data_op (map PutSize ns) v = v.
Proof. induction ns; simpl; auto. Qed.

(** The size the getter shows is the length of the value it shows. *)
Lemma current_size e :
  data_wf e -> sel (current e) (m_size e) = Z.of_nat (length (v_value (current_data e))).
Proof.
  intros (_ & _ & Hv & _ & [??]). unfold current_data, view_copy. cbn [v_value].
  rewrite length_take, Hv. lia.
Qed.

Lemma startDataTransaction_ok c d index e :
  m_data c = Some d -> m_has_started_data_transaction c = false ->
  d !! index = Some e -> data_wf e ->
  startDataTransaction index c = (Ok (), at_entry c d index true DataNone e) ∧
  data_transaction DataNone e (current_data e) (current_data e).
Proof.
  intros Hd Hs He Hwf. split.
  - unfold startDataTransaction, at_entry. rewrite list_insert_id by done.
    destruct c; simpl in *; subst. reflexivity.
  - unfold data_transaction, pending_data, pending_copy. flags. by split_and!.
Qed.

(** ** The properties *)

(** (refinement).  A header transaction implements the update of an
    abstract record: after [startInfoTransaction], any setters and
    [commitInfo], the header shows the old values changed by the setters, in
    order, and a field no setter named keeps its value. *)
Theorem info_transaction_commits c i ops :
  m_info c = Some i -> info_wf i -> m_has_started_info_transaction c = false ->
  exists c' i',
    (_ ← startInfoTransaction; _ ← run_all (map run_info_op ops); commitInfo) c
      = (Ok (), c') ∧
    m_info c' = Some i' ∧ info_wf i' ∧ m_has_started_info_transaction c' = false ∧
    m_data c' = m_data c ∧
    current_info i' = fold_left apply_info_op ops (current_info i).
Proof.
  intros Hi Hwf Hs.
  destruct (startInfoTransaction_ok c i Hi Hs Hwf) as (c1 & E1 & H1).
  destruct (run_info_ops_ok _ _ _ _ _ ops H1) as (f2 & c2 & E2 & H2).
  destruct (commitInfo_ok _ _ _ _ _ H2) as (f3 & i3 & E3 & Hwf3 & Hv3).
  eexists _, i3. rewrite (bind_ok _ _ _ _ _ E1), (bind_ok _ _ _ _ _ E2), E3. done.
Qed.

(** (safety).  Until the commit, a reader sees the old header: whatever
    setters ran in the open transaction, the getters return what they returned
    before it. *)
Theorem info_transaction_invisible c i ops :
  m_info c = Some i -> info_wf i -> m_has_started_info_transaction c = false ->
  exists c',
    (_ ← startInfoTransaction; run_all (map run_info_op ops)) c = (Ok (), c') ∧
    fst (getCapacity c') = Ok (v_capacity (current_info i)) ∧
    fst (getSize c') = Ok (v_size (current_info i)) ∧
    fst (getResizeCount c') = Ok (v_resize_count (current_info i)).
Proof.
  intros Hi Hwf Hs.
  destruct (startInfoTransaction_ok c i Hi Hs Hwf) as (c1 & E1 & H1).
  destruct (run_info_ops_ok _ _ _ _ _ ops H1) as (f2 & c2 & E2 & H2).
  exists c2. rewrite (bind_ok _ _ _ _ _ E1), E2.
  destruct H2 as (i2 & -> & Hwf2 & <- & _). by split_info_wf.
Qed.

(** C13 (refinement).  An entry's transaction implements the update of an
    abstract entry: after [startDataTransaction], setters with arguments that
    fit the buffers and [commitData], the entry shows the old fields changed
    by the setters, the other entries are untouched, and the entry is
    well-formed again. *)
Theorem data_transaction_commits c d index e ops :
  m_data c = Some d -> m_has_started_data_transaction c = false ->
  d !! index = Some e -> data_wf e -> data_ops_ok false ops ->
  exists c' e',
    (_ ← startDataTransaction index; _ ← run_all (map (run_data_op index) ops);
     commitData index) c = (Ok (), c') ∧
    m_data c' = Some (<[index := e']> d) ∧ data_wf e' ∧
    m_has_started_data_transaction c' = false ∧ m_info c' = m_info c ∧
    current_data e' = fold_left apply_data_op ops (current_data e).
Proof.
  intros Hd Hs He Hwf Hok. pose proof (lookup_lt_Some _ _ _ He) as Hlt.
  destruct (startDataTransaction_ok c d index e Hd Hs He Hwf) as [E1 H1].
  destruct (run_data_ops_ok c d index Hlt _ _ _ _ ops H1) as (f2 & e2 & E2 & H2);
    [by flags|].
  destruct (commitData_ok c d index Hlt _ _ _ _ H2) as (f3 & e3 & E3 & Hwf3 & Hv3).
  eexists _, e3. rewrite (bind_ok _ _ _ _ _ E1), (bind_ok _ _ _ _ _ E2), E3. done.
Qed.

(** (safety).  Until the commit, a reader of an entry sees its old state,
    key and value. *)
Theorem data_transaction_invisible c d index e ops :
  m_data c = Some d -> m_has_started_data_transaction c = false ->
  d !! index = Some e -> data_wf e -> data_ops_ok false ops ->
  exists c' e',
    (_ ← startDataTransaction index; run_all (map (run_data_op index) ops)) c
      = (Ok (), c') ∧
    m_data c' = Some (<[index := e']> d) ∧ current_data e' = current_data e.
Proof.
  intros Hd Hs He Hwf Hok. pose proof (lookup_lt_Some _ _ _ He) as Hlt.
  destruct (startDataTransaction_ok c d index e Hd Hs He Hwf) as [E1 H1].
  destruct (run_data_ops_ok c d index Hlt _ _ _ _ ops H1) as (f2 & e2 & E2 & H2);
    [by flags|].
  eexists _, e2. rewrite (bind_ok _ _ _ _ _ E1), E2.
  by destruct H2 as (_ & _ & _ & -> & _).
Qed.

(** (functional).  [setDataSize] on its own is lost: [commitData] completes
    the transaction with the old value and, with it, the old size, so that
    [getDataSize] returns what it returned before. *)
Theorem setDataSize_alone_lost c d index e n :
  m_data c = Some d -> m_has_started_data_transaction c = false ->
  d !! index = Some e -> data_wf e ->
  fst ((_ ← startDataTransaction index; _ ← setDataSize index n;
        _ ← commitData index; getDataSize index) c)
  = fst (getDataSize index c).
Proof.
  intros Hd Hs He Hwf. pose proof (lookup_lt_Some _ _ _ He) as Hlt.
  destruct (startDataTransaction_ok c d index e Hd Hs He Hwf) as [E1 H1].
  rewrite (bind_ok _ _ _ _ _ E1).
  pose proof (run_data_op_at c d index Hlt true DataNone e (PutSize n) false
    (proj1 Hwf) (conj eq_refl I)) as E2. simpl in E2.
  rewrite (bind_ok _ _ _ _ _ E2).
  pose proof (store_transaction _ _ _ _ (PutSize n) H1 (conj eq_refl I)) as H2.
  destruct (commitData_ok c d index Hlt _ _ _ _ H2) as (f3 & e3 & E3 & Hwf3 & Hv3).
  rewrite (bind_ok _ _ _ _ _ E3).
  rewrite (getDataSize_at c d index Hlt _ _ _ (proj1 Hwf3)).
  rewrite <- (list_insert_id d index e He) in Hd.
  assert (Hc : c = at_entry c d index (m_has_started_data_transaction c)
                     (m_data_transaction_flags c) e).
  { unfold at_entry, with_data_flags. rewrite <- Hd. by destruct c. }
  rewrite Hc at 2. rewrite (getDataSize_at c d index Hlt _ _ _ (proj1 Hwf)).
  cbn [fst]. by rewrite !current_size, Hv3.
Qed.

(** (error).  The header setters are guarded: without a mapped header, or
    outside a transaction, every one of them throws and changes nothing. *)
Theorem info_setters_guarded c op :
  m_info c = None ∨ m_has_started_info_transaction c = false ->
  exists w, run_info_op op c = (Throw (StdException w), c).
Proof.
  intros Hc. destruct c as [st fl ds df [i|] dd]; simpl in Hc.
  - destruct Hc as [?| ->]; [done|]. destruct op; by eexists.
  - destruct op; by eexists.
Qed.

(** ** Witnesses *)

Definition empty_entry : IPC_KV_Data :=
  {| m_state := Two Empty Empty;
     m_key := Two (repeat 0 260) (repeat 0 260);
     m_value := Two (repeat 0 2048) (repeat 0 2048);
     m_size := Two 0 0; d_buffer_state := 0 |}.

Definition empty_info : IPC_KV_Info :=
  {| i_buffer_state := 0; i_capacity := Two 101 0; i_size := Two 0 0;
     i_resize_count := Two 0 0 |}.

Definition example_controller : IPC_KV_Controller :=
  {| m_has_started_info_transaction := false; m_info_transaction_flags := 0;
     m_has_started_data_transaction := false; m_data_transaction_flags := 0;
     m_info := Some empty_info; m_data := Some [empty_entry; empty_entry] |}.

Lemma empty_entry_wf : data_wf empty_entry.
Proof.
  split; [by left|]. split; [by intros []|]. split; [by intros []|].
  split; [by left|]. unfold size_wf. simpl. lia.
Qed.

Definition example_ops : list data_op :=
  [PutSize 9; PutState Occupied; PutKey (L "name") 4; PutValue (L "value") 5].

Lemma info_transaction_commits_witness :
  exists c' i',
    (_ ← startInfoTransaction;
     _ ← run_all (map run_info_op [SetSize 7; SetCapacity 211]); commitInfo)
      example_controller = (Ok (), c') ∧
    m_info c' = Some i' ∧ info_wf i' ∧ m_has_started_info_transaction c' = false ∧
    m_data c' = m_data example_controller ∧
    current_info i'
      = fold_left apply_info_op [SetSize 7; SetCapacity 211] (current_info empty_info).
Proof. apply info_transaction_commits; [done|by left|done]. Defined.

Lemma info_transaction_invisible_witness :
  exists c',
    (_ ← startInfoTransaction; run_all (map run_info_op [SetSize 7])) example_controller
      = (Ok (), c') ∧
    fst (getCapacity c') = Ok (v_capacity (current_info empty_info)) ∧
    fst (getSize c') = Ok (v_size (current_info empty_info)) ∧
    fst (getResizeCount c') = Ok (v_resize_count (current_info empty_info)).
Proof. apply info_transaction_invisible; [done|by left|done]. Defined.

Lemma data_transaction_commits_witness :
  exists c' e',
    (_ ← startDataTransaction 1; _ ← run_all (map (run_data_op 1) example_ops);
     commitData 1) example_controller = (Ok (), c') ∧
    m_data c' = Some (<[1%nat := e']> [empty_entry; empty_entry]) ∧ data_wf e' ∧
    m_has_started_data_transaction c' = false ∧
    m_info c' = m_info example_controller ∧
    current_data e' = fold_left apply_data_op example_ops (current_data empty_entry).
Proof.
  apply data_transaction_commits; [done..|apply empty_entry_wf|].
  simpl. split_and!; unfold size_wf; simpl; lia || done.
Defined.

Lemma data_transaction_invisible_witness :
  exists c' e',
    (_ ← startDataTransaction 1; run_all (map (run_data_op 1) example_ops))
      example_controller = (Ok (), c') ∧
    m_data c' = Some (<[1%nat := e']> [empty_entry; empty_entry]) ∧
    current_data e' = current_data empty_entry.
Proof.
  apply data_transaction_invisible; [done..|apply empty_entry_wf|].
  simpl. split_and!; unfold size_wf; simpl; lia || done.
Defined.

Lemma setDataSize_alone_lost_witness :
  fst ((_ ← startDataTransaction 0; _ ← setDataSize 0 9;
        _ ← commitData 0; getDataSize 0) example_controller)
  = fst (getDataSize 0 example_controller).
Proof. eapply setDataSize_alone_lost; [done..|apply empty_entry_wf]. Defined.

Lemma info_setters_guarded_witness :
  exists w, run_info_op (SetSize 3) example_controller
            = (Throw (StdException w), example_controller).
Proof. apply info_setters_guarded. by right. Defined.
