(* ===== verification/IpcLock.v ===== *)
(** * The read/write lock of the IPC store: [IPC_Lock] of
    Include/ipckv/ipckv.h

    The lock is a named Win32 semaphore with [IPCKV_MAX_LOCKS] permits and,
    for writers, a named mutex.  A constructor and the destructor are split
    into their system calls; each call is one step of a transition system in
    which any number of processes interleave. *)
From S2P Require Import Prelude.
From stdpp Require Import functions.
Open Scope Z_scope.

Abbreviation IPCKV_MAX_LOCKS := 24.

(** ** The kernel's semaphore

    The semaphore is the system's.  A client sees its count and its maximum;
    the laws are the documented behaviour of [CreateSemaphore],
    [WaitForSingleObject] and [ReleaseSemaphore]. *)
Class Win32Semaphore (Sem : Type) := {
  sem_create : Z -> Z -> Sem;
  sem_count : Sem -> Z;
  sem_max : Sem -> Z;
  (** [None]: the caller blocks. *)
  sem_wait : Sem -> option Sem;
  (** [None]: the call fails and the semaphore is unchanged. *)
  sem_release : Sem -> Z -> option Sem;
}.

Class Win32SemaphoreLaws (Sem : Type) `{Win32Semaphore Sem} := {
  sem_create_count i m : sem_count (sem_create i m) = i;
  sem_create_max i m : sem_max (sem_create i m) = m;
  sem_wait_some s s' :
    sem_wait s = Some s' ->
    0 < sem_count s ∧ sem_count s' = sem_count s - 1 ∧ sem_max s' = sem_max s;
  sem_wait_ready s : 0 < sem_count s -> is_Some (sem_wait s);
  sem_release_some s s' n :
    sem_release s n = Some s' ->
    sem_count s + n <= sem_max s ∧ sem_count s' = sem_count s + n ∧
    sem_max s' = sem_max s;
  sem_release_fits s n : sem_count s + n <= sem_max s -> is_Some (sem_release s n);
}.

(** ** Processes *)

(** Where a process is in the constructor, the critical section or the
    destructor.  [WHeld fresh]: [fresh] tells that the writer created the
    semaphore instead of opening it. *)
Inductive phase :=
| Idle
| RWait                (* reader: semaphore open, waiting for a permit *)
| RHeld                (* reader: constructed *)
| RReleased            (* reader: ReleaseSemaphore was called *)
| WMutex               (* writer: waiting for the mutex *)
| WCreate              (* writer: owns the mutex *)
| WWait (left : nat)   (* writer: semaphore open, [left] permits to take *)
| WHeld (fresh : bool) (* writer: constructed *)
| WReleased            (* writer: ReleaseSemaphore was called *)
| WClosed.             (* writer: semaphore closed, mutex still owned *)

(** The process has the semaphore open. *)
Definition has_handle (ph : phase) : bool :=
  match ph with
  | RWait | RHeld | RReleased | WWait _ | WHeld _ | WReleased => true
  | _ => false
  end.

Definition owns_mutex (ph : phase) : bool :=
  match ph with
  | WCreate | WWait _ | WHeld _ | WReleased | WClosed => true
  | _ => false
  end.

(** Phases a process can be in only while no writer that created the semaphore
    holds the lock, itself apart. *)
Definition past_wait (ph : phase) : bool :=
  match ph with
  | Idle | RWait | WMutex => false
  | _ => true
  end.

Definition writing (ph : phase) : bool := match ph with WHeld _ => true | _ => false end.
Definition reading (ph : phase) : bool := match ph with RHeld => true | _ => false end.

Record lock_state (Sem : Type) := LockState {
  (** The named semaphore, while some process has it open. *)
  named_semaphore : option Sem;
  (** The owner of the named mutex. *)
  named_mutex : option nat;
  procs : nat -> phase;
}.
Arguments LockState {Sem}.
Arguments named_semaphore {Sem}.
Arguments named_mutex {Sem}.
Arguments procs {Sem}.

Section lock.
Context {Sem : Type} `{Win32Semaphore Sem}.

Definition initial : lock_state Sem := LockState None None (fun _ => Idle).

(** [CreateSemaphoreA(nullptr, init, IPCKV_MAX_LOCKS, name)]: an existing
    semaphore is opened and [init] is ignored. *)
Definition CreateSemaphoreA (init : Z) (s : option Sem) : Sem :=
  match s with
  | Some sem => sem
  | None => sem_create init IPCKV_MAX_LOCKS
  end.

(** [ReleaseSemaphore(semaphore_handle, IPCKV_MAX_LOCKS, nullptr)] of the
    destructor, whose result is not looked at. *)
Definition ReleaseSemaphore (sem : Sem) : Sem := default sem (sem_release sem IPCKV_MAX_LOCKS).

Definition others_closed (ps : nat -> phase) (p : nat) : Prop :=
  forall q, q ≠ p -> has_handle (ps q) = false.

(** One system call of process [p]. *)
Inductive step : relation (lock_state Sem) :=
(* IPC_Lock(false, name) *)
| step_read_create s m ps p :
    ps p = Idle ->
    step (LockState s m ps)
         (LockState (Some (CreateSemaphoreA IPCKV_MAX_LOCKS s)) m (<[p:=RWait]> ps))
| step_read_wait sem sem' m ps p :
    ps p = RWait -> sem_wait sem = Some sem' ->
    step (LockState (Some sem) m ps) (LockState (Some sem') m (<[p:=RHeld]> ps))
(* IPC_Lock(true, name) *)
| step_write_begin s m ps p :
    ps p = Idle -> step (LockState s m ps) (LockState s m (<[p:=WMutex]> ps))
| step_write_mutex s ps p :
    ps p = WMutex ->
    step (LockState s None ps) (LockState s (Some p) (<[p:=WCreate]> ps))
| step_write_create m ps p :
    ps p = WCreate ->
    step (LockState None m ps)
         (LockState (Some (CreateSemaphoreA 0 None)) m (<[p:=WHeld true]> ps))
| step_write_open sem m ps p :
    ps p = WCreate ->
    step (LockState (Some sem) m ps)
         (LockState (Some (CreateSemaphoreA 0 (Some sem))) m
            (<[p:=WWait (Z.to_nat IPCKV_MAX_LOCKS)]> ps))
| step_write_wait sem sem' m ps p n :
    ps p = WWait (S n) -> sem_wait sem = Some sem' ->
    step (LockState (Some sem) m ps)
         (LockState (Some sem') m
            (<[p:=match n with O => WHeld false | _ => WWait n end]> ps))
(* ~IPC_Lock() *)
| step_read_release sem m ps p :
    ps p = RHeld ->
    step (LockState (Some sem) m ps)
         (LockState (Some (ReleaseSemaphore sem)) m (<[p:=RReleased]> ps))
| step_write_release sem m ps p b :
    ps p = WHeld b ->
    step (LockState (Some sem) m ps)
         (LockState (Some (ReleaseSemaphore sem)) m (<[p:=WReleased]> ps))
| step_close_last s m ps p ph :
    (ps p = RReleased ∧ ph = Idle) ∨ (ps p = WReleased ∧ ph = WClosed) ->
    others_closed ps p ->
    step (LockState s m ps) (LockState None m (<[p:=ph]> ps))
| step_close s m ps p ph q :
    (ps p = RReleased ∧ ph = Idle) ∨ (ps p = WReleased ∧ ph = WClosed) ->
    q ≠ p -> has_handle (ps q) = true ->
    step (LockState s m ps) (LockState s m (<[p:=ph]> ps))
| step_write_end s m ps p :
    ps p = WClosed -> step (LockState s m ps) (LockState s None (<[p:=Idle]> ps)).

Definition reachable : lock_state Sem -> Prop := rtc step initial.

(** ** Invariants *)

Context `{!Win32SemaphoreLaws Sem}.

Definition sem_wf (s : option Sem) : Prop :=
  forall sem, s = Some sem ->
    0 <= sem_count sem <= IPCKV_MAX_LOCKS ∧ sem_max sem = IPCKV_MAX_LOCKS.

Definition mutex_wf (m : option nat) (ps : nat -> phase) : Prop :=
  forall p, owns_mutex (ps p) = true <-> m = Some p.

Definition handle_wf (s : option Sem) (ps : nat -> phase) : Prop :=
  s = None -> forall p, has_handle (ps p) = false.

(** While a writer that created the semaphore holds the lock, the count is
    zero and every other process that opened the semaphore waits. *)
Definition fresh_wf (s : option Sem) (ps : nat -> phase) : Prop :=
  forall p, ps p = WHeld true ->
    (forall sem, s = Some sem -> sem_count sem = 0) ∧
    (forall q, q ≠ p -> has_handle (ps q) = true -> ps q = RWait).

Definition lock_wf (st : lock_state Sem) : Prop :=
  sem_wf (named_semaphore st) ∧ mutex_wf (named_mutex st) (procs st) ∧
  handle_wf (named_semaphore st) (procs st) ∧
  fresh_wf (named_semaphore st) (procs st).

Lemma ReleaseSemaphore_wf sem :
  sem_wf (Some sem) -> sem_wf (Some (ReleaseSemaphore sem)).
Proof.
  intros Hwf ? [= <-]. destruct (Hwf sem eq_refl) as [Hc Hm].
  unfold ReleaseSemaphore.
  destruct (sem_release sem _) as [sem'|] eqn:E; simpl; [|done].
  apply sem_release_some in E as (? & ? & ?). lia.
Qed.

Lemma wait_wf sem sem' : sem_wf (Some sem) -> sem_wait sem = Some sem' -> sem_wf (Some sem').
Proof.
  intros Hwf (? & ? & ?)%sem_wait_some ? [= <-].
  destruct (Hwf sem eq_refl). lia.
Qed.

Lemma create_wf init s :
  0 <= init <= IPCKV_MAX_LOCKS -> sem_wf s -> sem_wf (Some (CreateSemaphoreA init s)).
Proof.
  intros Hi Hwf ? [= <-]. destruct s as [sem|]; simpl; [by apply Hwf|].
  by rewrite sem_create_count, sem_create_max.
Qed.

Lemma mutex_wf_insert m ps p ph :
  mutex_wf m ps -> owns_mutex ph = owns_mutex (ps p) -> mutex_wf m (<[p:=ph]> ps).
Proof.
  intros Hm E q. destruct (decide (q = p)) as [->|Hne].
  - rewrite fn_lookup_insert, E. apply Hm.
  - rewrite fn_lookup_insert_ne by done. apply Hm.
Qed.

(** Case analysis on whether a process is the one that stepped. *)
Ltac at_proc q p :=
  destruct (decide (q = p)) as [->|?];
  [rewrite ?fn_lookup_insert in *|rewrite ?(fn_lookup_insert_ne _ p q) in * by done].

Lemma step_sem_wf st st' :
  step st st' -> sem_wf (named_semaphore st) -> sem_wf (named_semaphore st').
Proof.
  destruct 1; cbn [named_semaphore]; intros Hwf;
    try done; try (apply create_wf; [lia|done]);
    eauto using ReleaseSemaphore_wf, wait_wf.
Qed.

Lemma step_mutex_wf st st' :
  step st st' -> mutex_wf (named_mutex st) (procs st) ->
  mutex_wf (named_mutex st') (procs st').
Proof.
  destruct 1; simpl; intros Hm;
    try (apply mutex_wf_insert; [done|];
         repeat match goal with E : ?ps ?p = _ |- _ => rewrite E; clear E end;
         first [done | by destruct n | idtac]);
    try (match goal with E : _ ∨ _ |- _ => destruct E as [[E1 ->]|[E1 ->]]; rewrite E1; done end).
  - intros q. at_proc q p; [done|]. rewrite (Hm q). split; [done|congruence].
  - intros q. at_proc q p; [done|]. split; [|done].
    intros Hq%Hm. assert (Hp : owns_mutex (ps p) = true) by (by rewrite H0).
    apply Hm in Hp. congruence.
Qed.

Lemma step_handle_wf st st' :
  step st st' -> handle_wf (named_semaphore st) (procs st) ->
  handle_wf (named_semaphore st') (procs st').
Proof.
  destruct 1; simpl; intros Hh E; try done; intros q0; at_proc q0 p; auto.
  - match goal with E : _ ∨ _ |- _ => destruct E as [[? ->]|[? ->]]; done end.
  - match goal with E : _ ∨ _ |- _ => destruct E as [[? ->]|[? ->]]; done end.
Qed.

Lemma mutex_unique m ps p q :
  mutex_wf m ps -> owns_mutex (ps p) = true -> owns_mutex (ps q) = true -> p = q.
Proof. intros Hm Hp%Hm Hq%Hm. congruence. Qed.

Lemma fresh_alone m s ps p p0 :
  mutex_wf m ps -> fresh_wf s ps -> ps p0 = WHeld true ->
  past_wait (ps p) = true -> p = p0.
Proof.
  intros Hm Hf Hp0 Hp. destruct (decide (p = p0)) as [|Hne]; [done|exfalso].
  destruct (owns_mutex (ps p)) eqn:Eo.
  - apply Hne. eapply mutex_unique; [done..|by rewrite Hp0].
  - destruct (Hf p0 Hp0) as [_ Hq]. specialize (Hq p Hne).
    destruct (ps p); simpl in *; try done; by specialize (Hq eq_refl).
Qed.

Lemma step_fresh_wf st st' :
  step st st' -> lock_wf st -> fresh_wf (named_semaphore st') (procs st').
Proof.
  intros Hstep (Hs & Hm & Hh & Hf).
  (* the stepping process and the fresh writer are the same *)
  assert (Halone : forall p p0, procs st p0 = WHeld true ->
    past_wait (procs st p) = true -> p = p0) by (intros; by eapply fresh_alone).
  destruct Hstep as [s m ps p Hp|sem sem' m ps p Hp Hw|s m ps p Hp|s ps p Hp|m ps p Hp
    |sem m ps p Hp|sem sem' m ps p n Hp Hw|sem m ps p Hp|sem m ps p b Hp
    |s m ps p ph Hp Ho|s m ps p ph q Hp Hq Hq'|s m ps p Hp];
    cbn [named_semaphore named_mutex procs] in *; intros p0 Hp0;
    at_proc p0 p; try done;
    try (exfalso; assert (p = p0) as <-; [|done]; apply Halone; [done|];
         destruct Hp as [[-> _]|[-> _]]; done);
    try (exfalso; assert (p = p0) as <-; [|done]; apply Halone; [done|];
         rewrite Hp; done).
  - destruct s as [sem|]; [|by specialize (Hh eq_refl p0); rewrite Hp0 in Hh].
    destruct (Hf p0 Hp0) as [Hc Hq]. split; [done|].
    intros q Hne. at_proc q p; auto.
  - destruct (Hf p0 Hp0) as [Hc _]. apply sem_wait_some in Hw.
    specialize (Hc sem eq_refl). lia.
  - destruct (Hf p0 Hp0) as [Hc Hq]. split; [done|].
    intros q Hne. at_proc q p; [done|auto].
  - exfalso. assert (E : owns_mutex (ps p0) = true) by (by rewrite Hp0).
    apply Hm in E. done.
  - split; [intros ? [= <-]; apply sem_create_count|].
    intros q Hne. rewrite fn_lookup_insert_ne by done. by rewrite (Hh eq_refl).
  - by destruct n.
  - by destruct Hp as [[_ ->]|[_ ->]].
  - by destruct Hp as [[_ ->]|[_ ->]].
Qed.

Lemma lock_wf_initial : lock_wf initial.
Proof.
  split; [by intros ?|]. split; [intros p; simpl; done|].
  split; [by intros _ p|by intros p].
Qed.

Lemma step_lock_wf st st' : lock_wf st -> step st st' -> lock_wf st'.
Proof.
  intros Hwf Hstep. pose proof Hwf as (Hs & Hm & Hh & _). split_and!.
  - by eapply step_sem_wf.
  - by eapply step_mutex_wf.
  - by eapply step_handle_wf.
  - by eapply step_fresh_wf.
Qed.

Lemma reachable_wf st : reachable st -> lock_wf st.
Proof. apply (rtc_invariant step); [exact step_lock_wf|apply lock_wf_initial]. Qed.

(** ** The release *)

Lemma ReleaseSemaphore_count sem :
  sem_max sem = IPCKV_MAX_LOCKS -> 0 <= sem_count sem ->
  sem_count (ReleaseSemaphore sem)
    = (if sem_count sem =? 0 then IPCKV_MAX_LOCKS else sem_count sem) ∧
  sem_max (ReleaseSemaphore sem) = IPCKV_MAX_LOCKS.
Proof.
  intros Hm Hc. unfold ReleaseSemaphore.
  destruct (sem_release sem _) as [sem'|] eqn:E; simpl.
  - apply sem_release_some in E as (? & ? & ?).
    destruct (Z.eqb_spec (sem_count sem) 0); lia.
  - destruct (Z.eqb_spec (sem_count sem) 0) as [H0|]; [|done].
    destruct (sem_release_fits sem IPCKV_MAX_LOCKS) as [? ?]; [lia|congruence].
Qed.

(** ** Building runs

    [at_count c m g st]: the semaphore exists with count [c], the mutex is
    [m], and the processes are where [g] says. *)
Definition at_count (c : Z) (m : option nat) (g : nat -> phase) (st : lock_state Sem) : Prop :=
  exists sem ps, st = LockState (Some sem) m ps ∧ sem_count sem = c ∧
    sem_max sem = IPCKV_MAX_LOCKS ∧ forall q, ps q = g q.

(** A reachable state of that shape. *)
Definition reaches (c : Z) (m : option nat) (g : nat -> phase) : Prop :=
  exists st, reachable st ∧ at_count c m g st.

Lemma insert_ext (ps g : nat -> phase) p ph q :
  (forall q, ps q = g q) -> <[p:=ph]> ps q = <[p:=ph]> g q.
Proof. intros Hg. at_proc q p; [done|apply Hg]. Qed.

Lemma reaches_step c m g c' m' p ph :
  reaches c m g ->
  (forall sem ps, sem_count sem = c -> sem_max sem = IPCKV_MAX_LOCKS ->
    (forall q, ps q = g q) ->
    exists sem', step (LockState (Some sem) m ps) (LockState (Some sem') m' (<[p:=ph]> ps)) ∧
      sem_count sem' = c' ∧ sem_max sem' = IPCKV_MAX_LOCKS) ->
  reaches c' m' (<[p:=ph]> g).
Proof.
  intros (st & Hr & sem & ps & -> & Hc & Hmax & Hg) Hs.
  destruct (Hs sem ps Hc Hmax Hg) as (sem' & Hst & Hc' & Hm').
  eexists. split; [by eapply rtc_r|]. exists sem', (<[p:=ph]> ps).
  split_and!; auto using insert_ext.
Qed.

(** The first reader creates the semaphore. *)
Lemma reaches_first p : reaches IPCKV_MAX_LOCKS None (<[p:=RWait]> (fun _ => Idle)).
Proof.
  eexists. split; [by eapply rtc_once, (step_read_create None None)|].
  eexists _, _. split_and!; [done|apply sem_create_count|apply sem_create_max|done].
Qed.

Lemma reaches_read_create c m g p :
  reaches c m g -> g p = Idle -> reaches c m (<[p:=RWait]> g).
Proof.
  intros Hr Hp. eapply reaches_step; [done|]. intros sem ps Hc Hmax Hg.
  exists sem. split; [|done]. apply (step_read_create (Some sem)). by rewrite Hg.
Qed.

Lemma reaches_read_wait c m g p :
  reaches c m g -> g p = RWait -> 0 < c -> reaches (c - 1) m (<[p:=RHeld]> g).
Proof.
  intros Hr Hp Hpos. eapply reaches_step; [done|]. intros sem ps Hc Hmax Hg.
  destruct (sem_wait_ready sem) as [sem' Hw]; [lia|].
  exists sem'. split; [by apply (step_read_wait sem); rewrite ?Hg|].
  apply sem_wait_some in Hw. lia.
Qed.

Lemma reaches_read_release c m g p :
  reaches c m g -> g p = RHeld -> 0 <= c ->
  reaches (if c =? 0 then IPCKV_MAX_LOCKS else c) m (<[p:=RReleased]> g).
Proof.
  intros Hr Hp Hc0. eapply reaches_step; [done|]. intros sem ps Hc Hmax Hg.
  eexists. split; [apply step_read_release; by rewrite Hg|].
  rewrite <- Hc. apply ReleaseSemaphore_count; [done|lia].
Qed.

Lemma reaches_read_close c m g p q :
  reaches c m g -> g p = RReleased -> q ≠ p -> has_handle (g q) = true ->
  reaches c m (<[p:=Idle]> g).
Proof.
  intros Hr Hp Hq Hh. eapply reaches_step; [done|]. intros sem ps Hc Hmax Hg.
  exists sem. split; [|done]. apply (step_close _ _ _ _ _ q); rewrite ?Hg; auto.
Qed.

Lemma reaches_write_open c g p :
  reaches c None g -> g p = Idle ->
  reaches c (Some p) (<[p:=WWait 24]> (<[p:=WCreate]> (<[p:=WMutex]> g))).
Proof.
  intros Hr Hp.
  eapply reaches_step; [eapply reaches_step; [eapply reaches_step; [done|]|]|];
    intros sem ps Hc Hmax Hg; exists sem; (split; [|done]).
  - apply step_write_begin. by rewrite Hg.
  - apply step_write_mutex. by rewrite Hg, fn_lookup_insert.
  - apply step_write_open. by rewrite Hg, fn_lookup_insert.
Qed.

Lemma reaches_write_wait c m g p n :
  reaches c m g -> g p = WWait (S n) -> 0 < c ->
  reaches (c - 1) m (<[p:=match n with O => WHeld false | _ => WWait n end]> g).
Proof.
  intros Hr Hp Hpos. eapply reaches_step; [done|]. intros sem ps Hc Hmax Hg.
  destruct (sem_wait_ready sem) as [sem' Hw]; [lia|].
  exists sem'. split; [by apply (step_write_wait sem); rewrite ?Hg|].
  apply sem_wait_some in Hw. lia.
Qed.

(** A writer takes permits while there are some. *)
Lemma reaches_drain k c m g p n :
  reaches c m g -> g p = WWait (k + S n) -> Z.of_nat k <= c ->
  exists g', reaches (c - Z.of_nat k) m g' ∧ g' p = WWait (S n) ∧
    forall q, q ≠ p -> g' q = g q.
Proof.
  revert c g. induction k as [|k IH]; intros c g Hr Hp Hk.
  - exists g. split_and!; [by rewrite Z.sub_0_r|done|done].
  - pose proof (reaches_write_wait c m g p (k + S n) Hr Hp ltac:(lia)) as Hr'.
    replace (match (k + S n)%nat with O => _ | _ => _ end)
      with (WWait (k + S n)) in Hr' by (by destruct (k + S n)%nat eqn:E; [lia|]).
    destruct (IH _ _ Hr') as (g' & Hg' & Hp' & Hq'); [apply fn_lookup_insert|lia|].
    exists g'. split_and!; [|done|].
    + by replace (c - Z.of_nat (S k)) with (c - 1 - Z.of_nat k) by lia.
    + intros q Hq. rewrite Hq' by done. by rewrite fn_lookup_insert_ne.
Qed.

(** ** Deadlock *)

(** A writer has opened the semaphore and still has permits to take, there
    are none, and every other process is outside or waits. *)
Definition starved (st : lock_state Sem) : Prop :=
  exists sem ps p n,
    st = LockState (Some sem) (Some p) ps ∧ sem_count sem = 0 ∧ ps p = WWait (S n) ∧
    forall q, q ≠ p -> ps q = Idle ∨ ps q = RWait ∨ ps q = WMutex.

Lemma starved_phase st p :
  starved st -> reading (procs st p) = false ∧ writing (procs st p) = false.
Proof.
  intros (sem & ps & w & n & -> & _ & Hw & Hq). simpl.
  destruct (decide (p = w)) as [->|Hne]; [by rewrite Hw|].
  by destruct (Hq p Hne) as [-> |[-> | ->]].
Qed.

Lemma starved_step st st' : starved st -> step st st' -> starved st'.
Proof.
  intros (sem & ps & w & n & -> & Hc & Hw & Hq) Hst.
  assert (Hno : forall q, ps q ≠ RHeld ∧ ps q ≠ RReleased ∧ ps q ≠ WReleased ∧
    ps q ≠ WClosed ∧ ps q ≠ WCreate ∧ forall b, ps q ≠ WHeld b).
  { intros q. destruct (decide (q = w)) as [->|Hne]; [by rewrite Hw|].
    by destruct (Hq q Hne) as [-> |[-> | ->]]. }
  inversion Hst; subst;
    try match goal with
        | E : ps ?q = _ |- _ =>
            exfalso; destruct (Hno q) as (?&?&?&?&?&?); rewrite E in *; congruence
        | E : _ ∨ _ |- _ =>
            exfalso; destruct E as [[E _]|[E _]];
            match type of E with ps ?q = _ =>
              destruct (Hno q) as (?&?&?&?&?&?); congruence end
        end.
  - exists sem, (<[p:=RWait]> ps), w, n. split_and!; [done|done| |].
    + at_proc w p; [congruence|done].
    + intros q Hne. at_proc q p; auto.
  - apply sem_wait_some in H5. lia.
  - exists sem, (<[p:=WMutex]> ps), w, n. split_and!; [done|done| |].
    + at_proc w p; [congruence|done].
    + intros q Hne. at_proc q p; auto.
  - apply sem_wait_some in H5. lia.
Qed.

(** ** The properties *)

(** (safety).  A writer that found no semaphore and created it holds the
    lock alone: no reader holds it, and neither does another writer. *)
Theorem lock_fresh_writer_alone st p q :
  reachable st -> procs st p = WHeld true -> q ≠ p ->
  reading (procs st q) = false ∧ writing (procs st q) = false.
Proof.
  intros Hr Hp Hne. destruct (reachable_wf st Hr) as (_ & Hm & _ & Hf).
  destruct (past_wait (procs st q)) eqn:E; [|by destruct (procs st q)].
  exfalso. apply Hne. by eapply fresh_alone.
Qed.

(** C14 (safety).  While a process holds the write lock of a table, no other
    process owns the mutex of the writers, from its constructor to the end of its
    destructor, or holds the write lock; and when the writer created the
    semaphore, no other process holds the lock for reading either. *)
Theorem lock_writers_exclude st p q :
  reachable st -> p ≠ q -> writing (procs st p) = true ->
  owns_mutex (procs st q) = false ∧ writing (procs st q) = false ∧
  (procs st p = WHeld true -> reading (procs st q) = false).
Proof.
  intros Hr Hne Hp. destruct (reachable_wf st Hr) as (_ & Hm & _).
  assert (owns_mutex (procs st q) = false) as Ho.
  { destruct (owns_mutex (procs st q)) eqn:E; [|done]. destruct Hne.
    eapply mutex_unique; [done|by destruct (procs st p)|done]. }
  split; [done|]. split; [by destruct (procs st q)|].
  intros Ef. by destruct (lock_fresh_writer_alone st p q Hr Ef).
Qed.

(** (bounds).  The count of the semaphore stays between zero and
    [IPCKV_MAX_LOCKS], and the destructor's release sets it to
    [IPCKV_MAX_LOCKS] when it is zero and has no effect otherwise: a reader
    that ends while a permit is left does not give its own permit back. *)
Theorem lock_release_only_from_zero st sem :
  reachable st -> named_semaphore st = Some sem ->
  0 <= sem_count sem <= IPCKV_MAX_LOCKS ∧
  sem_count (ReleaseSemaphore sem)
    = if sem_count sem =? 0 then IPCKV_MAX_LOCKS else sem_count sem.
Proof.
  intros Hr Hs. destruct (reachable_wf st Hr) as (Hwf & _).
  destruct (Hwf sem Hs) as [Hc Hm]. split; [done|].
  apply ReleaseSemaphore_count; [done|lia].
Qed.

(** (safety).  The lock does not exclude a reader from a writer that
    opened an existing semaphore: a state with both in the critical section
    is reachable.  The reader that ends while the writer takes the last
    permit releases all [IPCKV_MAX_LOCKS] of them. *)
Theorem lock_exclusion_violated :
  exists st, reachable st ∧ writing (procs st 0%nat) = true ∧ reading (procs st 1%nat) = true.
Proof.
  pose proof (reaches_first 1%nat) as R.
  apply (reaches_read_wait _ _ _ 1) in R; [|done|lia].
  apply (reaches_write_open _ _ 0) in R; [|done].
  destruct (reaches_drain 23 _ _ _ 0 0 R) as (g & R1 & H0 & Hq); [done|lia|].
  apply (reaches_read_release _ _ _ 1) in R1; [|by rewrite Hq|lia].
  apply (reaches_write_wait _ _ _ 0 0) in R1; [|done|simpl; lia].
  apply (reaches_read_close _ _ _ 1 0) in R1; [|done..].
  apply (reaches_read_create _ _ _ 1) in R1; [|done].
  apply (reaches_read_wait _ _ _ 1) in R1; [|done|simpl; lia].
  destruct R1 as (st & Hr & sem & ps & -> & _ & _ & Hg).
  eexists. split; [done|]. simpl. by rewrite !Hg.
Qed.

(** (liveness).  The lock can be lost for good: a state is reachable from
    which, whatever steps follow, no process ever holds the lock again.  Two
    readers that overlap leave permits that are never given back, and the
    writer that waits for all of them keeps the mutex. *)
Theorem lock_deadlock_reachable :
  exists st, reachable st ∧
    forall st' p, rtc step st st' ->
      reading (procs st' p) = false ∧ writing (procs st' p) = false.
Proof.
  pose proof (reaches_first 1%nat) as R.
  apply (reaches_read_wait _ _ _ 1) in R; [|done|lia].
  apply (reaches_read_create _ _ _ 2) in R; [|done].
  apply (reaches_read_wait _ _ _ 2) in R; [|done|lia].
  apply (reaches_read_release _ _ _ 1) in R; [|done|lia].
  apply (reaches_read_close _ _ _ 1 2) in R; [|done..].
  apply (reaches_read_release _ _ _ 2) in R; [|done|simpl; lia].
  apply (reaches_write_open _ _ 0) in R; [|done].
  apply (reaches_read_close _ _ _ 2 0) in R; [|done..].
  destruct (reaches_drain 22 _ _ _ 0 1 R) as (g & R1 & H0 & Hq); [done|simpl; lia|].
  destruct R1 as (st & Hr & sem & ps & -> & Hc & _ & Hg).
  eexists. split; [done|]. intros st' p Hst. apply starved_phase.
  apply (rtc_invariant step starved _ _ starved_step) in Hst; [done|].
  exists sem, ps, 0%nat, 1%nat. split_and!; [done|by rewrite Hc|by rewrite Hg|].
  intros q Hne. left. rewrite Hg, Hq by done.
  destruct q as [|[|[|q]]]; done.
Qed.
End lock.

(** ** Witnesses

    A semaphore as a pair of its count and its maximum. *)
#[local] Instance pair_semaphore : Win32Semaphore (Z * Z) := {|
  sem_create i m := (i, m);
  sem_count := fst;
  sem_max := snd;
  sem_wait s := if 0 <? fst s then Some (fst s - 1, snd s) else None;
  sem_release s n := if fst s + n <=? snd s then Some (fst s + n, snd s) else None;
|}.

#[local] Instance pair_semaphore_laws : Win32SemaphoreLaws (Z * Z).
Proof.
  split; simpl; try done.
  - intros [c m] s'. simpl. destruct (Z.ltb_spec 0 c); intros; simplify_eq; simpl; lia.
  - intros [c m]. simpl. destruct (Z.ltb_spec 0 c); [eauto|lia].
  - intros [c m] s' n. simpl. destruct (Z.leb_spec (c + n) m); intros; simplify_eq; simpl; lia.
  - intros [c m] n. simpl. destruct (Z.leb_spec (c + n) m); [eauto|lia].
Qed.

(** One writer that created the semaphore. *)
Definition one_writer : lock_state (Z * Z) :=
  LockState (Some (0, IPCKV_MAX_LOCKS)) (Some 0%nat)
    (<[0%nat:=WHeld true]> (<[0%nat:=WCreate]> (<[0%nat:=WMutex]> (fun _ => Idle)))).

Lemma one_writer_reachable : reachable one_writer.
Proof.
  eapply rtc_l; [by apply (step_write_begin None None (fun _ => Idle) 0)|].
  eapply rtc_l; [by apply (step_write_mutex _ _ 0)|].
  eapply rtc_l; [by apply (step_write_create _ _ 0)|]. reflexivity.
Qed.

Lemma lock_exclusion_violated_witness :
  exists st : lock_state (Z * Z), reachable st ∧
    writing (procs st 0%nat) = true ∧ reading (procs st 1%nat) = true.
Proof. apply lock_exclusion_violated. Defined.

Lemma lock_deadlock_reachable_witness :
  exists st : lock_state (Z * Z), reachable st ∧
    forall st' p, rtc step st st' ->
      reading (procs st' p) = false ∧ writing (procs st' p) = false.
Proof. apply lock_deadlock_reachable. Defined.

(** Process 0 writes, process 1 waits for the mutex and process 2 for a permit. *)
Definition contended : lock_state (Z * Z) :=
  LockState (Some (0, IPCKV_MAX_LOCKS)) (Some 0%nat)
    (<[2%nat:=RWait]> (<[1%nat:=WMutex]> (procs one_writer))).

Lemma contended_reachable : reachable contended.
Proof.
  unfold reachable. etrans; [apply one_writer_reachable|].
  eapply rtc_l; [by apply (step_write_begin _ _ _ 1)|].
  apply rtc_once. by apply (step_read_create (Some (0, IPCKV_MAX_LOCKS)) _ (<[1%nat:=WMutex]> (procs one_writer)) 2).
Qed.

Lemma lock_writers_exclude_witness :
  (owns_mutex (procs contended 1%nat) = false ∧ writing (procs contended 1%nat) = false ∧
   reading (procs contended 1%nat) = false) ∧
  (owns_mutex (procs contended 2%nat) = false ∧ writing (procs contended 2%nat) = false ∧
   reading (procs contended 2%nat) = false).
Proof.
  split; [destruct (lock_writers_exclude contended 0 1 contended_reachable) as (? & ? & Hr)
         |destruct (lock_writers_exclude contended 0 2 contended_reachable) as (? & ? & Hr)];
    try done; (split; [done|split; [done|by apply Hr]]).
Defined.

Lemma lock_fresh_writer_alone_witness :
  reading (procs one_writer 1%nat) = false ∧ writing (procs one_writer 1%nat) = false.
Proof. apply (lock_fresh_writer_alone one_writer 0 1 one_writer_reachable); done. Defined.

Lemma lock_release_only_from_zero_witness :
  0 <= 0 <= IPCKV_MAX_LOCKS ∧
  sem_count (ReleaseSemaphore (0, IPCKV_MAX_LOCKS)) = IPCKV_MAX_LOCKS.
Proof. exact (lock_release_only_from_zero one_writer (0, IPCKV_MAX_LOCKS) one_writer_reachable eq_refl). Defined.
