(* ===== verification/Threads.v ===== *)
(** * The thread limit of the asynchronous functions (v8_wrapper.cpp)

    Every asynchronous function runs the same protocol: the JavaScript thread
    waits on [thread_count_cv] until [thread_count < MAX_THREADS], counts a
    thread and starts it; the thread does its work, counts itself out,
    notifies one waiter, and only then takes the isolate's lock to settle the
    promise.  The waiting JavaScript thread keeps the isolate's lock
    ([v8::Locker]) all the while.  Threads interleave as a transition system;
    a section guarded by [thread_count_lock] is one step. *)
From S2P Require Import Prelude.

Abbreviation MAX_THREADS := 24.

(** ** Threads *)

Inductive phase :=
| Outside      (* a server thread that is not in the isolate *)
| Running      (* runs JavaScript, holds the isolate's lock *)
| Checking     (* in [thread_count_cv.wait], about to test the predicate *)
| Sleeping     (* blocked in [thread_count_cv.wait] *)
| Spawning     (* counted a thread, about to start it *)
| Working      (* a started thread at its work *)
| Notifying    (* counted itself out, about to call [notify_one] *)
| Locking      (* waits for the isolate's lock *)
| Settling     (* holds the isolate's lock, settles the promise *)
| Ended.

(** The thread is counted in [thread_count]. *)
Definition counted (ph : phase) : bool :=
  match ph with Spawning | Working => true | _ => false end.

(** The thread holds the isolate's lock. *)
Definition in_isolate (ph : phase) : bool :=
  match ph with
  | Running | Checking | Sleeping | Spawning | Settling => true
  | _ => false
  end.

Record pool := Pool {
  thread_count : Z;
  (** The thread that holds the isolate's lock. *)
  locker : option nat;
  threads : list phase;
}.

(** The predicate of the wait. *)
Definition may_start (n : Z) : bool := n <? MAX_THREADS.

Inductive step : relation pool :=
(* v8::Locker of handle_callback, and its destructor *)
| step_enter n ts p :
    ts !! p = Some Outside ->
    step (Pool n None ts) (Pool n (Some p) (<[p:=Running]> ts))
| step_leave n l ts p :
    ts !! p = Some Running ->
    step (Pool n l ts) (Pool n None (<[p:=Outside]> ts))
(* "Wait until threads free up." *)
| step_call n l ts p :
    ts !! p = Some Running ->
    step (Pool n l ts) (Pool n l (<[p:=Checking]> ts))
| step_admit n l ts p :
    ts !! p = Some Checking -> may_start n = true ->
    step (Pool n l ts) (Pool (n + 1) l (<[p:=Spawning]> ts))
| step_block n l ts p :
    ts !! p = Some Checking -> may_start n = false ->
    step (Pool n l ts) (Pool n l (<[p:=Sleeping]> ts))
| step_spurious n l ts p :
    ts !! p = Some Sleeping ->
    step (Pool n l ts) (Pool n l (<[p:=Checking]> ts))
| step_spawn n l ts p :
    ts !! p = Some Spawning ->
    step (Pool n l ts) (Pool n l (<[p:=Running]> ts ++ [Working]))
(* the started thread: "Decrement out thread count." *)
| step_finish n l ts q :
    ts !! q = Some Working ->
    step (Pool n l ts) (Pool (n - 1) l (<[q:=Notifying]> ts))
(* "Notify all waitees.": notify_one *)
| step_notify n l ts q p :
    ts !! q = Some Notifying -> ts !! p = Some Sleeping ->
    step (Pool n l ts) (Pool n l (<[p:=Checking]> (<[q:=Locking]> ts)))
| step_notify_none n l ts q :
    ts !! q = Some Notifying -> Sleeping ∉ ts ->
    step (Pool n l ts) (Pool n l (<[q:=Locking]> ts))
(* "We should only lock once the request has finished." *)
| step_lock n ts q :
    ts !! q = Some Locking ->
    step (Pool n None ts) (Pool n (Some q) (<[q:=Settling]> ts))
| step_settle n l ts q :
    ts !! q = Some Settling ->
    step (Pool n l ts) (Pool n None (<[q:=Ended]> ts)).

(** Any number of server threads, none in the isolate. *)
Definition initial (servers : nat) : pool := Pool 0 None (replicate servers Outside).

Definition reachable (servers : nat) : pool -> Prop := rtc step (initial servers).

(** ** Counting *)

Fixpoint count (ts : list phase) : Z :=
  match ts with
  | [] => 0
  | ph :: ts' => Z.b2z (counted ph) + count ts'
  end.

Lemma count_nonneg ts : 0 <= count ts.
Proof. induction ts as [|ph ts IH]; simpl; [lia|]. destruct (counted ph); simpl; lia. Qed.

Lemma count_app ts us : count (ts ++ us) = count ts + count us.
Proof. induction ts; simpl; lia. Qed.

Lemma count_insert ts p ph ph' :
  ts !! p = Some ph ->
  count (<[p:=ph']> ts) = count ts - Z.b2z (counted ph) + Z.b2z (counted ph').
Proof.
  revert p. induction ts as [|a ts IH]; intros [|p] Hp; simpl in *; simplify_eq; [lia|].
  rewrite (IH p Hp). lia.
Qed.

Lemma count_replicate n : count (replicate n Outside) = 0.
Proof. induction n; simpl; lia. Qed.

Lemma count_pos ts : 0 < count ts -> exists q ph, ts !! q = Some ph ∧ counted ph = true.
Proof.
  induction ts as [|ph ts IH]; simpl; [lia|]. destruct (counted ph) eqn:E; simpl.
  - intros _. by exists 0%nat, ph.
  - intros H. destruct IH as (q & ph' & Hq & ?); [lia|]. by exists (S q), ph'.
Qed.

(** ** The invariant *)

Definition count_ok (st : pool) : Prop :=
  thread_count st = count (threads st) ∧ thread_count st <= MAX_THREADS.

Definition locker_ok (st : pool) : Prop :=
  forall p ph, threads st !! p = Some ph -> in_isolate ph = true -> locker st = Some p.

(** No wake-up is lost: while a thread sleeps, the limit is reached or a
    notification is under way. *)
Definition wakeup_ok (st : pool) : Prop :=
  forall p, threads st !! p = Some Sleeping ->
    thread_count st = MAX_THREADS ∨ exists q, threads st !! q = Some Notifying.

Definition pool_ok (st : pool) : Prop := count_ok st ∧ locker_ok st ∧ wakeup_ok st.

(** What a lookup in an updated list says. *)
Lemma insert_cases (ts : list phase) p ph q ph' :
  <[p:=ph]> ts !! q = Some ph' ->
  (q = p ∧ ph' = ph ∧ (p < length ts)%nat) ∨ (q ≠ p ∧ ts !! q = Some ph').
Proof. rewrite list_lookup_insert_Some. intros [(-> & -> & ?)|[? ?]]; [by left|right; auto]. Qed.

Lemma count_ok_step st st' : count_ok st -> step st st' -> count_ok st'.
Proof.
  unfold count_ok. intros [Hn Hm] Hst.
  pose proof (count_nonneg (threads st')) as Hpos.
  destruct Hst; simpl in *; rewrite ?count_app;
    repeat (erewrite count_insert; [|
      first [eassumption
            |rewrite list_lookup_insert_ne by congruence; eassumption]]);
    unfold may_start in *; simpl; lia.
Qed.

(** Rules out that another thread holds the isolate's lock. *)
Lemma locker_unique n l ts p q ph ph' :
  locker_ok (Pool n l ts) -> ts !! p = Some ph -> ts !! q = Some ph' ->
  in_isolate ph = true -> in_isolate ph' = true -> p = q.
Proof.
  intros Hl Hp Hq H1 H2. pose proof (Hl p ph Hp H1). pose proof (Hl q ph' Hq H2).
  simpl in *. congruence.
Qed.

Lemma locker_free n ts p ph :
  locker_ok (Pool n None ts) -> ts !! p = Some ph -> in_isolate ph = false.
Proof. intros Hl Hp. destruct (in_isolate ph) eqn:E; [by specialize (Hl p ph Hp E)|done]. Qed.

Lemma lookup_spawned (ts : list phase) p ph q ph' :
  (<[p:=ph]> ts ++ [Working]) !! q = Some ph' ->
  <[p:=ph]> ts !! q = Some ph' ∨ ph' = Working.
Proof.
  rewrite lookup_app_Some. intros [?|[_ H]]; [by left|right].
  apply list_lookup_singleton_Some in H. by destruct H.
Qed.

Lemma locker_ok_step st st' : locker_ok st -> step st st' -> locker_ok st'.
Proof.
  intros Hl Hst r ph Hr Hi.
  assert (Hfree : forall n ts, locker_ok (Pool n None ts) -> ts !! r = Some ph -> False).
  { intros n ts H1 H2. by rewrite (locker_free _ _ _ _ H1 H2) in Hi. }
  destruct Hst as [n ts p Hp|n l ts p Hp|n l ts p Hp|n l ts p Hp Hn|n l ts p Hp Hn
    |n l ts p Hp|n l ts p Hp|n l ts q Hq|n l ts q p Hq Hp|n l ts q Hq Hno
    |n ts q Hq|n l ts q Hq]; simpl in *.
  - apply insert_cases in Hr as [(-> & -> & _)|[Hne Hr]]; [done|].
    exfalso. by eapply Hfree.
  - apply insert_cases in Hr as [(-> & -> & _)|[Hne Hr]]; [done|].
    exfalso. apply Hne. by eapply locker_unique.
  - apply insert_cases in Hr as [(-> & -> & _)|[Hne Hr]]; by eapply Hl.
  - apply insert_cases in Hr as [(-> & -> & _)|[Hne Hr]]; by eapply Hl.
  - apply insert_cases in Hr as [(-> & -> & _)|[Hne Hr]]; by eapply Hl.
  - apply insert_cases in Hr as [(-> & -> & _)|[Hne Hr]]; by eapply Hl.
  - apply lookup_spawned in Hr as [Hr| ->]; [|done].
    apply insert_cases in Hr as [(-> & -> & _)|[Hne Hr]]; by eapply Hl.
  - apply insert_cases in Hr as [(-> & -> & _)|[Hne Hr]]; [done|]. by eapply Hl.
  - apply insert_cases in Hr as [(-> & -> & _)|[Hne Hr]]; [by eapply Hl|].
    apply insert_cases in Hr as [(-> & -> & _)|[Hne' Hr]]; [done|by eapply Hl].
  - apply insert_cases in Hr as [(-> & -> & _)|[Hne Hr]]; [done|by eapply Hl].
  - apply insert_cases in Hr as [(-> & -> & _)|[Hne Hr]]; [done|].
    exfalso. by eapply Hfree.
  - apply insert_cases in Hr as [(-> & -> & _)|[Hne Hr]]; [done|].
    exfalso. apply Hne. by eapply locker_unique.
Qed.

(** A sleeper after a step of another thread slept before it. *)
Lemma wakeup_ok_step st st' : pool_ok st -> step st st' -> wakeup_ok st'.
Proof.
  intros ((Hc & Hm) & Hl & Hw) Hst r Hr.
  assert (Hkeep : forall n l ts p ph, st = Pool n l ts -> ts !! r = Some Sleeping ->
    ts !! p ≠ Some Notifying ->
    n = MAX_THREADS ∨ exists q, <[p:=ph]> ts !! q = Some Notifying).
  { intros n l ts p ph -> Hs Hp. destruct (Hw r Hs) as [|[q Hq]]; [by left|right].
    exists q. rewrite list_lookup_insert_ne; [done|]. intros ->. simpl in Hq. congruence. }
  destruct Hst as [n ts p Hp|n l ts p Hp|n l ts p Hp|n l ts p Hp Hn|n l ts p Hp Hn
    |n l ts p Hp|n l ts p Hp|n l ts q Hq|n l ts q p Hq Hp|n l ts q Hq Hno
    |n ts q Hq|n l ts q Hq]; simpl in *.
  - apply insert_cases in Hr as [(-> & ? & _)|[Hne Hr]]; [done|].
    eapply Hkeep; [done..|congruence].
  - apply insert_cases in Hr as [(-> & ? & _)|[Hne Hr]]; [done|].
    eapply Hkeep; [done..|congruence].
  - apply insert_cases in Hr as [(-> & ? & _)|[Hne Hr]]; [done|].
    eapply Hkeep; [done..|congruence].
  - apply insert_cases in Hr as [(-> & ? & _)|[Hne Hr]]; [done|].
    exfalso. apply Hne. by eapply locker_unique.
  - left. unfold may_start in Hn. lia.
  - apply insert_cases in Hr as [(-> & ? & _)|[Hne Hr]]; [done|].
    eapply Hkeep; [done..|congruence].
  - apply lookup_spawned in Hr as [Hr|?]; [|done].
    apply insert_cases in Hr as [(-> & ? & _)|[Hne Hr]]; [done|].
    exfalso. apply Hne. by eapply locker_unique.
  - right. exists q. rewrite list_lookup_insert_eq; [done|]. by eapply lookup_lt_Some.
  - apply insert_cases in Hr as [(-> & ? & _)|[Hne Hr]]; [done|].
    apply insert_cases in Hr as [(-> & ? & _)|[Hne' Hr]]; [done|].
    exfalso. apply Hne. by eapply locker_unique.
  - apply insert_cases in Hr as [(-> & ? & _)|[Hne Hr]]; [done|].
    exfalso. apply Hno. apply list_elem_of_lookup. eauto.
  - apply insert_cases in Hr as [(-> & ? & _)|[Hne Hr]]; [done|].
    eapply Hkeep; [done..|congruence].
  - apply insert_cases in Hr as [(-> & ? & _)|[Hne Hr]]; [done|].
    eapply Hkeep; [done..|congruence].
Qed.

Lemma pool_ok_step st st' : pool_ok st -> step st st' -> pool_ok st'.
Proof.
  intros Hok Hst. pose proof Hok as (Hc & Hl & Hw).
  split; [by eapply count_ok_step|]. split; [by eapply locker_ok_step|by eapply wakeup_ok_step].
Qed.

Lemma initial_outside servers p ph :
  replicate servers Outside !! p = Some ph -> ph = Outside.
Proof. rewrite lookup_replicate. by intros [-> _]. Qed.

Lemma reachable_ok servers st : reachable servers st -> pool_ok st.
Proof.
  apply (rtc_invariant step); [exact pool_ok_step|].
  split; [split; simpl; [by rewrite count_replicate|lia]|].
  split; intros p; [intros ph Hp%initial_outside|intros Hp%initial_outside]; by subst.
Qed.

(** ** Progress *)

(** The steps that do not involve the isolate's lock or a spurious wake-up:
    only these are needed to admit a waiting thread. *)
Inductive free_step : relation pool :=
| free_admit n l ts p :
    ts !! p = Some Checking -> may_start n = true ->
    free_step (Pool n l ts) (Pool (n + 1) l (<[p:=Spawning]> ts))
| free_finish n l ts q :
    ts !! q = Some Working ->
    free_step (Pool n l ts) (Pool (n - 1) l (<[q:=Notifying]> ts))
| free_notify n l ts q p :
    ts !! q = Some Notifying -> ts !! p = Some Sleeping ->
    free_step (Pool n l ts) (Pool n l (<[p:=Checking]> (<[q:=Locking]> ts))).

Lemma free_step_step st st' : free_step st st' -> step st st'.
Proof. destruct 1; eauto using step. Qed.

Definition admitted (p : nat) (st : pool) : Prop := threads st !! p = Some Spawning.

(** A thread that tests the predicate is admitted, at once or after one
    thread has counted itself out. *)
Lemma checking_admitted st p :
  pool_ok st -> threads st !! p = Some Checking ->
  exists st', rtc free_step st st' ∧ admitted p st'.
Proof.
  intros ((Hc & Hm) & Hl & _) Hp. destruct st as [n l ts]. simpl in *.
  pose proof (lookup_lt_Some _ _ _ Hp) as Hlt.
  destruct (may_start n) eqn:En.
  - eexists. split; [by apply rtc_once, free_admit|]. by apply list_lookup_insert_eq.
  - unfold may_start in En. destruct (count_pos ts) as (q & ph & Hq & Hcq); [lia|].
    assert (ph = Working) as ->.
    { destruct ph; try done. assert (p = q) as <- by (by eapply locker_unique). congruence. }
    assert (Hpq : q ≠ p) by congruence.
    eexists. split.
    + eapply rtc_l; [by apply free_finish|]. apply rtc_once, free_admit.
      * by rewrite list_lookup_insert_ne.
      * unfold may_start. lia.
    + apply list_lookup_insert_eq. by rewrite length_insert.
Qed.

(** A sleeping thread gets to test the predicate. *)
Lemma sleeping_checks st p :
  pool_ok st -> threads st !! p = Some Sleeping ->
  exists st', rtc free_step st st' ∧ threads st' !! p = Some Checking.
Proof.
  intros ((Hc & Hm) & Hl & Hw) Hp. destruct st as [n l ts]. simpl in *.
  pose proof (lookup_lt_Some _ _ _ Hp) as Hlt.
  assert (Hwake : forall n ts, ts !! p = Some Sleeping ->
    (exists q, ts !! q = Some Notifying) ->
    exists st', rtc free_step (Pool n l ts) st' ∧ threads st' !! p = Some Checking).
  { clear. intros n ts Hp [q Hq]. eexists. split; [by apply rtc_once, (free_notify _ _ _ q p)|].
    apply list_lookup_insert_eq. rewrite length_insert. by eapply lookup_lt_Some. }
  destruct (Hw p Hp) as [Hn|Hq]; simpl in *; [|by apply Hwake].
  destruct (count_pos ts) as (q & ph & Hq & Hcq); [lia|].
  assert (ph = Working) as ->.
  { destruct ph; try done. assert (p = q) as <- by (by eapply locker_unique). congruence. }
  destruct (Hwake (n - 1) (<[q:=Notifying]> ts)) as (st' & Hst & Hp').
  - rewrite list_lookup_insert_ne by congruence. done.
  - exists q. apply list_lookup_insert_eq. by eapply lookup_lt_Some.
  - exists st'. split; [|done]. eapply rtc_l; [by apply free_finish|done].
Qed.

(** ** The properties *)

(** C16 (bounds).  In every interleaving of any number of server threads,
    [thread_count] is the number of counted threads and never passes
    [MAX_THREADS]. *)
Theorem thread_count_bounded servers st :
  reachable servers st ->
  thread_count st = count (threads st) ∧ 0 <= thread_count st <= MAX_THREADS.
Proof.
  intros Hr. destruct (reachable_ok servers st Hr) as ([Hc Hm] & _).
  pose proof (count_nonneg (threads st)). lia.
Qed.


(** ** Witnesses *)

(** The script of one server thread has started [n] threads. *)
Lemma started_reachable n :
  (n <= 24)%nat -> reachable 1 (Pool (Z.of_nat n) (Some 0%nat) (Running :: replicate n Working)).
Proof.
  induction n as [|n IH]; intros Hn.
  - apply rtc_once. by apply (step_enter 0 [Outside] 0).
  - unfold reachable in *. etrans; [apply IH; lia|].
    eapply rtc_l; [by apply (step_call _ _ (Running :: replicate n Working) 0)|].
    eapply rtc_l; [apply (step_admit _ _ (Checking :: replicate n Working) 0); [done|unfold may_start; lia]|].
    apply rtc_once.
    pose proof (step_spawn (Z.of_nat n + 1) (Some 0%nat) (Spawning :: replicate n Working) 0 eq_refl) as Hs.
    replace (Z.of_nat (S n)) with (Z.of_nat n + 1) by lia.
    by rewrite replicate_S_end.
Qed.

(** [MAX_THREADS] threads work, and the next call sleeps. *)
Definition full : pool := Pool 24 (Some 0%nat) (Sleeping :: replicate 24 Working).

Lemma full_reachable : reachable 1 full.
Proof.
  unfold reachable. etrans; [by apply (started_reachable 24)|].
  eapply rtc_l; [by apply (step_call _ _ (Running :: replicate 24 Working) 0)|].
  apply rtc_once. by apply (step_block _ _ (Checking :: replicate 24 Working) 0).
Qed.


Lemma thread_count_bounded_witness :
  thread_count full = count (threads full) ∧ 0 <= thread_count full <= MAX_THREADS.
Proof. apply (thread_count_bounded 1), full_reachable. Defined.
