(* ===== verification/Callback.v ===== *)
(** * Requests: [register] and [handle_callback] of v8_wrapper.cpp, and the
    notification methods of http_module.cpp

    JavaScript runs in V8, which is not part of the repository: the interface
    [JSRuntime] gives the result of a call and the state of a promise. *)
From S2P Require Import Prelude Values.

(** ** Data *)

Inductive CALLBACK_TYPES := BEGIN_REQUEST | SEND_RESPONSE | PRE_BEGIN_REQUEST.

#[export] Instance callback_types_eq_dec : EqDecision CALLBACK_TYPES.
Proof. solve_decision. Defined.

(** The handles of the registered functions; [None] is an empty handle. *)
Record functions := {
  function_begin_request : option nat;
  function_send_response : option nat;
  function_pre_begin_request : option nat;
  (** [fs.register] stores its argument without testing it. *)
  function_directory_change : option value;
}.

Definition no_functions : functions :=
  {| function_begin_request := None; function_send_response := None;
     function_pre_begin_request := None; function_directory_change := None |}.

Definition callback_function (type : CALLBACK_TYPES) (f : functions) : option nat :=
  match type with
  | BEGIN_REQUEST => function_begin_request f
  | SEND_RESPONSE => function_send_response f
  | PRE_BEGIN_REQUEST => function_pre_begin_request f
  end.

Definition set_callback_function (type : CALLBACK_TYPES) (id : nat) (f : functions)
  : functions :=
  match type with
  | BEGIN_REQUEST =>
      {| function_begin_request := Some id;
         function_send_response := function_send_response f;
         function_pre_begin_request := function_pre_begin_request f;
         function_directory_change := function_directory_change f |}
  | SEND_RESPONSE =>
      {| function_begin_request := function_begin_request f;
         function_send_response := Some id;
         function_pre_begin_request := function_pre_begin_request f;
         function_directory_change := function_directory_change f |}
  | PRE_BEGIN_REQUEST =>
      {| function_begin_request := function_begin_request f;
         function_send_response := function_send_response f;
         function_pre_begin_request := Some id;
         function_directory_change := function_directory_change f |}
  end.

(** [CALLBACK_TYPES(int)] and the [switch] on it; [None] is its [default]. *)
Definition callback_type_of_int (z : Z) : option CALLBACK_TYPES :=
  if z =? 0 then Some BEGIN_REQUEST
  else if z =? 1 then Some SEND_RESPONSE
  else if z =? 2 then Some PRE_BEGIN_REQUEST
  else None.

(** [v8::Local<v8::Function>::Cast] of a value that is a function. *)
Definition function_id (v : value) : nat := match v with VFunction id => id | _ => 0%nat end.

(** ** [register] *)
Definition register : handler functions := fun args =>
  _ ← throw_if (args_Length args <? 1) "invalid function signature for register";
  if (args_Length args =? 1) && IsFunction (arg args 0) then
    _ ← modify (set_callback_function BEGIN_REQUEST (function_id (arg args 0)));
    mret VUndefined
  else
    _ ← throw_if (negb (IsNumber (arg args 0)) || negb (IsFunction (arg args 1)))
          "invalid function signature 2 for register";
    type ← from_v8_int (arg args 0);
    match callback_type_of_int type with
    | Some type =>
        _ ← modify (set_callback_function type (function_id (arg args 1)));
        mret VUndefined
    | None => raise "invalid callback type for register"
    end.

(** [fs.register(callback)]. *)
Definition fs_register : handler functions := fun args =>
  _ ← throw_if (args_Length args <? 1) "invalid function signature for fs.register";
  _ ← modify (fun f =>
        {| function_begin_request := function_begin_request f;
           function_send_response := function_send_response f;
           function_pre_begin_request := function_pre_begin_request f;
           function_directory_change := Some (arg args 0) |});
  mret VUndefined.

(** ** [handle_callback] *)

(** [REQUEST_NOTIFICATION_STATUS] and [GLOBAL_NOTIFICATION_STATUS] of IIS. *)
Abbreviation RQ_NOTIFICATION_CONTINUE := 0.
Abbreviation RQ_NOTIFICATION_PENDING := 1.
Abbreviation RQ_NOTIFICATION_FINISH_REQUEST := 2.
Abbreviation GL_NOTIFICATION_CONTINUE := 0.
Abbreviation GL_NOTIFICATION_HANDLED := 1.

(** An argument of the JavaScript callback: a clone of the response or the
    request object whose internal field holds the context, or a number. *)
Inductive callback_argument :=
| ResponseObject (http_context : nat)
| RequestObject (http_context : nat)
| Flags (flags : value).

Inductive promise_state :=
| kPending
| kFulfilled (result : value)
| kRejected (result : value).

(** V8: the state [J] of the JavaScript heap, calls of a function (which can
    register other functions; [None] is an empty result), and promises. *)
Class JSRuntime (J : Type) := {
  js_call : nat -> list callback_argument -> J * functions -> option value * (J * functions);
  js_promise : J -> nat -> promise_state;
}.

Record callback_state (J : Type) := CallbackState {
  isolate_ready : bool;
  fns : functions;
  js : J;
  (** [isolate->ThrowException] outside a JavaScript frame. *)
  pending_exception : option string;
  (** The contexts whose completion callback is attached to a promise. *)
  attached : list (nat * nat);
  (** The calls of [IndicateCompletion], in order. *)
  indicated : list (nat * Z);
}.
Arguments CallbackState {J}.
Arguments isolate_ready {J}.
Arguments fns {J}.
Arguments js {J}.
Arguments pending_exception {J}.
Arguments attached {J}.
Arguments indicated {J}.

Section handle_callback.
Context {J : Type} `{JSRuntime J}.

(** [from_v8<int>(isolate, v, 0) ? RQ_NOTIFICATION_FINISH_REQUEST
    : RQ_NOTIFICATION_CONTINUE] *)
Definition request_status (v : value) : Z :=
  if from_v8_default Z v 0 =? 0 then RQ_NOTIFICATION_CONTINUE
  else RQ_NOTIFICATION_FINISH_REQUEST.

Definition callback_arguments (type : CALLBACK_TYPES) (flags : Z) (c : nat)
  : list callback_argument :=
  [ResponseObject c; RequestObject c] ++
  (if bool_decide (type = SEND_RESPONSE) then [Flags (to_v8_unsigned flags)] else []).

(** [local_function->Call(...)]. *)
Definition Call (f : nat) (args : list callback_argument)
  : M (callback_state J) (option value) := fun st =>
  let '(r, (j, fs)) := js_call f args (js st, fns st) in
  (Ok r, CallbackState (isolate_ready st) fs j (pending_exception st)
           (attached st) (indicated st)).

Definition throw_ex (msg : string) : M (callback_state J) unit :=
  modify (fun st => CallbackState (isolate_ready st) (fns st) (js st) (Some msg)
                      (attached st) (indicated st)).

(** [promise->Then(context, function, function)] with the context in the
    function's data. *)
Definition Then (promise c : nat) : M (callback_state J) unit :=
  modify (fun st => CallbackState (isolate_ready st) (fns st) (js st)
                      (pending_exception st) (attached st ++ [(promise, c)])
                      (indicated st)).

(** What [handle_callback] does with the value the callback returned. *)
Definition handle_result (type : CALLBACK_TYPES) (c : nat) (result : value)
  : M (callback_state J) Z :=
  if bool_decide (type = PRE_BEGIN_REQUEST) && negb (IsNumber result) then
    _ ← throw_ex "The PRE_BEGIN_REQUEST callback must return either CONTINUE or FINISH.";
    mret 0
  else
    match result with
    | VPromise promise =>
        st ← get;
        match js_promise (js st) promise with
        | kFulfilled v | kRejected v => mret (request_status v)
        | kPending => _ ← Then promise c; mret RQ_NOTIFICATION_PENDING
        end
    | _ =>
        mret (if from_v8_default Z result 0 =? 0 then RQ_NOTIFICATION_CONTINUE
              else if bool_decide (type = PRE_BEGIN_REQUEST) then GL_NOTIFICATION_HANDLED
              else RQ_NOTIFICATION_FINISH_REQUEST)
    end.

(** [handle_callback] up to the locker: is there a function to call?  The
    locker is not held, so the answer can be out of date afterwards. *)
Definition handle_callback_check (type : CALLBACK_TYPES) : M (callback_state J) bool :=
  st ← get;
  if negb (isolate_ready st) then mret false
  else mret (bool_decide (is_Some (callback_function type (fns st)))).

(** [handle_callback] from the locker on; [flags] is what the provider's
    [GetFlags] returns.  The call of an empty handle is undefined. *)
Definition handle_callback_locked (type : CALLBACK_TYPES) (c : nat) (flags : Z)
  : M (callback_state J) Z :=
  st ← get;
  match callback_function type (fns st) with
  | None => crash "call of an empty function handle"
  | Some local_function =>
      result ← Call local_function (callback_arguments type flags c);
      match result with
      | None => mret 0
      | Some result_value => handle_result type c result_value
      end
  end.

(** [handle_callback(type, pHttpContext, pObject)], when nothing runs in
    between. *)
Definition handle_callback (type : CALLBACK_TYPES) (c : nat) (flags : Z)
  : M (callback_state J) Z :=
  callable ← handle_callback_check type;
  if callable : bool then handle_callback_locked type c flags else mret 0.

(** The lambda attached to the promise. *)
Definition promise_callback (c : nat) (v : value) : M (callback_state J) unit :=
  let request_notification_status := request_status v in
  modify (fun st => CallbackState (isolate_ready st) (fns st) (js st)
                      (pending_exception st) (attached st)
                      (indicated st ++ [(c, request_notification_status)])).

(** *** http_module.cpp *)
Definition OnBeginRequest (c : nat) : M (callback_state J) Z := handle_callback BEGIN_REQUEST c 0.
Definition OnSendResponse (c : nat) (flags : Z) : M (callback_state J) Z :=
  handle_callback SEND_RESPONSE c flags.
Definition OnGlobalPreBeginRequest (c : nat) : M (callback_state J) Z :=
  handle_callback PRE_BEGIN_REQUEST c 0.

(** What [reset_engine], on the engine thread, does to the registered
    functions; it builds a new context, so the heap is another one. *)
Definition reset_functions (j : J) (st : callback_state J) : callback_state J :=
  CallbackState (isolate_ready st) no_functions j (pending_exception st)
    (attached st) (indicated st).

(** *** What scripts do

    A call of [register] or [fs.register], with the handles behind it; a call that
    throws leaves them (v8pp turns the exception into one of the script). *)
Inductive registration := Register (args : callback_info) | FsRegister (args : callback_info).

Definition do_registration (fs : functions) (r : registration) : functions :=
  snd (match r with Register args => register args fs | FsRegister args => fs_register args fs end).

(** A script that runs under the locker, of [execute_file], of a callback or
    behind a promise, and makes the calls [l] of [register]; the heap is another
    one. *)
Definition run_script (l : list registration) (j : J) (st : callback_state J) : callback_state J :=
  CallbackState (isolate_ready st) (fold_left do_registration l (fns st)) j (pending_exception st)
    (attached st) (indicated st).

(** [isolate = v8::Isolate::New(...)], on the engine thread. *)
Definition isolate_made (st : callback_state J) : callback_state J :=
  CallbackState true (fns st) (js st) (pending_exception st) (attached st) (indicated st).

(** ** The server: requests, scripts, promises and resets interleaved *)

Record server := Server {
  state : callback_state J;
  (** The requests that passed the check and wait for the locker. *)
  checked : list (CALLBACK_TYPES * nat * Z);
  (** The notifications handled so far: type, context, returned status. *)
  returned : list (CALLBACK_TYPES * nat * Z);
}.

Definition on_promise (promise : nat) (a : nat * nat) : Prop := fst a = promise.

#[export] Instance on_promise_dec promise a : Decision (on_promise promise a).
Proof. unfold on_promise. apply _. Defined.

Fixpoint run_callbacks (cs : list (nat * nat)) (v : value) : M (callback_state J) unit :=
  match cs with
  | [] => mret ()
  | (_, c) :: cs' => _ ← promise_callback c v; run_callbacks cs' v
  end.

Definition settle (promise : nat) (v : value) (j : J) (st : callback_state J)
  : callback_state J :=
  let st1 := CallbackState (isolate_ready st) (fns st) j (pending_exception st)
               (filter (fun a => ¬ on_promise promise a) (attached st)) (indicated st) in
  snd (run_callbacks (filter (on_promise promise) (attached st)) v st1).

(** One step of a server thread; of the engine thread, which makes the isolate,
    resets the engine and executes scripts, which register functions; or of a
    promise that settles: its attached callbacks run, each once, and what scripts
    wait for it with runs and can register functions. *)
Inductive server_step : relation server :=
| step_checked type c flags st st' q rs :
    handle_callback_check type st = (Ok true, st') ->
    server_step (Server st q rs) (Server st' (q ++ [(type, c, flags)]) rs)
| step_unregistered type c st st' q rs :
    handle_callback_check type st = (Ok false, st') ->
    server_step (Server st q rs) (Server st' q (rs ++ [(type, c, 0)]))
| step_locked type c flags st st' q1 q2 rs r :
    handle_callback_locked type c flags st = (Ok r, st') ->
    server_step (Server st (q1 ++ (type, c, flags) :: q2) rs)
                (Server st' (q1 ++ q2) (rs ++ [(type, c, r)]))
| step_isolate st q rs :
    server_step (Server st q rs) (Server (isolate_made st) q rs)
| step_reset j st q rs :
    server_step (Server st q rs) (Server (reset_functions j st) q rs)
| step_script l j st q rs :
    server_step (Server st q rs) (Server (run_script l j st) q rs)
| step_settle promise v l j st q rs :
    server_step (Server st q rs) (Server (run_script l j (settle promise v j st)) q rs).

(** The status 1 means PENDING, except to the global notification. *)
Definition is_pending (a : CALLBACK_TYPES * nat * Z) : Prop :=
  a.1.1 ≠ PRE_BEGIN_REQUEST ∧ a.2 = RQ_NOTIFICATION_PENDING.

#[local] Instance is_pending_dec a : Decision (is_pending a).
Proof. unfold is_pending. apply _. Defined.

(** The requests that were returned PENDING. *)
Definition pending_requests (rs : list (CALLBACK_TYPES * nat * Z)) : list nat :=
  map (fun a => a.1.2) (filter is_pending rs).

(** Each of them waits for its promise or was completed. *)
Definition accounted (sv : server) : Prop :=
  pending_requests (returned sv)
    ≡ₚ map snd (attached (state sv)) ++ map fst (indicated (state sv)).

(** *** Lemmas *)

Lemma handle_callback_check_state type st :
  handle_callback_check type st
    = (Ok (isolate_ready st && bool_decide (is_Some (callback_function type (fns st)))), st).
Proof. unfold handle_callback_check. rewrite bind_get. by destruct (isolate_ready st). Qed.

(** The three ways a request ends in [handle_result]. *)
Lemma handle_result_cases type c v st :
  exists r st', handle_result type c v st = (Ok r, st') ∧
    indicated st' = indicated st ∧
    ((r = RQ_NOTIFICATION_PENDING ∧ type ≠ PRE_BEGIN_REQUEST ∧
      exists promise, v = VPromise promise ∧ js_promise (js st) promise = kPending ∧
        attached st' = attached st ++ [(promise, c)]) ∨
     (attached st' = attached st ∧
      (r = RQ_NOTIFICATION_CONTINUE ∨
       (type = PRE_BEGIN_REQUEST ∧ r = GL_NOTIFICATION_HANDLED) ∨
       (type ≠ PRE_BEGIN_REQUEST ∧ r = RQ_NOTIFICATION_FINISH_REQUEST)))).
Proof.
  unfold handle_result.
  destruct (bool_decide (type = PRE_BEGIN_REQUEST) && negb (IsNumber v)) eqn:E;
    [eexists _, _; split_and!; [reflexivity|done|]; right; auto|].
  apply andb_false_iff in E.
  destruct v as [| |b|x|s| |id|u|promise|props];
    try (eexists _, _; split_and!; [reflexivity|done|]; right; split; [done|];
         repeat case_match; auto; case_bool_decide; auto; done).
  rewrite bind_get.
  assert (type ≠ PRE_BEGIN_REQUEST).
  { destruct E as [E|E]; [by apply bool_decide_eq_false in E|done]. }
  destruct (js_promise (js st) promise) as [|w|w] eqn:Ep.
  - eexists _, _. split_and!; [reflexivity|done|]. left. eauto 10.
  - eexists _, _. split_and!; [reflexivity|done|]. right. split; [done|].
    unfold request_status. destruct (_ =? _); auto.
  - eexists _, _. split_and!; [reflexivity|done|]. right. split; [done|].
    unfold request_status. destruct (_ =? _); auto.
Qed.

(** What a notification that ran leaves behind: a PENDING request is
    attached to a promise, any other changes neither list. *)
Definition leaves (type : CALLBACK_TYPES) (c : nat) (st : callback_state J) (r : Z)
  (st' : callback_state J) : Prop :=
  indicated st' = indicated st ∧
  ((is_pending (type, c, r) ∧ exists promise, attached st' = attached st ++ [(promise, c)]) ∨
   (¬ is_pending (type, c, r) ∧ attached st' = attached st)) ∧
  (r = 0 ∨ (type = PRE_BEGIN_REQUEST ∧ r = GL_NOTIFICATION_HANDLED) ∨
   (type ≠ PRE_BEGIN_REQUEST ∧
    (r = RQ_NOTIFICATION_FINISH_REQUEST ∨ r = RQ_NOTIFICATION_PENDING))).

Lemma leaves_continue type c st st' :
  indicated st' = indicated st -> attached st' = attached st -> leaves type c st 0 st'.
Proof. intros Hi Ha. split; [done|]. split; [right; split; [by intros []|done]|auto]. Qed.

Lemma handle_result_leaves type c v st :
  exists r st', handle_result type c v st = (Ok r, st') ∧ leaves type c st r st'.
Proof.
  destruct (handle_result_cases type c v st) as (r & st' & E & Hi & Hc).
  exists r, st'. split; [done|]. split; [done|].
  destruct Hc as [(-> & Ht & p & _ & _ & Ha)|[Ha Hr]].
  - split; [left; split; [done|eauto]|]. auto.
  - split; [right; split; [|done]|].
    + intros [Ht Hp]. simpl in *. destruct Hr as [->|[[? ->]|[? ->]]]; done.
    + destruct Hr as [->|[[? ->]|[? ->]]]; auto.
Qed.

Lemma handle_callback_locked_leaves type c flags st f :
  callback_function type (fns st) = Some f ->
  exists r st', handle_callback_locked type c flags st = (Ok r, st') ∧ leaves type c st r st'.
Proof.
  intros Hf. unfold handle_callback_locked. rewrite bind_get, Hf.
  unfold mbind, M_bind at 1, Call.
  destruct (js_call f _ _) as [[v|] [j fs]].
  - apply (handle_result_leaves type c v (CallbackState _ _ _ _ (attached st) (indicated st))).
  - eexists _, _. split; [reflexivity|]. by apply leaves_continue.
Qed.

Lemma handle_callback_locked_cases type c flags st r st' :
  handle_callback_locked type c flags st = (Ok r, st') -> leaves type c st r st'.
Proof.
  intros E. destruct (callback_function type (fns st)) as [f|] eqn:Hf.
  - destruct (handle_callback_locked_leaves type c flags st f Hf) as (r1 & st1 & E1 & Hl).
    rewrite E1 in E. by injection E as -> ->.
  - unfold handle_callback_locked in E. rewrite bind_get, Hf in E. discriminate E.
Qed.

Lemma handle_callback_total type c flags st :
  exists r st', handle_callback type c flags st = (Ok r, st') ∧ leaves type c st r st'.
Proof.
  unfold handle_callback.
  rewrite (bind_ok _ _ _ _ _ (handle_callback_check_state type st)).
  destruct (isolate_ready st); simpl; [|eauto using leaves_continue].
  case_bool_decide as Hf; [|eauto using leaves_continue].
  destruct Hf as [f Hf]. by apply (handle_callback_locked_leaves _ _ _ _ f).
Qed.

Lemma run_callbacks_run cs v st :
  exists st', run_callbacks cs v st = (Ok (), st') ∧ attached st' = attached st ∧
    indicated st' = indicated st ++ map (fun a => (snd a, request_status v)) cs.
Proof.
  revert st. induction cs as [|[p c] cs IH]; intros st; simpl.
  - exists st. by rewrite app_nil_r.
  - destruct (IH (snd (promise_callback c v st))) as (st' & E & Ha & Hi).
    exists st'. split; [exact E|].
    rewrite Ha, Hi. simpl. by rewrite <- app_assoc.
Qed.

Lemma filter_split {A} (P : A -> Prop) `{!forall x, Decision (P x)} (l : list A) :
  l ≡ₚ filter P l ++ filter (fun x => ¬ P x) l.
Proof.
  induction l as [|x l IH]; [done|]. rewrite !filter_cons.
  destruct (decide (P x)), (decide (¬ P x)); try contradiction; simpl.
  - by rewrite <- IH.
  - by rewrite <- Permutation_middle, <- IH.
Qed.

Lemma accounted_return type c st st' r q rs q' :
  accounted (Server st q rs) -> leaves type c st r st' ->
  accounted (Server st' q' (rs ++ [(type, c, r)])).
Proof.
  unfold accounted, pending_requests. simpl. intros Hacc (Hi & Hc & _).
  rewrite filter_app, map_app, Hacc, Hi.
  destruct Hc as [[Hp [promise Ha]]|[Hp Ha]]; rewrite Ha.
  - rewrite filter_cons_True by done. rewrite map_app. simpl.
    rewrite <- !app_assoc.
    apply Permutation_app_head, Permutation_app_comm.
  - rewrite filter_cons_False by done. simpl. by rewrite app_nil_r.
Qed.

Lemma accounted_settle promise v j st q rs :
  accounted (Server st q rs) -> accounted (Server (settle promise v j st) q rs).
Proof.
  unfold accounted. simpl. intros Hacc. rewrite Hacc. unfold settle.
  match goal with |- context [run_callbacks ?cs ?v ?s] =>
    destruct (run_callbacks_run cs v s) as (st' & -> & Ha & Hi) end.
  simpl in *. rewrite Ha, Hi, map_app, map_map. simpl.
  rewrite (filter_split (on_promise promise) (attached st)) at 1.
  rewrite map_app. rewrite (Permutation_app_comm (map snd _) (map snd _)).
  rewrite <- !app_assoc. apply Permutation_app_head, Permutation_app_comm.
Qed.

Lemma accounted_step sv sv' : accounted sv -> server_step sv sv' -> accounted sv'.
Proof.
  intros Hacc Hst.
  destruct Hst as [type c flags st st' q rs E|type c st st' q rs E|
                   type c flags st st' q1 q2 rs r E|st q rs|j st q rs|l j st q rs|p v l j st q rs].
  - rewrite handle_callback_check_state in E. by simplify_eq.
  - rewrite handle_callback_check_state in E. simplify_eq.
    eapply accounted_return; [done|]. by apply leaves_continue.
  - eapply accounted_return; [done|]. by eapply handle_callback_locked_cases.
  - done.
  - done.
  - done.
  - by apply (accounted_settle p v j) in Hacc.
Qed.

(** ** The properties *)

(** (functional).  [handle_callback] always ends with a status of the
    notification it serves: CONTINUE or HANDLED for the global one, CONTINUE,
    FINISH_REQUEST or PENDING for the others. *)
Theorem handle_callback_status type c flags st :
  exists r st', handle_callback type c flags st = (Ok r, st') ∧
    match type with
    | PRE_BEGIN_REQUEST => r = GL_NOTIFICATION_CONTINUE ∨ r = GL_NOTIFICATION_HANDLED
    | _ => r = RQ_NOTIFICATION_CONTINUE ∨ r = RQ_NOTIFICATION_FINISH_REQUEST ∨
           r = RQ_NOTIFICATION_PENDING
    end.
Proof.
  destruct (handle_callback_total type c flags st) as (r & st' & E & _ & _ & Hr).
  exists r, st'. split; [done|].
  destruct type; intuition done.
Qed.

(** C3 (invariant).  No request is lost or completed twice: in every
    interleaving of notifications, scripts that register functions, resets and
    settling promises, the requests that were returned PENDING are, one for one,
    those attached to a promise and those for which [IndicateCompletion] was
    called. *)
Theorem pending_requests_accounted st sv :
  attached st = [] -> indicated st = [] -> rtc server_step (Server st [] []) sv ->
  pending_requests (returned sv)
    ≡ₚ map snd (attached (state sv)) ++ map fst (indicated (state sv)).
Proof.
  intros Ha Hi. apply (rtc_invariant server_step accounted); [exact accounted_step|].
  unfold accounted. simpl. by rewrite Ha, Hi.
Qed.

(** (functional).  Whether a request runs is decided by the registered
    function alone: without one, or before the isolate is there, the status
    is CONTINUE and nothing changes. *)
Theorem handle_callback_unregistered type c flags st :
  isolate_ready st = false ∨ callback_function type (fns st) = None ->
  handle_callback type c flags st = (Ok RQ_NOTIFICATION_CONTINUE, st).
Proof.
  intros Hno. unfold handle_callback.
  rewrite (bind_ok _ _ _ _ _ (handle_callback_check_state type st)).
  destruct Hno as [-> | ->]; [done|]. by rewrite andb_false_r.
Qed.

(** (safety).  The check and the call are not one step.  A request that
    passes the check while the engine thread resets the engine calls an
    empty handle: from every state with a registered function the server
    reaches one where a waiting request cannot run. *)
Theorem handle_callback_reset_race type c flags st :
  isolate_ready st = true -> is_Some (callback_function type (fns st)) ->
  exists sv, rtc server_step (Server st [] []) sv ∧ checked sv = [(type, c, flags)] ∧
    handle_callback_locked type c flags (state sv)
      = (Crash "call of an empty function handle", state sv).
Proof.
  intros Hr Hf. exists (Server (reset_functions (js st) st) [(type, c, flags)] []).
  split; [|split; [done|by destruct type]].
  eapply rtc_l; [|apply rtc_once, step_reset].
  apply (step_checked type c flags st st [] []).
  rewrite handle_callback_check_state, Hr. by rewrite bool_decide_true.
Qed.
End handle_callback.

Lemma register_no_crash args fs w : fst (register args fs) ≠ Crash w.
Proof.
  unfold register, from_v8_int, from_v8, throw_if, mbind, M_bind.
  by repeat (case_match || intros [=]; try discriminate; simplify_eq).
Qed.

(** (functional).  [register(type, f)] installs [f] for exactly that
    notification, [register(f)] for BEGIN_REQUEST; the other handles keep
    their functions. *)
Theorem register_installs (type : CALLBACK_TYPES) (z : Z) f fs rest this_ other :
  callback_type_of_int z = Some type ->
  let args := {| this_field := this_; argv := VInt z :: VFunction f :: rest |} in
  exists fs', register args fs = (Ok VUndefined, fs') ∧
    callback_function type fs' = Some f ∧
    function_directory_change fs' = function_directory_change fs ∧
    (other ≠ type -> callback_function other fs' = callback_function other fs) ∧
    register {| this_field := this_; argv := [VFunction f] |} fs
      = (Ok VUndefined, set_callback_function BEGIN_REQUEST f fs).
Proof.
  intros Hz args. exists (set_callback_function type f fs). split_and!.
  - unfold register, args, args_Length, arg. cbn [argv length lookup list_lookup default].
    rewrite bind_throw_if by (apply Z.ltb_ge; simpl; lia).
    replace (Z.of_nat _ =? 1) with false by (symmetry; apply Z.eqb_neq; simpl; lia).
    cbn [andb IsFunction].
    rewrite bind_throw_if by done.
    rewrite (bind_ok _ _ _ (i32 z) fs) by (by rewrite <- to_int32_num).
    assert (0 <= z <= 2).
    { unfold callback_type_of_int in Hz. repeat case_match; try done; lia. }
    rewrite i32_small by lia. by rewrite Hz.
  - by destruct type.
  - by destruct type.
  - by destruct type, other.
  - done.
Qed.

(** (error).  A [register] call that is refused changes no handle. *)
Theorem register_refused args fs e fs' :
  register args fs = (Throw e, fs') -> fs' = fs.
Proof.
  unfold register.
  destruct (args_Length args <? 1) eqn:E1;
    [rewrite bind_throw_if_true by done; by intros; simplify_eq|].
  rewrite bind_throw_if by done.
  destruct (_ && _); [discriminate|].
  destruct (negb _ || negb _) eqn:E2;
    [rewrite bind_throw_if_true by done; by intros; simplify_eq|].
  rewrite bind_throw_if by done. unfold from_v8_int, from_v8.
  destruct (is_valid _);
    [rewrite bind_ret|unfold throw, mbind, M_bind; by intros; simplify_eq].
  destruct (callback_type_of_int _); [discriminate|]. unfold raise, throw. by intros; simplify_eq.
Qed.

(** ** The properties at a concrete input *)

(** A runtime whose functions return [answer f] and leave no trace; its
    promises are pending. *)
Definition fixed_runtime (answer : nat -> value) : JSRuntime unit := {|
  js_call f _ s := (Some (answer f), s);
  js_promise _ _ := kPending;
|}.

Definition one_function : callback_state unit :=
  CallbackState true
    {| function_begin_request := Some 5%nat; function_send_response := None;
       function_pre_begin_request := None; function_directory_change := None |}
    () None [] [].

Definition register_call (id : nat) : registration :=
  Register {| this_field := false; argv := [VFunction id] |}.

(** An engine that starts, executes its script, is reset and executes the script
    again; then a request that returns PENDING and is completed by its promise. *)
Lemma pending_requests_accounted_witness :
  let answering := fixed_runtime (fun _ => VPromise 3) in
  let st := CallbackState false no_functions () None [] [] in
  let sv :=
    {| state := run_script [] ()
         (settle 3 (VInt 1) () (CallbackState true (fns one_function) () None [(3%nat, 9%nat)] []));
       checked := []; returned := [(BEGIN_REQUEST, 9%nat, RQ_NOTIFICATION_PENDING)] |} in
  indicated (state sv) = [(9%nat, RQ_NOTIFICATION_FINISH_REQUEST)] ∧
  pending_requests (returned sv)
    ≡ₚ map snd (attached (state sv)) ++ map fst (indicated (state sv)).
Proof.
  intros answering st sv. split; [reflexivity|].
  apply (pending_requests_accounted (H := answering) st sv eq_refl eq_refl).
  eapply rtc_l; [apply step_isolate|].
  eapply rtc_l; [apply (step_script (H := answering) [register_call 4] ())|].
  eapply rtc_l; [apply (step_reset (H := answering) ())|].
  eapply rtc_l; [apply (step_script (H := answering) [register_call 5] ())|].
  eapply rtc_l.
  - apply (step_checked (H := answering) BEGIN_REQUEST 9 0). reflexivity.
  - eapply rtc_l; [|apply rtc_once, (step_settle (H := answering) 3 (VInt 1) [] ())].
    apply (step_locked (H := answering) BEGIN_REQUEST 9 0 _ _ [] [] [] RQ_NOTIFICATION_PENDING).
    reflexivity.
Defined.

Lemma handle_callback_unregistered_witness :
  handle_callback (H := fixed_runtime (fun _ => VUndefined)) SEND_RESPONSE 9 0 one_function
    = (Ok RQ_NOTIFICATION_CONTINUE, one_function).
Proof. apply handle_callback_unregistered. right. reflexivity. Defined.

Lemma register_installs_witness :
  exists fs', register {| this_field := false; argv := [VInt 2; VFunction 7] |} (fns one_function)
      = (Ok VUndefined, fs') ∧ function_begin_request fs' = Some 5%nat.
Proof.
  destruct (register_installs PRE_BEGIN_REQUEST 2 7 (fns one_function) [] false BEGIN_REQUEST
              eq_refl) as (fs' & E & _ & _ & Ho & _).
  exists fs'. split; [exact E|]. apply Ho. discriminate.
Defined.

Lemma register_refused_witness :
  exists e, register {| this_field := false; argv := [VInt 3; VFunction 7] |} (fns one_function)
      = (Throw e, fns one_function).
Proof.
  exists (StdException "invalid callback type for register").
  destruct (register {| this_field := false; argv := [VInt 3; VFunction 7] |} (fns one_function))
    as [o fs'] eqn:E.
  assert (o = Throw (StdException "invalid callback type for register")) as ->
    by (vm_compute in E; by inversion E).
  by rewrite (register_refused _ _ _ _ E).
Defined.

Lemma handle_callback_reset_race_witness :
  exists sv, checked sv = [(BEGIN_REQUEST, 9%nat, 0)] ∧
    handle_callback_locked (H := fixed_runtime (fun _ => VUndefined)) BEGIN_REQUEST 9 0 (state sv)
      = (Crash "call of an empty function handle", state sv).
Proof.
  destruct (handle_callback_reset_race (H := fixed_runtime (fun _ => VUndefined))
              BEGIN_REQUEST 9 0 one_function eq_refl ltac:(by exists 5%nat))
    as (sv & _ & Hc & E).
  exists sv. split; [exact Hc|exact E].
Defined.
