(* ===== verification/Engine.v ===== *)
(** * The engine thread: start, reset_engine, load_and_watch, execute_file,
    execute_string, report_exception and their helpers of v8_wrapper.cpp

    V8 and Windows are not part of the repository: [Host] is the interface to
    them.  A script is what it does to the module: the tree [program] of its
    calls of the global functions. *)
From stdpp Require Import pretty.
From S2P Require Import Prelude Paths Values Callback.

(** ** The host *)

(** [v8::TryCatch] after a failure: the exception's text, and its message with
    line, source line, columns and stack trace; [None] is an empty handle (or
    a failed conversion). *)
Record message := Message {
  GetLineNumber : option Z;
  GetSourceLine : option (option bytes);
  GetStartColumn : option Z;
  GetEndColumn : option Z;
}.

Record try_catch := TryCatch {
  tc_exception : option bytes;
  tc_message : option message;
  tc_stack_trace : option (option bytes);
}.

(** The global functions a script calls that act on the engine. *)
Inductive global_function := GPrint | GLoad | GRegister | GFsRegister.

(** What a script does from here on: it ends, it throws, it calls a global
    function and goes on with the result, or something else happens. *)
Inductive program (W : Type) :=
| Returns
| Fails (tc : try_catch)
| CallGlobal (g : global_function) (args : list value) (k : js_result -> program W)
| Other (f : W -> W) (k : W -> program W).
Arguments Returns {W}.
Arguments Fails {W}.
Arguments CallGlobal {W}.
Arguments Other {W}.

(** [_wfopen], [fread] and [ferror] on a script. *)
Inductive script_file := NoHandle | ReadError | Contents (b : bytes).

Class Host (W : Type) := {
  SHGetKnownFolderPath : W -> option wstring;
  last_write_time : wstring -> W -> option Z;
  read_script : wstring -> W -> script_file;
  is_directory : wstring -> W -> bool;
  CreateDirectoryW : wstring -> W -> bool * W;
  FindFirstChangeNotificationW : wstring -> W -> Z * W;
  WaitForSingleObject : Z -> Z -> W -> Z * W;
  Sleep : Z -> W -> W;
  ToDetailString : value -> option wstring;
  Script_Compile : bytes -> bytes -> try_catch + program W;
  function_body : nat -> program W;
  (** [path::u8string] and the conversion of [%ws]. *)
  u8string : wstring -> bytes;
  format_ws : wstring -> bytes;
}.

Abbreviation WAIT_OBJECT_0 := 0.
Abbreviation WAIT_TIMEOUT := 258.

(** ** State *)

(** The template objects: the number of the context each was made in. *)
Record templates := Templates {
  global_ipc_object : option nat;
  global_db_object : option nat;
  global_fetch_object : option nat;
  global_http_response_object : option nat;
  global_http_request_object : option nat;
}.

Record engine (W : Type) := Engine {
  (** The number of contexts made; 0 is the empty handle. *)
  context : nat;
  objects : templates;
  registered : functions;
  loaded_scripts : list (wstring * Z);
  app_pool_folder_name : wstring;
  fs_dir : wstring;
  (** The handles [FindFirstChangeNotificationW] returned, newest last. *)
  notify_handles : list Z;
  (** The strings given to [OutputDebugStringA]. *)
  debug_output : list bytes;
  (** [isolate->ThrowException]. *)
  scheduled : option string;
  eternal_name_cache_ : gmap Z (list wstring);
  world : W;
}.
Arguments Engine {W}.
Arguments context {W}.
Arguments objects {W}.
Arguments registered {W}.
Arguments loaded_scripts {W}.
Arguments app_pool_folder_name {W}.
Arguments fs_dir {W}.
Arguments notify_handles {W}.
Arguments debug_output {W}.
Arguments scheduled {W}.
Arguments eternal_name_cache_ {W}.
Arguments world {W}.

Definition newline : bytes := [10].

Definition out_of_stack : string := "script files load each other without end".

(** [fs::path::filename]: the part after the last separator and after a drive;
    "." for a path that ends in a separator, the separator for a root. *)
Fixpoint after_separator (s acc : wstring) : wstring :=
  match s with
  | [] => acc
  | c :: s' => after_separator s' (if is_separator c then s' else acc)
  end.

Definition drop_drive (s : wstring) : wstring :=
  match s with
  | _ :: 58 :: ((_ :: _) as s') => s'
  | _ => s
  end.

Definition filename (s : wstring) : wstring :=
  match s with
  | [] => []
  | _ =>
      match drop_drive (after_separator s s) with
      | [] => if forallb is_separator s then [BACKSLASH] else L "."
      | name => name
      end
  end.

(** The path [get_path] builds below a folder. *)
Definition script_path (folder app_pool script : wstring) : wstring :=
  match script with
  | [] => folder
  | _ => path_append (path_append folder app_pool) (filename script)
  end.

Section engine.
Context {W : Type} `{Host W} `{V8Strings}.

Definition set_world (w : W) (e : engine W) : engine W :=
  Engine (context e) (objects e) (registered e) (loaded_scripts e)
    (app_pool_folder_name e) (fs_dir e) (notify_handles e) (debug_output e)
    (scheduled e) (eternal_name_cache_ e) w.

Definition set_registered (f : functions) (e : engine W) : engine W :=
  Engine (context e) (objects e) f (loaded_scripts e)
    (app_pool_folder_name e) (fs_dir e) (notify_handles e) (debug_output e)
    (scheduled e) (eternal_name_cache_ e) (world e).

Definition set_scheduled (m : option string) (e : engine W) : engine W :=
  Engine (context e) (objects e) (registered e) (loaded_scripts e)
    (app_pool_folder_name e) (fs_dir e) (notify_handles e) (debug_output e)
    m (eternal_name_cache_ e) (world e).

Definition set_loaded (l : list (wstring * Z)) (e : engine W) : engine W :=
  Engine (context e) (objects e) (registered e) l
    (app_pool_folder_name e) (fs_dir e) (notify_handles e) (debug_output e)
    (scheduled e) (eternal_name_cache_ e) (world e).

Definition add_output (s : bytes) (e : engine W) : engine W :=
  Engine (context e) (objects e) (registered e) (loaded_scripts e)
    (app_pool_folder_name e) (fs_dir e) (notify_handles e) (debug_output e ++ [s])
    (scheduled e) (eternal_name_cache_ e) (world e).

(** ** Output *)

(** [vs_printf] of an already formatted text: a buffer of 1024 bytes with
    its NUL; the result is the length of the whole text. *)
Definition vs_printf (formatted : bytes) : M (engine W) Z :=
  _ ← modify (add_output (c_str (take 1023 formatted)));
  mret (Z.of_nat (length formatted)).

(** [c_string]. *)
Definition c_string (value : option bytes) : bytes :=
  default (L "<string conversion failed>") value.

(** The argument of a [%s] and of a [%i]. *)
Definition percent_s (s : bytes) : bytes := c_str s.
Definition percent_i (z : Z) : bytes := L (pretty z).

(** [for (int i = start; i < end; i++) vs_printf(s);] *)
Fixpoint repeat_print (n : nat) (s : bytes) : M (engine W) unit :=
  match n with
  | O => mret ()
  | S n' => _ ← vs_printf s; repeat_print n' s
  end.

(** [FromJust] and [ToLocalChecked]: fatal on an empty value. *)
Definition FromJust {A} (x : option A) : M (engine W) A :=
  match x with Some a => mret a | None => crash "empty handle" end.

Definition report_exception (tc : try_catch) : M (engine W) unit :=
  let exception_string := c_string (tc_exception tc) in
  match tc_message tc with
  | None => _ ← vs_printf (percent_s exception_string ++ newline); mret ()
  | Some message =>
      linenum ← FromJust (GetLineNumber message);
      _ ← vs_printf (percent_i linenum ++ L ": " ++ percent_s exception_string ++ newline);
      sourceline ← FromJust (GetSourceLine message);
      _ ← vs_printf (percent_s (c_string sourceline) ++ newline);
      start ← FromJust (GetStartColumn message);
      _ ← repeat_print (Z.to_nat start) (L " ");
      end_ ← FromJust (GetEndColumn message);
      _ ← repeat_print (Z.to_nat (end_ - start)) (L "^");
      _ ← vs_printf newline;
      match tc_stack_trace tc with
      | Some stack_trace => _ ← vs_printf (percent_s (c_string stack_trace) ++ newline); mret ()
      | None => mret ()
      end
  end.

(** [print(msg, ...)]. *)
Fixpoint print_loop (first : bool) (vs : list value) : M (engine W) unit :=
  match vs with
  | [] => mret ()
  | v :: vs' =>
      text ← FromJust (ToDetailString v);
      _ ← (if first then mret 0 else vs_printf (L " "));
      _ ← vs_printf (percent_s (Utf8Value text));
      print_loop false vs'
  end.

Definition print : handler (engine W) := fun args =>
  _ ← print_loop true (argv args);
  _ ← vs_printf newline;
  mret VUndefined.

(** ** Paths and names *)

(** [get_path]; the empty string is the default of its parameter. *)
Definition get_path (script : wstring) : M (engine W) wstring :=
  e ← get;
  match SHGetKnownFolderPath (world e) with
  | None => raise "unable to get known folder"
  | Some known_folder => mret (script_path known_folder (app_pool_folder_name e) script)
  end.

Definition find_or_create_eternal_name_cache (lookup_key : Z) (names : list bytes)
  : M (engine W) (list wstring) :=
  e ← get;
  match eternal_name_cache_ e !! lookup_key with
  | Some v => mret v
  | None =>
      let new_vector := map NewFromUtf8 names in
      _ ← put (Engine (context e) (objects e) (registered e) (loaded_scripts e)
             (app_pool_folder_name e) (fs_dir e) (notify_handles e) (debug_output e)
             (scheduled e) (<[lookup_key := new_vector]> (eternal_name_cache_ e)) (world e));
      mret new_vector
  end.

(** ** Contexts *)

(** The [IsEmpty] guards of [initialize_objects]: an object is made in the
    current context unless there is one already. *)
Definition initialize_objects : M (engine W) unit :=
  modify (fun e =>
    let fill (o : option nat) := match o with None => Some (context e) | _ => o end in
    let t := objects e in
    Engine (context e)
      (Templates (fill (global_ipc_object t)) (fill (global_db_object t))
         (fill (global_fetch_object t)) (fill (global_http_response_object t))
         (fill (global_http_request_object t)))
      (registered e) (loaded_scripts e) (app_pool_folder_name e) (fs_dir e)
      (notify_handles e) (debug_output e) (scheduled e) (eternal_name_cache_ e) (world e)).

Definition reset_engine : M (engine W) unit :=
  _ ← modify (fun e =>
        Engine (S (context e))
          (Templates (global_ipc_object (objects e)) (global_db_object (objects e))
             (global_fetch_object (objects e)) None None)
          no_functions [] (app_pool_folder_name e) (fs_dir e) (notify_handles e)
          (debug_output e) (scheduled e) (eternal_name_cache_ e) (world e));
  initialize_objects.

Definition ThrowException (m : string) : M (engine W) unit := modify (set_scheduled (Some m)).

(** A [v8::Context::Scope] on [context.Get(isolate)]. *)
Definition enter_context : M (engine W) unit :=
  e ← get; if (context e =? 0)%nat then crash "entering an empty context" else mret ().

(** ** Scripts *)

Section scripts.
(** The files a script loads are executed by this. *)
Variable execute : wstring -> M (engine W) unit.

(** [load(fileName, ...)]. *)
Fixpoint load_loop (vs : list value) : M (engine W) unit :=
  match vs with
  | [] => mret ()
  | v :: vs' =>
      name ← from_v8_wstring v;
      path ← get_path name;
      _ ← execute path;
      load_loop vs'
  end.

Definition load : handler (engine W) := fun args =>
  _ ← load_loop (argv args);
  mret VUndefined.

Definition global_handler (g : global_function) : handler (engine W) :=
  match g with
  | GPrint => print
  | GLoad => load
  | GRegister => fun args => zoom registered set_registered (register args)
  | GFsRegister => fun args => zoom registered set_registered (fs_register args)
  end.

(** A call from JavaScript: what the handler threw, or else the exception
    it scheduled, reaches the script. *)
Definition deliver (r : js_result) (e : engine W) : outcome js_result * engine W :=
  match r with
  | Crashed why => (Crash why, e)
  | Thrown m => (Ok (Thrown m), set_scheduled None e)
  | Returned v =>
      (Ok (match scheduled e with Some m => Thrown m | None => Returned v end),
       set_scheduled None e)
  end.

Definition call_global (g : global_function) (vs : list value) : M (engine W) js_result :=
  fun e =>
    let '(r, e') := forward_function (global_handler g)
                      {| this_field := false; argv := vs |} (set_scheduled None e) in
    deliver r e'.

(** [script->Run]: [Some] is a failure. *)
Fixpoint run_program (p : program W) : M (engine W) (option try_catch) :=
  match p with
  | Returns => mret None
  | Fails tc => mret (Some tc)
  | CallGlobal g vs k => r ← call_global g vs; run_program (k r)
  | Other f k =>
      _ ← modify (fun e => set_world (f (world e)) e);
      e ← get;
      run_program (k (world e))
  end.

Definition execute_string (script_name str : bytes) : M (engine W) bool :=
  _ ← enter_context;
  match Script_Compile script_name str with
  | inl tc => _ ← report_exception tc; mret false
  | inr script =>
      result ← run_program script;
      match result with
      | Some tc => _ ← report_exception tc; mret true
      | None => mret true
      end
  end.

(** [execute_file], its nested loads executed by [execute]. *)
Definition execute_file_body (path : wstring) : M (engine W) unit :=
  _ ← enter_context;
  e ← get;
  match last_write_time path (world e) with
  | None => raise "last_write_time: the file does not exist"
  | Some time =>
      _ ← modify (fun e => set_loaded (loaded_scripts e ++ [(path, time)]) e);
      match read_script path (world e) with
      | NoHandle => ThrowException "failed to open a handle to the script file"
      | ReadError => ThrowException "failed to read the contents of the script file"
      | Contents chars =>
          (* [ftell] is a 32-bit [long] *)
          if 2 ^ 31 <=? Z.of_nat (length chars) then crash "write outside the buffer"
          else
            executed ← execute_string (c_str (u8string (filename path))) (c_str chars);
            if executed : bool then
              _ ← vs_printf (L "Loaded " ++ format_ws (filename path) ++ L " script..." ++ newline);
              mret ()
            else ThrowException "failed to execute script file"
      end
  end.
End scripts.

(** [execute_file]; the fuel bounds the depth of nested loads. *)
Fixpoint execute_file (fuel : nat) (path : wstring) : M (engine W) unit :=
  match fuel with
  | O => crash out_of_stack
  | S fuel' => execute_file_body (execute_file fuel') path
  end.

(** [rpc_server.bind("execute", ...)] of [load_and_watch], in debug builds:
    what another process sends is executed on a thread of the rpc library. *)
Definition rpc_execute (fuel : nat) (script : bytes) : M (engine W) bool :=
  _ ← reset_engine;
  execute_string (execute_file fuel) (L "(rpc)") (c_str script).

(** ** The watcher *)

(** [script->second != last_write_time(script->first, ec) && !ec]. *)
Definition modified (w : W) (script : wstring * Z) : bool :=
  match last_write_time script.1 w with
  | Some t => negb (script.2 =? t)
  | None => false
  end.

(** The loop over [loaded_scripts]; it is left before the cleared vector is
    touched again. *)
Fixpoint check_scripts (fuel : nat) (path : wstring) (scripts : list (wstring * Z))
  : M (engine W) bool :=
  match scripts with
  | [] => mret false
  | script :: scripts' =>
      e ← get;
      if modified (world e) script then
        _ ← reset_engine;
        _ ← execute_file fuel path;
        mret true
      else check_scripts fuel path scripts'
  end.

Definition directory_change_callback (fuel : nat) : M (engine W) unit :=
  _ ← enter_context;
  e ← get;
  match function_directory_change (registered e) with
  | None => mret ()
  | Some (VFunction f) => _ ← run_program (execute_file fuel) (function_body f); mret ()
  | Some _ => crash "call of a value that is not a function"
  end.

(** A call of Windows, and [FindFirstChangeNotificationW]. *)
Definition on_world {A} (f : W -> A * W) (e : engine W) : A * engine W :=
  let '(a, w) := f (world e) in (a, set_world w e).

Definition open_notification (e : engine W) : Z * engine W :=
  let '(handle, w) := FindFirstChangeNotificationW (fs_dir e) (world e) in
  (handle,
   Engine (context e) (objects e) (registered e) (loaded_scripts e)
     (app_pool_folder_name e) (fs_dir e) (notify_handles e ++ [handle])
     (debug_output e) (scheduled e) (eternal_name_cache_ e) w).

(** One round of the loop of [load_and_watch].  [wait_for] is the variable
    declared before the loop; the result of the wait goes to a second
    variable of that name, local to the round. *)
Definition watch_round (fuel : nat) (path : wstring) (wait_for change_notify_handle : Z)
  : M (engine W) Z :=
  e ← get;
  _ ← check_scripts fuel path (loaded_scripts e);
  change_notify_handle ←
    (if negb (wait_for =? WAIT_TIMEOUT) then call open_notification
     else mret change_notify_handle);
  wait_for ← call (on_world (WaitForSingleObject change_notify_handle 1000));
  _ ← (if wait_for =? WAIT_OBJECT_0 then
         _ ← modify (fun e => set_world (Sleep 1000 (world e)) e);
         directory_change_callback fuel
       else mret ());
  mret change_notify_handle.

Fixpoint watch (rounds fuel : nat) (path : wstring) (wait_for change_notify_handle : Z)
  : M (engine W) Z :=
  match rounds with
  | O => mret change_notify_handle
  | S rounds' =>
      change_notify_handle ← watch_round fuel path wait_for change_notify_handle;
      watch rounds' fuel path wait_for change_notify_handle
  end.

(** [load_and_watch], its endless loop cut after [rounds]. *)
Definition load_and_watch (rounds fuel : nat) : M (engine W) unit :=
  path ← get_path (L "Main.js");
  _ ← modify (fun e => set_loaded (loaded_scripts e ++ [(path, 0)]) e);
  folder ← get_path [];
  _ ← modify (fun e =>
        Engine (context e) (objects e) (registered e) (loaded_scripts e)
          (app_pool_folder_name e)
          (path_append (path_append folder (app_pool_folder_name e)) (L "filesystem"))
          (notify_handles e) (debug_output e) (scheduled e) (eternal_name_cache_ e) (world e));
  e ← get;
  _ ← (if is_directory (fs_dir e) (world e) then mret 0
       else
         _ ← vs_printf (L "Attempting to create a filesystem directory." ++ newline);
         created ← call (on_world (CreateDirectoryW (fs_dir e)));
         vs_printf (if created : bool
           then L "Successfully created a new workspace directory." ++ newline
           else L "Failed to create a workspace directory!" ++ newline));
  _ ← watch rounds fuel path 0 0;
  mret ().

(** [start]: what the engine thread begins with. *)
Definition start (app_pool_name : wstring) (w : W) : engine W :=
  Engine 0 (Templates None None None None None) no_functions [] app_pool_name [] [] []
    None ∅ w.
End engine.

(** ** Lemmas *)

Section engine_lemmas.
Context {W : Type} `{Host W} `{V8Strings}.
Implicit Types e : engine W.

(** What a script does keeps an assertion when output, registration, the
    scheduled exception, the scripts it loads and its other effects do. *)
Section keeps_scripts.
Variable P : engine W -> Prop.
Hypothesis P_output : forall s e, P e -> P (add_output s e).
Hypothesis P_registered : forall f e, P e -> P (set_registered f e).
Hypothesis P_scheduled : forall m e, P e -> P (set_scheduled m e).
Hypothesis P_loaded : forall path time e,
  last_write_time path (world e) = Some time -> P e ->
  P (set_loaded (loaded_scripts e ++ [(path, time)]) e).

Fixpoint program_keeps (p : program W) : Prop :=
  match p with
  | Returns | Fails _ => True
  | CallGlobal _ _ k => forall r, program_keeps (k r)
  | Other f k =>
      (forall e, P e -> P (set_world (f (world e)) e)) ∧ forall w, program_keeps (k w)
  end.

Hypothesis P_compiled : forall name source p,
  Script_Compile name source = inr p -> program_keeps p.

Lemma keeps_vs_printf s : keeps P (vs_printf s).
Proof. unfold vs_printf. apply keeps_bind; [apply keeps_modify; auto|auto with keeps]. Qed.

Lemma keeps_FromJust {A} (x : option A) : keeps P (FromJust x).
Proof. destruct x; simpl; auto with keeps. Qed.

Lemma keeps_enter_context : keeps P enter_context.
Proof. unfold enter_context. auto with keeps. Qed.

Lemma keeps_repeat_print n s : keeps P (repeat_print n s).
Proof. induction n; simpl; auto using keeps_vs_printf with keeps. Qed.

#[local] Hint Resolve keeps_vs_printf keeps_FromJust keeps_enter_context
  keeps_repeat_print : keeps.

Lemma keeps_report_exception tc : keeps P (report_exception tc).
Proof. unfold report_exception. auto 40 with keeps. Qed.

Lemma keeps_print args : keeps P (print args).
Proof.
  unfold print. apply keeps_bind; [|auto with keeps].
  generalize true. induction (argv args) as [|v vs IH]; intros b; simpl; auto 20 with keeps.
Qed.

Lemma keeps_zoom_registered {A} (m : M functions A) :
  keeps P (zoom registered set_registered m).
Proof. intros e He. unfold zoom. destruct (m (registered e)). simpl. auto. Qed.

Lemma keeps_get_path s : keeps P (get_path s).
Proof. unfold get_path. auto with keeps. Qed.

Lemma keeps_from_v8 T `{Convert T} v : keeps P (from_v8 T v).
Proof. intros e. by rewrite from_v8_state. Qed.

Section with_execute.
Variable execute : wstring -> M (engine W) unit.
Hypothesis Hexecute : forall path, keeps P (execute path).

Lemma keeps_load args : keeps P (load execute args).
Proof.
  unfold load. apply keeps_bind; [|auto with keeps].
  induction (argv args) as [|v vs IH]; simpl; [auto with keeps|].
  unfold from_v8_wstring.
  auto 20 using keeps_get_path, keeps_from_v8 with keeps.
Qed.

Lemma keeps_call_global g vs : keeps P (call_global execute g vs).
Proof.
  intros e He. unfold call_global, forward_function.
  assert (keeps P (global_handler execute g {| this_field := false; argv := vs |})) as Hk.
  { destruct g; simpl; auto using keeps_print, keeps_load, keeps_zoom_registered. }
  specialize (Hk (set_scheduled None e) (P_scheduled _ _ He)).
  destruct (global_handler _ _ _ _) as [[v|x|w] e']; simpl in *; auto.
Qed.

Lemma keeps_run_program p : program_keeps p -> keeps P (run_program execute p).
Proof.
  induction p as [|tc|g vs k IH|f k IH]; simpl; intros Hp; auto with keeps.
  - apply keeps_bind; auto using keeps_call_global.
  - destruct Hp as [Hf Hk]. apply keeps_bind; [by apply keeps_modify|].
    intros _. apply keeps_bind; auto with keeps.
Qed.

Lemma keeps_execute_string name str : keeps P (execute_string execute name str).
Proof.
  unfold execute_string. apply keeps_bind; [auto with keeps|intros _].
  destruct (Script_Compile name str) as [tc|p] eqn:Ec;
    [auto using keeps_report_exception with keeps|].
  apply keeps_bind; [eauto using keeps_run_program|].
  auto using keeps_report_exception with keeps.
Qed.

Lemma keeps_ThrowException m : keeps P (ThrowException m).
Proof. apply keeps_modify. auto. Qed.

Lemma keeps_execute_file_body path : keeps P (execute_file_body execute path).
Proof.
  unfold execute_file_body. apply keeps_bind; [auto with keeps|intros _].
  apply keeps_bind_get. intros e He.
  destruct (last_write_time path (world e)) as [time|] eqn:Et; [|done].
  rewrite bind_modify. pose proof (P_loaded _ _ _ Et He) as He'. keeps_here.
  destruct (read_script path (world e)); auto using keeps_ThrowException.
  auto 10 using keeps_ThrowException, keeps_execute_string with keeps.
Qed.
End with_execute.

Lemma keeps_execute_file fuel path : keeps P (execute_file fuel path).
Proof.
  revert path. induction fuel as [|fuel IH]; intros path; simpl; [auto with keeps|].
  by apply keeps_execute_file_body.
Qed.
End keeps_scripts.

(** *** What no script touches *)
Definition frame e := (context e, objects e, notify_handles e, fs_dir e).

Lemma program_keeps_frame f p : program_keeps (fun e => frame e = f) p.
Proof. induction p; simpl; auto. Qed.

Lemma execute_file_frame fuel path e : frame (snd (execute_file fuel path e)) = frame e.
Proof.
  apply (keeps_execute_file (fun e' => frame e' = frame e)); auto using program_keeps_frame.
Qed.

Lemma run_program_frame fuel p e :
  frame (snd (run_program (execute_file fuel) p e)) = frame e.
Proof.
  apply (keeps_run_program (fun e' => frame e' = frame e)); auto using program_keeps_frame.
  intros path e'. by rewrite execute_file_frame.
Qed.

(** *** Rounds of the watcher *)

Lemma bind_enter_context {A} (k : () -> M (engine W) A) e :
  context e ≠ 0%nat -> (enter_context ≫= k) e = k () e.
Proof.
  intros Hc%Nat.eqb_neq. unfold enter_context, mbind, M_bind. simpl. by rewrite Hc.
Qed.

Lemma reset_engine_eq e :
  reset_engine e =
    (Ok (), Engine (S (context e))
       (Templates (Some (default (S (context e)) (global_ipc_object (objects e))))
          (Some (default (S (context e)) (global_db_object (objects e))))
          (Some (default (S (context e)) (global_fetch_object (objects e))))
          (Some (S (context e))) (Some (S (context e))))
       no_functions [] (app_pool_folder_name e) (fs_dir e) (notify_handles e)
       (debug_output e) (scheduled e) (eternal_name_cache_ e) (world e)).
Proof.
  unfold reset_engine. rewrite bind_modify. unfold initialize_objects, modify. simpl.
  by destruct (global_ipc_object _), (global_db_object _), (global_fetch_object _).
Qed.

(** The loop of a round reloads when some script was modified, and does
    nothing otherwise. *)
Lemma check_scripts_eq fuel path scripts e :
  check_scripts fuel path scripts e =
    if existsb (modified (world e)) scripts
    then (reset_engine ≫= fun _ => execute_file fuel path ≫= fun _ => mret true) e
    else (Ok false, e).
Proof.
  induction scripts as [|script scripts IH]; simpl; [done|].
  rewrite bind_get. by destruct (modified (world e) script).
Qed.

(** What the loop tests. *)
Lemma existsb_modified w scripts :
  existsb (modified w) scripts = true <-> exists script recorded time,
    In (script, recorded) scripts ∧ last_write_time script w = Some time ∧ recorded ≠ time.
Proof.
  rewrite existsb_exists. split.
  - intros ([script recorded] & Hin & Hm). unfold modified in Hm. simpl in Hm.
    destruct (last_write_time script w) as [time|] eqn:E; [|done].
    exists script, recorded, time. split_and!; [done..|].
    apply negb_true_iff, Z.eqb_neq in Hm. done.
  - intros (script & recorded & time & Hin & E & Hne). exists (script, recorded).
    split; [done|]. unfold modified. simpl. rewrite E. by apply negb_true_iff, Z.eqb_neq.
Qed.

(** Before the first reset there is nothing; after a reset the request and
    response objects are of the newest context, the others of the first. *)
Definition engine_ok e : Prop :=
  (context e = 0%nat ∧ registered e = no_functions ∧
   objects e = Templates None None None None None) ∨
  (context e ≠ 0%nat ∧
   objects e = Templates (Some 1%nat) (Some 1%nat) (Some 1%nat)
                 (Some (context e)) (Some (context e))).

Definition live e : Prop := engine_ok e ∧ context e ≠ 0%nat.

Lemma live_frame e e' : frame e' = frame e -> live e -> live e'.
Proof.
  unfold frame, live, engine_ok. intros E [[[? _]|[_ Ho]] Hc]; [done|].
  injection E as Ec Eo _ _. rewrite Ec, Eo. auto.
Qed.

Lemma engine_ok_output s e : engine_ok e -> engine_ok (add_output s e).
Proof. done. Qed.

Lemma engine_ok_set_world w e : engine_ok e -> engine_ok (set_world w e).
Proof. done. Qed.

Lemma keeps_reset_engine : keeps engine_ok reset_engine.
Proof.
  intros e He. rewrite reset_engine_eq. right. simpl. split; [done|].
  destruct He as [(-> & _ & ->)|(_ & ->)]; done.
Qed.

(** Running a file keeps the invariant: without a context it stops at once. *)
Lemma keeps_engine_ok_execute_file fuel path : keeps engine_ok (execute_file fuel path).
Proof.
  intros e He. destruct (decide (context e = 0%nat)) as [Hc|Hc].
  - destruct fuel; simpl; [done|]. unfold execute_file_body, enter_context.
    unfold mbind, M_bind at 1 2. cbn. rewrite Hc. done.
  - apply (live_frame e); [apply execute_file_frame|done].
Qed.

Lemma keeps_check_scripts fuel path scripts : keeps engine_ok (check_scripts fuel path scripts).
Proof.
  intros e He. rewrite check_scripts_eq. destruct (existsb _ _); [|done].
  keeps_here.
  auto using keeps_reset_engine, keeps_engine_ok_execute_file with keeps.
Qed.

Lemma keeps_directory_change fuel : keeps engine_ok (directory_change_callback fuel).
Proof.
  intros e He. unfold directory_change_callback, enter_context.
  unfold mbind at 1, M_bind at 1. rewrite bind_get.
  destruct (Nat.eqb_spec (context e) 0) as [Hc|Hc]; [done|]. cbn [mret M_ret].
  rewrite bind_get. destruct (function_directory_change (registered e)) as [v|]; [|done].
  destruct v; try done. unfold mbind, M_bind.
  pose proof (run_program_frame fuel (function_body id) e) as Hf.
  destruct (run_program _ _ e) as [[r|x|w] e']; apply (live_frame e); done.
Qed.

Lemma keeps_open_notification : keeps engine_ok (call open_notification).
Proof.
  intros e He. unfold call, open_notification.
  by destruct (FindFirstChangeNotificationW _ _).
Qed.

Lemma keeps_on_world {A} (f : W -> A * W) : keeps engine_ok (call (on_world f)).
Proof. intros e He. unfold call, on_world. by destruct (f (world e)). Qed.

Lemma keeps_watch_round fuel path wait_for handle :
  keeps engine_ok (watch_round fuel path wait_for handle).
Proof.
  unfold watch_round.
  auto 20 using keeps_check_scripts, keeps_open_notification, keeps_on_world,
    keeps_modify, engine_ok_set_world, keeps_directory_change with keeps.
Qed.

Lemma keeps_watch rounds fuel path wait_for handle :
  keeps engine_ok (watch rounds fuel path wait_for handle).
Proof.
  revert handle. induction rounds; intros; simpl; auto using keeps_watch_round with keeps.
Qed.

(** *** Handles *)

(** A run that returned left [n] more change-notification handles. *)
Definition opens {A} (n : nat) (m : M (engine W) A) : Prop :=
  forall e a e', m e = (Ok a, e') ->
    length (notify_handles e') = (length (notify_handles e) + n)%nat.

Lemma opens_bind {A B} n1 n2 (m : M (engine W) A) (k : A -> M (engine W) B) :
  opens n1 m -> (forall a, opens n2 (k a)) -> opens (n1 + n2) (m ≫= k).
Proof.
  intros Hm Hk e b e' E. apply bind_ok_inv in E as (a & e1 & E1 & E2).
  apply Hm in E1. apply Hk in E2. lia.
Qed.

Lemma opens_keeps {A} (m : M (engine W) A) :
  (forall l, keeps (fun e => notify_handles e = l) m) -> opens 0 m.
Proof.
  intros Hk e a e' E. specialize (Hk (notify_handles e) e eq_refl).
  rewrite E in Hk. simpl in Hk. by rewrite Hk, Nat.add_0_r.
Qed.

Lemma opens_check_scripts fuel path scripts : opens 0 (check_scripts fuel path scripts).
Proof.
  apply opens_keeps. intros l e Hl. rewrite check_scripts_eq.
  destruct (existsb _ _); [|done].
  rewrite (bind_ok _ _ _ _ _ (reset_engine_eq e)). unfold mbind, M_bind.
  match goal with |- context [execute_file fuel path ?e1] =>
    pose proof (execute_file_frame fuel path e1) as Hf;
    destruct (execute_file fuel path e1) as [[?|?|?] e2] end;
    unfold frame in Hf; simpl in *; by simplify_eq.
Qed.

Lemma opens_directory_change fuel : opens 0 (directory_change_callback fuel).
Proof.
  apply opens_keeps. intros l e Hl.
  unfold directory_change_callback, enter_context, mbind, M_bind. simpl.
  destruct (context e =? 0)%nat; [done|]. simpl.
  destruct (function_directory_change (registered e)) as [v|]; [|done].
  destruct v; try done.
  pose proof (run_program_frame fuel (function_body id) e) as Hf.
  destruct (run_program _ _ e) as [[r|x|w] e']; unfold frame in Hf; simpl in *; by simplify_eq.
Qed.

Lemma opens_watch_round fuel path handle : opens 1 (watch_round fuel path 0 handle).
Proof.
  unfold watch_round.
  apply (opens_bind 0 1); [by apply opens_keeps; auto with keeps|intros e0].
  apply (opens_bind 0 1); [apply opens_check_scripts|intros _].
  apply (opens_bind 1 0).
  { intros e a e' E. simpl in E. unfold call, open_notification in E.
    destruct (FindFirstChangeNotificationW _ _). simplify_eq. simpl. by rewrite length_app. }
  intros h. apply (opens_bind 0 0).
  { apply opens_keeps. intros l e Hl. unfold call, on_world.
    by destruct (WaitForSingleObject _ _ _). }
  intros r. apply (opens_bind 0 0); [|intros; by apply opens_keeps; auto with keeps].
  destruct (r =? 0); [|by apply opens_keeps; auto with keeps].
  apply (opens_bind 0 0); [apply opens_keeps; by intros l e Hl|intros _].
  apply opens_directory_change.
Qed.

(** *** Nested loads *)

(** Every file the script loads has a rank below [n], whatever the public
    folder and the application pool are called. *)
Fixpoint loads_below (rank : wstring -> nat) (n : nat) (p : program W) : Prop :=
  match p with
  | Returns | Fails _ => True
  | CallGlobal g vs k =>
      (g = GLoad -> forall name folder pool, VString name ∈ vs ->
         (rank (script_path folder pool name) < n)%nat) ∧
      forall r, loads_below rank n (k r)
  | Other _ k => forall w, loads_below rank n (k w)
  end.

Section agree.
Variables (rank : wstring -> nat) (n : nat).
Variables execute1 execute2 : wstring -> M (engine W) unit.

(** Both give the same result on the files below [n], never an overflow. *)
Definition agree {A} (m1 m2 : M (engine W) A) : Prop :=
  forall e, m1 e = m2 e ∧ fst (m1 e) ≠ Crash out_of_stack.

Hypothesis Hexecute : forall path, (rank path < n)%nat ->
  agree (execute1 path) (execute2 path).

Lemma agree_bind {A B} (m1 m2 : M (engine W) A) (k1 k2 : A -> M (engine W) B) :
  agree m1 m2 -> (forall a, agree (k1 a) (k2 a)) -> agree (m1 ≫= k1) (m2 ≫= k2).
Proof.
  intros Hm Hk e. destruct (Hm e) as [E Hn]. unfold mbind, M_bind. rewrite <- E.
  destruct (m1 e) as [[a|x|w] e1]; [apply Hk|by split|].
  split; [done|]. simpl in *. congruence.
Qed.

Lemma agree_refl {A} (m : M (engine W) A) :
  (forall e, fst (m e) ≠ Crash out_of_stack) -> agree m m.
Proof. by intros Hm e. Qed.

Lemma agree_vs_printf s : agree (vs_printf s) (vs_printf s).
Proof. by apply agree_refl; intros e [=]. Qed.

Lemma agree_FromJust {A} (x : option A) : agree (FromJust x) (FromJust x).
Proof. apply agree_refl. by destruct x; intros e [=]. Qed.

Lemma agree_ret {A} (a : A) : agree (mret a) (mret a).
Proof. by apply agree_refl; intros e [=]. Qed.

Lemma agree_repeat_print k s : agree (repeat_print k s) (repeat_print k s).
Proof. induction k; simpl; auto using agree_ret, agree_bind, agree_vs_printf. Qed.

Lemma agree_report_exception tc : agree (report_exception tc) (report_exception tc).
Proof.
  unfold report_exception. destruct (tc_message tc), (tc_stack_trace tc);
    repeat (apply agree_bind; [auto using agree_vs_printf, agree_FromJust,
                                 agree_repeat_print, agree_ret|intros]);
    auto using agree_ret.
Qed.

Lemma agree_print_loop b vs : agree (print_loop b vs) (print_loop b vs).
Proof.
  revert b. induction vs as [|v vs IH]; intros b; simpl; [apply agree_ret|].
  apply agree_bind; [apply agree_FromJust|intros text].
  apply agree_bind; [destruct b; auto using agree_ret, agree_vs_printf|intros _].
  apply agree_bind; auto using agree_vs_printf.
Qed.

Lemma load_loop_string execute name vs e :
  load_loop execute (VString name :: vs) e =
    match SHGetKnownFolderPath (world e) with
    | None => (Throw (StdException "unable to get known folder"), e)
    | Some folder =>
        (execute (script_path folder (app_pool_folder_name e) name) ≫= fun _ =>
         load_loop execute vs) e
    end.
Proof.
  unfold load_loop at 1; fold load_loop.
  change (from_v8_wstring (VString name)) with (mret name : M (engine W) wstring).
  rewrite bind_ret. unfold get_path, mbind at 1, M_bind at 1. rewrite bind_get.
  by destruct (SHGetKnownFolderPath (world e)).
Qed.

Lemma agree_load_loop vs :
  (forall name folder pool, VString name ∈ vs ->
     (rank (script_path folder pool name) < n)%nat) ->
  agree (load_loop execute1 vs) (load_loop execute2 vs).
Proof.
  induction vs as [|v vs IH]; intros Hr; [apply agree_ret|].
  destruct v as [| |?|?|name| |?|?|?|?]; try (intros e; by split).
  intros e. rewrite !load_loop_string.
  destruct (SHGetKnownFolderPath (world e)) as [folder|]; [|by split].
  apply (agree_bind (execute1 _) (execute2 _)).
  - apply Hexecute, Hr, list_elem_of_here.
  - intros _. apply IH. intros. apply Hr. by apply list_elem_of_further.
Qed.

Lemma agree_handler g args :
  (g = GLoad -> forall name folder pool, VString name ∈ argv args ->
     (rank (script_path folder pool name) < n)%nat) ->
  agree (global_handler execute1 g args) (global_handler execute2 g args).
Proof.
  intros Hr. destruct g; simpl.
  - apply agree_bind; [apply agree_print_loop|].
    intros. apply agree_bind; auto using agree_vs_printf, agree_ret.
  - apply agree_bind; auto using agree_load_loop, agree_ret.
  - apply agree_refl. intros e. unfold zoom.
    pose proof (register_no_crash args (registered e) out_of_stack).
    by destruct (register args _) as [r fs].
  - apply agree_refl. intros e. unfold zoom, fs_register, throw_if, mbind, M_bind.
    by destruct (args_Length args <? 1).
Qed.

Lemma agree_run_program p :
  loads_below rank n p -> agree (run_program execute1 p) (run_program execute2 p).
Proof.
  induction p as [|tc|g vs k IH|f k IH]; simpl; intros Hp; auto using agree_ret.
  - destruct Hp as [Hg Hk]. apply agree_bind; [|auto].
    intros e. unfold call_global, forward_function.
    destruct (agree_handler g {| this_field := false; argv := vs |} Hg
                (set_scheduled None e)) as [E Hn].
    rewrite <- E. destruct (global_handler _ _ _ _) as [[v|x|w] e']; simpl in *; [by split..|].
    split; [done|]. intros [= ->]. done.
  - intros e. rewrite !bind_modify, !bind_get. by apply IH.
Qed.

Hypothesis Hcompiled : forall path w b p,
  (rank path <= n)%nat -> read_script path w = Contents b ->
  Script_Compile (c_str (u8string (filename path))) (c_str b) = inr p ->
  loads_below rank (rank path) p.

Lemma loads_below_mono n1 n2 p :
  (n1 <= n2)%nat -> loads_below rank n1 p -> loads_below rank n2 p.
Proof.
  intros Hn. induction p as [|tc|g vs k IH|f k IH]; simpl; auto.
  intros [Hg Hk]. split; [|by auto]. intros E name folder pool Hin.
  by eapply Nat.lt_le_trans; [apply (Hg E name)|].
Qed.

Lemma agree_execute_file_body path :
  (rank path <= n)%nat ->
  agree (execute_file_body execute1 path) (execute_file_body execute2 path).
Proof.
  intros Hrank. unfold execute_file_body.
  apply agree_bind.
  { apply agree_refl. intros e. unfold enter_context. rewrite bind_get. by case_match. }
  intros _ e. rewrite !bind_get. destruct (last_write_time path (world e)); [|by split].
  rewrite !bind_modify.
  destruct (read_script path (world e)) as [| |b] eqn:Er; [by split..|].
  destruct (2 ^ 31 <=? Z.of_nat (length b)); [by split|].
  apply (agree_bind (execute_string execute1 _ _) (execute_string execute2 _ _)).
  - unfold execute_string. apply agree_bind.
    { apply agree_refl. intros e0. unfold enter_context. rewrite bind_get. by case_match. }
    intros _. destruct (Script_Compile _ _) as [tc|p] eqn:Ec.
    + apply agree_bind; auto using agree_report_exception, agree_ret.
    + apply agree_bind.
      * apply agree_run_program. apply (loads_below_mono (rank path)); eauto.
      * intros [tc|]; [apply agree_bind; auto using agree_report_exception|];
          auto using agree_ret.
  - intros [|]; [apply agree_bind; auto using agree_vs_printf, agree_ret|].
    by apply agree_refl.
Qed.
End agree.
End engine_lemmas.

(** ** The properties *)

Section engine_properties.
Context {W : Type} `{Host W} `{V8Strings}.
Implicit Types e : engine W.

(** C18 (termination).  Scripts whose loads go down in some rank need no more
    fuel than the rank: [execute_file] ends without running out of it, and
    more fuel gives the same result. *)
Theorem execute_file_terminates (rank : wstring -> nat) path fuel e :
  (forall path w b p, read_script path w = Contents b ->
     Script_Compile (c_str (u8string (filename path))) (c_str b) = inr p ->
     loads_below rank (rank path) p) ->
  (rank path < fuel)%nat ->
  execute_file fuel path e = execute_file (S (rank path)) path e ∧
  fst (execute_file fuel path e) ≠ Crash out_of_stack.
Proof.
  intros Hc. revert path fuel e.
  assert (forall n path fuel, (rank path < n)%nat -> (rank path < fuel)%nat ->
    agree (execute_file fuel path) (execute_file n path)) as Hn.
  { intros n. induction n as [|n IH]; intros path fuel Hp Hf; [lia|].
    destruct fuel as [|fuel]; [lia|]. simpl.
    apply (agree_execute_file_body rank (rank path)); [|eauto|lia].
    intros q Hq. apply IH; lia. }
  intros path fuel e Hf. apply Hn; lia.
Qed.

(** (functional).  A round of the watcher reloads exactly when some watched
    script has another write time than the one recorded: then there is one new
    context and Main.js is again the first script watched; otherwise nothing
    changes. *)
Theorem check_scripts_reloads fuel path e b e' :
  check_scripts fuel path (loaded_scripts e) e = (Ok b, e') ->
  (b = true <-> exists script recorded time, In (script, recorded) (loaded_scripts e) ∧
     last_write_time script (world e) = Some time ∧ recorded ≠ time) ∧
  (b = false -> e' = e) ∧
  (b = true -> context e' = S (context e) ∧
     exists time rest, last_write_time path (world e) = Some time ∧
       loaded_scripts e' = (path, time) :: rest).
Proof.
  rewrite <- existsb_modified.
  rewrite check_scripts_eq.
  destruct (existsb _ _); [|by intros [= <- <-]].
  rewrite (bind_ok _ _ _ _ _ (reset_engine_eq e)). intros E.
  apply bind_ok_inv in E as ([] & e1 & E1 & E2). injection E2 as <- <-.
  split; [done|]. split; [done|]. intros _.
  match type of E1 with execute_file fuel path ?e0 = _ => set (e0' := e0) in E1 end.
  pose proof (execute_file_frame fuel path e0') as Hf. rewrite E1 in Hf.
  injection Hf as Hc _ _ _. split; [done|].
  destruct fuel as [|fuel]; [discriminate E1|]. simpl in E1. unfold execute_file_body in E1.
  rewrite bind_enter_context, bind_get in E1 by done.
  change (world e0') with (world e) in E1.
  destruct (last_write_time path (world e)) as [time|]; [|discriminate E1].
  rewrite bind_modify in E1.
  assert (prefix [(path, time)] (loaded_scripts e1)) as [rest Hrest]; [|by exists time, rest].
  match type of E1 with ?m ?e2 = _ =>
    assert (keeps (fun e => prefix [(path, time)] (loaded_scripts e)) m) as Hk end.
  { assert (forall q (t : Z) (e : engine W), prefix [(path, time)] (loaded_scripts e) ->
      prefix [(path, time)] (loaded_scripts (set_loaded (loaded_scripts e ++ [(q, t)]) e)))
      as Hl by (intros; by apply prefix_app_r).
    assert (forall p, program_keeps (fun e => prefix [(path, time)] (loaded_scripts e)) p)
      as Hp by (intros p; induction p; simpl; auto).
    destruct (read_script path (world e)); try (by apply keeps_modify).
    destruct (2 ^ 31 <=? _); [by intros ?|].
    apply keeps_bind; [apply keeps_execute_string|intros [|]]; auto;
      [|apply keeps_bind; auto using keeps_vs_printf with keeps|by apply keeps_modify].
    intros q. apply keeps_execute_file; auto. }
  change e1 with (snd (Ok (), e1)). rewrite <- E1. apply Hk. by exists [].
Qed.

(** The script changes no file while it runs. *)
Fixpoint quiet (p : program W) : Prop :=
  match p with
  | Returns | Fails _ => True
  | CallGlobal _ _ k => forall r, quiet (k r)
  | Other f k =>
      (forall w path, last_write_time path (f w) = last_write_time path w) ∧
      forall w, quiet (k w)
  end.

Definition settled e : Prop := Forall (fun s => modified (world e) s = false) (loaded_scripts e).

Lemma settled_spec e : settled e <-> existsb (modified (world e)) (loaded_scripts e) = false.
Proof.
  unfold settled. induction (loaded_scripts e) as [|s l IH]; simpl; [by split|].
  rewrite Forall_cons, orb_false_iff, IH. done.
Qed.

Lemma quiet_keeps_settled p : quiet p -> program_keeps settled p.
Proof.
  induction p as [|tc|g vs k IH|f k IH]; simpl; auto.
  intros [Hf Hk]. split; [|auto]. intros e He. unfold settled in *. simpl.
  eapply Forall_impl; [exact He|]. intros s Hs. unfold modified in *. by rewrite Hf.
Qed.

(** C17 (liveness).  One reload is enough: when the scripts change no file
    while they run, the next check finds nothing modified.  Whatever files
    were loaded, the engine does not reload for ever. *)
Theorem reload_settles fuel path e b e' :
  (forall name source p, Script_Compile name source = inr p -> quiet p) ->
  check_scripts fuel path (loaded_scripts e) e = (Ok b, e') ->
  check_scripts fuel path (loaded_scripts e') e' = (Ok false, e').
Proof.
  intros Hq E. rewrite check_scripts_eq.
  assert (settled e') as Hs; [|apply settled_spec in Hs; by rewrite Hs].
  rewrite check_scripts_eq in E.
  destruct (existsb _ _) eqn:Ex; [|injection E as <- <-; by apply settled_spec].
  rewrite (bind_ok _ _ _ _ _ (reset_engine_eq e)) in E.
  apply bind_ok_inv in E as ([] & e1 & E1 & E2). injection E2 as <- <-.
  replace e1 with (snd (execute_file fuel path
    (snd (reset_engine e)))) by (rewrite reset_engine_eq; simpl; by rewrite E1).
  apply keeps_execute_file; try done.
  - intros q time e2 Ht He2. unfold settled. simpl. apply Forall_app. split; [done|].
    apply Forall_singleton. unfold modified. simpl. rewrite Ht. by rewrite Z.eqb_refl.
  - intros name source p Hp. apply quiet_keeps_settled. eauto.
  - rewrite reset_engine_eq. by constructor.
Qed.

(** (invariant).  After any number of rounds, however they end: with no
    context no function is registered and there is no object; with one, the
    request and response objects that [handle_callback] clones are those of
    the newest context, while the ipc, db and fetch objects are still those
    of the first. *)
Theorem watch_engine_ok rounds fuel path wait_for handle app_pool w :
  engine_ok (snd (watch rounds fuel path wait_for handle (start app_pool w))).
Proof. apply keeps_watch. by left. Qed.

(** (safety).  [load_and_watch] never closes a change notification and
    never keeps one: every round that returns has opened another handle. *)
Theorem watch_opens_handles rounds fuel path handle e h e' :
  watch rounds fuel path 0 handle e = (Ok h, e') ->
  length (notify_handles e') = (length (notify_handles e) + rounds)%nat.
Proof.
  revert handle e. induction rounds as [|rounds IH]; intros handle e E; simpl in E.
  - injection E as _ <-. lia.
  - apply bind_ok_inv in E as (h1 & e1 & E1 & E2).
    apply opens_watch_round in E1. apply IH in E2. lia.
Qed.

(** (error).  A change of the directory before Main.js was ever executed
    enters an empty context. *)
Theorem directory_change_without_context fuel e :
  context e = 0%nat ->
  directory_change_callback fuel e = (Crash "entering an empty context", e).
Proof.
  intros Hc. unfold directory_change_callback, enter_context, mbind, M_bind. simpl.
  by rewrite Hc.
Qed.

(** (functional).  [execute_string] returns false for a script that does
    not compile, and only then: one that throws counts as executed. *)
Theorem execute_string_false_iff execute name str e b e' :
  execute_string execute name str e = (Ok b, e') ->
  b = false <-> exists tc, Script_Compile name str = inl tc.
Proof.
  unfold execute_string. intros E. apply bind_ok_inv in E as ([] & e1 & _ & E).
  destruct (Script_Compile name str) as [tc|p].
  - apply bind_ok_inv in E as ([] & e2 & _ & E). injection E as <- <-. split; eauto.
  - apply bind_ok_inv in E as ([tc|] & e2 & _ & E).
    + apply bind_ok_inv in E as ([] & e3 & _ & E). injection E as <- <-.
      split; [done|by intros []].
    + injection E as <- <-. split; [done|by intros []].
Qed.

(** (functional).  A remote execution starts over: it is answered with false
    exactly for a script that does not compile, the engine is consistent, and the
    scripts that were watched are not any more: until the remote script loads
    one, which one that does not compile never does, a round finds nothing to
    reload whatever changes. *)
Theorem rpc_execute_starts_over fuel script e b e' :
  rpc_execute fuel script e = (Ok b, e') -> engine_ok e ->
  (b = false <-> exists tc, Script_Compile (L "(rpc)") (c_str script) = inl tc) /\
  context e' = S (context e) /\ engine_ok e' /\
  (b = false -> loaded_scripts e' = [] /\ forall fuel' path w,
     check_scripts fuel' path (loaded_scripts e') (set_world w e') = (Ok false, set_world w e')).
Proof.
  unfold rpc_execute. intros E Hok. pose proof (keeps_reset_engine e Hok) as Hok1.
  rewrite (bind_ok _ _ _ _ _ (reset_engine_eq e)) in E. rewrite reset_engine_eq in Hok1.
  cbn [snd] in Hok1.
  match type of E with execute_string _ _ _ ?x = _ => set (e1 := x) in * end.
  assert (forall P : engine W -> Prop, P e1 ->
    (forall s x, P x -> P (add_output s x)) -> (forall f x, P x -> P (set_registered f x)) ->
    (forall m x, P x -> P (set_scheduled m x)) -> (forall p t x, P x -> P (set_loaded (loaded_scripts x ++ [(p, t)]) x)) ->
    (forall p, program_keeps P p) -> P e') as Hkeep.
  { intros P He1 Ho Hr Hs Hl Hp.
    assert (keeps P (execute_string (execute_file fuel) (L "(rpc)") (c_str script))) as Hk.
    { apply keeps_execute_string; auto. intros path. apply keeps_execute_file; auto. }
    specialize (Hk e1 He1). by rewrite E in Hk. }
  assert (frame e' = frame e1) as Hf.
  { apply (Hkeep (fun x => frame x = frame e1)); auto using program_keeps_frame. }
  pose proof (execute_string_false_iff _ _ _ _ _ _ E) as Hiff.
  assert (b = false -> loaded_scripts e' = []) as Hl.
  { intros [tc Hc]%Hiff. unfold execute_string in E. rewrite Hc in E.
    rewrite bind_enter_context in E by done.
    pose proof (keeps_report_exception (fun x => loaded_scripts x = []) ltac:(done) tc e1 eq_refl) as Hr.
    unfold mbind, M_bind in E. destruct (report_exception tc e1) as [[[]| |] e2]; [|done..].
    by injection E as _ <-. }
  split_and!; [exact Hiff| | |].
  - injection Hf as -> _ _ _. done.
  - by apply (live_frame e1).
  - intros Hb. split; [by apply Hl|]. intros fuel' path w. by rewrite (Hl Hb).
Qed.

(** (bounds).  [vs_printf] prints one string of at most 1023 bytes, the
    beginning of the text, and the whole of a shorter text without NUL. *)
Theorem vs_printf_bounded formatted e :
  exists out, vs_printf formatted e = (Ok (Z.of_nat (length formatted)), add_output out e) ∧
    (length out <= 1023)%nat ∧ prefix out formatted ∧
    ((length formatted <= 1023)%nat -> 0 ∉ formatted -> out = formatted).
Proof.
  exists (c_str (take 1023 formatted)). split; [done|].
  pose proof (c_str_prefix (take 1023 formatted)) as Hp. split_and!.
  - apply prefix_length in Hp. rewrite length_take in Hp. lia.
  - etrans; [done|]. exists (drop 1023 formatted). by rewrite take_drop.
  - intros Hl H0'. rewrite take_ge by done. by apply c_str_id.
Qed.

Lemma bind_vs_printf {A} s (k : Z -> M (engine W) A) e :
  (vs_printf s ≫= k) e
    = k (Z.of_nat (length s)) (add_output (c_str (take 1023 s)) e).
Proof. done. Qed.

Lemma repeat_print_eq n s e :
  repeat_print n s e =
    (Ok (), Engine (context e) (objects e) (registered e) (loaded_scripts e)
       (app_pool_folder_name e) (fs_dir e) (notify_handles e)
       (debug_output e ++ replicate n (c_str (take 1023 s))) (scheduled e)
       (eternal_name_cache_ e) (world e)).
Proof.
  revert e. induction n as [|n IH]; intros e; cbn [repeat_print].
  - rewrite app_nil_r. by destruct e.
  - rewrite bind_vs_printf, IH. simpl.
    by rewrite <- app_assoc.
Qed.

(** (functional).  The report of an exception underlines the failing
    columns: after the line and its source come as many blanks as the start
    column and one caret for every column up to the end. *)
Theorem report_exception_underlines tc line source start_ end_ stack e :
  tc_message tc = Some (Message (Some line) (Some (Some source)) (Some start_) (Some end_)) ->
  tc_stack_trace tc = Some (Some stack) ->
  exists out1 out2 out3,
    debug_output (snd (report_exception tc e)) =
      debug_output e ++ [out1; out2] ++ replicate (Z.to_nat start_) (L " ") ++
        replicate (Z.to_nat (end_ - start_)) (L "^") ++ [newline; out3].
Proof.
  intros Hm Hs. unfold report_exception. rewrite Hm, Hs. cbn.
  rewrite bind_ret, bind_vs_printf, bind_ret, bind_vs_printf, bind_ret.
  rewrite (bind_ok _ _ _ _ _ (repeat_print_eq _ _ _)), bind_ret.
  rewrite (bind_ok _ _ _ _ _ (repeat_print_eq _ _ _)), !bind_vs_printf.
  eexists _, _, _. cbn. rewrite <- !app_assoc. cbn. reflexivity.
Qed.

(** (functional).  The eternal names: the first call for a key makes the
    names, and every later call returns those, whatever names it passes. *)
Theorem eternal_names_created_once k names names' e :
  eternal_name_cache_ e !! k = None ->
  exists e', find_or_create_eternal_name_cache k names e = (Ok (map NewFromUtf8 names), e') ∧
    find_or_create_eternal_name_cache k names' e' = (Ok (map NewFromUtf8 names), e') ∧
    forall k', k' ≠ k -> eternal_name_cache_ e' !! k' = eternal_name_cache_ e !! k'.
Proof.
  intros Hk. unfold find_or_create_eternal_name_cache. rewrite bind_get, Hk.
  eexists. split; [reflexivity|]. rewrite bind_get. simpl. rewrite lookup_insert_eq.
  split; [done|]. intros k' Hk'. by rewrite lookup_insert_ne.
Qed.
End engine_properties.

(** *** [get_path] *)

Lemma after_separator_plain s acc :
  (exists pre, acc = pre ++ s ∧ plain pre) -> plain (after_separator s acc).
Proof.
  revert acc. induction s as [|c s IH]; intros acc (pre & -> & Hpre); simpl.
  - by rewrite app_nil_r.
  - apply IH. destruct (is_separator c) eqn:Ec; [exists []; split; [done|apply plain_nil]|].
    exists (pre ++ [c]). rewrite <- app_assoc. split; [done|].
    apply plain_app. split; [done|]. apply plain_cons. by split; [|apply plain_nil].
Qed.

Lemma drop_drive_plain s : plain s -> plain (drop_drive s).
Proof.
  unfold drop_drive. intros Hs. repeat case_match; try done. subst.
  by apply plain_cons in Hs as [_ [_ Hs]%plain_cons].
Qed.

Lemma filename_plain s : plain (filename s) ∨ filename s = [BACKSLASH].
Proof.
  unfold filename. destruct s as [|c s]; [left; apply plain_nil|].
  pose proof (drop_drive_plain _ (after_separator_plain (c :: s) (c :: s)
    ltac:(exists []; split; [done|apply plain_nil]))) as Hp.
  destruct (drop_drive _) as [|d name]; [|by left].
  destruct (forallb _ _); [by right|left].
  apply plain_cons. by split; [|apply plain_nil].
Qed.

(** (safety).  [get_path] of a script stays at the scripts' directory:
    whatever separators and ".." the name holds, the path is at most one step
    away from it. *)
Theorem get_path_one_step {W} `{Host W} folder script (e : engine W) :
  SHGetKnownFolderPath (world e) = Some folder -> folder ≠ [] -> script ≠ [] ->
  exists seg path, get_path script e = (Ok path, e) ∧ plain seg ∧
    resolve path = walk (resolve (path_append folder (app_pool_folder_name e))) seg.
Proof.
  intros Hf Hfolder Hs. unfold get_path. rewrite bind_get, Hf.
  set (dir := path_append folder (app_pool_folder_name e)).
  assert (dir ≠ []) as Hd.
  { unfold dir, path_append. destruct (app_pool_folder_name e); [done|].
    destruct (list.last folder); [|done]. destruct (_ || _), folder; done. }
  assert (script_path folder (app_pool_folder_name e) script
          = path_append dir (filename script)) as -> by (by destruct script).
  destruct (filename_plain script) as [Hp|Hp].
  - exists (filename script). eexists. split_and!; [reflexivity|done|].
    by apply resolve_append_plain.
  - rewrite Hp. exists []. eexists. split_and!; [reflexivity|apply plain_nil|].
    by apply resolve_append_root.
Qed.

(** ** The properties at a concrete input *)

(** A host whose world is a clock: Main.js was written at 5 and loads a.js;
    directory changes are signalled at once. *)
Definition main_program : program Z :=
  CallGlobal GLoad [VString (L "a.js")] (fun _ => Returns).

Definition is_main (path : wstring) : bool :=
  bool_decide (path !! (length path - 4)%nat = head (L "n.js")).

Definition test_host : Host Z := {|
  SHGetKnownFolderPath _ := Some (L "P");
  last_write_time _ _ := Some 5;
  read_script path _ := Contents (if is_main path then L "main" else L "a");
  is_directory _ _ := true;
  CreateDirectoryW _ w := (true, w);
  FindFirstChangeNotificationW _ w := (w, w + 1);
  WaitForSingleObject _ _ w := (0, w);
  Sleep t w := w + t;
  ToDetailString _ := Some [];
  Script_Compile _ source :=
    inr (if bool_decide (source = L "main") then main_program else Returns);
  function_body _ := Returns;
  u8string s := s;
  format_ws s := s;
|}.

#[local] Existing Instances test_host ascii_strings.

Definition main_path : wstring := script_path (L "P") (L "pool") (L "Main.js").

Definition main_rank (path : wstring) : nat := if is_main path then 1 else 0.

Definition watching : engine Z := set_loaded [(main_path, 0)] (start (L "pool") 0).
Definition reloaded : engine Z := snd (check_scripts 2 main_path (loaded_scripts watching) watching).

Lemma is_main_app dir name :
  length name = 4%nat -> is_main (dir ++ name) = bool_decide (head name = head (L "n.js")).
Proof.
  intros Hn. unfold is_main. rewrite length_app, lookup_app_r by lia.
  replace (_ - _ - _)%nat with 0%nat by lia. by destruct name.
Qed.

Lemma main_rank_a folder pool : main_rank (script_path folder pool (L "a.js")) = 0%nat.
Proof.
  unfold main_rank. cut (exists dir, script_path folder pool (L "a.js") = dir ++ L "a.js").
  { intros [dir ->]. by rewrite is_main_app. }
  unfold script_path. change (filename (L "a.js")) with (L "a.js").
  generalize (path_append folder pool). intros dir. cbn [L]. unfold path_append.
  destruct (list.last dir) as [d|] eqn:El.
  - destruct (_ || _); [by exists dir|]. exists (dir ++ [BACKSLASH]). by rewrite <- app_assoc.
  - by exists [].
Qed.

Lemma execute_file_terminates_witness :
  execute_file 7 main_path reloaded = execute_file 2 main_path reloaded ∧
  fst (execute_file 7 main_path reloaded) ≠ Crash out_of_stack.
Proof.
  apply (execute_file_terminates main_rank main_path 7 reloaded).
  - intros path w b p Eb. cbn in Eb. injection Eb as <-. intros Ep. cbn in Ep.
    unfold main_rank. destruct (is_main path); cbn in Ep; injection Ep as <-; [|exact I].
    cbn. split; [|done]. intros _ name folder pool Hin%list_elem_of_singleton.
    injection Hin as ->. eapply Nat.le_lt_trans; [apply Nat.eq_le_incl, main_rank_a|lia].
  - vm_compute. lia.
Defined.

Lemma check_scripts_reloads_witness :
  context reloaded = 1%nat ∧
  exists time rest, Some 5 = Some time ∧ loaded_scripts reloaded = (main_path, time) :: rest.
Proof.
  destruct (check_scripts_reloads 2 main_path watching true reloaded) as (_ & _ & Hb).
  - vm_compute. reflexivity.
  - apply Hb. reflexivity.
Defined.

Lemma reload_settles_witness :
  check_scripts 2 main_path (loaded_scripts reloaded) reloaded = (Ok false, reloaded).
Proof.
  apply (reload_settles 2 main_path watching true reloaded).
  - intros name source p Ep. cbn in Ep. injection Ep as <-. by case_bool_decide.
  - vm_compute. reflexivity.
Defined.

Lemma watch_opens_handles_witness :
  exists h e', watch 3 2 main_path 0 0 watching = (Ok h, e') ∧ length (notify_handles e') = 3%nat.
Proof.
  destruct (watch 3 2 main_path 0 0 watching) as [o e'] eqn:E.
  assert (o = Ok 2002) as -> by (vm_compute in E; by inversion E).
  exists 2002, e'. split; [done|].
  exact (watch_opens_handles 3 2 main_path 0 watching 2002 e' E).
Defined.

Lemma directory_change_without_context_witness :
  directory_change_callback 2 watching = (Crash "entering an empty context", watching).
Proof. by apply directory_change_without_context. Defined.

Lemma execute_string_false_iff_witness :
  true = false <-> exists tc, Script_Compile (W := Z) (L "a.js") (L "a") = inl tc.
Proof.
  eapply (execute_string_false_iff (execute_file 2) _ _ reloaded).
  vm_compute. reflexivity.
Defined.

Lemma report_exception_underlines_witness :
  exists out1 out2 out3,
    debug_output (snd (report_exception
      (TryCatch (Some (L "e")) (Some (Message (Some 3) (Some (Some (L "f()"))) (Some 1) (Some 3)))
         (Some (Some (L "at f")))) watching)) =
    debug_output watching ++ [out1; out2] ++ [L " "] ++ [L "^"; L "^"] ++ [newline; out3].
Proof.
  exact (report_exception_underlines
    (TryCatch (Some (L "e")) (Some (Message (Some 3) (Some (Some (L "f()"))) (Some 1) (Some 3)))
       (Some (Some (L "at f")))) 3 (L "f()") 1 3 (L "at f") watching eq_refl eq_refl).
Defined.

Lemma eternal_names_created_once_witness :
  exists e', find_or_create_eternal_name_cache 1 [L "body"] watching = (Ok [L "body"], e') ∧
    find_or_create_eternal_name_cache 1 [L "method"] e' = (Ok [L "body"], e').
Proof.
  destruct (eternal_names_created_once 1 [L "body"] [L "method"] watching eq_refl)
    as (e' & E1 & E2 & _).
  exists e'. split; [exact E1|exact E2].
Defined.

Lemma get_path_one_step_witness :
  exists seg path, get_path (L "../../secret/x.js") watching = (Ok path, watching) ∧ plain seg ∧
    resolve path = walk [L "pool"; L "P"] seg.
Proof.
  exact (get_path_one_step (L "P") (L "../../secret/x.js") watching eq_refl
           ltac:(discriminate) ltac:(discriminate)).
Defined.

Lemma rpc_execute_starts_over_witness :
  context (snd (rpc_execute 2 (L "a") reloaded)) = S (context reloaded) /\
  engine_ok (snd (rpc_execute 2 (L "a") reloaded)).
Proof.
  destruct (rpc_execute_starts_over 2 (L "a") reloaded true (snd (rpc_execute 2 (L "a") reloaded)))
    as (_ & Hc & Hok & _); [vm_compute; reflexivity|right; by vm_compute|].
  split; [exact Hc|exact Hok].
Defined.
