(* ===== verification/Http.v ===== *)
(** * Requests and responses: the methods of the HttpResponse and HttpRequest
    objects made by [initialize_objects], and [sock_to_ip], of v8_wrapper.cpp

    IIS is not part of the repository: [IIS] is the interface to the context of
    one request.  A handler is written with the lines of its lambda; an
    [HRESULT] is a [Z], a [USHORT] or [DWORD] parameter receives the wrapped
    value. *)
From S2P Require Import Prelude Values.

(** ** IIS *)

Definition FAILED (hr : Z) : bool := hr <? 0.

Inductive side := Request | Response.
Inductive header_id := HttpHeaderContentType | HttpHeaderContentEncoding.

(** [HTTP_DATA_CHUNK]: in memory, or of a file or a cache. *)
Inductive data_chunk := FromMemory (pBuffer : bytes) | FromElsewhere.

(** [HTTP_COOKED_URL]: its pointers are offsets into the text of the full URL,
    its lengths are in bytes. *)
Record cooked_url := {
  url_text : wstring;
  FullUrlLength : Z;
  pHost : nat;
  HostLength : Z;
  pAbsPath : nat;
  AbsPathLength : Z;
  pQueryString : nat;
  QueryStringLength : Z;
}.

Record sockaddr := { sa_family : Z; sa_addr : bytes }.
Abbreviation AF_INET := 2.
Abbreviation AF_INET6 := 23.

Class IIS (H : Type) := {
  (** Whether [GetRequest] and [GetResponse] give a pointer. *)
  has : side -> H -> bool;
  Clear : H -> H;
  ClearHeaders : H -> H;
  CloseConnection : H -> H;
  DisableBuffering : H -> H;
  SetNeedDisconnect : H -> H;
  ResetConnection : H -> H;
  GetKernelCacheEnabled : H -> bool;
  GetStatus : H -> Z;
  SetStatus : Z -> bytes -> H -> Z * H;
  Redirect : bytes -> bool -> bool -> H -> Z * H;
  SetErrorDescription : wstring -> Z -> bool -> H -> Z * H;
  DisableKernelCache : Z -> H -> H;
  DeleteHeader : side -> bytes -> H -> Z * H;
  GetHeader : side -> bytes -> H -> option bytes;
  (** Name, the text the pointer leads to, its length, replace. *)
  SetHeader : side -> bytes -> bytes -> Z -> bool -> H -> Z * H;
  SetHeaderById : header_id -> bytes -> Z -> bool -> H -> Z * H;
  pEntityChunks : H -> list data_chunk;
  (** One chunk in memory and [fMoreData]. *)
  WriteEntityChunks : bytes -> bool -> H -> Z * H;
  GetRemainingEntityBytes : H -> Z;
  ReadEntityBody : Z -> H -> (Z * bytes) * H;
  AllocateRequestMemory : Z -> H -> bool * H;
  InsertEntityBody : bytes -> H -> Z * H;
  SetUrl : bytes -> Z -> bool -> H -> Z * H;
  GetHttpMethod : H -> bytes;
  CookedUrl : H -> cooked_url;
  GetLocalAddress : H -> option sockaddr;
  GetRemoteAddress : H -> option sockaddr;
  InetNtopA : Z -> bytes -> bytes;
}.

Abbreviation BUFFER_SIZE := 4096.

Section handlers.
Context {H : Type} `{IIS H} `{V8Strings} `{V8Host}.

(** [if (!HTTP_CONTEXT || !HTTP_RESPONSE) throw ...]. *)
Definition check_context (s : side) (args : callback_info) (msg : string) : M H unit :=
  h ← get; throw_if (negb (this_field args) || negb (has s h)) msg.

Definition fail_if (hr : Z) (msg : string) : M H unit := throw_if (FAILED hr) msg.

(** ** HttpResponse *)

Definition response_clear : handler H := fun args =>
  _ ← check_context Response args "invalid p_http_response for clear";
  _ ← modify Clear; mret VUndefined.

Definition response_clearHeaders : handler H := fun args =>
  _ ← check_context Response args "invalid p_http_response for clearHeaders";
  _ ← modify ClearHeaders; mret VUndefined.

Definition response_closeConnection : handler H := fun args =>
  _ ← check_context Response args "invalid p_http_response for closeConnection";
  _ ← modify CloseConnection; mret VUndefined.

Definition response_disableBuffering : handler H := fun args =>
  _ ← check_context Response args "invalid p_http_response for disableBuffering";
  _ ← modify DisableBuffering; mret VUndefined.

Definition response_setNeedDisconnect : handler H := fun args =>
  _ ← check_context Response args "invalid p_http_response for setNeedDisconnect";
  _ ← modify SetNeedDisconnect; mret VUndefined.

Definition response_getKernelCacheEnabled : handler H := fun args =>
  _ ← check_context Response args "invalid p_http_response for getKernelCacheEnabled";
  h ← get; mret (to_v8_bool (GetKernelCacheEnabled h)).

Definition response_resetConnection : handler H := fun args =>
  _ ← check_context Response args "invalid p_http_response for resetConnection";
  _ ← modify ResetConnection; mret VUndefined.

Definition response_getStatus : handler H := fun args =>
  _ ← check_context Response args "invalid p_http_response for getStatus";
  h ← get; mret (to_v8_unsigned (u16 (GetStatus h))).

Definition response_setStatus : handler H := fun args =>
  _ ← check_context Response args "invalid p_http_response for setStatus";
  _ ← throw_if (args_Length args <? 2) "invalid signature for setStatus";
  status_code ← from_v8_int (arg args 0);
  status_message ← from_v8_string (arg args 1);
  hr ← call (SetStatus (u16 status_code) (c_str status_message));
  _ ← fail_if hr "failed to setStatus";
  mret VUndefined.

Definition response_redirect : handler H := fun args =>
  _ ← check_context Response args "invalid p_http_response for redirect";
  _ ← throw_if (args_Length args <? 3) "invalid signature for redirect";
  url ← from_v8_string (arg args 0);
  reset_status_code ← from_v8_bool (arg args 1);
  include_parameters ← from_v8_bool (arg args 2);
  hr ← call (Redirect (c_str url) reset_status_code include_parameters);
  _ ← fail_if hr "failed to redirect";
  mret VUndefined.

Definition response_setErrorDescription : handler H := fun args =>
  _ ← check_context Response args "invalid p_http_response for setErrorDescription";
  _ ← throw_if (args_Length args <? 2) "invalid signature for setErrorDescription";
  description ← from_v8_wstring (arg args 0);
  should_html_encode ← from_v8_bool (arg args 1);
  hr ← call (SetErrorDescription description (u32 (Z.of_nat (length description)))
               should_html_encode);
  _ ← fail_if hr "failed to set error description";
  mret VUndefined.

Definition response_disableKernelCache : handler H := fun args =>
  _ ← check_context Response args "invalid p_http_response for disableKernelCache";
  _ ← throw_if (args_Length args <? 1) "invalid signature for disableKernelCache";
  reason ← from_v8_int (arg args 0);
  _ ← modify (DisableKernelCache (u32 reason));
  mret VUndefined.

(** The bodies the two objects share. *)
Definition deleteHeader (s : side) (msg : string) : handler H := fun args =>
  _ ← check_context s args msg;
  _ ← throw_if (args_Length args <? 1) "invalid signature for deleteHeader";
  header_name ← from_v8_string (arg args 0);
  hr ← call (DeleteHeader s (c_str header_name));
  _ ← fail_if hr "failed to delete header";
  mret VUndefined.

Definition getHeader (s : side) (msg : string) : handler H := fun args =>
  _ ← check_context s args msg;
  _ ← throw_if (args_Length args <? 1) "invalid signature for getHeader";
  match Utf8Value_of (arg args 0) with
  | None => mret VNull
  | Some header_name =>
      h ← get;
      match GetHeader s (c_str header_name) h with
      | None => mret VNull
      | Some header_value => mret (to_v8_string header_value)
      end
  end.

Definition setHeader (s : side) (msg : string) : handler H := fun args =>
  _ ← check_context s args msg;
  _ ← throw_if (args_Length args <? 2) "invalid signature for setHeader";
  header_name ← from_v8_string (arg args 0);
  header_value ← from_v8_string (arg args 1);
  let should_replace := from_v8_default bool (arg args 2) true in
  hr ← call (SetHeader s (c_str header_name) header_value
               (u16 (Z.of_nat (length header_value))) should_replace);
  _ ← fail_if hr "failed to set header";
  mret VUndefined.

Definition response_deleteHeader : handler H :=
  deleteHeader Response "invalid p_http_response for deleteHeader".
Definition response_getHeader : handler H :=
  getHeader Response "invalid p_http_response for getHeader".
Definition response_setHeader : handler H :=
  setHeader Response "invalid p_http_response for setHeader".

(** *** [read] of the response *)

Definition chunk_length (c : data_chunk) : nat :=
  match c with FromMemory b => length b | FromElsewhere => 0 end.

(** The first loop. *)
Fixpoint sum_sizes (chunks : list data_chunk) (total_size : nat) : nat :=
  match chunks with
  | [] => total_size
  | FromElsewhere :: chunks' => sum_sizes chunks' total_size
  | FromMemory b :: chunks' => sum_sizes chunks' (total_size + length b)
  end.

(** The second loop. *)
Fixpoint copy_chunks (chunks : list data_chunk) (buffer : bytes) (offset : nat)
  : option bytes :=
  match chunks with
  | [] => Some buffer
  | FromElsewhere :: chunks' => copy_chunks chunks' buffer offset
  | FromMemory b :: chunks' =>
      if (length b =? 0)%nat then copy_chunks chunks' buffer offset
      else
        buffer ← memcpy buffer offset b;
        copy_chunks chunks' buffer (offset + length b)
  end.

(** A fresh buffer: V8 clears an [ArrayBuffer]; what [new char[]] holds does
    not matter. *)
Definition response_read : handler H := fun args =>
  _ ← check_context Response args "invalid p_http_response for read";
  h ← get;
  let chunks := pEntityChunks h in
  if (length chunks =? 0)%nat then mret VNull
  else
    let total_size := sum_sizes chunks 0 in
    if (total_size =? 0)%nat then mret VNull
    else
      match copy_chunks chunks (replicate total_size 0) 0 with
      | None => crash "write outside the buffer"
      | Some contents =>
          if from_v8_default bool (arg args 0) false
          then mret (VUint8Array {| array_buffer := contents; byte_offset := 0;
                                    byte_length := total_size |})
          else
            match NewExternalOneByte contents with
            | None => raise "failed to obtain string"
            | Some string => mret (VString string)
            end
      end.

(** *** [write] *)

Abbreviation MAX_BYTES := 65535.

(** [Utf8ValueScoped] and [ArrayBufferScoped] of the body: the buffer and its
    size, an [unsigned long].  On a value that is not a string the test of
    the first reads a pointer that was never written.  The second takes the
    buffer behind the view. *)
Definition body_buffer (v : value) : M H (bytes * Z) :=
  let scoped (b : bytes) := (b, u32 (Z.of_nat (length b))) in
  match v with
  | VString s => mret (scoped (Utf8Value s))
  | _ =>
      if uninitialised then crash "use of an uninitialised pointer"
      else
        match v with
        | VUint8Array u => mret (scoped (array_buffer u))
        | _ => raise "invalid first argument type for write"
        end
  end.

(** The [do ... while] loop; the subtractions are on [unsigned long]. *)
Fixpoint write_loop (fuel : nat) (buffer : bytes) (buffer_size buffer_offset bytes_to_write : Z)
  (has_more_data : bool) : M H unit :=
  match fuel with
  | O => crash "endless loop"
  | S fuel' =>
      let chunk := take (Z.to_nat (u16 bytes_to_write)) (drop (Z.to_nat buffer_offset) buffer) in
      hr ← call (WriteEntityChunks chunk has_more_data);
      _ ← fail_if hr "failed to write";
      let buffer_offset := u32 (buffer_offset + bytes_to_write) in
      let bytes_to_write := Z.min (u32 (buffer_size - buffer_offset)) MAX_BYTES in
      let has_more_data := 0 <? u32 (buffer_size - buffer_offset) in
      if has_more_data
      then write_loop fuel' buffer buffer_size buffer_offset bytes_to_write has_more_data
      else mret ()
  end.

Definition set_header_from (id : header_id) (text : bytes) : M H unit :=
  _ ← call (SetHeaderById id (c_str text) (u16 (Z.of_nat (length text))) true); mret ().

Definition write_headers (args : callback_info) : M H unit :=
  _ ← (if (2 <=? args_Length args) && IsString (arg args 1) then
         match Utf8Value_of (arg args 1) with
         | None => raise "second argument is invalid for write"
         | Some mime_type => set_header_from HttpHeaderContentType mime_type
         end
       else set_header_from HttpHeaderContentType (L "text/html"));
  if (3 <=? args_Length args) && IsString (arg args 2) then
    match Utf8Value_of (arg args 2) with
    | None => raise "third argument is invalid for write"
    | Some content_encoding => set_header_from HttpHeaderContentEncoding content_encoding
    end
  else mret ().

(** One round more than there are bytes is enough for the loop. *)
Definition response_write : handler H := fun args =>
  _ ← check_context Response args "invalid p_http_response for write";
  _ ← throw_if (args_Length args <? 1) "invalid signature for write";
  body ← body_buffer (arg args 0);
  let '(buffer, buffer_size) := body in
  _ ← write_headers args;
  let bytes_to_write := Z.min (u32 (buffer_size - 0)) MAX_BYTES in
  let has_more_data := 0 <? u32 (buffer_size - bytes_to_write) in
  _ ← write_loop (S (length buffer)) buffer buffer_size 0 bytes_to_write has_more_data;
  mret VUndefined.

(** ** HttpRequest *)


Fixpoint read_loop (fuel : nat) (acc : bytes) (remaining_bytes : Z) : M H bytes :=
  if remaining_bytes =? 0 then mret acc
  else
    match fuel with
    | O => crash "endless loop"
    | S fuel' =>
        result ← call (ReadEntityBody BUFFER_SIZE);
        let '(hr, buffer) := result in
        _ ← throw_if ((length buffer =? 0)%nat || FAILED hr) "failed to read entity body";
        h ← get;
        read_loop fuel' (acc ++ buffer) (GetRemainingEntityBytes h)
    end.

(** [GetRemainingEntityBytes] is a [DWORD]: the fuel is the bytes to read. *)
Definition request_read : handler H := fun args =>
  _ ← check_context Request args "invalid p_http_request for read";
  h ← get;
  if GetRemainingEntityBytes h =? 0 then mret VNull
  else
    let remaining_bytes := GetRemainingEntityBytes h in
    contents ← read_loop (Z.to_nat remaining_bytes) [] remaining_bytes;
    let string_object := to_v8_string contents in
    rewrite_ ← (if 1 <=? args_Length args then from_v8_bool (arg args 0) else mret false);
    _ ← (if rewrite_ : bool then
           context_buffer ← call (AllocateRequestMemory (u32 (Z.of_nat (length contents))));
           _ ← throw_if (negb context_buffer) "invalid allocation pointer for read.";
           hr ← call (InsertEntityBody contents);
           fail_if hr "failed to rewrite"
         else mret ());
    mret string_object.

Definition request_setUrl : handler H := fun args =>
  _ ← check_context Request args "invalid p_http_request for setUrl";
  _ ← throw_if (args_Length args <? 1) "invalid signature for setUrl";
  _ ← throw_if (negb (IsString (arg args 0))) "first parameter must be a string.";
  url ← from_v8_string (arg args 0);
  let resetQueryString := from_v8_default bool (arg args 1) true in
  hr ← call (SetUrl url (u32 (Z.of_nat (length url))) resetQueryString);
  _ ← fail_if hr "failed to set url";
  mret VUndefined.

Definition request_deleteHeader : handler H :=
  deleteHeader Request "invalid p_http_request for deleteHeader".
Definition request_setHeader : handler H :=
  setHeader Request "invalid p_http_request for setHeader".
Definition request_getHeader : handler H :=
  getHeader Request "invalid p_http_request for getHeader".

Definition request_getMethod : handler H := fun args =>
  _ ← check_context Request args "invalid p_http_request for getMethod";
  h ← get; mret (to_v8_string (c_str (GetHttpMethod h))).

(** [to_v8(isolate, pointer, length / sizeof(wchar_t))]. *)
Definition url_slice (u : cooked_url) (pointer : nat) (len : Z) : wstring :=
  take (Z.to_nat (len / 2)) (drop pointer (url_text u)).

Definition request_getAbsPath : handler H := fun args =>
  _ ← check_context Request args "invalid p_http_request for getMethod";
  h ← get;
  let u := CookedUrl h in
  mret (to_v8_wstring (url_slice u (pAbsPath u) (AbsPathLength u))).

Definition request_getFullUrl : handler H := fun args =>
  _ ← check_context Request args "invalid p_http_request for getFullUrl";
  h ← get;
  let u := CookedUrl h in
  mret (to_v8_wstring (url_slice u 0 (FullUrlLength u))).

Definition request_getQueryString : handler H := fun args =>
  _ ← check_context Request args "invalid p_http_request for getQueryString";
  h ← get;
  let u := CookedUrl h in
  mret (to_v8_wstring (url_slice u (pQueryString u) (QueryStringLength u))).

Definition request_getPath : handler H := fun args =>
  _ ← check_context Request args "invalid p_http_request for getQueryString";
  h ← get;
  let u := CookedUrl h in
  mret (to_v8_wstring (url_slice u (pAbsPath u) (AbsPathLength u + QueryStringLength u))).

Definition request_getHost : handler H := fun args =>
  _ ← check_context Request args "invalid p_http_request for getHost";
  h ← get;
  let u := CookedUrl h in
  mret (to_v8_wstring (url_slice u (pHost u) (HostLength u))).

(** [sock_to_ip]; [throw_ex] schedules the exception that the script sees
    when the handler returns. *)
Definition sock_to_ip (address : option sockaddr) : M H bytes :=
  match address with
  | None => raise "invalid address for sock_to_ip"
  | Some a =>
      if sa_family a =? AF_INET then mret (InetNtopA AF_INET (sa_addr a))
      else if sa_family a =? AF_INET6 then mret (InetNtopA AF_INET6 (sa_addr a))
      else raise "invalid family for sock_to_ip"
  end.

Definition request_getLocalAddress : handler H := fun args =>
  _ ← check_context Request args "invalid p_http_request for getLocalAddress";
  h ← get;
  ip ← sock_to_ip (GetLocalAddress h);
  mret (to_v8_string ip).

Definition request_getRemoteAddress : handler H := fun args =>
  _ ← check_context Request args "invalid p_http_request for getRemoteAddress";
  h ← get;
  ip ← sock_to_ip (GetRemoteAddress h);
  mret (to_v8_string ip).

(** ** The objects *)

Definition http_response_object : list (string * handler H) := [
  ("clear", response_clear); ("clearHeaders", response_clearHeaders);
  ("closeConnection", response_closeConnection);
  ("disableBuffering", response_disableBuffering);
  ("setNeedDisconnect", response_setNeedDisconnect);
  ("getKernelCacheEnabled", response_getKernelCacheEnabled);
  ("resetConnection", response_resetConnection); ("getStatus", response_getStatus);
  ("setStatus", response_setStatus); ("redirect", response_redirect);
  ("setErrorDescription", response_setErrorDescription);
  ("disableKernelCache", response_disableKernelCache);
  ("deleteHeader", response_deleteHeader); ("getHeader", response_getHeader);
  ("read", response_read); ("write", response_write); ("setHeader", response_setHeader)
]%string.

Definition http_request_object : list (string * handler H) := [
  ("read", request_read); ("setUrl", request_setUrl);
  ("deleteHeader", request_deleteHeader); ("setHeader", request_setHeader);
  ("getMethod", request_getMethod); ("getAbsPath", request_getAbsPath);
  ("getFullUrl", request_getFullUrl); ("getQueryString", request_getQueryString);
  ("getPath", request_getPath); ("getHost", request_getHost);
  ("getLocalAddress", request_getLocalAddress);
  ("getRemoteAddress", request_getRemoteAddress); ("getHeader", request_getHeader)
]%string.
End handlers.

(** ** The calls of [write] *)

(** The parts of at most 65535 bytes, in order. *)
Fixpoint split_chunks (fuel : nat) (body : bytes) : list bytes :=
  match fuel with
  | O => []
  | S fuel' =>
      if Z.of_nat (length body) <=? 65535 then [body]
      else take (Z.to_nat 65535) body :: split_chunks fuel' (drop (Z.to_nat 65535) body)
  end.

(** The chunks [write] sends and the flag it sends each with. *)
Definition body_calls (body : bytes) : list (bytes * bool) :=
  map (fun chunk => (chunk, 65535 <? Z.of_nat (length body)))
    (split_chunks (S (length body)) body).

Lemma split_chunks_concat fuel body :
  (length body < fuel)%nat ->
  concat (split_chunks fuel body) = body ∧
  Forall (fun c => Z.of_nat (length c) <= 65535) (split_chunks fuel body).
Proof.
  revert body. induction fuel as [|fuel IH]; intros body Hf; [lia|]. cbn [split_chunks].
  destruct (Z.leb_spec (Z.of_nat (length body)) 65535).
  - simpl. rewrite app_nil_r. split; [done|]. apply Forall_singleton. lia.
  - destruct (IH (drop (Z.to_nat 65535) body)) as [E F]; [rewrite length_drop; lia|].
    split; [cbn [concat]; rewrite E; apply take_drop|].
    apply Forall_cons. split; [rewrite length_take; lia|done].
Qed.

Section write.
Context {H : Type} `{IIS H} `{V8Strings} `{V8Host}.

Fixpoint write_calls (calls : list (bytes * bool)) : M H unit :=
  match calls with
  | [] => mret ()
  | (chunk, more) :: calls' =>
      hr ← call (WriteEntityChunks chunk more);
      _ ← fail_if hr "failed to write";
      write_calls calls'
  end.

(** One round of the loop; [n] is what the round writes. *)
Lemma write_loop_round fuel buffer size off n more h :
  0 <= off <= size -> size < 2 ^ 32 -> (Z.to_nat size <= length buffer)%nat ->
  n = Z.min (size - off) 65535 ->
  write_loop (S fuel) buffer size off n more h =
    (write_calls [(take (Z.to_nat n) (drop (Z.to_nat off) (take (Z.to_nat size) buffer)), more)]
     ≫= fun _ =>
     if off + n <? size
     then write_loop fuel buffer size (off + n) (Z.min (size - (off + n)) 65535) true
     else mret ()) h.
Proof.
  intros Hoff Hsize Hlen Hn. cbn [write_loop write_calls]. rewrite bind_assoc.
  replace (u16 n) with n by (symmetry; apply wrap_small; lia).
  replace (u32 (off + n)) with (off + n) by (symmetry; apply wrap_small; lia).
  replace (u32 (size - (off + n))) with (size - (off + n))
    by (symmetry; apply wrap_small; lia).
  replace (0 <? size - (off + n)) with (off + n <? size) by lia.
  replace (take (Z.to_nat n) (drop (Z.to_nat off) (take (Z.to_nat size) buffer)))
    with (take (Z.to_nat n) (drop (Z.to_nat off) buffer)).
  2: { rewrite skipn_firstn_comm, firstn_firstn. f_equal. lia. }
  unfold mbind, M_bind. destruct (call _ h) as [[hr|?|?] h1]; [|done|done].
  unfold fail_if, throw_if. destruct (FAILED hr); [done|].
  simpl. by destruct (off + n <? size).
Qed.

Lemma write_calls_app calls1 calls2 h :
  write_calls (calls1 ++ calls2) h = (write_calls calls1 ≫= fun _ => write_calls calls2) h.
Proof.
  revert h. induction calls1 as [|[chunk more] calls1 IH]; intros h; [done|]. simpl.
  unfold mbind, M_bind. destruct (call _ h) as [[hr|?|?] h1]; [|done|done].
  destruct (fail_if hr _ h1) as [[?|?|?] h2]; [|done|done]. apply IH.
Qed.

Lemma write_loop_more fuel buffer size off h :
  0 <= off < size -> size < 2 ^ 32 -> (Z.to_nat size <= length buffer)%nat ->
  size - off < Z.of_nat fuel ->
  write_loop fuel buffer size off (Z.min (size - off) 65535) true h =
    write_calls (map (fun c => (c, true))
      (split_chunks fuel (drop (Z.to_nat off) (take (Z.to_nat size) buffer)))) h.
Proof.
  revert off h. induction fuel as [|fuel IH]; intros off h Hoff Hsize Hlen Hf; [lia|].
  rewrite write_loop_round by lia. cbn [split_chunks].
  set (rest := drop (Z.to_nat off) (take (Z.to_nat size) buffer)).
  assert (Z.of_nat (length rest) = size - off) as Hrest
    by (unfold rest; rewrite length_drop, length_take; lia).
  destruct (Z.leb_spec (Z.of_nat (length rest)) 65535).
  - replace (Z.min _ _) with (Z.of_nat (length rest)) by lia.
    rewrite Nat2Z.id, firstn_all. replace (_ <? size) with false by lia.
    cbn [map]. unfold mbind, M_bind. by destruct (write_calls _ h) as [[[]|?|?] h1].
  - replace (Z.min (size - off) 65535) with 65535 by lia.
    replace (off + 65535 <? size) with true by lia.
    cbn [map].
    match goal with |- _ = write_calls (?c :: ?l) h => change (c :: l) with ([c] ++ l) end.
    rewrite write_calls_app.
    replace (drop (Z.to_nat 65535) rest) with (drop (Z.to_nat (off + 65535)) (take (Z.to_nat size) buffer))
      by (unfold rest; rewrite drop_drop; f_equal; lia).
    unfold mbind, M_bind. destruct (write_calls _ h) as [[[]|?|?] h1]; [|done|done].
    apply IH; lia.
Qed.

(** The whole loop, as [write] starts it. *)
Lemma write_loop_calls buffer h :
  let size := u32 (Z.of_nat (length buffer)) in
  let n := Z.min (u32 (size - 0)) 65535 in
  write_loop (S (length buffer)) buffer size 0 n (0 <? u32 (size - n)) h =
    write_calls (body_calls (take (Z.to_nat size) buffer)) h.
Proof.
  intros size n.
  assert (0 <= size < 2 ^ 32) as Hsize by (apply wrap_range; lia).
  assert (Z.to_nat size <= length buffer)%nat as Hle.
  { unfold size, wrap. pose proof (Z.mod_le (Z.of_nat (length buffer)) (2 ^ 32)). lia. }
  assert (n = Z.min (size - 0) 65535) as Hn
    by (unfold n; rewrite (wrap_small 32 (size - 0)); lia).
  replace (u32 (size - n)) with (size - n) by (symmetry; apply wrap_small; lia).
  unfold body_calls. rewrite length_take. replace (_ `min` _)%nat with (Z.to_nat size) by lia.
  rewrite Z2Nat.id by lia.
  destruct (Z.ltb_spec 65535 size) as [Hbig|Hsmall].
  - replace (0 <? size - n) with true by lia. rewrite Hn.
    rewrite write_loop_more by lia. rewrite drop_0.
    assert (forall f1 f2 b, (length b < f1)%nat -> (length b < f2)%nat ->
      split_chunks f1 b = split_chunks f2 b) as Hirrel.
    { induction f1 as [|f1 IH]; intros [|f2] b H1' H2'; try lia. cbn [split_chunks].
      destruct (_ <=? _) eqn:E; [done|]. f_equal.
      apply IH; rewrite length_drop; lia. }
    rewrite (Hirrel _ (S (Z.to_nat size))); [done|rewrite length_take; lia..].
  - replace (0 <? size - n) with false by lia.
    rewrite write_loop_round by lia. rewrite drop_0. cbn [split_chunks].
    rewrite length_take.
    replace (Z.of_nat (Z.to_nat size `min` length buffer)%nat <=? 65535) with true
      by (symmetry; apply Z.leb_le; lia).
    replace (0 + n <? size) with false by lia. cbn [map].
    replace (take (Z.to_nat n) _) with (take (Z.to_nat size) buffer).
    2: { rewrite firstn_firstn. f_equal. lia. }
    unfold mbind, M_bind. by destruct (write_calls _ h) as [[[]|?|?] h1].
Qed.
End write.

(** ** The request's entity body *)

(** What IIS documents of the entity body: the remaining bytes are what is
    left of it, a read that does not fail takes a part of its beginning, and an
    inserted body is what is read next. *)
Class IISRequestLaws (H : Type) `{IIS H} := {
  entity_body : H -> bytes;
  remaining_entity_body h : GetRemainingEntityBytes h = Z.of_nat (length (entity_body h));
  read_entity_body n h hr buffer h' :
    ReadEntityBody n h = ((hr, buffer), h') -> FAILED hr = false ->
    entity_body h = buffer ++ entity_body h';
  insert_entity_body b h hr h' :
    InsertEntityBody b h = (hr, h') -> FAILED hr = false -> entity_body h' = b;
}.

Section reads.
Context {H : Type} `{IIS H} `{!IISRequestLaws H}.

(** Reads of a buffer each, which give the bytes in order and do not fail. *)
Inductive entity_reads : H -> bytes -> H -> Prop :=
| reads_nothing h : entity_reads h [] h
| reads_more h hr buffer h1 rest h2 :
    ReadEntityBody BUFFER_SIZE h = ((hr, buffer), h1) -> FAILED hr = false -> buffer <> [] ->
    entity_reads h1 rest h2 -> entity_reads h (buffer ++ rest) h2.

(** Behind some reads, with bytes left, IIS fails a read or gives nothing. *)
Definition read_refused (h h' : H) : Prop :=
  exists part h1 hr buffer, entity_reads h part h1 /\ entity_body h1 <> [] /\
    ReadEntityBody BUFFER_SIZE h1 = ((hr, buffer), h') /\ (FAILED hr = true \/ buffer = []).

End reads.

Lemma fail_if_false {S} hr msg (h : S) : FAILED hr = false -> fail_if (H := S) hr msg h = (Ok (), h).
Proof. unfold fail_if, throw_if. by intros ->. Qed.

Section properties.
Context {H : Type} `{IIS H} `{V8Strings} `{V8Host}.

Lemma check_context_ok {A} s args msg (k : () -> M H A) h :
  this_field args = true -> has s h = true -> (check_context s args msg ≫= k) h = k () h.
Proof.
  intros Ht Hh. unfold check_context, throw_if, mbind, M_bind. simpl. by rewrite Ht, Hh.
Qed.

Lemma check_context_bad {A} s args msg (k : () -> M H A) h :
  this_field args = false ∨ has s h = false ->
  (check_context s args msg ≫= k) h = (Throw (StdException msg), h).
Proof.
  intros Hb. unfold check_context, throw_if, mbind, M_bind. simpl.
  destruct Hb as [-> | ->]; [done|]. by rewrite orb_true_r.
Qed.

(** The body a first argument gives to [write]. *)
Definition body_of (v : value) : option bytes :=
  match v with
  | VString s => Some (Utf8Value s)
  | VUint8Array u => if uninitialised then None else Some (array_buffer u)
  | _ => None
  end.

(** [write] up to its headers, and the calls its loop makes. *)
Lemma response_write_eq args h body :
  this_field args = true -> has Response h = true -> body_of (arg args 0) = Some body ->
  response_write args h =
    (write_headers args ≫= fun _ =>
     write_calls (body_calls (take (Z.to_nat (u32 (Z.of_nat (length body)))) body)) ≫= fun _ =>
     mret VUndefined) h.
Proof.
  intros Ht Hh Hb. unfold response_write. rewrite check_context_ok by done.
  rewrite bind_throw_if.
  2: { unfold arg in Hb. unfold args_Length. destruct (argv args); [done|].
       apply Z.ltb_ge. simpl. lia. }
  assert (body_buffer (arg args 0) h = (Ok (body, u32 (Z.of_nat (length body))), h)) as Eb.
  { unfold body_of in Hb. unfold body_buffer.
    destruct (arg args 0) as [| |?|?|s| |?|u|?|?]; try done; [by simplify_eq|].
    destruct uninitialised; by simplify_eq. }
  rewrite (bind_ok _ _ _ _ _ Eb).
  unfold mbind, M_bind. destruct (write_headers args h) as [[[]|?|?] h1]; [|done|done].
  by rewrite write_loop_calls.
Qed.

Lemma concat_body_calls body : concat (map fst (body_calls body)) = body.
Proof. unfold body_calls. rewrite map_map, map_id. apply split_chunks_concat. lia. Qed.

(** C6 (equivalence).  [response.write] sets its headers and then sends the
    body, cut to 32 bits of length, as a list of chunks of at most 65535
    bytes that concatenate to it; a body of one chunk is sent as the last
    one, and every chunk of a longer body, the last included, with the
    flag that more follows.  The body of an array is the buffer behind it. *)
Theorem response_write_sends_body args h body :
  this_field args = true -> has Response h = true -> body_of (arg args 0) = Some body ->
  let sent := take (Z.to_nat (u32 (Z.of_nat (length body)))) body in
  response_write args h =
    (write_headers args ≫= fun _ => write_calls (body_calls sent) ≫= fun _ => mret VUndefined) h ∧
  concat (map fst (body_calls sent)) = sent ∧
  Forall (fun c => Z.of_nat (length c.1) <= 65535 ∧ c.2 = (65535 <? Z.of_nat (length sent)))
    (body_calls sent).
Proof.
  intros Ht Hh Hb sent. split; [|split].
  - by apply response_write_eq.
  - apply concat_body_calls.
  - unfold body_calls. apply Forall_map.
    eapply Forall_impl; [exact (proj2 (split_chunks_concat _ sent (Nat.lt_succ_diag_r _)))|].
    by intros c Hc.
Qed.

(** (error).  On a body that is not a string, [response.write] tests a
    pointer no constructor wrote: with a null there it refuses anything
    but an array, with another value it uses the pointer. *)
Theorem response_write_not_string args h :
  this_field args = true -> has Response h = true -> 1 <= args_Length args ->
  IsString (arg args 0) = false ->
  (uninitialised = true ->
     response_write args h = (Crash "use of an uninitialised pointer", h)) ∧
  (uninitialised = false -> IsUint8Array (arg args 0) = false ->
     response_write args h = (Throw (StdException "invalid first argument type for write"), h)).
Proof.
  intros Ht Hh Hl Hs. unfold response_write. rewrite check_context_ok by done.
  rewrite bind_throw_if by (apply Z.ltb_ge; lia). unfold body_buffer.
  destruct (arg args 0); try discriminate Hs; split; intros Hu; rewrite Hu;
    try (intros Ha; discriminate Ha); done.
Qed.

(** *** [response.read] *)

Fixpoint memory_bytes (chunks : list data_chunk) : bytes :=
  match chunks with
  | [] => []
  | FromElsewhere :: chunks' => memory_bytes chunks'
  | FromMemory b :: chunks' => b ++ memory_bytes chunks'
  end.

Lemma sum_sizes_eq chunks n : sum_sizes chunks n = (n + length (memory_bytes chunks))%nat.
Proof.
  revert n. induction chunks as [|[b|] chunks IH]; intros n; simpl; [lia| |apply IH].
  rewrite IH, length_app. lia.
Qed.

Lemma copy_chunks_eq chunks done_ todo :
  length todo = length (memory_bytes chunks) ->
  copy_chunks chunks (done_ ++ todo) (length done_) = Some (done_ ++ memory_bytes chunks).
Proof.
  revert done_ todo. induction chunks as [|[b|] chunks IH]; intros d t Hl; simpl in *.
  - by apply nil_length_inv in Hl as ->.
  - rewrite length_app in Hl. destruct (Nat.eqb_spec (length b) 0) as [Hb|Hb].
    + apply nil_length_inv in Hb as ->. simpl in *. by apply IH.
    + rewrite memcpy_at_end by lia. simpl.
      rewrite app_assoc, <- length_app, IH by (rewrite length_drop; lia).
      by rewrite <- app_assoc.
  - by apply IH.
Qed.

(** (functional).  [response.read] returns the bytes of all chunks in
    memory, in order and whole, and null when there are none; the copies
    never leave the buffer.  As a string they are one code unit each,
    although [write] sent UTF-8. *)
Theorem response_read_concatenates args h :
  this_field args = true -> has Response h = true ->
  response_read args h =
    (match memory_bytes (pEntityChunks h) with
     | [] => Ok VNull
     | contents =>
         if from_v8_default bool (arg args 0) false
         then Ok (VUint8Array {| array_buffer := contents; byte_offset := 0;
                                 byte_length := length contents |})
         else match NewExternalOneByte contents with
              | Some s => Ok (VString s)
              | None => Throw (StdException "failed to obtain string")
              end
     end, h).
Proof.
  intros Ht Hh. unfold response_read. rewrite check_context_ok by done. rewrite bind_get.
  rewrite sum_sizes_eq. set (contents := memory_bytes (pEntityChunks h)). simpl.
  destruct (Nat.eqb_spec (length (pEntityChunks h)) 0) as [Hz|_].
  { apply nil_length_inv in Hz. unfold contents. by rewrite Hz. }
  destruct (Nat.eqb_spec (length contents) 0) as [Hz|Hz].
  { apply nil_length_inv in Hz. by rewrite Hz. }
  pose proof (copy_chunks_eq (pEntityChunks h) [] (replicate (length contents) 0)) as E.
  simpl in E. rewrite length_replicate in E. rewrite E by done. fold contents.
  destruct contents as [|c contents'] eqn:Ec; [done|].
  destruct (from_v8_default bool (arg args 0) false); [done|].
  by destruct (NewExternalOneByte _).
Qed.

(** *** Guards *)

(** The outcome of a call without a context. *)
Definition needs_context (s : side) (f : handler H) : Prop :=
  forall args h, this_field args = false ∨ has s h = false ->
  exists msg, f args h = (Throw (StdException msg), h).

(** (safety).  No method of the two objects touches IIS without a context
    and its request or response: each throws and changes nothing. *)
Theorem handlers_need_context :
  Forall (fun p => needs_context Response (snd p)) http_response_object ∧
  Forall (fun p => needs_context Request (snd p)) http_request_object.
Proof.
  unfold http_response_object, http_request_object.
  split; repeat apply Forall_cons_2; try apply Forall_nil_2;
    intros args h Hb; eexists; simpl;
    first [exact (check_context_bad _ _ _ _ _ Hb)|reflexivity].
Qed.

(** (bounds).  [setHeader] passes the length of the value as a [USHORT]:
    it is the length of every value below 65536 bytes, and less than the
    length of every longer one. *)
Theorem setHeader_length s msg name text h :
  has s h = true ->
  let value := Utf8Value text in
  exists cch,
    setHeader s msg {| this_field := true; argv := [VString name; VString text] |} h =
      (hr ← call (SetHeader s (c_str (Utf8Value name)) value cch true);
       _ ← fail_if hr "failed to set header"; mret VUndefined) h ∧
    (Z.of_nat (length value) < 65536 -> cch = Z.of_nat (length value)) ∧
    (65536 <= Z.of_nat (length value) -> 0 <= cch < 65536).
Proof.
  intros Hh value. exists (u16 (Z.of_nat (length value))). split_and!.
  - unfold setHeader. by rewrite check_context_ok.
  - intros. apply wrap_small. lia.
  - intros _. apply (wrap_range 16). lia.
Qed.

(** (bounds).  The status reaches IIS modulo 65536: unchanged exactly
    when it is a 16-bit number. *)
Theorem setStatus_code code text h :
  has Response h = true -> - 2 ^ 31 <= code < 2 ^ 31 ->
  exists status,
    response_setStatus {| this_field := true; argv := [VInt code; VString text] |} h =
      (hr ← call (SetStatus status (c_str (Utf8Value text)));
       _ ← fail_if hr "failed to setStatus"; mret VUndefined) h ∧
    0 <= status < 65536 ∧ (status = code <-> 0 <= code < 65536).
Proof.
  intros Hh Hc. exists (u16 code).
  pose proof (wrap_range 16 code) as Hr. split; [|split; [apply Hr; lia|]].
  - unfold response_setStatus. rewrite check_context_ok, bind_throw_if by done.
    rewrite (bind_ok (from_v8_int _) _ _ code h); [done|].
    unfold from_v8_int. rewrite from_v8_valid by done.
    change (from_valid (arg _ 0)) with (to_int32 (num code)).
    by rewrite to_int32_num, i32_small.
  - split; [lia|]. intros. by apply wrap_small.
Qed.

(** (functional).  When the query follows the path in the URL, as IIS
    cooks it, [getPath] is [getAbsPath] followed by [getQueryString]. *)
Theorem getPath_is_path_and_query args h path query :
  this_field args = true -> has Request h = true ->
  let u := CookedUrl h in
  0 <= AbsPathLength u -> AbsPathLength u mod 2 = 0 -> 0 <= QueryStringLength u ->
  pQueryString u = (pAbsPath u + Z.to_nat (AbsPathLength u / 2))%nat ->
  (pQueryString u <= length (url_text u))%nat ->
  request_getAbsPath args h = (Ok (VString path), h) ->
  request_getQueryString args h = (Ok (VString query), h) ->
  request_getPath args h = (Ok (VString (path ++ query)), h).
Proof.
  intros Ht Hh u Ha Hm Hq Hp Hlen. unfold request_getAbsPath, request_getQueryString,
    request_getPath. rewrite !check_context_ok, !bind_get by done. fold u.
  intros [= <-] [= <-]. do 3 f_equal. unfold url_slice.
  replace ((AbsPathLength u + QueryStringLength u) / 2)
    with (AbsPathLength u / 2 + QueryStringLength u / 2).
  2: { rewrite (Z.div_mod (AbsPathLength u) 2) at 2 by lia. rewrite Hm, Z.add_0_r.
       rewrite Z.mul_comm, Z.add_comm, Z.div_add_l by lia. lia. }
  rewrite Z2Nat.inj_add by (apply Z.div_pos; lia).
  rewrite <- take_take_drop, drop_drop, <- Hp.
  done.
Qed.

(** ** [request.read] *)

Context `{!IISRequestLaws H}.

Lemma read_loop_reads fuel acc h :
  (length (entity_body h) <= fuel)%nat ->
  exists h',
    (read_loop fuel acc (GetRemainingEntityBytes h) h = (Ok (acc ++ entity_body h), h') ∧
     entity_body h' = [] ∧ entity_reads h (entity_body h) h') ∨
    (read_loop fuel acc (GetRemainingEntityBytes h) h
      = (Throw (StdException "failed to read entity body"), h') ∧ read_refused h h').
Proof.
  revert acc h. induction fuel as [|fuel IH]; intros acc h Hf; rewrite remaining_entity_body.
  - destruct (entity_body h) eqn:E; simpl in *; [|lia].
    exists h. left. rewrite app_nil_r. split_and!; [done..|constructor].
  - simpl. destruct (entity_body h) as [|c rest] eqn:Eb.
    { exists h. left. rewrite app_nil_r. split_and!; [done..|constructor]. }
    cbn [length]. replace (_ =? 0) with false by (symmetry; apply Z.eqb_neq; lia).
    unfold mbind, M_bind, call.
    destruct (ReadEntityBody 4096 h) as [[hr buffer] h1] eqn:Er.
    assert (FAILED hr = true ∨ buffer = [] -> read_refused h h1) as Hrefused.
    { intros Hr. exists [], h, hr, buffer. split_and!; [constructor|by rewrite Eb|done|done]. }
    destruct (Nat.eqb_spec (length buffer) 0) as [Hb|Hb].
    { exists h1. right. split; [done|]. apply Hrefused. right. by apply nil_length_inv. }
    destruct (FAILED hr) eqn:Ef; [exists h1; right; split; [done|]; by apply Hrefused; left|]. simpl.
    pose proof (read_entity_body _ _ _ _ _ Er Ef) as E1. rewrite Eb in E1. rewrite E1.
    assert (length (entity_body h1) <= fuel)%nat as Hf1.
    { apply (f_equal length) in E1. rewrite length_app in E1. simpl in *. lia. }
    assert (buffer <> []) as Hne by (intros ->; done).
    destruct (IH (acc ++ buffer) h1 Hf1) as (h' & [(IH' & Ee & Hr)|[IH' (part & h2 & hr2 & b2 & Hr & Hrest)]]);
      exists h'; unfold get; [left|right].
    + split; [by rewrite app_assoc|]. split; [done|]. by eapply reads_more.
    + split; [done|]. exists (buffer ++ part), h2, hr2, b2. split; [by eapply reads_more|done].
Qed.

Lemma request_read_eq h :
  has Request h = true ->
  request_read {| this_field := true; argv := [] |} h =
    match entity_body h with
    | [] => (Ok VNull, h)
    | body => (contents ← read_loop (length body) [] (Z.of_nat (length body));
               mret (to_v8_string contents)) h
    end.
Proof.
  intros Hh. unfold request_read. rewrite check_context_ok, bind_get by done.
  rewrite !remaining_entity_body. destruct (entity_body h) as [|c b] eqn:Eb; [done|].
  rewrite (proj2 (Z.eqb_neq _ _)) by (cbn [length]; lia). by rewrite Nat2Z.id.
Qed.

Lemma request_read_cases h :
  has Request h = true -> entity_body h ≠ [] ->
  exists r h', request_read {| this_field := true; argv := [] |} h = (r, h') ∧
    ((r = Ok (to_v8_string (entity_body h)) ∧ entity_body h' = [] ∧
      entity_reads h (entity_body h) h') ∨
     (r = Throw (StdException "failed to read entity body") ∧ read_refused h h')).
Proof.
  intros Hh Hne. rewrite request_read_eq by done.
  destruct (entity_body h) as [|c b] eqn:Eb; [done|].
  destruct (read_loop_reads (length (c :: b)) [] h) as (h' & [(E & E' & Hr)|[E Hr]]); rewrite ?Eb; [done|..];
    rewrite remaining_entity_body, Eb in E.
  - rewrite (bind_ok _ _ _ _ _ E). eexists _, h'. split; [reflexivity|]. left. by rewrite Eb in Hr.
  - rewrite (bind_throw _ _ _ _ _ E). eexists _, h'. split; [reflexivity|]. by right.
Qed.

(** C7 (functional).  [request.read] ends, with null for an empty body, or
    with the whole entity body as a string, nothing left unread, or with an
    exception; and it throws only where IIS failed a read, or gave no bytes, while
    there were bytes left. *)
Theorem request_read_whole h :
  has Request h = true ->
  exists r h', request_read {| this_field := true; argv := [] |} h = (r, h') ∧
    ((entity_body h = [] ∧ r = Ok VNull ∧ h' = h) ∨
     (entity_body h ≠ [] ∧ r = Ok (to_v8_string (entity_body h)) ∧ entity_body h' = [] ∧
      entity_reads h (entity_body h) h') ∨
     (r = Throw (StdException "failed to read entity body") ∧ read_refused h h')).
Proof.
  intros Hh. destruct (decide (entity_body h = [])) as [Eb|Eb].
  - exists (Ok VNull), h. rewrite request_read_eq, Eb by done. by split; [|left].
  - destruct (request_read_cases h Hh Eb) as (r & h' & E & [Hr|Hr]); exists r, h'; auto 10.
Qed.

(** (roundtrip).  [request.read(true)] leaves the request with the body it
    had: what it returns is the whole body, which can be read again. *)
Theorem request_read_rewrites h v h' :
  has Request h = true -> entity_body h ≠ [] ->
  request_read {| this_field := true; argv := [VBoolean true] |} h = (Ok v, h') ->
  v = to_v8_string (entity_body h) ∧ entity_body h' = entity_body h.
Proof.
  intros Hh Hne. unfold request_read. rewrite check_context_ok, bind_get by done.
  destruct (Z.eqb_spec (GetRemainingEntityBytes h) 0) as [Hz|Hz]; rewrite remaining_entity_body in Hz.
  { destruct (entity_body h); [done|simpl in Hz; lia]. }
  destruct (read_loop_reads (Z.to_nat (GetRemainingEntityBytes h)) [] h) as (h1 & [(E & Eb & _)|[E _]]);
    [rewrite remaining_entity_body; lia|..];
    [rewrite (bind_ok _ _ _ _ _ E)|by rewrite (bind_throw _ _ _ _ _ E)].
  rewrite (bind_ok _ _ h1 true h1) by done. intros E2.
  apply bind_ok_inv in E2 as ([] & h2 & E2 & [= <- <-]). split; [done|].
  apply bind_ok_inv in E2 as (b & h3 & _ & E2).
  apply bind_ok_inv in E2 as ([] & h4 & _ & E2).
  apply bind_ok_inv in E2 as (hr & h5 & E4 & E2). unfold call in E4.
  destruct (InsertEntityBody _ h4) as [hr' h6] eqn:Ei. injection E4 as -> ->.
  unfold fail_if, throw_if in E2. destruct (FAILED hr) eqn:Ef; [discriminate E2|].
  injection E2 as <-. by apply (insert_entity_body _ _ _ _ Ei).
Qed.

(** (error).  The rewrite flag is looked at after the body was read: a
    flag that is not a boolean throws, and the body is gone. *)
Theorem request_read_bad_flag args h e h' :
  this_field args = true -> has Request h = true -> 1 <= args_Length args ->
  IsBoolean (arg args 0) = false -> entity_body h ≠ [] ->
  request_read args h = (Throw e, h') ->
  e = StdException "failed to read entity body" ∨
  (e = InvalidArgument "Boolean" (TypeOf (arg args 0)) ∧ entity_body h' = []).
Proof.
  intros Ht Hh Hl Hb Hne. unfold request_read. rewrite check_context_ok, bind_get by done.
  destruct (Z.eqb_spec (GetRemainingEntityBytes h) 0) as [Hz|Hz]; [done|].
  destruct (read_loop_reads (Z.to_nat (GetRemainingEntityBytes h)) [] h) as (h1 & [(E & Eb & _)|[E _]]);
    [rewrite remaining_entity_body; lia|..].
  - rewrite (bind_ok _ _ _ _ _ E). rewrite (proj2 (Z.leb_le _ _)) by lia.
    rewrite (bind_throw _ _ _ (InvalidArgument "Boolean" (TypeOf (arg args 0))) h1).
    + intros [= <- <-]. by right.
    + unfold from_v8_bool. by rewrite from_v8_invalid.
  - rewrite (bind_throw _ _ _ _ _ E). intros [= <- <-]. by left.
Qed.
End properties.

(** ** A request in memory *)

(** The entity body to read, the chunks of the response with their flags, and
    the last status and header passed. *)
Record memory_context := {
  m_body : bytes;
  m_sent : list (bytes * bool);
  m_status : Z;
}.

(** It serves reads of at most 3 bytes, and every operation succeeds. *)
Definition memory_iis : IIS memory_context := {|
  has _ _ := true;
  Clear h := {| m_body := m_body h; m_sent := []; m_status := m_status h |};
  ClearHeaders h := h; CloseConnection h := h; DisableBuffering h := h;
  SetNeedDisconnect h := h; ResetConnection h := h;
  GetKernelCacheEnabled _ := false;
  GetStatus := m_status;
  SetStatus s _ h := (0, {| m_body := m_body h; m_sent := m_sent h; m_status := s |});
  Redirect _ _ _ h := (0, h); SetErrorDescription _ _ _ h := (0, h);
  DisableKernelCache _ h := h; DeleteHeader _ _ h := (0, h); GetHeader _ _ _ := None;
  SetHeader _ _ _ _ _ h := (0, h); SetHeaderById _ _ _ _ h := (0, h);
  pEntityChunks h := map (fun c => FromMemory (fst c)) (m_sent h);
  WriteEntityChunks c more h :=
    (0, {| m_body := m_body h; m_sent := m_sent h ++ [(c, more)]; m_status := m_status h |});
  GetRemainingEntityBytes h := Z.of_nat (length (m_body h));
  ReadEntityBody _ h :=
    ((0, take 3 (m_body h)),
     {| m_body := drop 3 (m_body h); m_sent := m_sent h; m_status := m_status h |});
  AllocateRequestMemory _ h := (true, h);
  InsertEntityBody b h := (0, {| m_body := b; m_sent := m_sent h; m_status := m_status h |});
  SetUrl _ _ _ h := (0, h);
  GetHttpMethod _ := L "GET";
  CookedUrl _ := {| url_text := L "http://h/p?q=1"; FullUrlLength := 28; pHost := 7;
                    HostLength := 2; pAbsPath := 8; AbsPathLength := 4; pQueryString := 10;
                    QueryStringLength := 8 |};
  GetLocalAddress _ := None; GetRemoteAddress _ := None; InetNtopA _ a := a;
|}.

Lemma memory_iis_laws : IISRequestLaws memory_context (H0 := memory_iis).
Proof.
  refine {| entity_body := m_body : memory_context -> bytes |}.
  - done.
  - intros n h hr buffer h' [= <- <- <-] _. simpl. by rewrite take_drop.
  - by intros b h hr h' [= <- <-] _.
Defined.

Definition ascii_host : V8Host := {|
  Utf8Value_of v := match v with VString s => Some s | _ => None end;
  NewExternalOneByte b := Some b;
  uninitialised := false;
|}.

Definition careless_host : V8Host := {|
  Utf8Value_of v := match v with VString s => Some s | _ => None end;
  NewExternalOneByte b := Some b;
  uninitialised := true;
|}.

#[local] Existing Instances memory_iis memory_iis_laws ascii_strings ascii_host.

Definition example_request : memory_context :=
  {| m_body := L "name=value"; m_sent := [(L "<p>", false); (L "</p>", false)]; m_status := 200 |}.

Definition on_context (argv : list value) : callback_info := {| this_field := true; argv := argv |}.

Lemma response_write_sends_body_witness :
  response_write (on_context [VString (L "hi")]) example_request =
    (Ok VUndefined, {| m_body := m_body example_request;
                       m_sent := m_sent example_request ++ [(L "hi", false)];
                       m_status := 200 |}).
Proof.
  destruct (response_write_sends_body (on_context [VString (L "hi")]) example_request (L "hi"))
    as (-> & _ & _); [reflexivity..|].
  reflexivity.
Defined.

Lemma response_write_not_string_witness :
  response_write (H2 := careless_host)
    (on_context [VUint8Array {| array_buffer := [1]; byte_offset := 0; byte_length := 1 |}])
    example_request
    = (Crash "use of an uninitialised pointer", example_request).
Proof.
  apply (response_write_not_string (H2 := careless_host)); try reflexivity; simpl; lia.
Defined.

Lemma response_read_concatenates_witness :
  response_read (on_context []) example_request = (Ok (VString (L "<p></p>")), example_request).
Proof.
  rewrite (response_read_concatenates (on_context []) example_request); reflexivity.
Defined.

Lemma setHeader_length_witness :
  exists cch,
    setHeader Response "m" (on_context [VString (L "a"); VString (L "bcd")]) example_request
      = (Ok VUndefined, example_request) ∧ cch = 3.
Proof.
  destruct (setHeader_length Response "m" (L "a") (L "bcd") example_request)
    as (cch & E & Hc & _); [reflexivity|].
  exists cch. split; [exact E|]. apply Hc. reflexivity.
Defined.

Lemma setStatus_code_witness :
  exists status,
    snd (response_setStatus (on_context [VInt 70000; VString (L "OK")]) example_request)
      = {| m_body := m_body example_request; m_sent := m_sent example_request;
           m_status := status |} ∧ status ≠ 70000.
Proof.
  destruct (setStatus_code 70000 (L "OK") example_request)
    as (status & E & _ & Hs); [reflexivity|lia|].
  exists status. unfold on_context. rewrite E. split; [reflexivity|]. rewrite Hs. lia.
Defined.

Lemma getPath_is_path_and_query_witness :
  request_getPath (on_context []) example_request
    = (Ok (VString (L "/p" ++ L "?q=1")), example_request).
Proof.
  apply (getPath_is_path_and_query (on_context []) example_request (L "/p") (L "?q=1"));
    vm_compute; try reflexivity; try discriminate; lia.
Defined.

Lemma request_read_whole_witness :
  exists h', request_read (on_context []) example_request = (Ok (VString (L "name=value")), h').
Proof.
  destruct (request_read_whole example_request) as (r & h' & E & [(Hb & _)|[(_ & -> & _)|[-> _]]]);
    [reflexivity|discriminate Hb|exists h'; exact E|vm_compute in E; discriminate E].
Defined.

Lemma request_read_rewrites_witness :
  exists h', request_read (on_context [VBoolean true]) example_request
      = (Ok (VString (L "name=value")), h') ∧ entity_body h' = L "name=value".
Proof.
  destruct (request_read (on_context [VBoolean true]) example_request) as [r h'] eqn:E.
  assert (r = Ok (VString (L "name=value"))) as -> by (vm_compute in E; by inversion E).
  exists h'. split; [reflexivity|].
  destruct (request_read_rewrites example_request (VString (L "name=value")) h') as [_ Hb];
    [reflexivity|discriminate|exact E|exact Hb].
Defined.

Lemma request_read_bad_flag_witness :
  exists e h', request_read (on_context [VInt 1]) example_request = (Throw e, h') ∧
    (e = StdException "failed to read entity body" ∨
     (e = InvalidArgument "Boolean" "number" ∧ entity_body h' = [])).
Proof.
  destruct (request_read (on_context [VInt 1]) example_request) as [r h'] eqn:E.
  assert (r = Throw (InvalidArgument "Boolean" "number")) as -> by (vm_compute in E; by inversion E).
  eexists _, h'. split; [reflexivity|].
  apply (request_read_bad_flag (on_context [VInt 1]) example_request _ h');
    first [reflexivity|exact E|discriminate|simpl; lia].
Defined.
