(* ===== verification/HttpObjects.v ===== *)
(** * Requests and their objects together: the [IHttpContext]s of IIS, the
    notifications that bring them to [handle_callback], and the response and
    request objects scripts get for them (v8_wrapper.h, v8_wrapper.cpp)

    The objects hold the bare pointer of the context.  [RESET_INTERNAL_POINTERS]
    is empty, since v8_wrapper.h defines [DISABLE_INTERNAL_POINTER_RESET], so an
    object holds its pointer for ever. *)
From S2P Require Import Prelude Values Callback Http.

Section http_objects.
Context {J H : Type} `{JSRuntime J} `{IIS H} `{V8Strings} `{V8Host}.

Record http_server := HttpServer {
  server_of : server (J := J);
  (** The notification whose callback runs, under the locker. *)
  in_call : option (CALLBACK_TYPES * nat * Z);
  (** The contexts IIS has, by address. *)
  contexts : gmap nat H;
  (** The objects scripts were given, with the context in their internal
      field. *)
  objects : list callback_argument;
}.

Definition set_server (sv : server (J := J)) (x : http_server) : http_server :=
  HttpServer sv (in_call x) (contexts x) (objects x).

(** [args.This()->GetAlignedPointerFromInternalField(0)]. *)
Definition HTTP_CONTEXT (o : callback_argument) : option nat :=
  match o with ResponseObject c | RequestObject c => Some c | Flags _ => None end.

Definition methods_of (o : callback_argument) : list (string * handler H) :=
  match o with
  | ResponseObject _ => http_response_object
  | RequestObject _ => http_request_object
  | Flags _ => []
  end.

(** A method works on the context its object points to. *)
Definition call_method (o : callback_argument) (h : handler H) (args : list value)
  : M http_server value := fun x =>
  match HTTP_CONTEXT o with
  | None => (Crash "not an object of a request", x)
  | Some c =>
      match contexts x !! c with
      | None => (Crash "use of a deleted IHttpContext", x)
      | Some s =>
          let '(r, s') := h {| this_field := true; argv := args |} s in
          (r, HttpServer (server_of x) (in_call x) (<[c := s']> (contexts x)) (objects x))
      end
  end.

(** The clones [handle_callback] makes for a call. *)
Definition clones (c : nat) : list callback_argument := [ResponseObject c; RequestObject c].

(** The contexts of the notifications that IIS called and that did not return:
    they wait for the locker or run. *)
Definition notified (x : http_server) : list nat := map (fun a => a.1.2) (checked (server_of x)).

(** What IIS goes by: a notification of the context is under way, or it was
    answered PENDING more often than [IndicateCompletion] was called for it. *)
Definition iis_holds (x : http_server) (c : nat) : Prop :=
  c ∈ notified x \/
  (count_occ Nat.eq_dec (map fst (indicated (state (server_of x)))) c <
   count_occ Nat.eq_dec (pending_requests (returned (server_of x))) c)%nat.

(** IIS begins a request, with a context at an address that is free; it ends one,
    or notifies of one, only where it does not wait for a status or a completion.
    A server thread checks for a function, enters the isolate, and returns; in
    between and later, scripts register functions and call methods of the objects
    they were given. *)
Inductive http_step : relation http_server :=
| http_begin c s x :
    contexts x !! c = None ->
    http_step x (HttpServer (server_of x) (in_call x) (<[c := s]> (contexts x)) (objects x))
| http_end c x :
    ~ iis_holds x c ->
    http_step x (HttpServer (server_of x) (in_call x) (delete c (contexts x)) (objects x))
| http_unregistered type c st q rs i cs os :
    is_Some (cs !! c) -> ~ iis_holds (HttpServer (Server st q rs) i cs os) c ->
    handle_callback_check type st = (Ok false, st) ->
    http_step (HttpServer (Server st q rs) i cs os)
      (HttpServer (Server st q (rs ++ [(type, c, 0)])) i cs os)
| http_checked type c flags st q rs i cs os :
    is_Some (cs !! c) -> ~ iis_holds (HttpServer (Server st q rs) i cs os) c ->
    handle_callback_check type st = (Ok true, st) ->
    http_step (HttpServer (Server st q rs) i cs os)
      (HttpServer (Server st (q ++ [(type, c, flags)]) rs) i cs os)
| http_enter type c flags st q rs cs os :
    (type, c, flags) ∈ q ->
    http_step (HttpServer (Server st q rs) None cs os)
      (HttpServer (Server st q rs) (Some (type, c, flags)) cs (os ++ clones c))
| http_isolate st q rs i cs os :
    http_step (HttpServer (Server st q rs) i cs os)
      (HttpServer (Server (isolate_made st) q rs) i cs os)
| http_script l j st q rs i cs os :
    http_step (HttpServer (Server st q rs) i cs os)
      (HttpServer (Server (run_script l j st) q rs) i cs os)
| http_method o name h args r x x' :
    o ∈ objects x -> In (name, h) (methods_of o) ->
    call_method o h args x = (r, x') -> (forall w, r <> Crash w) -> http_step x x'
| http_return type c flags st st' q1 q2 rs r cs os :
    handle_callback_locked type c flags st = (Ok r, st') ->
    http_step
      (HttpServer (Server st (q1 ++ (type, c, flags) :: q2) rs) (Some (type, c, flags)) cs os)
      (HttpServer (Server st' (q1 ++ q2) (rs ++ [(type, c, r)])) None cs os)
| http_reset j st q rs cs os :
    http_step (HttpServer (Server st q rs) None cs os)
      (HttpServer (Server (reset_functions j st) q rs) None cs os)
| http_settle promise v l j st q rs i cs os :
    http_step (HttpServer (Server st q rs) i cs os)
      (HttpServer (Server (run_script l j (settle promise v j st)) q rs) i cs os).

Definition http_start (st : callback_state J) : http_server :=
  HttpServer (Server st [] []) None ∅ [].

(** ** What IIS is promised

    A context is free, or a notification of it is under way, or its completion is
    outstanding. *)
Inductive phase := Free | Notified | Outstanding.

(** The phases of the contexts there are, the statuses that were returned, and the
    completions that were indicated. *)
Record iis := Iis {
  phases : gmap nat phase;
  answers : list (CALLBACK_TYPES * nat * Z);
  completed : list (nat * Z);
}.

Definition status_of (type : CALLBACK_TYPES) (r : Z) : Prop :=
  r = 0 \/ (type = PRE_BEGIN_REQUEST /\ r = GL_NOTIFICATION_HANDLED) \/
  (type <> PRE_BEGIN_REQUEST /\ (r = RQ_NOTIFICATION_FINISH_REQUEST \/ r = RQ_NOTIFICATION_PENDING)).

(** A status is returned for a notification that is under way; PENDING leaves a
    completion outstanding, which is indicated once, while the context exists; and
    only a free context ends. *)
Inductive iis_step : relation iis :=
| iis_begin c ps rs cs :
    ps !! c = None -> iis_step (Iis ps rs cs) (Iis (<[c := Free]> ps) rs cs)
| iis_end c ps rs cs :
    ps !! c = Some Free -> iis_step (Iis ps rs cs) (Iis (delete c ps) rs cs)
| iis_notify c ps rs cs :
    ps !! c = Some Free -> iis_step (Iis ps rs cs) (Iis (<[c := Notified]> ps) rs cs)
| iis_answer type c r ps rs cs :
    ps !! c = Some Notified -> status_of type r ->
    iis_step (Iis ps rs cs)
      (Iis (<[c := if decide (is_pending (type, c, r)) then Outstanding else Free]> ps)
         (rs ++ [(type, c, r)]) cs)
| iis_complete c r ps rs cs :
    ps !! c = Some Outstanding -> r = RQ_NOTIFICATION_CONTINUE \/ r = RQ_NOTIFICATION_FINISH_REQUEST ->
    iis_step (Iis ps rs cs) (Iis (<[c := Free]> ps) rs (cs ++ [(c, r)])).

Definition iis_start : iis := Iis ∅ [] [].

(** The contexts whose completion a promise holds. *)
Definition promised (x : http_server) : list nat := map snd (attached (state (server_of x))).

(** The phase the server has a context in. *)
Definition phase_of (x : http_server) (c : nat) : option phase :=
  if decide (is_Some (contexts x !! c)) then
    Some (if decide (c ∈ notified x) then Notified
          else if decide (c ∈ promised x) then Outstanding else Free)
  else None.

Definition represents (x : http_server) (a : iis) : Prop :=
  (forall c, phases a !! c = phase_of x c) /\ answers a = returned (server_of x) /\
  completed a = indicated (state (server_of x)).

(** ** Lemmas *)

(** A notification of the context runs, or waits for the locker, or a promise
    holds its completion. *)
Definition busy (x : http_server) (c : nat) : Prop := c ∈ notified x \/ c ∈ promised x.

(** Every request is accounted for; IIS has the context of every notification under
    way; and there is one at a time. *)
Record http_ok (x : http_server) : Prop := {
  ok_accounted : accounted (server_of x);
  ok_contexts : forall c, busy x c -> is_Some (contexts x !! c);
  ok_once : NoDup (notified x ++ promised x);
}.

Lemma pending_count x c :
  accounted (server_of x) ->
  count_occ Nat.eq_dec (pending_requests (returned (server_of x))) c =
  (count_occ Nat.eq_dec (promised x) c +
   count_occ Nat.eq_dec (map fst (indicated (state (server_of x)))) c)%nat.
Proof.
  intros Hacc. unfold accounted in Hacc. rewrite (proj1 (Permutation_count_occ Nat.eq_dec _ _) Hacc).
  apply count_occ_app.
Qed.

(** IIS holds a context exactly where the server is busy with it. *)
Lemma iis_holds_busy x c : accounted (server_of x) -> (iis_holds x c <-> busy x c).
Proof.
  intros Hacc. unfold iis_holds, busy. rewrite (pending_count x c Hacc).
  rewrite (list_elem_of_In (promised x) c), (count_occ_In Nat.eq_dec). split; intros [?|?]; auto; right; lia.
Qed.

Lemma call_method_ok o h args r x x' :
  call_method o h args x = (r, x') -> (forall w, r <> Crash w) ->
  exists c s s', HTTP_CONTEXT o = Some c /\ contexts x !! c = Some s /\
    x' = HttpServer (server_of x) (in_call x) (<[c := s']> (contexts x)) (objects x).
Proof.
  unfold call_method. destruct (HTTP_CONTEXT o) as [c|].
  - destruct (contexts x !! c) as [s|] eqn:Ec.
    + destruct (h _ s) as [r' s']. intros [= <- <-] _. by exists c, s, s'.
    + intros [= <- <-] Hc. by destruct (Hc "use of a deleted IHttpContext").
  - intros [= <- <-] Hc. by destruct (Hc "not an object of a request").
Qed.

(** What a promise that settles does to both lists. *)
Lemma settle_lists promise v j (st : callback_state J) :
  attached (settle promise v j st) = filter (fun a => ¬ on_promise promise a) (attached st) /\
  indicated (settle promise v j st) =
    indicated st ++ map (fun c => (c, request_status v)) (map snd (filter (on_promise promise) (attached st))).
Proof.
  unfold settle. match goal with |- context [run_callbacks ?cs ?v ?s] =>
    destruct (run_callbacks_run cs v s) as (st' & -> & Ha & Hi) end.
  split; [exact Ha|]. by rewrite map_map.
Qed.

Lemma http_step_server x x' : http_step x x' -> rtc server_step (server_of x) (server_of x').
Proof.
  intros Hst.
  destruct Hst as [c s x _|c x _|t c st q rs i cs os _ _ E|t c f st q rs i cs os _ _ E
    |t c f st q rs cs os _|st q rs i cs os|l j st q rs i cs os|o name h args r x x' _ _ E Hw
    |t c f st st' q1 q2 rs r cs os E|j st q rs cs os|p v l j st q rs i cs os]; simpl; try done;
    try (apply rtc_once; by constructor).
  by destruct (call_method_ok _ _ _ _ _ _ E Hw) as (c & s & s' & _ & _ & ->).
Qed.

(** *** The phases *)

(** The phase of a context is that of another server which has the same contexts and
    lists. *)
Lemma phase_of_same x x' c :
  (is_Some (contexts x' !! c) <-> is_Some (contexts x !! c)) ->
  (c ∈ notified x' <-> c ∈ notified x) -> (c ∈ promised x' <-> c ∈ promised x) ->
  phase_of x' c = phase_of x c.
Proof. intros E1 E2 E3. unfold phase_of. by rewrite (decide_ext _ _ _ _ E1), (decide_ext _ _ _ _ E2), (decide_ext _ _ _ _ E3). Qed.

Lemma http_accounted_step x x' : accounted (server_of x) -> http_step x x' -> accounted (server_of x').
Proof. intros Hacc Hst. exact (rtc_invariant _ _ _ _ accounted_step Hacc (http_step_server _ _ Hst)). Qed.

(** A server whose lists and contexts are those of another. *)
Lemma http_ok_same x x' :
  http_ok x -> accounted (server_of x') -> notified x' = notified x -> promised x' = promised x ->
  (forall c, is_Some (contexts x !! c) -> is_Some (contexts x' !! c)) -> http_ok x'.
Proof.
  intros [_ Hc Hn] Ha En Ep Hs. split; [done| |by rewrite En, Ep].
  intros c. unfold busy. rewrite En, Ep. intros Hb. by apply Hs, Hc.
Qed.

Lemma notified_middle st q1 q2 t c f rs i cs os :
  notified (HttpServer (Server st (q1 ++ (t, c, f) :: q2) rs) i cs os) ≡ₚ
  c :: notified (HttpServer (Server st (q1 ++ q2) rs) i cs os).
Proof. unfold notified. simpl. rewrite !map_app. simpl. symmetry. apply Permutation_middle. Qed.

(** What a notification that returned is leaves no other promise. *)
Lemma return_once t c f st st' q1 q2 rs r i cs os i' :
  http_ok (HttpServer (Server st (q1 ++ (t, c, f) :: q2) rs) i cs os) -> leaves t c st r st' ->
  let x' := HttpServer (Server st' (q1 ++ q2) (rs ++ [(t, c, r)])) i' cs os in
  (forall d, busy x' d -> is_Some (cs !! d)) /\ NoDup (notified x' ++ promised x') /\
  is_Some (cs !! c) /\ (c ∉ notified x') /\
  (if decide (is_pending (t, c, r)) then promised x' = map snd (attached st) ++ [c]
   else (promised x' = map snd (attached st) /\ c ∉ promised x')).
Proof.
  intros [_ Hcs Hnd] (_ & Hl & _) x'. pose proof (notified_middle st q1 q2 t c f rs i cs os) as Hm.
  assert (is_Some (cs !! c)) as Hc by (apply Hcs; left; rewrite Hm; by left).
  unfold promised in Hnd at 1. simpl in Hnd. rewrite Hm in Hnd. cbn [app] in Hnd.
  apply NoDup_cons in Hnd as [Hcn Hnd]. rewrite not_elem_of_app in Hcn. destruct Hcn as [Hcn Hcp].
  assert (forall d, d ∈ notified x' \/ d ∈ map snd (attached st) -> is_Some (cs !! d)) as Hbusy.
  { intros d [Hd|Hd]; apply Hcs; [left; rewrite Hm; by right|by right]. }
  destruct Hl as [[Hp [promise Ha]]|[Hp Ha]].
  - assert (promised x' = map snd (attached st) ++ [c]) as Ep by (unfold promised; simpl; by rewrite Ha, map_app).
    rewrite decide_True by done. rewrite Ep. split_and!; try done.
    + intros d [Hd|Hd]; [by apply Hbusy; left|]. rewrite Ep in Hd. apply elem_of_app in Hd as [Hd|Hd]; [by apply Hbusy; right|].
      by apply list_elem_of_singleton in Hd as ->.
    + rewrite (assoc_L (++)), (Permutation_app_comm _ [c]). apply NoDup_cons. by rewrite not_elem_of_app.
  - assert (promised x' = map snd (attached st)) as Ep by (unfold promised; simpl; by rewrite Ha).
    rewrite decide_False by done. rewrite Ep. split_and!; try done.
    intros d [Hd|Hd]; apply Hbusy; [by left|right; by rewrite Ep in Hd].
Qed.

Lemma settle_promised promise v l j st q rs i cs os :
  let x := HttpServer (Server st q rs) i cs os in
  let x' := HttpServer (Server (run_script l j (settle promise v j st)) q rs) i cs os in
  promised x ≡ₚ map snd (filter (on_promise promise) (attached st)) ++ promised x'.
Proof.
  unfold promised. simpl. rewrite (proj1 (settle_lists promise v j st)), <- map_app.
  apply Permutation_map, filter_split.
Qed.

Lemma http_ok_step x x' : http_ok x -> http_step x x' -> http_ok x'.
Proof.
  intros Hok Hst. pose proof (http_accounted_step _ _ (ok_accounted _ Hok) Hst) as Hacc.
  destruct Hst as [c s x _|c x Hc|t c st q rs i cs os _ _ E|t c f st q rs i cs os Hc Hh E
    |t c f st q rs cs os _|st q rs i cs os|l j st q rs i cs os|o name h args r x x' _ _ E Hw
    |t c f st st' q1 q2 rs r cs os E|j st q rs cs os|p v l j st q rs i cs os];
    try (by eapply http_ok_same).
  - eapply http_ok_same; [done|done|done|done|]. intros d Hd. simpl. rewrite lookup_insert_is_Some'. by right.
  - rewrite iis_holds_busy in Hc by apply Hok. split; [done| |apply Hok]. intros d Hd. simpl.
    rewrite lookup_delete_is_Some. split; [by intros ->|by apply (ok_contexts _ Hok)].
  - rewrite iis_holds_busy in Hh by apply Hok. destruct Hok as [_ Hcs Hnd].
    set (x' := HttpServer (Server st (q ++ _) rs) i cs os).
    assert (notified x' = notified (HttpServer (Server st q rs) i cs os) ++ [c]) as En
      by (unfold notified; simpl; by rewrite map_app).
    split; [done| |].
    + intros d [Hd|Hd]; [|by apply Hcs; right]. rewrite En in Hd. apply elem_of_app in Hd as [Hd|Hd]; [by apply Hcs; left|].
      by apply list_elem_of_singleton in Hd as ->.
    + rewrite En, (Permutation_app_comm _ [c]), <- (assoc_L (++)). apply NoDup_cons. split; [|done].
      rewrite not_elem_of_app. split; intros Hd; apply Hh; [by left|by right].
  - destruct (call_method_ok _ _ _ _ _ _ E Hw) as (c & s & s' & _ & _ & ->).
    eapply http_ok_same; [done|done|done|done|]. intros d Hd. simpl. rewrite lookup_insert_is_Some'. by right.
  - destruct (return_once _ _ _ _ _ _ _ _ _ _ _ _ None Hok (handle_callback_locked_cases _ _ _ _ _ _ E))
      as (Hb & Hnd & _). by split.
  - pose proof (settle_promised p v l j st q rs i cs os) as Hp. destruct Hok as [_ Hcs Hnd]. simpl in Hp.
    split; [done| |].
    + intros d [Hd|Hd]; apply Hcs; [by left|right]. rewrite Hp. apply elem_of_app. by right.
    + rewrite Hp in Hnd. apply NoDup_app in Hnd as (Hn1 & Hn2 & Hn3). apply NoDup_app in Hn3 as (_ & _ & Hn3).
      apply NoDup_app. split_and!; [done| |done]. intros d Hd Hd'. apply (Hn2 d Hd), elem_of_app. by right.
Qed.

(** *** The simulation *)

Lemma phase_free x c : is_Some (contexts x !! c) -> ~ busy x c -> phase_of x c = Some Free.
Proof.
  intros Hc Hb. unfold phase_of. rewrite decide_True by done.
  rewrite !decide_False; [done|intros Hd; apply Hb; by right|intros Hd; apply Hb; by left].
Qed.

Lemma phase_notified x c : is_Some (contexts x !! c) -> c ∈ notified x -> phase_of x c = Some Notified.
Proof. intros Hc Hn. unfold phase_of. by rewrite !decide_True by done. Qed.

Lemma phase_outstanding x c :
  is_Some (contexts x !! c) -> c ∉ notified x -> c ∈ promised x -> phase_of x c = Some Outstanding.
Proof.
  intros Hc Hn Hp. unfold phase_of. rewrite decide_True by done. rewrite decide_False by done.
  by rewrite decide_True by done.
Qed.

(** The phases when one context went into another. *)
Lemma phases_insert (ps : gmap nat phase) x x' c ph :
  (forall d, ps !! d = phase_of x d) -> phase_of x' c = Some ph ->
  (forall d, d <> c -> phase_of x' d = phase_of x d) -> forall d, <[c := ph]> ps !! d = phase_of x' d.
Proof.
  intros Hps Hc Hne d. destruct (decide (d = c)) as [->|Hd]; [by rewrite lookup_insert_eq|].
  by rewrite lookup_insert_ne, Hps, Hne.
Qed.

Lemma represents_same x x' a :
  represents x a -> returned (server_of x') = returned (server_of x) ->
  indicated (state (server_of x')) = indicated (state (server_of x)) ->
  (forall c, phase_of x' c = phase_of x c) -> exists a', rtc iis_step a a' /\ represents x' a'.
Proof.
  intros (Hp & Hr & Hi) Er Ei Ep. exists a. split; [done|]. split; [intros c; by rewrite Ep|].
  by rewrite Er, Ei.
Qed.

(** The completions of a promise, each of its own context. *)
Lemma complete_all l r (ps : gmap nat phase) rs cs :
  r = RQ_NOTIFICATION_CONTINUE \/ r = RQ_NOTIFICATION_FINISH_REQUEST -> NoDup l ->
  (forall c, c ∈ l -> ps !! c = Some Outstanding) ->
  exists ps', rtc iis_step (Iis ps rs cs) (Iis ps' rs (cs ++ map (fun c => (c, r)) l)) /\
    forall d, ps' !! d = if decide (d ∈ l) then Some Free else ps !! d.
Proof.
  intros Hr. revert ps cs. induction l as [|c l IH]; intros ps cs Hnd Hl.
  { exists ps. rewrite app_nil_r. split; [done|]. intros d. rewrite decide_False; [done|by intros ?%not_elem_of_nil]. }
  apply NoDup_cons in Hnd as [Hc Hnd].
  destruct (IH (<[c := Free]> ps) (cs ++ [(c, r)]) Hnd) as (ps' & Hst & Hps').
  { intros d Hd. rewrite lookup_insert_ne by (by intros ->). apply Hl. by right. }
  exists ps'. split.
  - eapply rtc_l; [apply (iis_complete c r)|]; [apply Hl; by left|done|]. by rewrite <- (assoc_L (++)) in Hst.
  - intros d. rewrite Hps'. destruct (decide (d ∈ l)); [by rewrite decide_True by (by right)|].
    destruct (decide (d = c)) as [->|Hd].
    + rewrite decide_True by (by left). by rewrite lookup_insert_eq.
    + rewrite decide_False by (by intros [?|?]%elem_of_cons). by rewrite lookup_insert_ne.
Qed.

Lemma request_status_cases v :
  request_status v = RQ_NOTIFICATION_CONTINUE \/ request_status v = RQ_NOTIFICATION_FINISH_REQUEST.
Proof. unfold request_status. case_match; auto. Qed.

Lemma settle_sim promise v l j st q rs i cs os a :
  let x := HttpServer (Server st q rs) i cs os in
  let x' := HttpServer (Server (run_script l j (settle promise v j st)) q rs) i cs os in
  http_ok x -> represents x a -> exists a', rtc iis_step a a' /\ represents x' a'.
Proof.
  intros x x' [_ Hcs Hnd] (Hp & Hr & Hi). pose proof (settle_promised promise v l j st q rs i cs os) as Hperm.
  fold x x' in Hperm. set (done_ := map snd (filter (on_promise promise) (attached st))) in *.
  rewrite Hperm in Hnd. apply NoDup_app in Hnd as (_ & Hn & Hnd). apply NoDup_app in Hnd as (Hnd & Hd & _).
  destruct a as [ps ans cmp]. simpl in Hp, Hr, Hi. subst ans cmp.
  assert (forall c, c ∈ done_ -> c ∈ promised x /\ c ∉ notified x) as Hdone.
  { intros c Hc. assert (c ∈ done_ ++ promised x') as Hin by (apply elem_of_app; by left).
    split; [by rewrite Hperm|]. intros Hc'. by apply (Hn c Hc'). }
  destruct (complete_all done_ (request_status v) ps (returned (server_of x)) (indicated st)
    (request_status_cases v) Hnd) as (ps' & Hst & Hps').
  { intros c Hc. rewrite Hp. destruct (Hdone c Hc). apply phase_outstanding; [|done|done]. apply Hcs. by right. }
  eexists. split; [exact Hst|]. split; [|split; [done|by symmetry; apply settle_lists]].
  intros c. simpl. rewrite Hps'. destruct (decide (c ∈ done_)) as [Hc|Hc].
  - destruct (Hdone c Hc) as [Hc1 Hc2]. symmetry. apply phase_free; [apply Hcs; by right|].
    intros [Hb|Hb]; [done|]. by apply (Hd c Hc).
  - rewrite Hp. symmetry. apply phase_of_same; [done|done|]. rewrite Hperm, elem_of_app. tauto.
Qed.

(** IIS begins and ends a request. *)
Lemma begin_sim c s x a :
  http_ok x -> represents x a -> contexts x !! c = None ->
  exists a', rtc iis_step a a' /\
    represents (HttpServer (server_of x) (in_call x) (<[c := s]> (contexts x)) (objects x)) a'.
Proof.
  intros Hok (Hp & Hr & Hi) Hc. destruct a as [ps ans cmp]. simpl in Hp, Hr, Hi. subst.
  eexists. split; [apply rtc_once, (iis_begin c)|].
  { rewrite Hp. unfold phase_of. by rewrite Hc, decide_False by (by intros []). }
  split; [|done]. apply phases_insert with (x := x); [done| |].
  - apply phase_free; [simpl; rewrite lookup_insert_is_Some'; by left|].
    intros Hb. apply (ok_contexts _ Hok) in Hb as [? Hb]. by rewrite Hc in Hb.
  - intros d Hd. apply phase_of_same; [|done|done]. simpl. by rewrite lookup_insert_ne.
Qed.

Lemma end_sim c x a :
  http_ok x -> represents x a -> ~ iis_holds x c ->
  exists a', rtc iis_step a a' /\
    represents (HttpServer (server_of x) (in_call x) (delete c (contexts x)) (objects x)) a'.
Proof.
  intros Hok Hrep Hh. pose proof Hrep as (Hp & Hr & Hi). destruct a as [ps ans cmp]. simpl in Hp, Hr, Hi. subst.
  rewrite iis_holds_busy in Hh by apply Hok. destruct (contexts x !! c) as [s|] eqn:Hc.
  - eexists. split; [apply rtc_once, (iis_end c)|].
    { rewrite Hp. apply phase_free; [by rewrite Hc|done]. }
    split; [|done]. intros d. simpl. destruct (decide (d = c)) as [->|Hd].
    + rewrite lookup_delete_eq. unfold phase_of. simpl. rewrite lookup_delete_eq. by rewrite decide_False by (by intros []).
    + rewrite lookup_delete_ne, Hp by done. symmetry. apply phase_of_same; [|done|done]. simpl. by rewrite lookup_delete_ne.
  - eapply represents_same; [exact Hrep|done|done|]. intros d. apply phase_of_same; [|done|done]. simpl.
    by rewrite delete_id.
Qed.

(** A notification that finds no function, and one that finds one. *)
Lemma unregistered_sim t c st q rs i cs os a :
  let x := HttpServer (Server st q rs) i cs os in
  http_ok x -> represents x a -> is_Some (cs !! c) -> ~ iis_holds x c ->
  exists a', rtc iis_step a a' /\ represents (HttpServer (Server st q (rs ++ [(t, c, 0)])) i cs os) a'.
Proof.
  intros x Hok (Hp & Hr & Hi) Hc Hh. destruct a as [ps ans cmp]. simpl in Hp, Hr, Hi. subst.
  rewrite iis_holds_busy in Hh by apply Hok.
  eexists. split; [eapply rtc_l; [apply (iis_notify c)|apply rtc_once, (iis_answer t c 0)]|].
  - rewrite Hp. by apply phase_free.
  - apply lookup_insert_eq.
  - by left.
  - split; [|done]. simpl. rewrite decide_False by (by intros []). rewrite insert_insert_eq.
    apply phases_insert with (x := x); [done|by apply phase_free|done].
Qed.

Lemma checked_sim t c f st q rs i cs os a :
  let x := HttpServer (Server st q rs) i cs os in
  http_ok x -> represents x a -> is_Some (cs !! c) -> ~ iis_holds x c ->
  exists a', rtc iis_step a a' /\ represents (HttpServer (Server st (q ++ [(t, c, f)]) rs) i cs os) a'.
Proof.
  intros x Hok (Hp & Hr & Hi) Hc Hh. destruct a as [ps ans cmp]. simpl in Hp, Hr, Hi. subst.
  rewrite iis_holds_busy in Hh by apply Hok. eexists. split; [apply rtc_once, (iis_notify c)|].
  { rewrite Hp. by apply phase_free. }
  split; [|done]. set (x' := HttpServer (Server st (q ++ _) rs) i cs os).
  assert (notified x' = notified x ++ [c]) as En by (unfold notified; simpl; by rewrite map_app).
  apply phases_insert with (x := x); [done| |].
  - apply phase_notified; [done|]. rewrite En. apply elem_of_app. right. by left.
  - intros d Hd. apply phase_of_same; [done| |done]. rewrite En, elem_of_app, list_elem_of_singleton. tauto.
Qed.

Lemma return_sim t c f st st' q1 q2 rs r i i' cs os a :
  let x := HttpServer (Server st (q1 ++ (t, c, f) :: q2) rs) i cs os in
  http_ok x -> represents x a -> leaves t c st r st' ->
  exists a', rtc iis_step a a' /\
    represents (HttpServer (Server st' (q1 ++ q2) (rs ++ [(t, c, r)])) i' cs os) a'.
Proof.
  intros x Hok (Hp & Hr & Hi) Hl. destruct a as [ps ans cmp]. simpl in Hp, Hr, Hi. subst.
  destruct (return_once _ _ _ _ _ _ _ _ _ _ _ _ i' Hok Hl) as (Hb & Hnd & Hc & Hcn & Hpr).
  set (x' := HttpServer (Server st' (q1 ++ q2) _) i' cs os) in *.
  pose proof (notified_middle st q1 q2 t c f rs i cs os) as Hm. fold x in Hm.
  destruct Hl as (Hi & _ & Hs). eexists. split; [apply rtc_once, (iis_answer t c r)|].
  - rewrite Hp. apply phase_notified; [done|]. rewrite Hm. by left.
  - exact Hs.
  - split; [|split; [done|by symmetry]]. apply phases_insert with (x := x); [done| |].
    + destruct (decide (is_pending (t, c, r))) as [Hpend|Hpend].
      * apply phase_outstanding; [done|done|]. rewrite Hpr. apply elem_of_app. right. by left.
      * destruct Hpr as [_ Hcp]. apply phase_free; [done|]. by intros [?|?].
    + intros d Hd. apply phase_of_same; [done| |].
      * rewrite Hm, elem_of_cons. change (notified x') with (notified (HttpServer (Server st (q1 ++ q2) rs) i cs os)). tauto.
      * destruct (decide (is_pending (t, c, r))); [|by destruct Hpr as [-> _]].
        rewrite Hpr, elem_of_app, list_elem_of_singleton. unfold promised. simpl. tauto.
Qed.

Lemma http_sim x x' a :
  http_ok x -> http_step x x' -> represents x a -> exists a', rtc iis_step a a' /\ represents x' a'.
Proof.
  intros Hok Hst Hrep.
  destruct Hst as [c s x Hc|c x Hh|t c st q rs i cs os Hc Hh E|t c f st q rs i cs os Hc Hh E
    |t c f st q rs cs os _|st q rs i cs os|l j st q rs i cs os|o name h args r x x' _ _ E Hw
    |t c f st st' q1 q2 rs r cs os E|j st q rs cs os|p v l j st q rs i cs os];
    try (by eapply represents_same).
  - by apply begin_sim.
  - by apply end_sim.
  - by apply unregistered_sim.
  - by apply checked_sim.
  - destruct (call_method_ok _ _ _ _ _ _ E Hw) as (c & s & s' & _ & Hc & ->).
    eapply represents_same; [exact Hrep|done|done|]. intros d. apply phase_of_same; [|done|done]. simpl.
    rewrite lookup_insert_is_Some'. split; [intros [<-|?]; [by rewrite Hc|done]|auto].
  - by apply (return_sim t c f st st' q1 q2 rs r (Some (t, c, f))), (handle_callback_locked_cases _ _ _ _ _ _ E).
  - by apply (settle_sim p v l j st q rs i cs os).
Qed.

Lemma http_reachable st x :
  attached st = [] -> indicated st = [] -> rtc http_step (http_start st) x ->
  http_ok x /\ exists a, rtc iis_step iis_start a /\ represents x a.
Proof.
  intros Ha Hi Hreach.
  refine (rtc_invariant http_step (fun x => http_ok x /\ exists a, rtc iis_step iis_start a /\ represents x a)
    _ _ _ _ Hreach).
  - intros y z [Hok (a & Hreach' & Hrep)] Hst. split; [by eapply http_ok_step|].
    destruct (http_sim _ _ _ Hok Hst Hrep) as (a' & Hst' & Hrep'). exists a'. by split; [etrans|].
  - split.
    + split; unfold accounted, busy, notified, promised; simpl; rewrite ?Ha, ?Hi; simpl; [done| |constructor].
      by intros c [?%not_elem_of_nil|?%not_elem_of_nil].
    + exists iis_start. split; [done|]. split; [done|]. split; [done|]. by simpl.
Qed.

(** ** The properties *)


(** C5 (safety).  While a notification of a request waits or runs, and while
    a promise holds its completion, the objects of the request work on its
    context: a method does what it does on the context and changes no other.  IIS ends
    a request by the statuses it was returned, so this needs the status to be PENDING
    whenever a promise was given the completion. *)
Theorem busy_context_alive st x o c h args :
  attached st = [] -> indicated st = [] -> rtc http_step (http_start st) x ->
  HTTP_CONTEXT o = Some c -> busy x c ->
  exists s, contexts x !! c = Some s /\
    call_method o h args x =
      let '(r, s') := h {| this_field := true; argv := args |} s in
      (r, HttpServer (server_of x) (in_call x) (<[c := s']> (contexts x)) (objects x)).
Proof.
  intros Ha Hi Hreach Ho Hbusy. destruct (http_reachable st x Ha Hi Hreach) as [Hok _].
  destruct (ok_contexts _ Hok c Hbusy) as [s Hs]. exists s. split; [done|].
  unfold call_method. by rewrite Ho, Hs.
Qed.

(** (safety).  An object outlives its request: with any registered
    function that answers without a promise, a state is reachable in which the
    request of an object has been answered and the object's context is deleted,
    and one in which another request has its address, so that the methods of
    the object work on that request. *)
Theorem kept_object_other_request st f (s s2 : H) v :
  isolate_ready st = true -> function_begin_request (fns st) = Some f ->
  attached st = [] ->
  (js_call f (callback_arguments BEGIN_REQUEST 0 0) (js st, fns st)).1 = Some v -> IsPromise v = false ->
  exists x r, rtc http_step (http_start st) x /\
    returned (server_of x) = [(BEGIN_REQUEST, 0%nat, r)] /\ ResponseObject 0 ∈ objects x /\
    (forall h args, fst (call_method (ResponseObject 0) h args x) = Crash "use of a deleted IHttpContext") /\
    exists x', http_step x x' /\ contexts x' = {[0%nat := s2]} /\ returned (server_of x') = returned (server_of x) /\
      forall h args, fst (call_method (ResponseObject 0) h args x') =
        fst (h {| this_field := true; argv := args |} s2).
Proof.
  intros Hready Hf Ha Hcall Hv.
  assert (callback_function BEGIN_REQUEST (fns st) = Some f) as Hfn by done.
  destruct (js_call f (callback_arguments BEGIN_REQUEST 0 0) (js st, fns st)) as [w [j fs]] eqn:Ec.
  simpl in Hcall. subst w.
  destruct (handle_callback_locked_leaves BEGIN_REQUEST 0 0 st f Hfn) as (r & st' & E & _ & Hl & _).
  assert (~ is_pending (BEGIN_REQUEST, 0%nat, r)) as Hpend.
  { assert (attached st' = []) as Ha'; [|destruct Hl as [[_ [p Hl]]|[Hl _]]; [by rewrite Ha', Ha in Hl|done]].
    unfold handle_callback_locked in E. rewrite bind_get, Hfn in E.
    unfold mbind, M_bind, Call in E. rewrite Ec in E. cbn in E.
    destruct v; try done; cbn in E; by injection E as _ <-. }
  set (x := HttpServer (Server st' [] [(BEGIN_REQUEST, 0%nat, r)]) None ∅ (clones 0)).
  exists x, r. split_and!; [|done|by left|done|].
  - eapply rtc_l; [apply (http_begin 0 s); by apply lookup_empty|]. simpl.
    eapply rtc_l; [apply (http_checked BEGIN_REQUEST 0 0)|].
    + apply lookup_insert_is_Some'. by left.
    + unfold iis_holds. simpl. intros [?%not_elem_of_nil|?]; [done|lia].
    + rewrite handle_callback_check_state, Hready, Hfn. simpl. done.
    + eapply rtc_l; [apply (http_enter BEGIN_REQUEST 0 0); by left|].
      eapply rtc_l; [apply (http_return BEGIN_REQUEST 0 0 st st' [] []), E|].
      apply rtc_once. simpl.
      assert (x = HttpServer (Server st' [] [(BEGIN_REQUEST, 0%nat, r)]) None
        (delete 0%nat (<[0%nat := s]> ∅)) (clones 0)) as ->
        by (unfold x; by rewrite insert_empty, delete_singleton_eq).
      refine (http_end 0 (HttpServer (Server st' [] _) None (<[0%nat := s]> ∅) _) _).
      unfold iis_holds, pending_requests. simpl. rewrite filter_cons_False by done. simpl.
      intros [?%not_elem_of_nil|?]; [done|lia].
  - exists (HttpServer (Server st' [] [(BEGIN_REQUEST, 0%nat, r)]) None {[0%nat := s2]} (clones 0)).
    split_and!; [|done|done|].
    + apply (http_begin 0 s2 x). apply lookup_empty.
    + intros h args. unfold call_method. simpl. rewrite lookup_singleton_eq. by destruct (h _ s2).
Qed.
End http_objects.

(** ** At a concrete input: a request that waits for a promise *)

#[local] Existing Instances memory_iis ascii_strings ascii_host.

Definition answering (v : value) : JSRuntime unit := fixed_runtime (fun _ => v).

Abbreviation example_server := (http_server (J := unit) (H := memory_context)).

(** A request that was answered PENDING, since its callback returned a promise. *)
Definition request_pending : example_server :=
  HttpServer
    (Server (CallbackState true (fns one_function) () None [(3%nat, 0%nat)] []) []
       [(BEGIN_REQUEST, 0%nat, RQ_NOTIFICATION_PENDING)])
    None (<[0%nat := example_request]> ∅) (clones 0).

Lemma request_pending_reachable :
  rtc (http_step (H0 := answering (VPromise 3))) (http_start one_function) request_pending.
Proof.
  eapply rtc_l; [apply (http_begin (H0 := answering (VPromise 3)) 0 example_request); by apply lookup_empty|].
  eapply rtc_l; [apply (http_checked (H0 := answering (VPromise 3)) BEGIN_REQUEST 0 0)|].
  - apply lookup_insert_is_Some'. by left.
  - unfold iis_holds. simpl. intros [?%not_elem_of_nil|?]; [done|lia].
  - reflexivity.
  - eapply rtc_l; [apply (http_enter (H0 := answering (VPromise 3)) BEGIN_REQUEST 0 0); by left|].
    apply rtc_once. by apply (http_return (H0 := answering (VPromise 3)) BEGIN_REQUEST 0 0 one_function
      (state (server_of request_pending)) [] [] [] RQ_NOTIFICATION_PENDING).
Qed.


Lemma busy_context_alive_witness :
  exists s, contexts request_pending !! 0%nat = Some s /\
    fst (call_method (ResponseObject 0) response_getStatus [] request_pending) =
      fst (response_getStatus {| this_field := true; argv := [] |} s).
Proof.
  destruct (busy_context_alive (H0 := answering (VPromise 3)) one_function request_pending
              (ResponseObject 0) 0 response_getStatus []) as (s & Hs & E);
    [reflexivity|reflexivity|apply request_pending_reachable|reflexivity|right; left|].
  exists s. split; [exact Hs|]. rewrite E. by destruct (response_getStatus _ s).
Defined.

Lemma kept_object_other_request_witness :
  exists x r, rtc (http_step (H0 := answering (VInt 1))) (http_start one_function) x /\
    returned (server_of x) = [(BEGIN_REQUEST, 0%nat, r)] /\
    fst (call_method (ResponseObject 0) response_getStatus [] x) = Crash "use of a deleted IHttpContext".
Proof.
  destruct (kept_object_other_request (H0 := answering (VInt 1)) one_function 5 example_request
              example_request (VInt 1)) as (x & r & Hx & Hr & _ & Hc & _); [reflexivity..|].
  exists x, r. split; [exact Hx|]. split; [exact Hr|]. apply Hc.
Defined.
