(* ===== verification/Scripts.v ===== *)
(** * Scripts: a function that [register] installed, run by a notification on
    the objects of a request

    [script_runtime] makes the calls of [handle_callback] run scripts written
    with the methods of Http.v.  The scripts here are those of
    read_write_tests.cpp ("IISModuleJS Tests"). *)
From S2P Require Import Prelude Values Callback Http.

(** The constant [FINISH] of scripts. *)
Abbreviation FINISH := (VInt 1).

Section scripts.
Context {H : Type} `{IIS H} `{V8Strings} `{V8Host}.

(** The body of a [(response, request) => ...]: it works on the one context
    both objects point to. *)
Definition script := M H value.

Definition call_name (methods : list (string * handler H)) (name : string) (args : list value)
  : script :=
  match List.find (fun m => String.eqb (fst m) name) methods with
  | Some m => snd m {| this_field := true; argv := args |}
  | None => raise "not a function"
  end.

Definition response := call_name http_response_object.
Definition request := call_name http_request_object.

(** An exception that is not caught makes the result of a call empty. *)
Definition script_runtime (functions_ : nat -> script) : JSRuntime H := {|
  js_call f _ s :=
    let '(r, h) := functions_ f (fst s) in
    (match r with Ok v => Some v | _ => None end, (h, snd s));
  js_promise _ _ := kPending;
|}.

(** [response.write(value, 'text/html'); return FINISH;] *)
Definition write_html (v : value) : script :=
  _ ← response "write" [v; VString (L "text/html")];
  mret FINISH.

(** [register((response, request) => { ... })] in an engine that has started,
    and then a request. *)
Definition serve (functions_ : nat -> script) (f : nat) : M H Z := fun h =>
  let '(r, fs) := register {| this_field := false; argv := [VFunction f] |} no_functions in
  match r with
  | Ok _ =>
      let '(r, st) := OnBeginRequest (H := script_runtime functions_) 0
                        (CallbackState true fs h None [] []) in
      (r, js st)
  | Throw e => (Throw e, h)
  | Crash w => (Crash w, h)
  end.

(** The test [WriteString]; the tests [Read] and [ReadRewrite]. *)
Definition write_string (s : wstring) : script := write_html (VString s).

Definition echo : script := v ← request "read" []; write_html v.

Definition rewrite_echo : script := _ ← request "read" [VBoolean true]; echo.

(** The calls of IIS that these scripts make: those of [request.read], and
    those of [response.write]. *)
Inductive request_call : H -> H -> Prop :=
| calls_read h : request_call h (snd (ReadEntityBody BUFFER_SIZE h))
| calls_allocate n h : request_call h (snd (AllocateRequestMemory n h))
| calls_insert b h : request_call h (snd (InsertEntityBody b h)).

Inductive iis_call : H -> H -> Prop :=
| calls_request h h' : request_call h h' -> iis_call h h'
| calls_set_header id t n h : iis_call h (snd (SetHeaderById id t n true h))
| calls_write c more h : iis_call h (snd (WriteEntityChunks c more h)).

(** What IIS documents of the body of a response: a chunk that is written is
    appended; what sets a header, and what reads or inserts the body of the
    request, leaves it. *)
Class IISResponseLaws `{!IISRequestLaws H} := {
  response_body : H -> bytes;
  write_entity_chunks c more h hr h' :
    WriteEntityChunks c more h = (hr, h') -> FAILED hr = false ->
    response_body h' = response_body h ++ c;
  set_header_body id text n replace h :
    response_body (snd (SetHeaderById id text n replace h)) = response_body h;
  read_entity_response n h : response_body (snd (ReadEntityBody n h)) = response_body h;
  allocate_response n h : response_body (snd (AllocateRequestMemory n h)) = response_body h;
  insert_entity_response b h : response_body (snd (InsertEntityBody b h)) = response_body h;
  read_entity_has s n h : has s (snd (ReadEntityBody n h)) = has s h;
  allocate_has s n h : has s (snd (AllocateRequestMemory n h)) = has s h;
  insert_entity_has s b h : has s (snd (InsertEntityBody b h)) = has s h;
}.
End scripts.
Arguments script : clear implicits.

(** What a script that answers with [text] can be refused at [h], the
    exception it throws then, and the state that the refused call leaves: a chunk
    of the text that IIS does not take, a read that fails or gives nothing while
    bytes are left, memory that is not given, a body that is not inserted, or a
    content type V8 has no text of. *)
Inductive refuses {H} `{IIS H} `{V8Host} `{!IISRequestLaws H} (text : bytes) : H -> string -> H -> Prop :=
| refuses_chunk c more hr h h' :
    In (c, more) (body_calls text) -> WriteEntityChunks c more h = (hr, h') -> FAILED hr = true ->
    refuses text h "failed to write" h'
| refuses_read hr buffer h h' :
    entity_body h <> [] -> ReadEntityBody BUFFER_SIZE h = ((hr, buffer), h') ->
    FAILED hr = true \/ buffer = [] ->
    refuses text h "failed to read entity body" h'
| refuses_memory h h' :
    AllocateRequestMemory (u32 (Z.of_nat (length text))) h = (false, h') ->
    refuses text h "invalid allocation pointer for read." h'
| refuses_insert hr h h' :
    InsertEntityBody text h = (hr, h') -> FAILED hr = true ->
    refuses text h "failed to rewrite" h'
| refuses_content_type h :
    Utf8Value_of (VString (L "text/html")) = None ->
    refuses text h "second argument is invalid for write" h.

(** From [h], after calls of IIS, a call is refused, and that is how the
    script ends. *)
Definition refused {H} `{IIS H} `{V8Host} `{!IISRequestLaws H} {A}
    (text : bytes) (h : H) (end_ : outcome A * H) : Prop :=
  exists h1 msg, rtc iis_call h h1 /\ refuses text h1 msg (snd end_) /\
    fst end_ = Throw (StdException msg).

(** ** Lemmas *)

Section script_properties.
Context {H : Type} `{IIS H} `{V8Strings} `{V8Host} `{!IISRequestLaws H} `{!IISResponseLaws}.

(** The body of the response and the parts of the context there are stay. *)
Definition same_response (h h' : H) : Prop :=
  response_body h' = response_body h /\ forall s, has s h' = has s h.

Lemma keeps_read (P : H -> Prop) args :
  (forall h h', P h -> request_call h h' -> P h') -> keeps P (request_read args).
Proof.
  intros HP.
  assert (keeps P (call (ReadEntityBody BUFFER_SIZE))) as Hr.
  { apply keeps_call. intros h Hh. eapply HP; [done|constructor]. }
  assert (forall fuel acc n, keeps P (read_loop fuel acc n)) as Hloop.
  { induction fuel as [|fuel IH]; intros acc n; simpl; case_match; auto 10 with keeps. }
  unfold request_read, check_context. apply keeps_bind; [auto with keeps|intros _].
  apply keeps_bind; [auto with keeps|intros h]. case_match; [auto with keeps|].
  apply keeps_bind; [apply Hloop|intros contents].
  apply keeps_bind; [|intros b; apply keeps_bind; [|auto with keeps]].
  - case_match; [|auto with keeps]. unfold from_v8_bool, from_v8. case_match; auto with keeps.
  - destruct b; [|auto with keeps]. apply keeps_bind.
    + apply keeps_call. intros h' Hh. eapply HP; [done|constructor].
    + intros b. apply keeps_bind; [auto with keeps|intros _]. apply keeps_bind; [|intros hr; apply keeps_throw_if].
      apply keeps_call. intros h' Hh. eapply HP; [done|constructor].
Qed.

(** [request.read] is calls of IIS, and leaves the response. *)
Lemma read_calls args h r h' :
  request_read args h = (r, h') -> rtc iis_call h h' /\ same_response h h'.
Proof.
  intros E. split.
  - pose proof (keeps_read (rtc iis_call h) args) as Hk. specialize (Hk (fun _ _ Hr Hc => rtc_r _ _ _ Hr (calls_request _ _ Hc))).
    specialize (Hk h (rtc_refl _ _)). by rewrite E in Hk.
  - pose proof (keeps_read (same_response h) args) as Hk. cut (same_response h (snd (request_read args h))).
    { by rewrite E. }
    apply Hk; [|done]. intros h1 h2 [Hb Hs] Hc. destruct Hc as [h0|n h0|b h0]; split.
    + by rewrite read_entity_response.
    + intros s. by rewrite read_entity_has.
    + by rewrite allocate_response.
    + intros s. by rewrite allocate_has.
    + by rewrite insert_entity_response.
    + intros s. by rewrite insert_entity_has.
Qed.

Lemma entity_reads_calls h part h' : entity_reads h part h' -> rtc iis_call h h'.
Proof.
  induction 1 as [|h hr buffer h1 rest h2 E Hf Hne Hr IH]; [done|].
  eapply rtc_l; [|done]. apply calls_request. pose proof (calls_read h) as Hc. by rewrite E in Hc.
Qed.

(** A read that is refused, as the end of a script. *)
Lemma read_refused_refused {A} text h h' :
  read_refused h h' -> refused text h (@Throw A (StdException "failed to read entity body"), h').
Proof.
  intros (part & h1 & hr & buffer & Hr & Hne & E & Hf).
  exists h1, "failed to read entity body"%string. split; [by eapply entity_reads_calls|].
  split; [by eapply refuses_read|done].
Qed.

(** What is refused behind calls of IIS is refused, and so is what goes on
    with it. *)
Lemma refused_after {A} text h h1 (o : outcome A * H) :
  rtc iis_call h h1 -> refused text h1 o -> refused text h o.
Proof.
  intros Hc (h2 & msg & Hc2 & Hr & E). exists h2, msg. split; [by etrans|done].
Qed.

Lemma refused_bind {A B} text (m : M H A) (k : A -> M H B) h :
  refused text h (m h) -> refused text h ((m ≫= k) h).
Proof.
  intros (h1 & msg & Hc & Hr & E). exists h1, msg. unfold mbind, M_bind.
  destruct (m h) as [r h']. simpl in *. by rewrite E.
Qed.

Lemma write_calls_body text calls h :
  (forall c more, In (c, more) calls -> In (c, more) (body_calls text)) ->
  (exists h', write_calls calls h = (Ok (), h') /\
     response_body h' = response_body h ++ concat (map fst calls)) \/
  refused text h (write_calls calls h).
Proof.
  revert h. induction calls as [|[c more] calls IH]; intros h Hin; simpl.
  - left. exists h. by rewrite app_nil_r.
  - unfold mbind, M_bind, call. destruct (WriteEntityChunks c more h) as [hr h1] eqn:Ew.
    unfold fail_if, throw_if. destruct (FAILED hr) eqn:Ef.
    { right. exists h, "failed to write"%string. split; [done|]. split; [|done].
      eapply refuses_chunk; [apply Hin; by left|done..]. }
    simpl. destruct (IH h1) as [(h' & E & Hb)|Hr]; [intros; apply Hin; by right|left|right].
    + exists h'. split; [exact E|].
      by rewrite Hb, (write_entity_chunks _ _ _ _ _ Ew Ef), <- app_assoc.
    + eapply refused_after; [|exact Hr]. apply rtc_once.
      pose proof (calls_write c more h) as Hc. by rewrite Ew in Hc.
Qed.

Abbreviation html_args v := {| this_field := true; argv := [v; VString (L "text/html")] |}.

(** The headers of [write_html]. *)
Lemma write_headers_body text v h :
  (exists h', write_headers (html_args v) h = (Ok (), h') /\ rtc iis_call h h' /\
     response_body h' = response_body h) \/
  refused text h (write_headers (html_args v) h).
Proof.
  unfold write_headers.
  change ((2 <=? args_Length (html_args v)) && IsString (arg (html_args v) 1)) with true.
  change ((3 <=? args_Length (html_args v)) && IsString (arg (html_args v) 2)) with false.
  change (arg (html_args v) 1) with (VString (L "text/html")). cbv beta iota.
  destruct (Utf8Value_of (VString (L "text/html"))) as [t|] eqn:Et.
  - left. unfold set_header_from, mbind, M_bind, call.
    pose proof (set_header_body HttpHeaderContentType (c_str t) (u16 (Z.of_nat (length t))) true h) as Hb.
    pose proof (calls_set_header HttpHeaderContentType (c_str t) (u16 (Z.of_nat (length t))) h) as Hc.
    destruct (SetHeaderById _ _ _ _ h) as [hr h1]. exists h1. split; [done|]. split; [by apply rtc_once|done].
  - right. exists h, "second argument is invalid for write"%string. split; [done|].
    split; [by apply refuses_content_type|done].
Qed.

(** [write_html] sends the text and finishes, or is refused a part. *)
Lemma write_html_cases s h :
  has Response h = true -> Z.of_nat (length (Utf8Value s)) < 2 ^ 32 ->
  (exists h', write_html (VString s) h = (Ok FINISH, h') /\
     response_body h' = response_body h ++ Utf8Value s) \/
  refused (Utf8Value s) h (write_html (VString s) h).
Proof.
  intros Hh Hlen.
  assert (write_html (VString s) h = (write_headers (html_args (VString s)) ≫= fun _ =>
    write_calls (body_calls (Utf8Value s)) ≫= fun _ => mret FINISH) h) as ->.
  { unfold write_html. change (response "write" _) with (response_write (html_args (VString s))).
    unfold mbind at 1, M_bind at 1.
    rewrite (response_write_eq (html_args (VString s)) h (Utf8Value s)) by done.
    rewrite wrap_small by lia. rewrite Nat2Z.id, firstn_all. unfold mbind, M_bind.
    destruct (write_headers _ h) as [[[]|?|?] h1]; [|done|done].
    by destruct (write_calls _ h1) as [[[]|?|?] h2]. }
  destruct (write_headers_body (Utf8Value s) (VString s) h) as [(h1 & E1 & Hc1 & Hb1)|Hr];
    [|right; by apply refused_bind].
  rewrite (bind_ok _ _ _ _ _ E1).
  destruct (write_calls_body (Utf8Value s) (body_calls (Utf8Value s)) h1) as [(h2 & E2 & Hb2)|Hr]; [done|..].
  - rewrite (bind_ok _ _ _ _ _ E2). left. exists h2. split; [done|].
    by rewrite Hb2, concat_body_calls, Hb1.
  - right. eapply refused_after; [exact Hc1|]. by apply refused_bind.
Qed.

(** What [serve] makes of how the script ends. *)
Lemma serve_eq (functions_ : nat -> script H) f h r h' :
  functions_ f h = (r, h') -> (forall p, r <> Ok (VPromise p)) ->
  serve functions_ f h =
    (Ok (match r with Ok v => request_status v | _ => RQ_NOTIFICATION_CONTINUE end), h').
Proof.
  intros E Hp. unfold serve.
  change (register _ no_functions)
    with (@Ok value VUndefined, set_callback_function BEGIN_REQUEST f no_functions).
  unfold OnBeginRequest, handle_callback. cbv beta iota.
  rewrite (bind_ok _ _ _ _ _ (handle_callback_check_state BEGIN_REQUEST _)).
  change (isolate_ready _ && _) with true. cbv beta iota.
  unfold handle_callback_locked. rewrite bind_get.
  change (callback_function BEGIN_REQUEST _) with (Some f). cbv beta iota.
  unfold mbind, M_bind, Call. cbn [js_call script_runtime js fst]. rewrite E.
  destruct r as [v|e|w]; [|done..]. cbn.
  destruct v; try done. by destruct (Hp id).
Qed.

(** The body read, when it is the text of a string. *)
Lemma read_string h s :
  has Request h = true -> entity_body h <> [] -> entity_body h = Utf8Value s ->
  NewFromUtf8 (Utf8Value s) = s ->
  (exists h', request "read" [] h = (Ok (VString s), h') /\ rtc iis_call h h' /\ same_response h h') \/
  refused (Utf8Value s) h (request "read" [] h).
Proof.
  intros Hh Hne Hs Hw. set (args := {| this_field := true; argv := [] |}).
  change (request "read" []) with (request_read args).
  destruct (request_read_cases h Hh Hne) as (r & h' & E & [[-> _]|[-> Hr]]); fold args in E.
  - left. exists h'. destruct (read_calls _ _ _ _ E). rewrite E. split; [|done].
    unfold to_v8_string. by rewrite Hs, Hw.
  - right. rewrite E. by apply read_refused_refused.
Qed.

(** [read] with the flag returns, or is refused something. *)
Lemma request_read_returns h :
  has Request h = true -> entity_body h <> [] ->
  (exists v h', request_read {| this_field := true; argv := [VBoolean true] |} h = (Ok v, h')) \/
  refused (entity_body h) h (request_read {| this_field := true; argv := [VBoolean true] |} h).
Proof.
  intros Hh Hne. unfold request_read. rewrite check_context_ok, bind_get by done.
  destruct (GetRemainingEntityBytes h =? 0) eqn:Ez.
  { rewrite remaining_entity_body in Ez. destruct (entity_body h); [done|]. simpl in Ez. lia. }
  destruct (read_loop_reads (Z.to_nat (GetRemainingEntityBytes h)) [] h) as (h1 & [(E & _ & Hc)|[E Hr]]);
    [rewrite remaining_entity_body; lia|..].
  2: { rewrite (bind_throw _ _ _ _ _ E). right. by apply read_refused_refused. }
  rewrite (bind_ok _ _ _ _ _ E), (bind_ok _ _ h1 true h1) by done.
  apply entity_reads_calls in Hc. rewrite !app_nil_l. unfold mbind, M_bind, call.
  pose proof (calls_allocate (u32 (Z.of_nat (length (entity_body h)))) h1) as Ha.
  destruct (AllocateRequestMemory _ h1) as [[] h2] eqn:E2; simpl in *.
  2: { right. exists h1, "invalid allocation pointer for read."%string. split; [done|].
       split; [by apply refuses_memory|done]. }
  destruct (InsertEntityBody _ h2) as [hr h3] eqn:E3. unfold fail_if, throw_if.
  destruct (FAILED hr) eqn:Ef; [right|left; by eexists _, _].
  exists h2, "failed to rewrite"%string.
  split; [eapply rtc_r; [done|]; by apply calls_request|]. split; [by eapply refuses_insert|done].
Qed.

(** A script that writes a text, or is refused something on the way. *)
Lemma serve_written functions_ f h text :
  ((exists h', functions_ f h = (Ok FINISH, h') /\ response_body h' = response_body h ++ text) \/
   refused text h (functions_ f h)) ->
  exists r h', serve functions_ f h = (Ok r, h') /\
    ((r = RQ_NOTIFICATION_FINISH_REQUEST /\ response_body h' = response_body h ++ text) \/
     (r = RQ_NOTIFICATION_CONTINUE /\ refused text h (functions_ f h))).
Proof.
  destruct (functions_ f h) as [r h'] eqn:E. intros [(h1 & [= -> ->] & Hb)|Hr].
  - rewrite (serve_eq _ _ _ _ _ E) by done. eexists _, h1. split; [done|]. by left.
  - destruct Hr as (h1 & msg & Hc & Hr & Er). simpl in Er. subst r.
    rewrite (serve_eq _ _ _ _ _ E) by done. eexists _, h'. split; [done|]. right.
    split; [done|]. by exists h1, msg.
Qed.

(** ** The properties *)

(** (functional).  From [register] to the response: a registered script
    that writes a string has the request answered with FINISH_REQUEST and the
    UTF-8 text of the string, of any length below 2^32, appended to the response;
    only when IIS refuses a part of it the script throws, and the request
    continues. *)
Theorem write_string_served functions_ f s h :
  functions_ f = write_string s -> has Response h = true ->
  Z.of_nat (length (Utf8Value s)) < 2 ^ 32 ->
  exists r h', serve functions_ f h = (Ok r, h') /\
    ((r = RQ_NOTIFICATION_FINISH_REQUEST /\ response_body h' = response_body h ++ Utf8Value s) \/
     (r = RQ_NOTIFICATION_CONTINUE /\ refused (Utf8Value s) h (functions_ f h))).
Proof. intros Ef Hh Hlen. apply serve_written. rewrite Ef. by apply write_html_cases. Qed.

(** [echo], from any state whose request has a body of text. *)
Lemma echo_cases s h :
  has Request h = true -> has Response h = true ->
  entity_body h = Utf8Value s -> NewFromUtf8 (Utf8Value s) = s -> entity_body h <> [] ->
  Z.of_nat (length (entity_body h)) < 2 ^ 32 ->
  (exists h', echo h = (Ok FINISH, h') /\ response_body h' = response_body h ++ entity_body h) \/
  refused (entity_body h) h (echo h).
Proof.
  intros Hq Hr Hs Hw Hne Hlen. unfold echo.
  destruct (read_string h s Hq Hne Hs Hw) as [(h2 & E & Hc & Hsame & Hhas)|Hrf];
    [|right; rewrite Hs; by apply refused_bind].
  rewrite (bind_ok _ _ _ _ _ E). rewrite Hs in Hlen.
  destruct (write_html_cases s h2) as [(h3 & E3 & Hb)|Hrf]; [by rewrite Hhas|done|..].
  - left. exists h3. by rewrite Hb, Hsame, Hs.
  - right. rewrite Hs. by eapply refused_after.
Qed.

End script_properties.

(** ** At a concrete input: the request in memory of Http.v *)

#[local] Existing Instances memory_iis memory_iis_laws ascii_strings ascii_host.

Lemma memory_response_laws : IISResponseLaws (H := memory_context).
Proof.
  refine {| response_body := (fun h => concat (map fst (m_sent h))) : memory_context -> bytes |};
    try done.
  intros c more h hr h' [= _ <-] _. simpl. rewrite map_app, concat_app. simpl. by rewrite app_nil_r.
Defined.

#[local] Existing Instance memory_response_laws.

Example echo_finishes :
  serve (fun _ => echo) 0 example_request =
    (Ok RQ_NOTIFICATION_FINISH_REQUEST,
     {| m_body := []; m_sent := m_sent example_request ++ [(L "name=value", false)]; m_status := 200 |}).
Proof. vm_compute. reflexivity. Qed.

Lemma write_string_served_witness :
  exists r h', serve (fun _ => write_string (L "hi")) 0 example_request = (Ok r, h') /\
    ((r = RQ_NOTIFICATION_FINISH_REQUEST /\ response_body h' = response_body example_request ++ Utf8Value (L "hi")) \/
     (r = RQ_NOTIFICATION_CONTINUE /\ refused (Utf8Value (L "hi")) example_request (write_string (L "hi") example_request))).
Proof.
  apply (write_string_served (fun _ => write_string (L "hi")) 0 (L "hi") example_request);
    [reflexivity..|simpl; lia].
Defined.

