(* ===== verification/Fs.v ===== *)
(** * Files: [fs.copy], [fs.exists], [fs.delete], [fs.write] and [fs.read] of
    [create_shell_context]

    The file system is not part of the repository: [FileSystem] is the
    interface to the calls of Windows and of the C library.  The state keeps
    the [FILE]s that are open. *)
From S2P Require Import Prelude Paths Values.

(** The modes "wb", "ab" and "rb". *)
Inductive mode := WB | AB | RB.

Class FileSystem (W : Type) := {
  CopyFileW : wstring -> wstring -> bool -> W -> bool * W;
  PathFileExistsW : wstring -> W -> bool * W;
  DeleteFileW : wstring -> W -> bool * W;
  _wfopen : wstring -> mode -> W -> option nat * W;
  (** The number of bytes it says were written. *)
  fwrite : nat -> bytes -> W -> nat * W;
  (** The position [ftell] gives at the end of the file. *)
  file_end : nat -> W -> Z;
  fread : nat -> Z -> W -> bytes * W;
  (** Zero, or [EOF] when what was buffered could not be written. *)
  fclose : nat -> W -> Z * W;
  (** What [new char[n]] holds. *)
  fresh_memory : nat -> bytes;
}.

Record fs_state (W : Type) := FsState {
  paths : paths_state;
  os : W;
  open_files : list nat;
}.
Arguments FsState {W}.
Arguments paths {W}.
Arguments os {W}.
Arguments open_files {W}.

Lemma filter_ne_id (x : nat) (l : list nat) : x ∉ l -> filter (fun y => y ≠ x) l = l.
Proof.
  induction l as [|y l IH]; [done|]. intros [Hy Hl]%not_elem_of_cons.
  rewrite filter_cons_True by congruence. by rewrite IH.
Qed.

(** *** Text without NUL *)

Definition no_nul (s : wstring) : Prop := Forall (fun c => c ≠ 0) s.

Lemma no_nul_spec s : no_nul s -> 0 ∉ s.
Proof. intros Hs Hin. by apply (proj1 (Forall_forall _ _) Hs 0 Hin). Qed.

Lemma no_nul_slashed s : no_nul s -> no_nul (slashed s).
Proof.
  intros Hs. apply Forall_map. eapply Forall_impl; [exact Hs|].
  intros c Hc. simpl. by destruct (Z.eqb_spec c BACKSLASH).
Qed.

Lemma no_nul_segments s : no_nul s -> Forall no_nul (segments s).
Proof.
  induction 1 as [|c s Hc Hs IH]; simpl; [by repeat constructor|].
  destruct (c =? SLASH); [by repeat constructor|].
  destruct (segments s) as [|seg rest]; [by repeat constructor|].
  apply Forall_cons in IH as [??]. by repeat constructor.
Qed.

Lemma no_nul_remove_dots stack segs :
  Forall no_nul stack -> Forall no_nul segs -> Forall no_nul (remove_dots stack segs).
Proof.
  intros Hst Hs. revert stack Hst. induction Hs as [|seg rest Hseg Hrest IH]; intros; simpl; [done|].
  assert (Forall no_nul (tail stack)) by (by destruct Hst).
  repeat case_match; auto; by repeat constructor.
Qed.

Lemma no_nul_render l : Forall no_nul l -> no_nul (render l).
Proof.
  induction 1 as [|seg l Hseg Hl IH]; [constructor|].
  apply Forall_cons. split; [done|]. by apply Forall_app.
Qed.

Lemma no_nul_clean segs : Forall no_nul segs -> no_nul (clean segs).
Proof.
  induction 1 as [|seg rest Hseg Hrest IH]; simpl; [constructor|].
  assert (no_nul (match rest with [] => [] | _ => render (rev (remove_dots [] rest)) end)).
  { destruct rest; [constructor|].
    by apply no_nul_render, Forall_rev, no_nul_remove_dots; [constructor|]. }
  repeat case_match; auto; by apply Forall_app.
Qed.

Lemma no_nul_path_append p q : no_nul p -> no_nul q -> no_nul (path_append p q).
Proof.
  intros Hp Hq. unfold path_append. destruct q; [done|]. destruct (list.last p); [|done].
  case_match; apply Forall_app; [done|]. split; [done|]. by constructor.
Qed.

(** What the C library documents of a file: its contents, and the file and
    the position of an open handle.  A handle starts at the end of what it
    will write and at the beginning of what it will read.  A write can fall short
    and says how much it wrote; a read can fall short, and [ferror] tells then
    ([read_error], which the program does not call). *)
Class FileSystemLaws (W : Type) `{FileSystem W} := {
  contents : W -> wstring -> option bytes;
  handle : W -> nat -> option (wstring * nat);
  read_error : nat -> W -> bool;
  open_write p m w f w' :
    m ≠ RB -> _wfopen p m w = (Some f, w') ->
    exists c, contents w' p = Some c ∧ handle w' f = Some (p, length c) ∧
      c = match m with AB => default [] (contents w p) | _ => [] end;
  open_read p w f w' :
    _wfopen p RB w = (Some f, w') ->
    handle w' f = Some (p, 0%nat) ∧ contents w' p = contents w p;
  write_at_end f b w p c n w' :
    handle w f = Some (p, length c) -> contents w p = Some c -> fwrite f b w = (n, w') ->
    (n <= length b)%nat ∧ contents w' p = Some (c ++ take n b);
  close_contents f w p w' : fclose f w = (0, w') -> contents w' p = contents w p;
  end_position f w p i c :
    handle w f = Some (p, i) -> contents w p = Some c -> file_end f w = Z.of_nat (length c);
  read_from_start f n w p c b w' :
    handle w f = Some (p, 0%nat) -> contents w p = Some c -> Z.of_nat (length c) <= n ->
    fread f n w = (b, w') ->
    (length b <= length c)%nat ∧ (read_error f w' = false -> b = c);
}.

Section fs.
Context {W : Type} `{FileSystem W} `{V8Strings} `{V8Host}.

Definition set_paths (p : paths_state) (st : fs_state W) : fs_state W :=
  FsState p (os st) (open_files st).

(** A call of the operating system. *)
Definition system {A} (f : W -> A * W) : M (fs_state W) A := fun st =>
  let '(a, w) := f (os st) in (Ok a, FsState (paths st) w (open_files st)).

(** [get_relative_file_path(name).c_str()]. *)
Definition file_path (name : wstring) : M (fs_state W) wstring :=
  path ← zoom paths set_paths (get_relative_file_path name);
  mret (c_str path).

(** [_wfopen] and [fclose] with the list of open files. *)
Definition open_file (path : wstring) (m : mode) : M (fs_state W) (option nat) := fun st =>
  let '(f, w) := _wfopen path m (os st) in
  (Ok f, FsState (paths st) w
     (match f with Some file => file :: open_files st | None => open_files st end)).

Definition close_file (file : nat) : M (fs_state W) unit :=
  modify (fun st => FsState (paths st) (snd (fclose file (os st)))
                      (filter (fun f => f ≠ file) (open_files st))).

(** [args.Length() > i && args[i]->IsBoolean() && from_v8<bool>(args[i])]. *)
Definition flag (args : callback_info) (i : nat) : bool :=
  (Z.of_nat i <? args_Length args) && IsBoolean (arg args i) &&
  from_v8_default bool (arg args i) false.

Definition fs_copy : handler (fs_state W) := fun args =>
  _ ← throw_if (args_Length args <? 2) "invalid function signature for fs.copy";
  _ ← throw_if (negb (IsString (arg args 0)) || negb (IsString (arg args 1)))
        "invalid first two parameters, must be both a string for fs.copy";
  existing_file_name ← from_v8_wstring (arg args 0);
  existing_file_path ← file_path existing_file_name;
  new_file_name ← from_v8_wstring (arg args 1);
  new_file_path ← file_path new_file_name;
  let overwrite := flag args 2 in
  copied ← system (CopyFileW existing_file_path new_file_path (negb overwrite));
  mret (to_v8_bool copied).

Definition fs_exists : handler (fs_state W) := fun args =>
  _ ← throw_if (args_Length args <? 1) "invalid function signature for fs.exists";
  _ ← throw_if (negb (IsString (arg args 0)))
        "invalid first parameter, must be a string for fs.exists";
  file_name ← from_v8_wstring (arg args 0);
  path ← file_path file_name;
  exists_ ← system (PathFileExistsW path);
  mret (to_v8_bool exists_).

Definition fs_delete : handler (fs_state W) := fun args =>
  _ ← throw_if (args_Length args <? 1) "invalid function signature for fs.delete";
  _ ← throw_if (negb (IsString (arg args 0)))
        "invalid first parameter, must be a string for fs.delete";
  file_name ← from_v8_wstring (arg args 0);
  path ← file_path file_name;
  deleted ← system (DeleteFileW path);
  mret (to_v8_bool deleted).

(** The count that [fwrite] returns is not looked at. *)
Definition fs_write : handler (fs_state W) := fun args =>
  _ ← throw_if (args_Length args <? 2) "invalid function signature for fs.write";
  _ ← throw_if (negb (IsString (arg args 0)))
        "invalid first parameter, must be a string for fs.write";
  file_name ← from_v8_wstring (arg args 0);
  path ← file_path file_name;
  let append := flag args 2 in
  file ← open_file path (if append then AB else WB);
  match file with
  | None => raise "unable to open file handle."
  | Some file =>
      _ ← (match arg args 1 with
           | VString s => system (fwrite file (Utf8Value s))
           | VUint8Array u => system (fwrite file (array_buffer u))
           | _ => raise "invalid data type provided."
           end);
      _ ← close_file file;
      mret VUndefined
  end.

(** A file that reads short leaves the end of the array zero, and that of the
    string as it was allocated.  The size goes through a 32-bit [long]: -1 for a larger file, which no
    allocation can satisfy. *)
Definition fs_read : handler (fs_state W) := fun args =>
  _ ← throw_if (args_Length args <? 1) "invalid function signature for fs.read";
  _ ← throw_if (negb (IsString (arg args 0)))
        "invalid first parameter, must be a string for fs.read";
  file_name ← from_v8_wstring (arg args 0);
  path ← file_path file_name;
  file ← open_file path RB;
  match file with
  | None => raise "unable to open file handle."
  | Some file =>
      st ← get;
      let file_size := file_end file (os st) in
      if 2 ^ 31 <=? file_size then crash "allocation of the size of ftell's error"
      else
        let as_array := flag args 1 in
        contents ← system (fread file file_size);
        let buffer (fresh : bytes) :=
          contents ++ drop (length contents) (take (Z.to_nat file_size) fresh) in
        result ←
          (if as_array then
             mret (VUint8Array {| array_buffer := buffer (replicate (Z.to_nat file_size) 0);
                                  byte_offset := 0; byte_length := Z.to_nat file_size |})
           else
             match NewExternalOneByte (buffer (fresh_memory (Z.to_nat file_size))) with
             | Some string => mret (VString string)
             | None => crash "empty handle"
             end);
        _ ← close_file file;
        mret result
  end.


(** ** Lemmas *)

(** A name without NUL reaches the system as it is: its path resolves at or
    below the directory, and the cache stays coherent. *)
Lemma file_path_eq name st :
  cache_coherent (paths st) -> no_nul name -> no_nul (fs_directory (paths st)) ->
  exists path p',
    file_path name st = (Ok path, FsState p' (os st) (open_files st)) ∧
    path = path_append (fs_directory (paths st)) (clean (segments (slashed name))) ∧
    cache_coherent p' ∧ fs_directory p' = fs_directory (paths st) ∧
    exists suffix, resolve path = suffix ++ resolve (fs_directory (paths st)).
Proof.
  intros Hc Hn Hd. unfold file_path, zoom, mbind, M_bind.
  destruct (get_relative_file_path_eq name (paths st) Hc) as (p' & -> & Hd' & Hc' & _).
  simpl. rewrite c_str_id.
  - eexists _, p'. split; [reflexivity|]. split; [done|]. split; [done|]. split; [done|].
    apply resolve_path_append; [apply relative_no_backslash|apply relative_safe].
  - apply no_nul_spec, no_nul_path_append; [done|].
    by apply no_nul_clean, no_nul_segments, no_nul_slashed.
Qed.

Definition well_formed_fs (st : fs_state W) : Prop :=
  cache_coherent (paths st) ∧ no_nul (fs_directory (paths st)).

(** [p] is at or below the directory. *)
Definition below (st : fs_state W) (p : wstring) : Prop :=
  exists suffix, resolve p = suffix ++ resolve (fs_directory (paths st)).

(** ** The properties *)

(** (safety).  [fs.copy], [fs.exists] and [fs.delete] on names without
    NUL make one system call each, on paths at or below the directory, and
    return its answer; copy overwrites only when its third argument is
    true. *)
Theorem fs_calls_contained st name new_name rest :
  well_formed_fs st -> no_nul name -> no_nul new_name ->
  exists path new_path p1 p2,
    below st path ∧ below st new_path ∧
    fs_exists {| this_field := false; argv := VString name :: rest |} st =
      (let '(b, w) := PathFileExistsW path (os st) in
       (Ok (VBoolean b), FsState p1 w (open_files st))) ∧
    fs_delete {| this_field := false; argv := VString name :: rest |} st =
      (let '(b, w) := DeleteFileW path (os st) in
       (Ok (VBoolean b), FsState p1 w (open_files st))) ∧
    fs_copy {| this_field := false; argv := VString name :: VString new_name :: rest |} st =
      (let '(b, w) := CopyFileW path new_path
                        (match rest with VBoolean overwrite :: _ => negb overwrite | _ => true end)
                        (os st) in
       (Ok (VBoolean b), FsState p2 w (open_files st))).
Proof.
  intros [Hc Hd] Hn Hn'.
  destruct (file_path_eq name st Hc Hn Hd) as (path & p1 & E1 & _ & Hc1 & Hd1 & Hb1).
  destruct (file_path_eq new_name (FsState p1 (os st) (open_files st)) Hc1 Hn')
    as (path2 & p2 & E2 & _ & _ & _ & Hb2); [by simpl; rewrite Hd1|].
  exists path, path2, p1, p2. split; [done|]. split; [unfold below; by rewrite <- Hd1|].
  split_and!.
  - unfold fs_exists. rewrite bind_throw_if by (apply Z.ltb_ge; unfold args_Length; cbn [argv length]; lia).
    rewrite bind_throw_if, (bind_from_v8_wstring _ name) by done.
    rewrite (bind_ok _ _ _ _ _ E1). unfold mbind, M_bind, system. simpl.
    by destruct (PathFileExistsW path (os st)).
  - unfold fs_delete. rewrite bind_throw_if by (apply Z.ltb_ge; unfold args_Length; cbn [argv length]; lia).
    rewrite bind_throw_if, (bind_from_v8_wstring _ name) by done.
    rewrite (bind_ok _ _ _ _ _ E1). unfold mbind, M_bind, system. simpl.
    by destruct (DeleteFileW path (os st)).
  - unfold fs_copy. rewrite bind_throw_if by (apply Z.ltb_ge; unfold args_Length; cbn [argv length]; lia).
    rewrite bind_throw_if, (bind_from_v8_wstring _ name) by done.
    rewrite (bind_ok _ _ _ _ _ E1), (bind_from_v8_wstring _ new_name) by done.
    rewrite (bind_ok _ _ _ _ _ E2). unfold mbind, M_bind, system. simpl.
    replace (negb (flag _ 2))
      with (match rest with VBoolean overwrite :: _ => negb overwrite | _ => true end).
    { by destruct (CopyFileW _ _ _ _). }
    unfold flag, args_Length, arg. simpl. destruct rest as [|v rest]; [done|].
    replace (2 <? _) with true by (symmetry; apply Z.ltb_lt; cbn [length]; lia). simpl.
    by destruct v as [| |[|]|?|?| |?|?|?|?].
Qed.

(** (safety).  A name is cleaned as a JavaScript string but read as a C
    string: the name "..NUL" denotes the directory above. *)
Theorem fs_nul_escapes st :
  well_formed_fs st -> fs_directory (paths st) ≠ [] ->
  exists path p',
    file_path (L ".." ++ [0]) st = (Ok path, FsState p' (os st) (open_files st)) ∧
    resolve path = tail (resolve (fs_directory (paths st))).
Proof.
  intros [Hc Hd] Hne. unfold file_path, zoom, mbind, M_bind.
  destruct (get_relative_file_path_eq (L ".." ++ [0]) (paths st) Hc) as (p' & -> & _).
  eexists _, p'. split; [reflexivity|].
  change (clean (segments (slashed (L ".." ++ [0])))) with (L ".." ++ [0]).
  replace (c_str _) with (path_append (fs_directory (paths st)) (L "..")).
  { rewrite resolve_append_plain by (done || by split; apply (bool_decide_unpack _)). done. }
  assert (forall d, no_nul d -> c_str (d ++ L ".." ++ [0]) = d ++ L "..") as Hcut.
  { induction 1 as [|c d Hc0 Hd0 IH]; [done|]. cbn [app c_str].
    by rewrite (proj2 (Z.eqb_neq c 0) Hc0), <- IH. }
  cbn [L app path_append]. destruct (list.last (fs_directory (paths st))) eqn:El;
    [|by apply last_None in El].
  case_match; symmetry; [by apply (Hcut (fs_directory (paths st)))|].
  assert (no_nul (fs_directory (paths st) ++ [BACKSLASH])) as Hd'
    by (apply Forall_app; split; [done|by constructor]).
  apply Hcut in Hd'. by rewrite <- !app_assoc in Hd'.
Qed.

Lemma bind_system {A B} (f : W -> A * W) (k : A -> M (fs_state W) B) st :
  (system f ≫= k) st = k (fst (f (os st))) (FsState (paths st) (snd (f (os st))) (open_files st)).
Proof. unfold mbind, M_bind, system. by destruct (f (os st)). Qed.

Lemma fs_write_opened args name rest st path p' file w' :
  argv args = VString name :: rest -> rest ≠ [] ->
  file_path name st = (Ok path, FsState p' (os st) (open_files st)) ->
  _wfopen path (if flag args 2 then AB else WB) (os st) = (Some file, w') ->
  fs_write args st =
    ((match arg args 1 with
      | VString s => system (fwrite file (Utf8Value s))
      | VUint8Array u => system (fwrite file (array_buffer u))
      | _ => raise "invalid data type provided."
      end) ≫= fun _ => close_file file ≫= fun _ => mret VUndefined)
    (FsState p' w' (file :: open_files st)).
Proof.
  intros Ha Hr Hp Ho. unfold fs_write.
  assert (arg args 0 = VString name) as E0 by (unfold arg; by rewrite Ha).
  rewrite bind_throw_if.
  2: { unfold args_Length. rewrite Ha. destruct rest; [done|]. apply Z.ltb_ge. simpl. lia. }
  rewrite E0, bind_throw_if, (bind_from_v8_wstring _ name) by done.
  rewrite (bind_ok _ _ _ _ _ Hp).
  unfold mbind at 1, M_bind at 1, open_file. simpl. by rewrite Ho.
Qed.

(** (error).  [fs.write] with contents that are neither a string nor an
    array throws after it opened (and emptied) the file, and the file stays
    open; with a string or an array it closes what it opened. *)
Theorem fs_write_leaks args name rest st path p' file w' :
  argv args = VString name :: rest -> rest ≠ [] ->
  file_path name st = (Ok path, FsState p' (os st) (open_files st)) ->
  _wfopen path (if flag args 2 then AB else WB) (os st) = (Some file, w') ->
  file ∉ open_files st ->
  if IsString (arg args 1) || IsUint8Array (arg args 1)
  then exists w, fs_write args st = (Ok VUndefined, FsState p' w (open_files st))
  else fs_write args st = (Throw (StdException "invalid data type provided."),
                           FsState p' w' (file :: open_files st)).
Proof.
  intros Ha Hr Hp Ho Hf. rewrite (fs_write_opened _ _ _ _ _ _ _ _ Ha Hr Hp Ho).
  assert (forall w, (close_file file ≫= fun _ => mret VUndefined)
      (FsState p' w (file :: open_files st))
    = (Ok VUndefined, FsState p' (snd (fclose file w)) (open_files st))) as Hclose.
  { intros w. unfold close_file. rewrite bind_modify. simpl.
    rewrite filter_cons_False by (intros Hn; by apply Hn). by rewrite filter_ne_id. }
  destruct (arg args 1) as [| |?|?|s| |?|u|?|?]; simpl; try done;
    rewrite bind_system; simpl; eexists; apply Hclose.
Qed.

(** *** Round trip *)

Context `{!FileSystemLaws W}.

(** The bytes [fs.write] writes for its second argument. *)
Definition written (v : value) : option bytes :=
  match v with
  | VString s => Some (Utf8Value s)
  | VUint8Array u => Some (array_buffer u)
  | _ => None
  end.

(** What a call of [fs.write] that returns has done: opened the file, written
    the bytes, as far as [fwrite] went, and closed the file. *)
Lemma fs_write_eq name v d st path p' st' :
  file_path name st = (Ok path, FsState p' (os st) (open_files st)) ->
  written v = Some d ->
  fs_write {| this_field := false; argv := [VString name; v] |} st = (Ok VUndefined, st') ->
  exists file w1 n w2 s,
    _wfopen path WB (os st) = (Some file, w1) ∧ fwrite file d w1 = (n, w2) ∧
    fclose file w2 = (s, os st') ∧ paths st' = p'.
Proof.
  intros Hp Hd E. set (args := {| this_field := false; argv := [VString name; v] |}) in E.
  destruct (_wfopen path (if flag args 2 then AB else WB) (os st)) as [[file|] w1] eqn:Ho.
  - rewrite (fs_write_opened args name [v] st path p' file w1 eq_refl ltac:(done) Hp Ho) in E.
    change (arg args 1) with v in E. destruct (fwrite file d w1) as [n w2] eqn:Ew.
    exists file, w1, n, w2, (fst (fclose file w2)). split; [exact Ho|]. split; [done|].
    assert (E2 : (system (fwrite file d) ≫= fun _ => close_file file ≫= fun _ => mret VUndefined)
      (FsState p' w1 (file :: open_files st)) = (Ok VUndefined, st')).
    { by destruct v; try discriminate Hd; injection Hd as <-. }
    unfold mbind, M_bind, system, close_file in E2. simpl in E2. rewrite Ew in E2.
    injection E2 as <-. split; [|done]. by apply surjective_pairing.
  - change (_wfopen path WB (os st) = (None, w1)) in Ho.
    unfold fs_write in E. subst args. rewrite bind_throw_if in E by done.
    rewrite bind_throw_if, (bind_from_v8_wstring _ name) in E by done.
    rewrite (bind_ok _ _ _ _ _ Hp) in E.
    unfold mbind, M_bind at 1, open_file in E. simpl in E. rewrite Ho in E. discriminate E.
Qed.

(** An array of the bytes [b], and zeros up to [n]. *)
Definition array_of (b : bytes) (n : nat) : value :=
  VUint8Array {| array_buffer := b ++ replicate (n - length b) 0; byte_offset := 0; byte_length := n |}.

Lemma fs_read_contents name st path p' d r st' :
  file_path name st = (Ok path, FsState p' (os st) (open_files st)) ->
  contents (os st) path = Some d -> Z.of_nat (length d) < 2 ^ 31 ->
  fs_read {| this_field := false; argv := [VString name; VBoolean true] |} st = (Ok r, st') ->
  exists file w1 b w2,
    _wfopen path RB (os st) = (Some file, w1) ∧ fread file (Z.of_nat (length d)) w1 = (b, w2) ∧
    r = array_of b (length d) ∧ (read_error file w2 = false -> b = d).
Proof.
  intros Hp Hd Hl. unfold fs_read. rewrite bind_throw_if by done.
  rewrite bind_throw_if, (bind_from_v8_wstring _ name) by done.
  rewrite (bind_ok _ _ _ _ _ Hp). unfold mbind at 1, M_bind at 1, open_file. simpl.
  destruct (_wfopen path RB (os st)) as [[file|] w1] eqn:Ho; [|intros [=]].
  apply open_read in Ho as Ho'. destruct Ho' as [Hh Hc]. rewrite Hd in Hc.
  rewrite bind_get. simpl. rewrite (end_position _ _ _ _ _ Hh Hc).
  replace (2 ^ 31 <=? Z.of_nat (length d)) with false by (symmetry; apply Z.leb_gt; lia).
  change (flag _ 1) with true. cbn iota. unfold mbind, M_bind, system. simpl.
  destruct (fread file _ w1) as [b w2] eqn:Er.
  destruct (read_from_start _ _ _ _ _ _ _ Hh Hc (Z.le_refl _) Er) as [Hb He].
  rewrite Nat2Z.id. intros [= <- _]. exists file, w1, b, w2. split_and!; [done..| |done].
  unfold array_of. do 3 f_equal. by rewrite take_ge, drop_replicate by (rewrite length_replicate; lia).
Qed.

(** C22 (roundtrip).  What [fs.write] wrote under a name without NUL,
    [fs.read] as an array gives back.  [fs.write] wrote the first [n] of the
    bytes, the UTF-8 text of a string or the whole buffer behind an array, where
    [n] is the count [fwrite] returned; when the file could be closed, [fs.read]
    returns an array of [n] bytes, and when it was read without an error, they are
    those that were written, byte for byte: all of them when [n] is their number. *)
Theorem fs_write_read st name v d st1 r st2 :
  well_formed_fs st -> no_nul name -> written v = Some d -> Z.of_nat (length d) < 2 ^ 31 ->
  fs_write {| this_field := false; argv := [VString name; v] |} st = (Ok VUndefined, st1) ->
  fs_read {| this_field := false; argv := [VString name; VBoolean true] |} st1 = (Ok r, st2) ->
  exists path file w1 n w2 s,
    _wfopen path WB (os st) = (Some file, w1) ∧ fwrite file d w1 = (n, w2) ∧
    fclose file w2 = (s, os st1) ∧ (n <= length d)%nat ∧
    (s = 0 -> exists file' w3 b w4,
      _wfopen path RB (os st1) = (Some file', w3) ∧ fread file' (Z.of_nat n) w3 = (b, w4) ∧
      r = array_of b n ∧ (read_error file' w4 = false -> b = take n d)).
Proof.
  intros [Hc Hd] Hn Hw Hl E1 E2.
  destruct (file_path_eq name st Hc Hn Hd) as (path & p1 & Hp & Hpath & Hc1 & Hd1 & _).
  destruct (fs_write_eq _ _ _ _ _ _ _ Hp Hw E1) as (file & w1 & n & w2 & s & Ho & Ew & Ecl & <-).
  apply open_write in Ho as Ho'; [|done]. destruct Ho' as (c & Hcont & Hh & ->).
  destruct (write_at_end _ _ _ path [] _ _ Hh Hcont Ew) as [Hle Hcont2].
  exists path, file, w1, n, w2, s. split_and!; [done..|]. intros ->.
  destruct (file_path_eq name st1 Hc1 Hn) as (path2 & p2 & Hp2 & Hpath2 & _); [by rewrite Hd1|].
  assert (path2 = path) as -> by (by rewrite Hpath2, Hd1, <- Hpath).
  assert (length (take n d) = n) as Hlen by (rewrite length_take; lia).
  assert (contents (os st1) path = Some (take n d)) as Hcont1 by by rewrite (close_contents _ _ _ _ Ecl).
  destruct (fs_read_contents _ _ _ _ _ _ _ Hp2 Hcont1 ltac:(lia) E2)
    as (file' & w3 & b & w4 & Ho' & Er & -> & He). rewrite Hlen in *. by exists file', w3, b, w4.
Qed.
End fs.

(** ** Files in memory *)

Record memory_fs := {
  m_files : gmap wstring bytes;
  m_handles : gmap nat (wstring * nat);
  (** The bytes that still fit on the disk. *)
  m_room : nat;
}.

Definition memory_file_system : FileSystem memory_fs := {|
  CopyFileW p q exclusive w :=
    match m_files w !! p, (exclusive && bool_decide (is_Some (m_files w !! q))) with
    | Some b, false => (true, {| m_files := <[q := b]> (m_files w); m_handles := m_handles w; m_room := m_room w |})
    | _, _ => (false, w)
    end;
  PathFileExistsW p w := (bool_decide (is_Some (m_files w !! p)), w);
  DeleteFileW p w :=
    (bool_decide (is_Some (m_files w !! p)),
     {| m_files := delete p (m_files w); m_handles := m_handles w; m_room := m_room w |});
  _wfopen p m w :=
    let file := fresh (dom (m_handles w)) in
    let opened c i := (Some file, {| m_files := <[p := c]> (m_files w);
                                     m_handles := <[file := (p, i)]> (m_handles w);
                                     m_room := m_room w |}) in
    match m, m_files w !! p with
    | WB, _ => opened [] 0%nat
    | AB, c => opened (default [] c) (length (default [] c))
    | RB, Some c => opened c 0%nat
    | RB, None => (None, w)
    end;
  fwrite f b w :=
    match m_handles w !! f with
    | Some (p, i) =>
        let c := default [] (m_files w !! p) in
        let n := (length b `min` m_room w)%nat in
        (n, {| m_files := <[p := take i c ++ take n b]> (m_files w);
               m_handles := <[f := (p, (i + n)%nat)]> (m_handles w);
               m_room := (m_room w - n)%nat |})
    | None => (0%nat, w)
    end;
  file_end f w :=
    match m_handles w !! f with
    | Some (p, _) => Z.of_nat (length (default [] (m_files w !! p)))
    | None => 0
    end;
  fread f n w :=
    match m_handles w !! f with
    | Some (p, i) => (take (Z.to_nat n) (drop i (default [] (m_files w !! p))), w)
    | None => ([], w)
    end;
  fclose f w :=
    (0, {| m_files := m_files w; m_handles := delete f (m_handles w); m_room := m_room w |});
  fresh_memory n := replicate n 205;
|}.

Lemma memory_fs_laws : FileSystemLaws memory_fs (H := memory_file_system).
Proof.
  refine {| contents w p := m_files w !! p; handle w f := m_handles w !! f;
            read_error _ _ := false |}.
  - intros p m w f w' Hm. simpl. destruct m; [| |done].
    + intros [= <- <-]. exists []. simpl. by rewrite !lookup_insert_eq.
    + intros [= <- <-]. eexists. simpl. by rewrite !lookup_insert_eq.
  - intros p w f w'. simpl. destruct (m_files w !! p) as [c|]; intros [= <- <-].
    simpl. by rewrite !lookup_insert_eq.
  - intros f b w p c n w' Hh Hc. simpl. rewrite Hh. simpl. rewrite Hc. simpl.
    intros [= <- <-]. simpl. rewrite lookup_insert_eq. split; [lia|]. by rewrite take_ge.
  - by intros f w p w' [= <-].
  - intros f w p i c Hh Hc. simpl. rewrite Hh. by rewrite Hc.
  - intros f n w p c b w' Hh Hc Hn. simpl. rewrite Hh, Hc. simpl. rewrite drop_0.
    intros [= <- _]. rewrite take_ge by lia. done.
Defined.

Definition example_host : V8Host := {|
  Utf8Value_of v := match v with VString s => Some s | _ => None end;
  NewExternalOneByte b := Some b;
  uninitialised := false;
|}.

#[local] Existing Instances memory_file_system memory_fs_laws ascii_strings example_host.

Definition example_fs : fs_state memory_fs :=
  FsState {| fs_directory := L "C:\d"; cached_paths := ∅ |}
    {| m_files := ∅; m_handles := ∅; m_room := 10 |} [].

Lemma example_fs_well_formed : well_formed_fs example_fs.
Proof. split; [apply map_Forall_empty|by repeat constructor]. Qed.

Lemma fs_calls_contained_witness :
  exists path new_path, below example_fs path ∧ below example_fs new_path.
Proof.
  destruct (fs_calls_contained example_fs (L "a/../../b") (L "c") []) as
    (path & new_path & _ & _ & H1 & H2 & _);
    [exact example_fs_well_formed|by repeat constructor..|].
  exists path, new_path. split; [exact H1|exact H2].
Defined.

Lemma fs_nul_escapes_witness :
  exists path p',
    file_path (L ".." ++ [0]) example_fs = (Ok path, FsState p' (os example_fs) []) ∧
    resolve path = [L "C:"].
Proof.
  destruct (fs_nul_escapes example_fs) as (path & p' & E & Hr);
    [exact example_fs_well_formed|discriminate|].
  exists path, p'. split; [exact E|exact Hr].
Defined.

Lemma fs_write_leaks_witness :
  exists w p',
    fs_write {| this_field := false; argv := [VString (L "a"); VInt 1] |} example_fs
    = (Throw (StdException "invalid data type provided."), FsState p' w [0%nat]).
Proof.
  eexists _, _.
  refine (fs_write_leaks {| this_field := false; argv := [VString (L "a"); VInt 1] |}
    (L "a") [VInt 1] example_fs (L "C:\d\a") _ 0 _ _ _ _ _ _);
    [reflexivity|discriminate|vm_compute; reflexivity|vm_compute; reflexivity|].
  apply not_elem_of_nil.
Defined.

(** [fs.write] of a text, then [fs.read] of the file as an array. *)
Definition write_then_read (text : wstring) : outcome value :=
  let '(_, st) := fs_write {| this_field := false; argv := [VString (L "a"); VString text] |} example_fs in
  fst (fs_read {| this_field := false; argv := [VString (L "a"); VBoolean true] |} st).

Lemma fs_write_read_witness :
  exists path file w1 n w2 s,
    _wfopen path WB (os example_fs) = (Some file, w1) ∧ fwrite file (L "text") w1 = (n, w2) ∧
    s = 0 ∧ (n <= 4)%nat ∧ write_then_read (L "text") = Ok (array_of (take n (L "text")) n).
Proof.
  set (st1 := snd (fs_write {| this_field := false; argv := [VString (L "a"); VString (L "text")] |}
                     example_fs)).
  destruct (fs_write_read example_fs (L "a") (VString (L "text")) (L "text") st1
    (array_of (L "text") 4)
    (snd (fs_read {| this_field := false; argv := [VString (L "a"); VBoolean true] |} st1)))
    as (path & file & w1 & n & w2 & s & Ho & Ew & Ec & Hn & Hr);
    [exact example_fs_well_formed|by repeat constructor|reflexivity|vm_compute; reflexivity|
     vm_compute; reflexivity|vm_compute; reflexivity|].
  assert (s = 0) as -> by by injection Ec.
  destruct (Hr eq_refl) as (file' & w3 & b & w4 & _ & _ & Er & Hb).
  exists path, file, w1, n, w2, 0. split; [exact Ho|]. split; [exact Ew|]. split; [reflexivity|].
  split; [exact Hn|]. rewrite <- (Hb eq_refl), <- Er. vm_compute. reflexivity.
Defined.

(** (error).  On a disk that has room for ten bytes, [fs.write] of twelve
    returns as it does when all is written, and the file has ten of them. *)
Example fs_write_short :
  fst (fs_write {| this_field := false; argv := [VString (L "a"); VString (L "twelve bytes")] |} example_fs)
    = Ok VUndefined /\
  write_then_read (L "twelve bytes") = Ok (array_of (L "twelve byt") 10).
Proof. vm_compute. split; reflexivity. Qed.
