(* ===== verification/Gzip.v ===== *)
(** * Compression: Include/gzip/compress.hpp and Include/gzip/decompress.hpp

    zlib is not part of the repository: [Zlib] is the interface to a stream,
    [ZlibLaws] what its manual says of the streams these files make. *)
From S2P Require Import Prelude.

Abbreviation Z_OK := 0.
Abbreviation Z_STREAM_END := 1.
Abbreviation Z_BUF_ERROR := (-5).

(** A [z_stream]: [deflate] and [inflate] are called with [Z_FINISH] and the
    room left ([avail_out]), and return the bytes they put there. *)
Class Zlib (S : Type) := {
  deflateInit2 : Z -> option S;
  inflateInit2 : option S;
  (** [next_in] and [avail_in]. *)
  set_input : bytes -> S -> S;
  deflate : Z -> S -> bytes * S;
  inflate : Z -> S -> (Z * bytes) * S;
  msg : S -> option string;
}.

(** The output a deflating stream still has, the plain text an inflating one
    still has ([None] for data that is not a stream).  A call gives as much of
    it as there is room for.  What was deflated is not empty and inflates to
    the input; without input and without room nothing happens. *)
Class ZlibLaws (S : Type) `{Zlib S} := {
  pending : S -> bytes;
  plain_text : S -> option bytes;
  deflate_spec n s :
    0 <= n -> exists s', deflate n s = (take (Z.to_nat n) (pending s), s') ∧
      pending s' = drop (Z.to_nat n) (pending s);
  inflate_spec n s d :
    0 < n -> plain_text s = Some d ->
    exists ret s', inflate n s = ((ret, take (Z.to_nat n) d), s') ∧
      plain_text s' = Some (drop (Z.to_nat n) d) ∧
      (ret = Z_OK ∨ ret = Z_STREAM_END ∨ ret = Z_BUF_ERROR);
  inflate_deflated level d s0 s1 :
    deflateInit2 level = Some s0 -> inflateInit2 = Some s1 ->
    pending (set_input d s0) ≠ [] ∧
    plain_text (set_input (pending (set_input d s0)) s1) = Some d;
  inflate_nothing s0 s :
    inflateInit2 = Some s0 -> s = set_input [] s0 -> inflate 0 s = ((Z_BUF_ERROR, []), s);
}.

Section gzip.
Context {S : Type} `{Zlib S}.

Fixpoint compress_loop (fuel : nat) (increase : Z) (deflate_s : S) (output : bytes)
  (size_compressed : Z) : outcome bytes :=
  match fuel with
  | O => Crash "endless loop"
  | Datatypes.S fuel' =>
      let output :=
        if Z.of_nat (length output) <? size_compressed + increase
        then resize output (Z.to_nat (size_compressed + increase)) else output in
      let room := u32 increase in
      let '(produced, deflate_s) := deflate room deflate_s in
      match memcpy output (Z.to_nat size_compressed) produced with
      | None => Crash "write outside the buffer"
      | Some output =>
          let avail_out := room - Z.of_nat (length produced) in
          let size_compressed := size_compressed + (increase - avail_out) in
          if avail_out =? 0
          then compress_loop fuel' increase deflate_s output size_compressed
          else Ok (resize output (Z.to_nat size_compressed))
      end
  end.

(** [gzip::compress]. *)
Definition compress (fuel : nat) (data : bytes) (level : Z) : outcome bytes :=
  let size := Z.of_nat (length data) in
  if 2000000000 <? size
  then Throw (StdException "size may use more memory than intended when decompressing")
  else
    match deflateInit2 level with
    | None => Throw (StdException "deflate init failed")
    | Some deflate_s =>
        let deflate_s := set_input (take (Z.to_nat (u32 size)) data) deflate_s in
        compress_loop fuel (size / 2 + 1024) deflate_s [] 0
    end.

Abbreviation max_ := 1000000000.

Fixpoint decompress_loop (fuel : nat) (size : Z) (inflate_s : S) (output : bytes)
  (size_uncompressed : Z) : outcome bytes :=
  match fuel with
  | O => Crash "endless loop"
  | Datatypes.S fuel' =>
      let resize_to := size_uncompressed + 2 * size in
      if max_ <? resize_to
      then Throw (StdException
        "size of output string will use more memory then intended when decompressing")
      else
        let output := resize output (Z.to_nat resize_to) in
        let room := u32 (2 * size) in
        let '((ret, produced), inflate_s) := inflate room inflate_s in
        if negb (ret =? Z_STREAM_END) && negb (ret =? Z_OK) && negb (ret =? Z_BUF_ERROR)
        then match msg inflate_s with
             | Some error_msg => Throw (StdException error_msg)
             | None => Crash "string of a null pointer"
             end
        else
          match memcpy output (Z.to_nat size_uncompressed) produced with
          | None => Crash "write outside the buffer"
          | Some output =>
              let avail_out := room - Z.of_nat (length produced) in
              let size_uncompressed := size_uncompressed + (2 * size - avail_out) in
              if avail_out =? 0
              then decompress_loop fuel' size inflate_s output size_uncompressed
              else Ok (resize output (Z.to_nat size_uncompressed))
          end
  end.

(** [gzip::decompress]. *)
Definition decompress (fuel : nat) (data : bytes) : outcome bytes :=
  let size := Z.of_nat (length data) in
  match inflateInit2 with
  | None => Throw (StdException "inflate init failed")
  | Some inflate_s =>
      if (max_ <? size) || (max_ <? size * 2)
      then Throw (StdException "size may use more memory than intended when decompressing")
      else decompress_loop fuel size
             (set_input (take (Z.to_nat (u32 size)) data) inflate_s) [] 0
  end.

(** ** Lemmas *)

Context `{!ZlibLaws S}.

Lemma take_u32 (data : bytes) :
  Z.of_nat (length data) < 2 ^ 32 -> take (Z.to_nat (u32 (Z.of_nat (length data)))) data = data.
Proof. intros. rewrite wrap_small by lia. apply take_ge. lia. Qed.

(** A buffer that was resized for [n] more bytes, after a copy of [n] bytes
    at most and cut. *)
Lemma copy_and_cut done_ produced (n : nat) :
  (length produced <= n)%nat ->
  exists output,
    memcpy (resize done_ (length done_ + n)) (length done_) produced = Some output ∧
    output = (done_ ++ produced) ++ replicate (n - length produced) 0 ∧
    resize output (length (done_ ++ produced)) = done_ ++ produced.
Proof.
  intros Hn. rewrite resize_more by lia. replace (_ + n - _)%nat with n by lia.
  rewrite memcpy_at_end by (rewrite length_replicate; lia).
  eexists. split; [reflexivity|]. rewrite app_assoc, drop_replicate.
  split; [done|]. apply resize_app.
Qed.

Lemma compress_loop_eq fuel increase s done_ :
  0 < increase < 2 ^ 32 -> (length (pending s) < fuel)%nat ->
  compress_loop fuel increase s done_ (Z.of_nat (length done_)) = Ok (done_ ++ pending s).
Proof.
  intros Hi. revert s done_. induction fuel as [|fuel IH]; intros s d Hf; [lia|].
  cbn [compress_loop]. rewrite (proj2 (Z.ltb_lt _ _)) by lia. rewrite wrap_small by lia.
  destruct (deflate_spec increase s) as (s' & -> & Hp); [lia|].
  set (produced := take (Z.to_nat increase) (pending s)).
  assert (length produced <= Z.to_nat increase)%nat as Hl
    by (unfold produced; rewrite length_take; lia).
  replace (Z.to_nat (Z.of_nat (length d) + increase))
    with (length d + Z.to_nat increase)%nat by lia.
  rewrite Nat2Z.id.
  destruct (copy_and_cut d produced (Z.to_nat increase) Hl) as (output & -> & Ho & Hcut).
  destruct (Z.eqb_spec (increase - Z.of_nat (length produced)) 0) as [Hfull|Hfree].
  - assert (length produced = Z.to_nat increase) as Hlen by lia.
    rewrite Hlen, Nat.sub_diag, app_nil_r in Ho. rewrite Ho.
    replace (_ + _) with (Z.of_nat (length (d ++ produced))) by (rewrite length_app; lia).
    rewrite IH.
    + rewrite Hp, <- app_assoc. unfold produced. by rewrite take_drop.
    + rewrite Hp, length_drop. unfold produced in Hlen. rewrite length_take in Hlen. lia.
  - replace (Z.to_nat (_ + _)) with (length (d ++ produced)) by (rewrite length_app; lia).
    rewrite Hcut. do 2 f_equal. unfold produced in *. rewrite length_take in *.
    apply take_ge. lia.
Qed.

(** The room the loop of [gzip::decompress] has asked for when [n] bytes of
    output are done, in rounds of [2 * size]. *)
Definition decompress_room (size n : Z) : Z := 2 * size * (n / (2 * size) + 1).

Lemma decompress_room_more size n :
  0 < size -> decompress_room size (n - 2 * size) = decompress_room size n - 2 * size.
Proof.
  intros Hs. unfold decompress_room. replace (n - 2 * size) with (n + (-1) * (2 * size)) by lia.
  rewrite Z.div_add by lia. lia.
Qed.

Lemma decompress_room_least size n : 0 < size -> 0 <= n -> 2 * size <= decompress_room size n.
Proof. intros Hs Hn. unfold decompress_room. pose proof (Z.div_pos n (2 * size)). nia. Qed.

Lemma decompress_room_most size n : 0 < size -> decompress_room size n <= n + 2 * size.
Proof. intros Hs. unfold decompress_room. pose proof (Z.mul_div_le n (2 * size)). lia. Qed.

(** The loop returns all, or asks for more than a billion bytes on the way. *)
Lemma decompress_loop_cases fuel size s done_ d :
  0 < size -> plain_text s = Some d -> (length d < fuel)%nat ->
  decompress_loop fuel size s done_ (Z.of_nat (length done_)) =
    if max_ <? Z.of_nat (length done_) + decompress_room size (Z.of_nat (length d))
    then Throw (StdException
      "size of output string will use more memory then intended when decompressing")
    else Ok (done_ ++ d).
Proof.
  intros Hs. revert s done_ d. induction fuel as [|fuel IH]; intros s p d Hd Hf; [lia|].
  pose proof (decompress_room_least size (Z.of_nat (length d)) Hs ltac:(lia)) as Hleast.
  cbn [decompress_loop]. destruct (Z.ltb_spec max_ (Z.of_nat (length p) + 2 * size)) as [Hbig|Hsmall].
  { by rewrite (proj2 (Z.ltb_lt _ _)) by lia. }
  rewrite wrap_small by lia.
  destruct (inflate_spec (2 * size) s d) as (ret & s' & -> & Hp & Hret); [lia|done|].
  replace (negb (ret =? Z_STREAM_END) && negb (ret =? Z_OK) && negb (ret =? Z_BUF_ERROR))
    with false by (destruct Hret as [->|[->| ->]]; reflexivity).
  set (produced := take (Z.to_nat (2 * size)) d) in *.
  assert (length produced <= Z.to_nat (2 * size))%nat as Hl
    by (unfold produced; rewrite length_take; lia).
  replace (Z.to_nat (Z.of_nat (length p) + 2 * size))
    with (length p + Z.to_nat (2 * size))%nat by lia.
  rewrite Nat2Z.id.
  destruct (copy_and_cut p produced (Z.to_nat (2 * size)) Hl) as (output & -> & Ho & Hcut).
  assert (length produced = Z.to_nat (2 * size) `min` length d)%nat as Hlen
    by (unfold produced; apply length_take).
  destruct (Z.eqb_spec (2 * size - Z.of_nat (length produced)) 0) as [Hfull|Hfree].
  - replace (Z.to_nat (2 * size) - length produced)%nat with 0%nat in Ho by lia.
    rewrite app_nil_r in Ho. rewrite Ho.
    replace (_ + _) with (Z.of_nat (length (p ++ produced))) by (rewrite length_app; lia).
    rewrite (IH _ _ _ Hp) by (rewrite length_drop; lia).
    rewrite length_drop, length_app, !Nat2Z.inj_add, Nat2Z.inj_sub, Z2Nat.id by lia.
    rewrite (decompress_room_more size _ Hs). rewrite <- app_assoc. unfold produced at 2.
    rewrite take_drop. by replace (_ + _ + _) with (Z.of_nat (length p) + decompress_room size (Z.of_nat (length d))) by lia.
  - replace (Z.to_nat (_ + _)) with (length (p ++ produced)) by (rewrite length_app; lia).
    rewrite Hcut. assert (Z.of_nat (length d) < 2 * size) as Hshort by lia.
    unfold decompress_room. rewrite Z.div_small by lia.
    rewrite (proj2 (Z.ltb_ge _ _)) by lia. do 2 f_equal. apply take_ge. lia.
Qed.

Lemma compress_eq fuel data level s :
  deflateInit2 level = Some s -> (length (pending (set_input data s)) < fuel)%nat ->
  compress fuel data level =
    if 2000000000 <? Z.of_nat (length data)
    then Throw (StdException "size may use more memory than intended when decompressing")
    else Ok (pending (set_input data s)).
Proof.
  intros Hs Hf. unfold compress. rewrite Hs.
  destruct (Z.ltb_spec 2000000000 (Z.of_nat (length data))); [done|].
  rewrite take_u32 by lia. apply (compress_loop_eq _ _ _ []); [|done].
  pose proof (Z.div_le_upper_bound (Z.of_nat (length data)) 2 1000000000).
  pose proof (Z.div_pos (Z.of_nat (length data)) 2). lia.
Qed.

(** [gzip::decompress] of what stands for [d], in all cases. *)
Lemma decompress_cases fuel c s d :
  inflateInit2 = Some s -> c ≠ [] -> plain_text (set_input c s) = Some d ->
  (length d < fuel)%nat ->
  if max_ <? decompress_room (Z.of_nat (length c)) (Z.of_nat (length d))
  then exists e, decompress fuel c = Throw e
  else decompress fuel c = Ok d.
Proof.
  intros Hs Hne Hd Hf. assert (0 < Z.of_nat (length c)) as Hpos by (destruct c; [done|simpl; lia]).
  pose proof (decompress_room_least _ (Z.of_nat (length d)) Hpos ltac:(lia)) as Hleast.
  unfold decompress. rewrite Hs.
  destruct ((max_ <? Z.of_nat (length c)) || (max_ <? Z.of_nat (length c) * 2)) eqn:E.
  { rewrite (proj2 (Z.ltb_lt _ _)) by lia. by eexists. }
  rewrite take_u32 by lia.
  rewrite (decompress_loop_cases _ _ _ [] d) by done.
  cbn [length]. rewrite Z.add_0_l. case_match; [by eexists|done].
Qed.

Lemma decompress_eq fuel c s d :
  inflateInit2 = Some s -> c ≠ [] -> plain_text (set_input c s) = Some d ->
  (length d < fuel)%nat -> Z.of_nat (length d) + 2 * Z.of_nat (length c) <= max_ ->
  decompress fuel c = Ok d.
Proof.
  intros Hs Hne Hd Hf Hmax. pose proof (decompress_cases _ _ _ _ Hs Hne Hd Hf) as Hc.
  assert (0 < Z.of_nat (length c)) as Hpos by (destruct c; [done|simpl; lia]).
  pose proof (decompress_room_most _ (Z.of_nat (length d)) Hpos).
  by rewrite (proj2 (Z.ltb_ge _ _)) in Hc by lia.
Qed.

(** ** The properties *)

(** C21 (functional, termination).  [gzip::compress] refuses more than two
    billion bytes; otherwise its loop ends, never writes outside the string,
    and returns the whole of what zlib produces, cut to its length. *)
Theorem compress_whole_stream fuel data level s :
  deflateInit2 level = Some s -> (length (pending (set_input data s)) < fuel)%nat ->
  compress fuel data level =
    if 2000000000 <? Z.of_nat (length data)
    then Throw (StdException "size may use more memory than intended when decompressing")
    else Ok (pending (set_input data s)).
Proof. apply compress_eq. Qed.

(** (roundtrip).  What [gzip::compress] returned, [gzip::decompress]
    turns back into the data, as long as the buffers stay under one billion
    bytes. *)
Theorem decompress_compress fuel fuel' data level c s s' :
  deflateInit2 level = Some s -> inflateInit2 = Some s' ->
  (length (pending (set_input data s)) < fuel)%nat -> (length data < fuel')%nat ->
  compress fuel data level = Ok c ->
  Z.of_nat (length data) + 2 * Z.of_nat (length c) <= 1000000000 ->
  decompress fuel' c = Ok data.
Proof.
  intros Hs Hs' Hf Hf' Hc Hmax.
  destruct (inflate_deflated level data s s' Hs Hs') as [Hne Hd].
  rewrite (compress_eq _ _ _ _ Hs Hf) in Hc. case_match; [done|]. simplify_eq.
  by apply (decompress_eq _ _ _ _ Hs').
Qed.

(** (termination).  [gzip::decompress] of no bytes never returns: the
    room it gives zlib is nothing, so it is always used up. *)
Theorem decompress_nothing_hangs fuel s :
  inflateInit2 = Some s -> decompress fuel [] = Crash "endless loop".
Proof.
  intros Hs. unfold decompress. rewrite Hs. cbn [length take orb].
  change ((max_ <? Z.of_nat 0) || (max_ <? Z.of_nat 0 * 2)) with false. cbn iota.
  change (Z.of_nat 0) with 0. rewrite take_nil.
  induction fuel as [|fuel IH]; [done|]. cbn [decompress_loop].
  change (u32 (2 * 0)) with 0. rewrite (inflate_nothing s) by done. simpl. exact IH.
Qed.
End gzip.

(** ** A stream that stores *)

(** One byte of header, then the data.  A deflating stream is what it has
    still to give; an inflating one also tells whether the header was read. *)
Definition stored_text (s : bytes * bool) : option bytes :=
  match s with
  | (b, true) => Some b
  | (c :: b, false) => if c =? 31 then Some b else None
  | ([], false) => None
  end.

Definition stored : Zlib (bytes * bool) := {|
  deflateInit2 level := if (-1 <=? level) && (level <=? 9) then Some ([], true) else None;
  inflateInit2 := Some ([], false);
  set_input d s := if snd s then (31 :: d, true) else (d, false);
  deflate n s := (take (Z.to_nat n) (fst s), (drop (Z.to_nat n) (fst s), true));
  inflate n s :=
    if n =? 0 then ((Z_BUF_ERROR, []), s)
    else
      match stored_text s with
      | Some d => ((Z_OK, take (Z.to_nat n) d), (drop (Z.to_nat n) d, true))
      | None => ((-3, []), s)
      end;
  msg _ := Some "incorrect header check"%string;
|}.

Lemma stored_laws : ZlibLaws (bytes * bool) (H := stored).
Proof.
  refine {| pending := fst : bytes * bool -> bytes; plain_text := stored_text |}.
  - intros n s Hn. by eexists.
  - intros n s d Hn Hd. cbn [inflate stored]. rewrite (proj2 (Z.eqb_neq _ _)), Hd by lia.
    eexists _, _. split; [reflexivity|]. split; [by destruct (drop _ d)|by left].
  - intros level d s0 s1 E0 [= <-]. simpl in E0. case_match; [|done]. by injection E0 as <-.
  - intros s0 s [= <-] ->. reflexivity.
Defined.

#[local] Existing Instances stored stored_laws.

Lemma compress_whole_stream_witness : compress 4 [7; 8] 9 = Ok [31; 7; 8].
Proof.
  rewrite (compress_whole_stream 4 [7; 8] 9 ([], true)); [reflexivity|reflexivity|simpl; lia].
Defined.

Lemma decompress_compress_witness : decompress 3 [31; 7; 8] = Ok [7; 8].
Proof.
  apply (decompress_compress 4 3 [7; 8] 9 [31; 7; 8] ([], true) ([], false));
    solve [reflexivity | simpl; lia].
Defined.

Lemma decompress_nothing_hangs_witness : decompress 1000 [] = Crash "endless loop".
Proof. by apply (decompress_nothing_hangs 1000 ([], false)). Defined.
