(* ===== verification/Async.v ===== *)
(** * Promises and objects with native memory

    Every asynchronous function of [create_shell_context] and
    [initialize_objects] ends the same way: it makes a promise, returns it and
    starts a thread; the thread works, and settles the promise under the
    locker (the wait for a free thread is modelled in Threads.v).  The objects
    that own native memory tell V8 its size when they are made and when V8
    collects them.  Both are modelled once here, for any kind of job. *)
From S2P Require Import Prelude Values.

(** A call of the resolver of a promise. *)
Inductive settlement := Resolve (v : value) | Reject (v : value).

(** What a thread does under the locker, in order: the calls of its resolver,
    each with the size of the object made for its value, if one is made.  V8
    ignores the calls behind the first. *)
Abbreviation settlements := (list (settlement * option Z)).

Section async.
Context {Job N : Type}.

Record async_state := Async {
  (** The promises made so far are those below this number. *)
  next_promise : nat;
  running : list (nat * Job);
  (** Every call of a resolver, with its promise. *)
  settled : list (nat * settlement);
  (** What [AdjustAmountOfExternalAllocatedMemory] adds up to, and the
      objects alive with their sizes. *)
  external_memory : Z;
  alive : list Z;
  native : N;
}.

(** The resolver, its promise and the detached thread. *)
Definition spawn (job : Job) : M async_state value := fun st =>
  (Ok (VPromise (next_promise st)),
   Async (S (next_promise st)) (running st ++ [(next_promise st, job)]) (settled st)
     (external_memory st) (alive st) (native st)).

(** A new object whose weak callback is set, of size [capacity]. *)
Definition new_object (capacity : Z) (st : async_state) : async_state :=
  Async (next_promise st) (running st) (settled st)
    (external_memory st + capacity) (alive st ++ [capacity]) (native st).

Definition set_native (n : N) (st : async_state) : async_state :=
  Async (next_promise st) (running st) (settled st) (external_memory st) (alive st) n.

(** What a thread does with its job: the calls of its resolver; the thread
    can fail to return. *)
Variable work : Job -> N -> outcome settlements * N.

Definition settle_promise (p : nat) (st : async_state) (call : settlement * option Z) : async_state :=
  let st1 := Async (next_promise st) (running st) (settled st ++ [(p, fst call)])
               (external_memory st) (alive st) (native st) in
  match snd call with Some capacity => new_object capacity st1 | None => st1 end.

Definition finish (p : nat) (rest : list (nat * Job)) (calls : settlements) (n : N)
  (st : async_state) : async_state :=
  fold_left (settle_promise p) calls
    (Async (next_promise st) rest (settled st) (external_memory st) (alive st) n).

(** A step of the process: JavaScript starts a job or makes an object, a
    thread returns, V8 collects an object. *)
Inductive async_step : relation async_state :=
| step_spawn job st : async_step st (snd (spawn job st))
| step_new capacity st : async_step st (new_object capacity st)
| step_finish p job before after calls n st :
    running st = before ++ (p, job) :: after ->
    work job (native st) = (Ok calls, n) ->
    async_step st (finish p (before ++ after) calls n st)
| step_collect capacity before after st :
    alive st = before ++ capacity :: after ->
    async_step st
      (Async (next_promise st) (running st) (settled st)
         (external_memory st - capacity) (before ++ after) (native st))
| step_native n st : async_step st (set_native n st).

Definition started (n : N) : async_state := Async 0 [] [] 0 [] n.

(** Every promise made has one running thread or one call of its resolver. *)
Definition promises_ok (st : async_state) : Prop :=
  map fst (running st) ++ map fst (settled st) ≡ₚ seq 0 (next_promise st).

(** Every thread that returns has called its resolver once. *)
Definition settles_once : Prop :=
  forall job n calls n', work job n = (Ok calls, n') -> length calls = 1%nat.

Definition memory_ok (st : async_state) : Prop :=
  external_memory st = foldr Z.add 0 (alive st).

Lemma sum_app l k : foldr Z.add 0 (l ++ k) = foldr Z.add 0 l + foldr Z.add 0 k.
Proof. induction l as [|x l IH]; simpl; [done|]. rewrite IH. lia. Qed.

(** What a thread that ends leaves as it was. *)
Lemma finish_state p rest calls n st :
  next_promise (finish p rest calls n st) = next_promise st /\
  running (finish p rest calls n st) = rest /\ native (finish p rest calls n st) = n /\
  settled (finish p rest calls n st) = settled st ++ map (fun c => (p, fst c)) calls.
Proof.
  unfold finish. generalize (external_memory st) (alive st) (settled st).
  induction calls as [|[s [c|]] calls IH]; intros e a l; simpl; [by rewrite app_nil_r|..].
  - destruct (IH (e + c) (a ++ [c]) (l ++ [(p, s)])) as (? & ? & ? & Hs).
    split_and!; [done..|]. etrans; [exact Hs|]. by rewrite <- app_assoc.
  - destruct (IH e a (l ++ [(p, s)])) as (? & ? & ? & Hs).
    split_and!; [done..|]. etrans; [exact Hs|]. by rewrite <- app_assoc.
Qed.

Lemma promises_ok_step st st' :
  settles_once -> promises_ok st -> async_step st st' -> promises_ok st'.
Proof.
  unfold promises_ok. intros Honce Hp Hst.
  destruct Hst as [job st|c st|p job b a calls n st Hr E|c b a st _|n st]; try done.
  - cbn -[seq]. rewrite map_app, <- app_assoc, (Permutation_app_comm (map fst [_])), app_assoc, Hp.
    cbn -[seq]. by rewrite seq_S.
  - destruct (finish_state p (b ++ a) calls n st) as (-> & -> & _ & ->).
    apply Honce in E. destruct calls as [|call [|? ?]]; try discriminate E.
    rewrite <- Hp, Hr, !map_app, map_cons. simpl. rewrite <- !app_assoc.
    apply Permutation_app_head. cbn [app].
    rewrite app_assoc. symmetry. apply Permutation_cons_append.
Qed.

Lemma memory_ok_step st st' : memory_ok st -> async_step st st' -> memory_ok st'.
Proof.
  unfold memory_ok. intros Hm Hst.
  destruct Hst as [job st|c st|p job b a calls n st _ _|c b a st Ha|n st]; simpl; try done.
  - rewrite sum_app. simpl. lia.
  - unfold finish. revert Hm. generalize (external_memory st) (alive st) (settled st).
    induction calls as [|[s [c|]] calls IH]; intros e al l Hm; simpl; [done|..]; apply IH; [|done].
    rewrite sum_app. simpl. lia.
  - rewrite Hm, Ha, !sum_app. simpl. lia.
Qed.

Lemma promises_ok_reachable n st :
  settles_once -> rtc async_step (started n) st -> promises_ok st.
Proof.
  intros Honce. apply (rtc_invariant async_step promises_ok (started n) st); [|apply Permutation_refl].
  intros x y. by apply promises_ok_step.
Qed.

(** Each promise that was returned to JavaScript either waits for one running
    thread or had its resolver called exactly once. *)
Lemma promise_once n st p :
  settles_once -> rtc async_step (started n) st -> (p < next_promise st)%nat ->
  exists before after, map fst (running st) ++ map fst (settled st) = before ++ p :: after /\
    (p ∉ before ++ after).
Proof.
  intros Honce Hreach Hp.
  pose proof (promises_ok_reachable n st Honce Hreach) as Hok. unfold promises_ok in Hok.
  assert (p ∈ map fst (running st) ++ map fst (settled st)) as Hin.
  { rewrite Hok. apply elem_of_seq. lia. }
  apply list_elem_of_split in Hin as (before & after & E). exists before, after.
  split; [done|]. rewrite elem_of_app.
  assert (NoDup (before ++ p :: after)) as Hnd by (rewrite <- E, Hok; apply NoDup_seq).
  apply NoDup_app in Hnd as (_ & Hb & Ha). apply NoDup_cons in Ha as [Ha _].
  intros [Hin|Hin]; [|done]. apply (Hb p Hin). apply list_elem_of_here.
Qed.

(** ** The properties *)

(** (invariant).  The external memory V8 is told of is always the sum of
    the sizes of the objects that are alive. *)
Theorem external_memory_balanced n st :
  rtc async_step (started n) st -> external_memory st = foldr Z.add 0 (alive st).
Proof. intros Hreach. by apply (rtc_invariant _ _ _ _ memory_ok_step) in Hreach. Qed.
End async.
Arguments async_state : clear implicits.

(** ** At a concrete input: one job, settled and its object collected *)

Definition echo (job : value) (n : unit) : outcome settlements * unit :=
  (Ok [(Resolve job, Some 16)], n).

Definition one_settled : async_state value unit :=
  Async 1 [] [(0%nat, Resolve (VInt 7))] 16 [16] ().

Lemma one_settled_reachable : rtc (async_step echo) (started ()) one_settled.
Proof.
  eapply rtc_l; [apply (step_spawn _ (VInt 7))|].
  apply rtc_once.
  by apply (step_finish echo 0 (VInt 7) [] [] [(Resolve (VInt 7), Some 16)] ()
              (Async 1 [(0%nat, VInt 7)] [] 0 [] ())).
Qed.

Lemma external_memory_balanced_witness : external_memory one_settled = foldr Z.add 0 [16].
Proof. apply (external_memory_balanced echo () one_settled one_settled_reachable). Defined.
