(* ===== verification/Regex.v ===== *)
(** * Regex: the [std::regex_match] of the HTTP client

    The client reads status lines, header lines and request paths with three
    ECMAScript patterns.  [regex_match] runs a pattern the way the standard
    says, by backtracking with the alternatives in order, so that it gives the
    captures of the source and not only its answer; [lang] is the language of
    a pattern without any order.  A repetition is of one character class, as in
    the three patterns.  The limits an implementation puts on its stack are not
    modelled. *)
From S2P Require Import Prelude.

(** ** Patterns *)

Inductive re :=
| Eps
| Chr (p : Z -> bool)
| Cat (r1 r2 : re)
| Star (greedy : bool) (p : Z -> bool)
| Opt (r : re)
| Grp (n : nat) (r : re).

(** [p+] and [p+?]. *)
Definition Plus (greedy : bool) (p : Z -> bool) : re := Cat (Chr p) (Star greedy p).

(** The characters of a text. *)
Definition Lit (s : list Z) : re := foldr (fun x r => Cat (Chr (Z.eqb x)) r) Eps s.

(** ** Matching *)

Abbreviation caps := (gmap nat bytes).
Abbreviation cont := (bytes -> caps -> option caps).

Fixpoint star (greedy : bool) (p : Z -> bool) (s : bytes) (c : caps) (k : cont) : option caps :=
  let more := match s with
              | x :: s' => if p x then star greedy p s' c k else None
              | [] => None
              end in
  if greedy then match more with Some m => Some m | None => k s c end
  else match k s c with Some m => Some m | None => more end.

(** An iteration of [(...)?] that matches nothing is refused. *)
Fixpoint run (r : re) (s : bytes) (c : caps) (k : cont) : option caps :=
  match r with
  | Eps => k s c
  | Chr p => match s with x :: s' => if p x then k s' c else None | [] => None end
  | Cat r1 r2 => run r1 s c (fun s' c' => run r2 s' c' k)
  | Star greedy p => star greedy p s c k
  | Opt r =>
      match run r s c (fun s' c' =>
              if (length s' =? length s)%nat then None else k s' c') with
      | Some m => Some m
      | None => k s c
      end
  | Grp n r => run r s c (fun s' c' => k s' (<[n := take (length s - length s') s]> c'))
  end.

Definition regex_match (r : re) (s : bytes) : option caps :=
  run r s ∅ (fun s' c => match s' with [] => Some c | _ => None end).

(** [m[n].str()]: empty when the group did not take part. *)
Definition group (m : caps) (n : nat) : bytes := default [] (m !! n).

(** ** The language of a pattern *)

Fixpoint lang (r : re) (s : bytes) : Prop :=
  match r with
  | Eps => s = []
  | Chr p => exists x, s = [x] /\ p x = true
  | Cat r1 r2 => exists s1 s2, s = s1 ++ s2 /\ lang r1 s1 /\ lang r2 s2
  | Star _ p => Forall (fun x => p x = true) s
  | Opt r => s = [] \/ lang r s
  | Grp _ r => lang r s
  end.

(** ** Soundness and completeness *)

Lemma star_some greedy p s c k m :
  star greedy p s c k = Some m ->
  exists s1 s2, s = s1 ++ s2 /\ Forall (fun x => p x = true) s1 /\ k s2 c = Some m.
Proof.
  induction s as [|x s IH]; simpl; intros E.
  - exists [], []. destruct greedy, (k [] c) eqn:Ek; naive_solver.
  - assert (k (x :: s) c = Some m \/ (p x = true /\ star greedy p s c k = Some m)) as [Hk|[Hp Hs]].
    { destruct greedy; repeat case_match; simplify_eq; auto. }
    + by exists [], (x :: s).
    + destruct (IH Hs) as (s1 & s2 & -> & H1 & H2). exists (x :: s1), s2. eauto.
Qed.

Lemma run_sound r s c k m :
  run r s c k = Some m ->
  exists s1 s2 c', s = s1 ++ s2 /\ lang r s1 /\ k s2 c' = Some m.
Proof.
  revert s c k m. induction r as [|p|r1 IH1 r2 IH2|greedy p|r IH|n r IH]; simpl; intros s c k m E.
  - by exists [], s, c.
  - destruct s as [|x s]; [done|]. destruct (p x) eqn:Ep; [|done].
    exists [x], s, c. naive_solver.
  - apply IH1 in E as (s1 & s2 & c1 & -> & H1 & E).
    apply IH2 in E as (s3 & s4 & c2 & -> & H2 & E).
    exists (s1 ++ s3), s4, c2. rewrite <- app_assoc. naive_solver.
  - apply star_some in E as (s1 & s2 & -> & H1 & H2). naive_solver.
  - destruct (run r s c _) as [m'|] eqn:Er.
    + apply IH in Er as (s1 & s2 & c' & -> & H1 & Ek).
      case_match; [done|]. exists s1, s2, c'. naive_solver.
    + exists [], s, c. naive_solver.
  - apply IH in E as (s1 & s2 & c' & -> & H1 & Ek). naive_solver.
Qed.

Lemma star_complete greedy p s1 s2 c k :
  Forall (fun x => p x = true) s1 -> is_Some (k s2 c) -> is_Some (star greedy p (s1 ++ s2) c k).
Proof.
  intros Hp Hk. induction Hp as [|x s1 Hx Hp IH]; simpl.
  - destruct s2; simpl; destruct greedy; repeat case_match; naive_solver.
  - rewrite Hx. destruct greedy; repeat case_match; naive_solver.
Qed.

Lemma run_complete r s1 s2 c k :
  lang r s1 -> (forall c', is_Some (k s2 c')) -> is_Some (run r (s1 ++ s2) c k).
Proof.
  revert s1 s2 c k. induction r as [|p|r1 IH1 r2 IH2|greedy p|r IH|n r IH]; simpl;
    intros s1 s2 c k Hl Hk.
  - by subst.
  - destruct Hl as (x & -> & Hx). simpl. by rewrite Hx.
  - destruct Hl as (s3 & s4 & -> & H3 & H4). rewrite <- app_assoc.
    apply IH1; [done|]. intros c'. by apply IH2.
  - by apply star_complete.
  - destruct (run r _ c _) as [m|] eqn:Er; [done|].
    destruct s1 as [|x s1]; [apply Hk|]. destruct Hl as [|Hl]; [done|].
    apply eq_None_not_Some in Er as []. apply IH; [done|]. intros c'.
    rewrite (proj2 (Nat.eqb_neq _ _)); [apply Hk|]. rewrite length_app. simpl. lia.
  - apply IH; [done|]. intros c'. apply Hk.
Qed.

(** A pattern matches exactly the texts of its language. *)
Lemma regex_match_lang r s : is_Some (regex_match r s) <-> lang r s.
Proof.
  unfold regex_match. split.
  - intros [m E]. apply run_sound in E as (s1 & s2 & c & -> & H1 & E).
    destruct s2; [|done]. by rewrite app_nil_r.
  - intros H. rewrite <- (app_nil_r s). by apply run_complete.
Qed.

Lemma regex_match_none r s : regex_match r s = None <-> ~ lang r s.
Proof. rewrite <- regex_match_lang. apply eq_None_not_Some. Qed.

(** ** Running a pattern *)

Lemma run_lit t s c k : run (Lit t) (t ++ s) c k = k s c.
Proof. induction t as [|x t IH]; simpl; [done|]. by rewrite Z.eqb_refl. Qed.

(** A greedy repetition that can go no further and then succeeds. *)
Lemma star_greedy p s1 s2 c k m :
  Forall (fun x => p x = true) s1 ->
  (forall x s, s2 = x :: s -> p x = false) ->
  k s2 c = Some m -> star true p (s1 ++ s2) c k = Some m.
Proof.
  intros Hp Hs Hk. induction Hp as [|x s1 Hx Hp IH]; simpl.
  - destruct s2 as [|x s]; simpl; [by rewrite Hk|]. by rewrite (Hs x s), Hk.
  - by rewrite Hx, IH.
Qed.

(** A lazy repetition that fails until it reaches [s2]. *)
Lemma star_lazy p s1 s2 c k m :
  Forall (fun x => p x = true) s1 ->
  (forall t u, s1 = t ++ u -> u <> [] -> k (u ++ s2) c = None) ->
  k s2 c = Some m -> star false p (s1 ++ s2) c k = Some m.
Proof.
  intros Hp Hn Hk. induction Hp as [|x s1 Hx Hp IH]; simpl.
  - destruct s2 as [|x s]; simpl; by rewrite Hk.
  - pose proof (Hn [] (x :: s1)) as E. simpl in E. rewrite E by done. rewrite Hx. apply IH.
    intros t u -> Hu. by apply (Hn (x :: t) u).
Qed.

(** The text of a group: what was there less what is left. *)
Lemma take_group (s1 s2 : bytes) : take (length (s1 ++ s2) - length s2) (s1 ++ s2) = s1.
Proof.
  rewrite length_app. replace (length s1 + length s2 - length s2)%nat with (length s1) by lia.
  apply take_app_length.
Qed.

Lemma take_group_eq (s s1 s2 : bytes) : s = s1 ++ s2 -> take (length s - length s2) s = s1.
Proof. intros ->. apply take_group. Qed.

Lemma run_opt_some r s c k m :
  run r s c (fun s' c' => if (length s' =? length s)%nat then None else k s' c') = Some m ->
  run (Opt r) s c k = Some m.
Proof. simpl. by intros ->. Qed.

Lemma run_opt_none r s c k :
  run r s c (fun s' c' => if (length s' =? length s)%nat then None else k s' c') = None ->
  run (Opt r) s c k = k s c.
Proof. simpl. by intros ->. Qed.

Lemma run_cat r1 r2 s c k : run (Cat r1 r2) s c k = run r1 s c (fun s' c' => run r2 s' c' k).
Proof. done. Qed.

Lemma run_grp n r s c k :
  run (Grp n r) s c k
    = run r s c (fun s' c' => k s' (<[n := take (length s - length s') s]> c')).
Proof. done. Qed.

Lemma lang_lit t s : lang (Lit t) s <-> s = t.
Proof.
  revert s. induction t as [|x t IH]; intros s; simpl; [done|]. split.
  - intros (s1 & s2 & -> & (y & -> & Hy%Z.eqb_eq) & ->%IH). by subst.
  - intros ->. exists [x], t. rewrite IH. split; [done|]. split; [|done].
    exists x. by rewrite Z.eqb_refl.
Qed.

(** ** The longest prefix of a class *)

Fixpoint span (p : Z -> bool) (s : bytes) : bytes * bytes :=
  match s with
  | [] => ([], [])
  | c :: s' => if p c then let '(a, b) := span p s' in (c :: a, b) else ([], s)
  end.

Lemma span_spec p s :
  s = fst (span p s) ++ snd (span p s) /\ Forall (fun x => p x = true) (fst (span p s)) /\
  (forall x b, snd (span p s) = x :: b -> p x = false).
Proof.
  induction s as [|c s (IH1 & IH2 & IH3)]; simpl; [done|].
  destruct (p c) eqn:Ec.
  - destruct (span p s) as [a b]; simpl in *. split_and!; [by f_equal|by constructor|done].
  - split_and!; [done|by constructor|]. intros x b [= <- _]. done.
Qed.

Lemma span_eq p a b :
  Forall (fun x => p x = true) a -> (forall x t, b = x :: t -> p x = false) ->
  span p (a ++ b) = (a, b).
Proof.
  intros Ha Hb. induction Ha as [|c a Hc Ha IH]; simpl.
  - destruct b as [|x t]; simpl; [done|]. by rewrite (Hb x t).
  - by rewrite Hc, IH.
Qed.

Lemma span_app p a b :
  Forall (fun x => p x = true) a -> span p (a ++ b) = (a ++ fst (span p b), snd (span p b)).
Proof.
  induction 1 as [|c a Hc Ha IH]; simpl; [apply surjective_pairing|]. by rewrite Hc, IH.
Qed.

Lemma run_star_span p s c k m :
  k (snd (span p s)) c = Some m -> run (Star true p) s c k = Some m.
Proof.
  destruct (span_spec p s) as (E & Hp & Hn). intros Hk. rewrite E. by apply star_greedy.
Qed.

(** The same for an optional repetition, which may be skipped instead. *)
Lemma run_opt_star_span p s c k m :
  k (snd (span p s)) c = Some m -> run (Opt (Star true p)) s c k = Some m.
Proof.
  intros Hk. destruct (span_spec p s) as (E & Hp & Hn).
  destruct (span p s) as [a b]. cbn [fst snd] in *. subst s.
  destruct a as [|x a].
  - cbn [app run]. destruct b as [|y b]; simpl; [done|].
    by rewrite (Hn y b eq_refl), Nat.eqb_refl.
  - apply run_opt_some. cbn [run]. apply star_greedy; [done|done|].
    rewrite length_app. simpl. rewrite (proj2 (Nat.eqb_neq _ _)) by lia. done.
Qed.
