(* ===== verification/HttpText.v ===== *)
(** * HttpText: the number and URL texts of the HTTP client
    (Include/httplib/httplib.h)

    [from_i_to_hex], [encode_url], [decode_url] and their helpers, and the
    conversions of the standard library that the client calls: [std::stoi],
    [std::strtoull], [std::to_string]. *)
From S2P Require Import Prelude.
From Stdlib Require Import ZifyBool.

(** A character of a [std::string], as the signed [char] it is. *)
Definition to_char (b : Z) : Z := if b <? 128 then b else b - 256.

Definition in_range (lo hi c : Z) : bool := (lo <=? c) && (c <=? hi).

(** ['0'] to ['9'], ['A'] to ['F'], ['a'] to ['f']. *)
Definition isdigit : Z -> bool := in_range 48 57.
Definition is_upper_hex : Z -> bool := in_range 65 70.
Definition is_lower_hex : Z -> bool := in_range 97 102.

(** ** The standard library *)

(** [isspace]: space, and tab to carriage return. *)
Definition isspace (c : Z) : bool := (c =? 32) || ((9 <=? c) && (c <=? 13)).

(** The value of a digit in a base up to 16. *)
Definition digit_value (base c : Z) : option Z :=
  let v := if isdigit c then Some (c - 48)
           else if is_upper_hex c then Some (c - 65 + 10)
           else if is_lower_hex c then Some (c - 97 + 10)
           else None in
  match v with Some d => if d <? base then Some d else None | None => None end.

Fixpoint drop_spaces (s : bytes) : bytes :=
  match s with c :: s' => if isspace c then drop_spaces s' else s | [] => [] end.

Fixpoint scan_digits (base acc : Z) (s : bytes) : Z :=
  match s with
  | c :: s' => match digit_value base c with
               | Some d => scan_digits base (acc * base + d) s'
               | None => acc
               end
  | [] => acc
  end.

Definition starts_with_digit (base : Z) (s : bytes) : bool :=
  match s with c :: _ => bool_decide (is_Some (digit_value base c)) | [] => false end.

(** [0x] before hexadecimal digits. *)
Definition drop_prefix (base : Z) (s : bytes) : bytes :=
  match s with
  | a :: x :: s' =>
      if (base =? 16) && (a =? 48) && ((x =? 120) || (x =? 88)) && starts_with_digit base s'
      then s' else s
  | _ => s
  end.

(** The integer at the start of a C string, as the [strto] functions read it:
    spaces, a sign, digits; [None] when there is none. *)
Definition strto (base : Z) (s : bytes) : option Z :=
  let s := drop_spaces (c_str s) in
  let '(negative, s) := match s with
                        | c :: s' => if c =? 45 then (true, s')
                                     else if c =? 43 then (false, s') else (false, s)
                        | [] => (false, s)
                        end in
  let s := drop_prefix base s in
  if starts_with_digit base s
  then Some (if negative : bool then - scan_digits base 0 s else scan_digits base 0 s)
  else None.

(** [std::stoi(s, 0, base)]; [int] and [long] are 32 bits wide. *)
Definition stoi (base : Z) (s : bytes) : outcome Z :=
  match strto base s with
  | None => Throw (StdException "invalid stoi argument")
  | Some z => if (- 2 ^ 31 <=? z) && (z <? 2 ^ 31) then Ok z
              else Throw (StdException "stoi argument out of range")
  end.

(** [std::strtoull(s, nullptr, 10)]. *)
Definition strtoull (s : bytes) : Z :=
  match strto 10 s with
  | None => 0
  | Some z => if 2 ^ 64 <=? Z.abs z then 2 ^ 64 - 1 else u64 z
  end.

(** [std::to_string] of an unsigned number of at most 64 bits, with at most 20
    digits. *)
Fixpoint to_string_loop (fuel : nat) (n : Z) (ret : bytes) : bytes :=
  match fuel with
  | O => ret
  | S fuel =>
      let ret := 48 + n mod 10 :: ret in
      if n / 10 =? 0 then ret else to_string_loop fuel (n / 10) ret
  end.

Definition to_string (n : Z) : bytes := to_string_loop 20 n [].

(** ** [from_i_to_hex] *)

Definition charset : bytes := L "0123456789abcdef".

(** The loop; a [size_t] has 16 digits. *)
Fixpoint from_i_to_hex_loop (fuel : nat) (n : Z) (ret : bytes) : bytes :=
  match fuel with
  | O => ret
  | S fuel =>
      let ret := default 0 (charset !! Z.to_nat (Z.land n 15)) :: ret in
      let n := Z.shiftr n 4 in
      if 0 <? n then from_i_to_hex_loop fuel n ret else ret
  end.

Definition from_i_to_hex (n : Z) : bytes := from_i_to_hex_loop 16 n [].

(** ** [is_hex], [from_hex_to_i], [to_utf8] *)

Definition is_hex (c : Z) : option Z :=
  if (32 <=? to_char c) && isdigit c then Some (c - 48)
  else if is_upper_hex c then Some (c - 65 + 10)
  else if is_lower_hex c then Some (c - 97 + 10)
  else None.

(** The loop from [s[i]] on; past the end [s[i]] is NUL. *)
Fixpoint from_hex_loop (cnt : nat) (s : bytes) (val : Z) : option Z :=
  match cnt with
  | O => Some val
  | S cnt =>
      match s with
      | [] => None
      | c :: s' =>
          if c =? 0 then None
          else match is_hex c with
               | Some v => from_hex_loop cnt s' (val * 16 + v)
               | None => None
               end
      end
  end.

Definition from_hex_to_i (s : bytes) (i cnt : nat) : option Z :=
  if (length s <=? i)%nat then None else from_hex_loop cnt (drop i s) 0.

Definition to_utf8 (code : Z) : bytes :=
  let tail shift := u8 (Z.lor 0x80 (Z.land (Z.shiftr code shift) 0x3F)) in
  if code <? 0x0080 then [u8 (Z.land code 0x7F)]
  else if code <? 0x0800 then
    [u8 (Z.lor 0xC0 (Z.land (Z.shiftr code 6) 0x1F)); tail 0]
  else if code <? 0xD800 then
    [u8 (Z.lor 0xE0 (Z.land (Z.shiftr code 12) 0xF)); tail 6; tail 0]
  else if code <? 0xE000 then []
  else if code <? 0x10000 then
    [u8 (Z.lor 0xE0 (Z.land (Z.shiftr code 12) 0xF)); tail 6; tail 0]
  else if code <? 0x110000 then
    [u8 (Z.lor 0xF0 (Z.land (Z.shiftr code 18) 0x7)); tail 12; tail 6; tail 0]
  else [].

(** ** [encode_url] and [decode_url] *)

(** [snprintf(hex, sizeof(hex) - 1, "%02X", c)] of a byte. *)
Definition hex_digit (v : Z) : Z := if v <? 10 then 48 + v else 65 + (v - 10).
Definition format_02X (c : Z) : bytes := [hex_digit (c / 16); hex_digit (c mod 16)].

(** One round of the loop: what the switch appends. *)
Definition encode_char (c : Z) : bytes :=
  if c =? 32 then L "%20"
  else if c =? 43 then L "%2B"
  else if c =? 13 then L "%0D"
  else if c =? 10 then L "%0A"
  else if c =? 39 then L "%27"
  else if c =? 44 then L "%2C"
  else if c =? 58 then L "%3A"
  else if c =? 59 then L "%3B"
  else if 128 <=? c then L "%" ++ format_02X c
  else [c].

(** The loop ends at the first NUL. *)
Fixpoint encode_url (s : bytes) : bytes :=
  match s with
  | [] => []
  | c :: s' => if c =? 0 then [] else encode_char c ++ encode_url s'
  end.

(** The loop of [decode_url] on what follows the index [i]. *)
Fixpoint decode_url_loop (fuel : nat) (s : bytes) : bytes :=
  match fuel, s with
  | S fuel, c :: s' =>
      match s' with
      | c1 :: _ =>
          if c =? 37 then
            if c1 =? 117 then
              match from_hex_to_i s 2 4 with
              | Some val => to_utf8 val ++ decode_url_loop fuel (drop 6 s)
              | None => c :: decode_url_loop fuel s'
              end
            else
              match from_hex_to_i s 1 2 with
              | Some val => u8 val :: decode_url_loop fuel (drop 3 s)
              | None => c :: decode_url_loop fuel s'
              end
          else (if c =? 43 then 32 else c) :: decode_url_loop fuel s'
      | [] => (if c =? 43 then 32 else c) :: decode_url_loop fuel s'
      end
  | _, _ => []
  end.

Definition decode_url (s : bytes) : bytes := decode_url_loop (length s) s.

(** ** Numbers as texts *)

(** The digits of a number in any base, the shape of both loops. *)
Fixpoint digits_loop (base : Z) (digit : Z -> Z) (fuel : nat) (n : Z) (ret : bytes) : bytes :=
  match fuel with
  | O => ret
  | S fuel =>
      let ret := digit (n mod base) :: ret in
      if n / base =? 0 then ret else digits_loop base digit fuel (n / base) ret
  end.

Definition digit_in (base c : Z) : Prop := is_Some (digit_value base c).

Lemma digit_value_range base c d :
  digit_value base c = Some d -> 0 <= d < base /\ c <> 0 /\ isspace c = false /\
    c <> 45 /\ c <> 43 /\ c <> 120 /\ c <> 88 /\ c <> 13 /\ c <> 10.
Proof.
  unfold digit_value, isdigit, is_upper_hex, is_lower_hex, in_range, isspace. intros E.
  repeat case_match; simplify_eq; lia.
Qed.

Section digits.
Context (base : Z) (digit : Z -> Z).
Hypothesis base_pos : 2 <= base.
Hypothesis digit_ok : forall d, 0 <= d < base -> digit_value base (digit d) = Some d.

Lemma digits_loop_app fuel n ret :
  digits_loop base digit fuel n ret = digits_loop base digit fuel n [] ++ ret.
Proof.
  revert n ret. induction fuel as [|fuel IH]; intros n ret; simpl; [done|].
  destruct (n / base =? 0); [done|].
  by rewrite IH, (IH _ [_]), <- app_assoc.
Qed.

Lemma digits_loop_digits fuel n :
  0 <= n -> Forall (digit_in base) (digits_loop base digit fuel n []).
Proof.
  revert n. induction fuel as [|fuel IH]; intros n Hn; simpl; [by constructor|].
  assert (digit_in base (digit (n mod base))) as Hd.
  { unfold digit_in. rewrite digit_ok; [eauto|]. apply Z.mod_pos_bound. lia. }
  destruct (n / base =? 0); [by repeat constructor|].
  rewrite digits_loop_app. apply Forall_app. split; [|by repeat constructor].
  apply IH. apply Z.div_pos; lia.
Qed.

Lemma digits_loop_nonempty fuel n ret : digits_loop base digit (S fuel) n ret <> [].
Proof.
  simpl. destruct (n / base =? 0); [done|]. rewrite digits_loop_app.
  intros E. by apply app_eq_nil in E as [_ ?].
Qed.

(** Scanning the digits of [n] after [acc], in front of [rest]. *)
Lemma scan_digits_loop fuel n rest :
  0 <= n < base ^ Z.of_nat fuel ->
  scan_digits base 0 (digits_loop base digit fuel n [] ++ rest) = scan_digits base n rest.
Proof.
  revert n rest. induction fuel as [|fuel IH]; intros n rest Hn.
  - replace n with 0 by (simpl in Hn; lia). done.
  - pose proof (Z.mod_pos_bound n base ltac:(lia)) as Hm.
    pose proof (Z.div_mod n base ltac:(lia)) as Hdm.
    simpl. destruct (Z.eqb_spec (n / base) 0) as [E|E]; simpl.
    + rewrite digit_ok by done. f_equal. lia.
    + rewrite digits_loop_app, <- app_assoc, IH.
      * simpl. rewrite digit_ok by done. f_equal. lia.
      * rewrite Nat2Z.inj_succ, Z.pow_succ_r in Hn by lia. split.
        -- apply Z.div_pos; lia.
        -- apply Z.div_lt_upper_bound; lia.
Qed.
End digits.

(** A text of digits ends at [rest] when this starts with none and is no
    [x] after a single zero. *)
Definition ends_number (base : Z) (rest : bytes) : Prop :=
  match rest with
  | [] => True
  | c :: _ => digit_value base c = None /\ c <> 120 /\ c <> 88
  end.

Lemma scan_digits_end base n rest : ends_number base rest -> scan_digits base n (c_str rest) = n.
Proof.
  destruct rest as [|c rest]; simpl; [done|]. intros [Hc _].
  destruct (c =? 0); simpl; [done|]. by rewrite Hc.
Qed.

Lemma c_str_digits base ds rest :
  Forall (digit_in base) ds -> c_str (ds ++ rest) = ds ++ c_str rest.
Proof.
  induction 1 as [|c ds [d Hc] Hds IH]; simpl; [done|].
  apply digit_value_range in Hc as (_ & Hc & _). rewrite (proj2 (Z.eqb_neq _ _)) by done.
  by rewrite IH.
Qed.

Lemma strto_digits base ds rest :
  Forall (digit_in base) ds -> ds <> [] -> ends_number base rest ->
  strto base (ds ++ rest) = Some (scan_digits base 0 (ds ++ c_str rest)).
Proof.
  intros Hds Hne Hr. unfold strto. rewrite (c_str_digits base) by done.
  destruct ds as [|c ds]; [done|]. apply Forall_cons in Hds as [Hc Hds]. cbn [app].
  pose proof Hc as [d Hd]. pose proof (digit_value_range _ _ _ Hd) as (_ & _ & Hs & H1 & H2 & _).
  cbn [drop_spaces]. rewrite Hs. rewrite !(proj2 (Z.eqb_neq _ _)) by done.
  replace (drop_prefix base _) with (c :: ds ++ c_str rest).
  - simpl. by rewrite bool_decide_true.
  - symmetry. unfold drop_prefix.
    destruct (ds ++ c_str rest) as [|x t] eqn:E; [done|].
    replace ((x =? 120) || (x =? 88)) with false; [by rewrite !andb_false_r|].
    symmetry. apply orb_false_iff. rewrite !Z.eqb_neq.
    destruct ds as [|c' ds].
    + simpl in E. destruct rest as [|c' rest]; [done|]. simpl in E.
      destruct (c' =? 0); [done|]. destruct Hr as (_ & Hx). by simplify_eq.
    + apply Forall_cons in Hds as [[d' Hd'] _]. simplify_eq/=.
      by apply digit_value_range in Hd' as (_ & _ & _ & _ & _ & ? & ? & _).
Qed.

(** Decimal digits are digits. *)
Lemma digit_in_10 c : digit_in 10 c -> isdigit c = true.
Proof.
  intros [d Hc]. unfold digit_value in Hc. destruct (isdigit c); [done|].
  unfold is_upper_hex, is_lower_hex, in_range in Hc. repeat case_match; simplify_eq; lia.
Qed.

(** The two instances. *)

Lemma hex_digit_ok d : 0 <= d < 16 -> digit_value 16 (default 0 (charset !! Z.to_nat d)) = Some d.
Proof.
  intros Hd. assert (Forall (fun d => digit_value 16 (default 0 (charset !! Z.to_nat d)) = Some d)
    (map Z.of_nat (seq 0 16))) as Hall by (by repeat constructor).
  rewrite Forall_forall in Hall. apply Hall. apply list_elem_of_fmap.
  exists (Z.to_nat d). split; [lia|]. apply elem_of_seq. lia.
Qed.

Lemma dec_digit_ok d : 0 <= d < 10 -> digit_value 10 (48 + d) = Some d.
Proof.
  intros Hd. unfold digit_value, isdigit, in_range.
  rewrite (proj2 (Z.leb_le _ _)), (proj2 (Z.leb_le _ _)) by lia. cbn [andb].
  replace (48 + d - 48) with d by lia. by rewrite (proj2 (Z.ltb_lt _ _)) by lia.
Qed.

Lemma from_i_to_hex_digits fuel n ret :
  0 <= n ->
  from_i_to_hex_loop fuel n ret
    = digits_loop 16 (fun d => default 0 (charset !! Z.to_nat d)) fuel n ret.
Proof.
  revert n ret. induction fuel as [|fuel IH]; intros n ret Hn; [done|].
  cbn [from_i_to_hex_loop digits_loop].
  change 15 with (Z.ones 4). rewrite Z.land_ones, Z.shiftr_div_pow2 by lia. change (2 ^ 4) with 16.
  pose proof (Z.div_pos n 16 Hn eq_refl). rewrite IH by done.
  destruct (Z.ltb_spec 0 (n / 16)), (Z.eqb_spec (n / 16) 0); (done || lia).
Qed.

Lemma to_string_digits fuel n ret : to_string_loop fuel n ret = digits_loop 10 (Z.add 48) fuel n ret.
Proof. revert n ret. induction fuel as [|fuel IH]; intros; simpl; [done|]. by rewrite IH. Qed.

(** What is written in hexadecimal is what [std::stoi] reads. *)
Lemma stoi_from_i_to_hex n rest :
  0 <= n < 2 ^ 31 -> ends_number 16 rest -> stoi 16 (from_i_to_hex n ++ rest) = Ok n.
Proof.
  intros Hn Hr. unfold stoi, from_i_to_hex. rewrite from_i_to_hex_digits by lia.
  rewrite strto_digits; try done.
  - rewrite scan_digits_loop by (try exact hex_digit_ok; simpl; lia).
    rewrite scan_digits_end by done.
    by rewrite (proj2 (Z.leb_le _ _)), (proj2 (Z.ltb_lt _ _)) by lia.
  - apply digits_loop_digits; [lia|exact hex_digit_ok|lia].
  - by apply digits_loop_nonempty.
Qed.

Lemma from_i_to_hex_chars n : 0 <= n -> Forall (digit_in 16) (from_i_to_hex n).
Proof.
  intros Hn. unfold from_i_to_hex. rewrite from_i_to_hex_digits by lia.
  apply digits_loop_digits; [lia|exact hex_digit_ok|done].
Qed.

(** A line break is no digit. *)
Lemma digits_no_break base ds c :
  Forall (digit_in base) ds -> c = 10 \/ c = 13 -> c ∉ ds.
Proof.
  intros Hds Hc Hin. rewrite Forall_forall in Hds. destruct (Hds c Hin) as [d Hd].
  apply digit_value_range in Hd. lia.
Qed.

Lemma to_string_chars n : 0 <= n -> Forall (digit_in 10) (to_string n).
Proof.
  intros Hn. unfold to_string. rewrite to_string_digits.
  apply digits_loop_digits; [lia|exact dec_digit_ok|done].
Qed.

Lemma to_string_nonempty n : to_string n <> [].
Proof. unfold to_string. rewrite to_string_digits. by apply digits_loop_nonempty. Qed.

Lemma strto_to_string n rest :
  0 <= n < 2 ^ 64 -> ends_number 10 rest -> strto 10 (to_string n ++ rest) = Some n.
Proof.
  intros Hn Hr. rewrite strto_digits; [|by apply to_string_chars; lia|apply to_string_nonempty|done].
  unfold to_string. rewrite to_string_digits.
  rewrite scan_digits_loop by (try exact dec_digit_ok; simpl; lia).
  by rewrite scan_digits_end.
Qed.

Lemma strtoull_to_string n : 0 <= n < 2 ^ 64 -> strtoull (to_string n) = n.
Proof.
  intros Hn. unfold strtoull. rewrite <- (app_nil_r (to_string n)), strto_to_string by done.
  rewrite (proj2 (Z.leb_gt _ _)) by lia. by apply wrap_small.
Qed.

Lemma stoi_to_string n rest :
  0 <= n < 2 ^ 31 -> ends_number 10 rest -> stoi 10 (to_string n ++ rest) = Ok n.
Proof.
  intros Hn Hr. unfold stoi. rewrite strto_to_string by (try done; lia).
  by rewrite (proj2 (Z.leb_le _ _)), (proj2 (Z.ltb_lt _ _)) by lia.
Qed.

(** ** URL texts *)

(** A byte of text: neither NUL nor the percent sign. *)
Definition plain (c : Z) : Prop := 0 < c < 256 /\ c <> 37.

Lemma decode_escape fuel h1 h2 a b t :
  is_hex h1 = Some a -> is_hex h2 = Some b -> h1 <> 117 -> h1 <> 0 -> h2 <> 0 ->
  decode_url_loop (S fuel) (37 :: h1 :: h2 :: t) = u8 (a * 16 + b) :: decode_url_loop fuel t.
Proof.
  intros H1 H2 Hu Hz1 Hz2. cbn [decode_url_loop].
  change (37 =? 37) with true. cbn iota. rewrite (proj2 (Z.eqb_neq _ _)) by done.
  unfold from_hex_to_i. cbn [length Nat.leb drop from_hex_loop].
  rewrite !(proj2 (Z.eqb_neq _ 0)), H1, H2 by done. done.
Qed.

Lemma decode_literal fuel c t :
  c <> 37 -> c <> 43 -> decode_url_loop (S fuel) (c :: t) = c :: decode_url_loop fuel t.
Proof.
  intros H1 H2. cbn [decode_url_loop].
  rewrite !(proj2 (Z.eqb_neq c _)) by done. by destruct t.
Qed.

Lemma hex_digit_hex v : 0 <= v < 16 ->
  is_hex (hex_digit v) = Some v /\ hex_digit v <> 117 /\ hex_digit v <> 0.
Proof.
  intros Hv. unfold is_hex, hex_digit, to_char, isdigit, is_upper_hex, is_lower_hex, in_range.
  repeat case_match; split_and!; try f_equal; lia.
Qed.

Lemma decode_encode_char fuel c t :
  plain c -> decode_url_loop (S fuel) (encode_char c ++ t) = c :: decode_url_loop fuel t.
Proof.
  intros [Hc Hp]. unfold encode_char.
  repeat match goal with
  | |- context [c =? ?k] =>
      destruct (Z.eqb_spec c k) as [->|];
      [by apply (decode_escape _ _ _ (k / 16) (k mod 16))|]
  end.
  destruct (Z.leb_spec 128 c) as [H8|H8]; [|by apply decode_literal].
  assert (0 <= c / 16 < 16 /\ 0 <= c mod 16 < 16) as [Ha Hb].
  { split; [split; [apply Z.div_pos|apply Z.div_lt_upper_bound]; lia|apply Z.mod_pos_bound; lia]. }
  pose proof (hex_digit_hex _ Ha) as (E1 & ? & ?). pose proof (hex_digit_hex _ Hb) as (E2 & ? & ?).
  unfold format_02X. change (L "%") with [37]. cbn [app].
  rewrite (decode_escape _ _ _ (c / 16) (c mod 16)) by done.
  rewrite Z.mul_comm, <- Z.div_mod by lia. by rewrite wrap_small by lia.
Qed.

Lemma encode_url_cons c s : plain c -> encode_url (c :: s) = encode_char c ++ encode_url s.
Proof. intros [Hc _]. simpl. by rewrite (proj2 (Z.eqb_neq _ _)) by lia. Qed.

Lemma encode_char_length c : (1 <= length (encode_char c))%nat.
Proof. unfold encode_char. repeat case_match; simpl; lia. Qed.

(** The characters of an encoded text: none ends a line or a request target. *)
Definition target_char (c : Z) : bool := negb ((c =? 0) || (c =? 10) || (c =? 13) || (c =? 32)).

Lemma encode_char_target c : c <> 0 -> forallb target_char (encode_char c) = true.
Proof.
  intros Hc. unfold encode_char. do 8 (case_match; [reflexivity|]).
  case_match; [|simpl; unfold target_char; lia].
  assert (0 <= c mod 16) by (apply Z.mod_pos_bound; lia).
  assert (8 <= c / 16) by (apply Z.div_le_lower_bound; lia).
  change (target_char (hex_digit (c / 16)) && (target_char (hex_digit (c mod 16)) && true) = true).
  unfold target_char, hex_digit. repeat case_match; lia.
Qed.

Lemma encode_url_target s : forallb target_char (encode_url s) = true.
Proof.
  induction s as [|c s IH]; [done|]. cbn [encode_url].
  destruct (Z.eqb_spec c 0) as [|H0]; [done|]. rewrite forallb_app, IH.
  by rewrite encode_char_target.
Qed.

(** (roundtrip).  A path without percent sign and NUL that was encoded for
    the request line is what a server decodes. *)
Theorem decode_encode_url s : Forall plain s -> decode_url (encode_url s) = s.
Proof.
  intros Hs. unfold decode_url.
  enough (forall fuel, (length (encode_url s) <= fuel)%nat ->
    decode_url_loop fuel (encode_url s) = s) as Hf by (by apply Hf).
  induction Hs as [|c s Hc Hs IH]; intros fuel Hf.
  - by destruct fuel.
  - rewrite encode_url_cons in * by done. rewrite length_app in Hf.
    pose proof (encode_char_length c). destruct fuel as [|fuel]; [lia|].
    rewrite decode_encode_char by done. f_equal. apply IH. lia.
Qed.

Lemma decode_encode_url_witness : decode_url (encode_url (L "/a b+c")) = L "/a b+c".
Proof.
  apply decode_encode_url. change (L "/a b+c") with [47; 97; 32; 98; 43; 99].
  repeat constructor; lia.
Defined.
