(* ===== verification/HttpHeaders.v ===== *)
(** * HttpHeaders: [httplib::Headers] and [httplib::Response]
    (Include/httplib/httplib.h)

    The headers are a [std::multimap] ordered by [detail::ci], which compares
    names without regard to the case of letters: a list sorted by that order,
    in which [emplace] puts an element behind those that compare equal. *)
From S2P Require Import Prelude HttpText.
From Stdlib Require Import Sorting.Sorted.

(** ** The order of names *)

Fixpoint lexicographical_compare (lt : Z -> Z -> bool) (s1 s2 : bytes) : bool :=
  match s1, s2 with
  | _, [] => false
  | [], _ :: _ => true
  | c1 :: s1', c2 :: s2' =>
      if lt c1 c2 then true
      else if lt c2 c1 then false
      else lexicographical_compare lt s1' s2'
  end.

(** [::tolower] in the C locale; a byte above 127 is a negative [char]. *)
Definition tolower (c : Z) : Z := if (65 <=? c) && (c <=? 90) then c + 32 else c.

Definition ci (s1 s2 : bytes) : bool :=
  lexicographical_compare (fun c1 c2 => tolower (to_char c1) <? tolower (to_char c2)) s1 s2.

(** ** The multimap *)

Abbreviation headers_t := (list (bytes * bytes)).

(** [headers.emplace(key, val)]. *)
Fixpoint emplace (key val : bytes) (headers : headers_t) : headers_t :=
  match headers with
  | [] => [(key, val)]
  | x :: headers' => if ci key (fst x) then (key, val) :: headers else x :: emplace key val headers'
  end.

(** [headers.find(key)]: the lower bound, if it is not above the key. *)
Fixpoint find (headers : headers_t) (key : bytes) : option (bytes * bytes) :=
  match headers with
  | [] => None
  | x :: headers' =>
      if ci (fst x) key then find headers' key
      else if ci key (fst x) then None else Some x
  end.

Definition has_header (headers : headers_t) (key : bytes) : bool :=
  match find headers key with Some _ => true | None => false end.

(** The value is read as a C string. *)
Definition get_header_value (headers : headers_t) (key def : bytes) : bytes :=
  match find headers key with Some x => c_str (snd x) | None => def end.

Definition get_header_value_uint64 (headers : headers_t) (key : bytes) (def : Z) : Z :=
  match find headers key with Some x => strtoull (snd x) | None => def end.

(** [_stricmp(s, t) == 0]. *)
Definition strcasecmp_eq (s t : bytes) : bool :=
  bool_decide (map tolower (c_str s) = map tolower (c_str t)).

Definition is_chunked_transfer_encoding (headers : headers_t) : bool :=
  strcasecmp_eq (get_header_value headers (L "Transfer-Encoding") []) (L "chunked").

(** ** [Response] *)

Record Response := {
  r_version : bytes;
  r_status : Z;
  r_headers : headers_t;
  r_body : bytes;
}.

(** [Response()]. *)
Definition new_Response : Response :=
  {| r_version := []; r_status := -1; r_headers := []; r_body := [] |}.

(** [Response::get_header_value(key)]. *)
Definition Response_get_header_value (r : Response) (key : bytes) : bytes :=
  get_header_value (r_headers r) key [].

(** ** Names that differ in case only *)

Definition fold_name (s : bytes) : list Z := map (fun c => tolower (to_char c)) s.

Definition same_name (s t : bytes) : Prop := fold_name s = fold_name t.

#[export] Instance same_name_dec s t : Decision (same_name s t) := list_eq_dec _ _.

#[export] Instance same_name_equivalence : Equivalence same_name.
Proof. split; [by intros s|by intros s t|intros s t u]. unfold same_name. congruence. Qed.

Lemma ci_irrefl s : ci s s = false.
Proof.
  induction s as [|c s IH]; [done|]. unfold ci in *. simpl. by rewrite Z.ltb_irrefl.
Qed.

Lemma ci_trichotomy s t : ci s t = false -> ci t s = false -> same_name s t.
Proof.
  unfold same_name, ci. revert t. induction s as [|c s IH]; intros [|d t]; simpl; try done.
  destruct (Z.ltb_spec (tolower (to_char c)) (tolower (to_char d))); [done|].
  destruct (Z.ltb_spec (tolower (to_char d)) (tolower (to_char c))); [done|].
  intros Hst Hts. f_equal; [lia|by apply IH].
Qed.

(** [ci] looks at folded names only. *)
#[export] Instance ci_proper : Proper (same_name ==> same_name ==> eq) ci.
Proof.
  intros s s' Hs t t' Ht. unfold same_name, ci in *. revert s' t t' Hs Ht.
  induction s as [|c s IH]; intros [|c' s'] [|d t] [|d' t'] Hs Ht; try done.
  cbn [fold_name map] in Hs, Ht. injection Hs as Hc Hs. injection Ht as Hd Ht.
  cbn [lexicographical_compare]. rewrite Hc, Hd. repeat (case_match; try done). by apply IH.
Qed.

Lemma ci_same_name s t : same_name s t -> ci s t = false.
Proof. intros E. rewrite E. apply ci_irrefl. Qed.

Lemma ci_trans s t u : ci s t = true -> ci t u = true -> ci s u = true.
Proof.
  unfold ci. revert t u. induction s as [|c s IH]; intros [|d t] [|e u]; simpl; try done.
  repeat match goal with |- context [?a <? ?b] => destruct (Z.ltb_spec a b) end; try done; try lia.
  apply IH.
Qed.

Lemma ci_asym s t : ci s t = true -> ci t s = false.
Proof.
  intros Hst. destruct (ci t s) eqn:E; [|done].
  pose proof (ci_trans _ _ _ Hst E) as Hss. by rewrite ci_irrefl in Hss.
Qed.

(** The order in which equal names are adjacent. *)
Definition not_above (x y : bytes * bytes) : Prop := ci (fst y) (fst x) = false.

#[export] Instance not_above_trans : Transitive not_above.
Proof.
  intros [a ?] [b ?] [c ?]. unfold not_above. simpl. intros Hab Hbc.
  destruct (ci c a) eqn:Hca; [|done].
  destruct (ci a b) eqn:E1.
  - by rewrite (ci_trans _ _ _ Hca E1) in Hbc.
  - assert (same_name a b) as E by (by apply ci_trichotomy). rewrite E in Hca. congruence.
Qed.

(** ** The multimap is sorted *)

Abbreviation sorted_headers := (StronglySorted not_above).

Definition header_values (headers : headers_t) (name : bytes) : list bytes :=
  map snd (filter (fun x => same_name (fst x) name) headers).

Lemma header_values_cons x hs name :
  header_values (x :: hs) name
    = (if decide (same_name (fst x) name) then [snd x] else []) ++ header_values hs name.
Proof. unfold header_values. rewrite filter_cons. by destruct (decide (same_name _ name)). Qed.

Lemma emplace_perm key val hs : emplace key val hs ≡ₚ (key, val) :: hs.
Proof.
  induction hs as [|x hs IH]; simpl; [done|]. case_match; [done|]. rewrite IH. apply Permutation_swap.
Qed.

Lemma emplace_sorted key val hs : sorted_headers hs -> sorted_headers (emplace key val hs).
Proof.
  induction 1 as [|x hs Hs IH Hx]; simpl; [by repeat constructor|].
  destruct (ci key (fst x)) eqn:E.
  - constructor; [by constructor|]. constructor; [by apply ci_asym|].
    eapply Forall_impl; [exact Hx|]. intros y Hy. transitivity x; [by apply ci_asym|done].
  - constructor; [done|]. rewrite emplace_perm. by constructor.
Qed.

Lemma filter_none (P : bytes * bytes -> Prop) `{forall x, Decision (P x)} hs :
  Forall (fun x => ~ P x) hs -> filter P hs = [].
Proof. induction 1; [done|]. by rewrite filter_cons_False. Qed.

(** In a sorted list nothing behind a greater name has a name. *)
Lemma filter_above name x hs :
  ci name (fst x) = true -> Forall (not_above x) hs ->
  filter (fun y => same_name (fst y) name) (x :: hs) = [].
Proof.
  intros Hn Hs. apply filter_none. rewrite Forall_cons. split.
  - intros E. rewrite E in Hn. by rewrite ci_irrefl in Hn.
  - eapply Forall_impl; [exact Hs|]. intros y Hy E. unfold not_above in Hy. rewrite E in Hy. congruence.
Qed.

(** A new value comes after those the name has. *)
Lemma emplace_values key val hs name :
  sorted_headers hs ->
  header_values (emplace key val hs) name
    = header_values hs name ++ (if decide (same_name key name) then [val] else []).
Proof.
  unfold header_values. induction 1 as [|x hs Hs IH Hx]; simpl.
  - rewrite filter_cons, filter_nil. cbn [fst]. by destruct (decide (same_name key name)).
  - destruct (ci key (fst x)) eqn:E; rewrite !(filter_cons _ _ hs), ?(filter_cons _ (key, val)); cbn [fst].
    + destruct (decide (same_name key name)) as [Hn|Hn]; [|by rewrite app_nil_r].
      rewrite (filter_above name x hs) by (by rewrite <- ?Hn).
      pose proof (filter_above name x hs) as F. rewrite Hn in E. rewrite filter_cons in F.
      by rewrite F.
    + rewrite filter_cons. destruct (decide (same_name (fst x) name)); simpl; by rewrite IH.
Qed.

Lemma find_values hs name :
  sorted_headers hs -> snd <$> find hs name = head (header_values hs name).
Proof.
  unfold header_values. induction 1 as [|x hs Hs IH Hx]; [done|]. cbn [find].
  destruct (ci (fst x) name) eqn:E1; [|destruct (ci name (fst x)) eqn:E2].
  - rewrite filter_cons_False; [done|]. intros E. rewrite E in E1. by rewrite ci_irrefl in E1.
  - by rewrite filter_above.
  - rewrite filter_cons_True; [done|]. by apply ci_trichotomy.
Qed.

(** A name not below the others goes to the end. *)
Lemma emplace_end key val hs :
  Forall (fun x => ci key (fst x) = false) hs -> emplace key val hs = hs ++ [(key, val)].
Proof. induction 1 as [|x hs Hx Hs IH]; simpl; [done|]. by rewrite Hx, IH. Qed.

(** ** A multimap from a list of headers *)

Definition emplace_all (hs : headers_t) (lines : list (bytes * bytes)) : headers_t :=
  fold_left (fun hs x => emplace (fst x) (snd x) hs) lines hs.

Lemma emplace_all_sorted lines hs : sorted_headers hs -> sorted_headers (emplace_all hs lines).
Proof.
  revert hs. induction lines as [|x lines IH]; intros hs Hs; [done|].
  apply IH. by apply emplace_sorted.
Qed.

Lemma emplace_all_values lines hs name :
  sorted_headers hs ->
  header_values (emplace_all hs lines) name = header_values hs name ++ header_values lines name.
Proof.
  revert hs. induction lines as [|x lines IH]; intros hs Hs; simpl.
  - by rewrite app_nil_r.
  - rewrite IH by (by apply emplace_sorted). rewrite emplace_values, <- app_assoc by done.
    by rewrite header_values_cons.
Qed.

Lemma emplace_all_length lines hs :
  length (emplace_all hs lines) = (length hs + length lines)%nat.
Proof.
  revert hs. induction lines as [|x lines IH]; intros hs; simpl; [lia|].
  rewrite IH, emplace_perm. simpl. lia.
Qed.

(** Building a multimap from a sorted list gives the list. *)
Lemma emplace_all_sorted_id hs lines :
  sorted_headers (hs ++ lines) -> emplace_all hs lines = hs ++ lines.
Proof.
  revert hs. induction lines as [|x lines IH]; intros hs Hs; simpl; [by rewrite app_nil_r|].
  rewrite emplace_end.
  - rewrite IH; rewrite <- ?surjective_pairing; rewrite <- app_assoc; done.
  - clear IH. induction hs as [|y hs IH]; [constructor|]. simpl in Hs.
    apply StronglySorted_inv in Hs as [Hs Hy]. constructor; [|by apply IH].
    by apply Forall_app in Hy as [_ [Hyx _]%Forall_cons].
Qed.

(** (invariant).  The headers of a request or a response: however they come
    in, the multimap stays sorted by name without regard to case, keeps the
    values of a name in the order in which they came, and a lookup finds the
    first of them. *)
Theorem headers_multimap lines name :
  let hs := emplace_all [] lines in
  sorted_headers hs /\ length hs = length lines /\
  header_values hs name = header_values lines name /\
  snd <$> find hs name = head (header_values lines name).
Proof.
  pose proof (emplace_all_sorted lines [] ltac:(constructor)) as Hs. cbn zeta. split_and!.
  - done.
  - apply emplace_all_length.
  - by rewrite emplace_all_values by constructor.
  - rewrite find_values by done. by rewrite emplace_all_values by constructor.
Qed.
