(* ===== verification/HttpStream.v ===== *)
(** * HttpStream: the streams of the HTTP client (Include/httplib/httplib.h)

    The abstract class [Stream] of the source is the type class [Stream];
    [SocketStream], [SSLSocketStream] and [BufferStream] are its instances, the
    first two over the interface [Network] of Winsock and OpenSSL.  Then what
    is written against the abstract class: [stream_line_reader] and
    [Stream::write_format]. *)
From S2P Require Import Prelude.

(** ** Streams *)

(** What [read] returns: a negative number, or the number of bytes it stored
    with the bytes; no bytes mean that the peer closed. *)
Inductive read_result :=
| ReadError
| ReadBytes (buf : bytes).

Class Stream (K : Type) := {
  read : nat -> M K read_result;
  write : bytes -> M K Z;
}.

(** Winsock and OpenSSL: sockets and SSL objects are numbers, [N] is the
    world.  [create_client_socket] resolves the host and connects. *)
Class Network (N : Type) := {
  create_client_socket : bytes -> Z -> N -> option nat * N;
  select_read : nat -> N -> Z * N;
  recv : nat -> nat -> N -> read_result * N;
  send : nat -> bytes -> N -> Z * N;
  close_socket : nat -> N -> N;
  SSL_CTX_new : N -> bool * N;
  SSL_CTX_free : N -> N;
  SSL_new : nat -> N -> option nat * N;
  SSL_set_tlsext_host_name : nat -> bytes -> N -> N;
  SSL_CTX_set_verify_none : N -> N;
  SSL_connect : nat -> N -> Z * N;
  SSL_pending : nat -> N -> Z;
  SSL_read : nat -> nat -> N -> read_result * N;
  SSL_write : nat -> bytes -> N -> Z * N;
  SSL_shutdown : nat -> N -> N;
  SSL_free : nat -> N -> N;
}.

Section sockets.
Context {N : Type} `{Network N}.

Definition SocketStream_read (sock : nat) (size : nat) : M N read_result :=
  ready ← call (select_read sock);
  if 0 <? ready then call (recv sock size) else mret ReadError.

Definition SocketStream_write (sock : nat) (ptr : bytes) : M N Z := call (send sock ptr).

Definition SocketStream (sock : nat) : Stream N :=
  {| read := SocketStream_read sock; write := SocketStream_write sock |}.

Definition SSLSocketStream_read (sock ssl : nat) (size : nat) : M N read_result :=
  n ← get;
  if 0 <? SSL_pending ssl n then call (SSL_read ssl size)
  else
    ready ← call (select_read sock);
    if 0 <? ready then call (SSL_read ssl size) else mret ReadError.

Definition SSLSocketStream_write (ssl : nat) (ptr : bytes) : M N Z := call (SSL_write ssl ptr).

Definition SSLSocketStream (sock ssl : nat) : Stream N :=
  {| read := SSLSocketStream_read sock ssl; write := SSLSocketStream_write ssl |}.
End sockets.

(** [BufferStream]; its buffer is a string, and reading copies its start. *)
Definition BufferStream_read (size : nat) : M bytes read_result :=
  buffer ← get; mret (ReadBytes (take size buffer)).

Definition BufferStream_write (ptr : bytes) : M bytes Z :=
  _ ← modify (fun buffer => buffer ++ ptr); mret (i32 (Z.of_nat (length ptr))).

#[export] Instance BufferStream : Stream bytes :=
  {| read := BufferStream_read; write := BufferStream_write |}.

(** ** [stream_line_reader]

    The bytes used of the fixed buffer, and the buffer that grows. *)
Record stream_line_reader := {
  fixed_buffer : bytes;
  glowable_buffer : bytes;
}.

Definition empty_reader : stream_line_reader := {| fixed_buffer := []; glowable_buffer := [] |}.

(** The [size()] bytes at [ptr()]. *)
Definition line_text (r : stream_line_reader) : bytes :=
  match glowable_buffer r with [] => fixed_buffer r | _ => glowable_buffer r end.

Definition end_with_crlf (r : stream_line_reader) : bool :=
  let s := line_text r in
  (2 <=? length s)%nat &&
  bool_decide (s !! (length s - 2)%nat = Some 13) &&
  bool_decide (s !! (length s - 1)%nat = Some 10).

Definition append (fixed_buffer_size : nat) (c : Z) (r : stream_line_reader) : stream_line_reader :=
  if (length (fixed_buffer r) <? fixed_buffer_size - 1)%nat
  then {| fixed_buffer := fixed_buffer r ++ [c]; glowable_buffer := glowable_buffer r |}
  else
    let glowable := match glowable_buffer r with [] => fixed_buffer r | g => g end in
    {| fixed_buffer := fixed_buffer r; glowable_buffer := glowable ++ [c] |}.

Section streams.
Context {K : Type} `{Stream K}.

(** The loop of [getline]; [None] is false.  The fuel bounds the length of
    the line. *)
Fixpoint getline_loop (fuel size i : nat) (r : stream_line_reader)
  : M K (option stream_line_reader) :=
  match fuel with
  | O => crash "fuel"
  | S fuel =>
      n ← read 1;
      match n with
      | ReadError => mret None
      | ReadBytes [] => mret (if (i =? 0)%nat then None else Some r)
      | ReadBytes (byte :: _) =>
          let r := append size byte r in
          if byte =? 10 then mret (Some r) else getline_loop fuel size (S i) r
      end
  end.

Definition getline (fuel size : nat) : M K (option stream_line_reader) :=
  getline_loop fuel size 0 empty_reader.

(** ** [write_format]

    [snprintf] writes at most [size - 1] bytes of the text and returns the
    length of the whole text, or a negative number when it is no [int]. *)
Definition snprintf (size : nat) (text : bytes) : Z * bytes :=
  (if Z.of_nat (length text) <? 2 ^ 31 then Z.of_nat (length text) else -1, take (size - 1) text).

(** The loop that doubles the buffer. *)
Fixpoint glow_loop (fuel : nat) (glow_size n : Z) (glowable text : bytes) : M K (Z * bytes) :=
  match fuel with
  | O => crash "fuel"
  | S fuel =>
      if glow_size - 1 <=? n then
        let glow_size := glow_size * 2 in
        let '(n, glowable) := snprintf (Z.to_nat (glow_size - 1)) text in
        glow_loop fuel glow_size n glowable text
      else mret (n, glowable)
  end.

(** [write_format], given the text its format and arguments make. *)
Definition write_format (text : bytes) : M K Z :=
  let size := 2048 in
  let '(n, buf) := snprintf (Z.to_nat (size - 1)) text in
  if n <=? 0 then mret n
  else if size - 1 <=? n then
    '(n, glowable_buf) ← glow_loop 64 size n [] text;
    write (take (Z.to_nat n) glowable_buf)
  else write (take (Z.to_nat n) buf).
End streams.

(** ** The line reader is a string *)

Definition reader_ok (size : nat) (r : stream_line_reader) : Prop :=
  glowable_buffer r = [] \/ (size - 1 <= length (fixed_buffer r))%nat.

Lemma append_text size c r :
  reader_ok size r ->
  reader_ok size (append size c r) /\ line_text (append size c r) = line_text r ++ [c].
Proof.
  unfold reader_ok, append, line_text. intros Hr.
  destruct (Nat.ltb_spec (length (fixed_buffer r)) (size - 1)) as [Hl|Hl]; simpl.
  - destruct Hr as [->|]; [auto|lia].
  - split; [by right|]. destruct (glowable_buffer r) as [|x g]; [|done].
    by destruct (fixed_buffer r).
Qed.

Lemma end_with_crlf_app r l : line_text r = l ++ [13; 10] -> end_with_crlf r = true.
Proof.
  intros E. unfold end_with_crlf. rewrite E, length_app. cbn [length].
  rewrite (proj2 (Nat.leb_le _ _)) by lia.
  rewrite !bool_decide_true; [done|..]; rewrite lookup_app_r by lia.
  - by replace (_ - _ - _)%nat with 1%nat by lia.
  - by replace (_ - _ - _)%nat with 0%nat by lia.
Qed.

(** [write_format] writes the text, whatever its length. *)
Lemma glow_loop_S {K} `{Stream K} fuel glow_size n glowable text :
  glow_loop (K := K) (S fuel) glow_size n glowable text =
    if glow_size - 1 <=? n then
      let '(n, glowable) := snprintf (Z.to_nat (glow_size * 2 - 1)) text in
      glow_loop fuel (glow_size * 2) n glowable text
    else mret (n, glowable).
Proof. done. Qed.

Lemma glow_loop_eq {K} `{Stream K} fuel glow_size (text glowable : bytes) (k : K) :
  1 <= glow_size -> Z.of_nat (length text) < 2 ^ 31 ->
  Z.of_nat (length text) < glow_size * 2 ^ Z.of_nat fuel - 1 ->
  glow_size - 1 <= Z.of_nat (length text) \/ take (length text) glowable = text ->
  exists g, glow_loop (S fuel) glow_size (Z.of_nat (length text)) glowable text k
      = (Ok (Z.of_nat (length text), g), k) /\ take (length text) g = text.
Proof.
  intros Hg Hmax. revert glow_size glowable Hg.
  induction fuel as [|fuel IH]; intros glow_size glowable Hg Hf Ht.
  - cbn [glow_loop]. rewrite (proj2 (Z.leb_gt _ _)) by lia.
    exists glowable. destruct Ht; [lia|done].
  - rewrite Nat2Z.inj_succ, Z.pow_succ_r in Hf by lia.
    rewrite glow_loop_S.
    destruct (Z.leb_spec (glow_size - 1) (Z.of_nat (length text))) as [Hle|Hle].
    + unfold snprintf. rewrite (proj2 (Z.ltb_lt _ _)) by done.
      apply IH; [lia|lia|].
      destruct (Z.le_gt_cases (glow_size * 2 - 1) (Z.of_nat (length text))); [by left|right].
      rewrite take_take, take_ge by lia. done.
    + exists glowable. destruct Ht; [lia|done].
Qed.

(** (equivalence).  [write_format] writes the whole text its format makes,
    however long, although its buffer holds 2046 characters: the buffer that
    grows ends up large enough. *)
Theorem write_format_whole {K} `{Stream K} (text : bytes) (k : K) :
  0 < Z.of_nat (length text) < 2 ^ 31 -> write_format text k = write text k.
Proof.
  intros [Hpos Hmax]. unfold write_format, snprintf at 1. rewrite (proj2 (Z.ltb_lt _ _)) by done.
  rewrite (proj2 (Z.leb_gt _ _)) by done. rewrite Nat2Z.id.
  destruct (Z.leb_spec (2048 - 1) (Z.of_nat (length text))) as [Hle|Hle].
  - destruct (glow_loop_eq 63 2048 text [] k) as (g & E & Hg); [lia|done| |by left|].
    + assert (2 ^ 31 < 2048 * 2 ^ Z.of_nat 63 - 1) by done. lia.
    + rewrite (bind_ok _ _ _ _ _ E). by rewrite Nat2Z.id, Hg.
  - rewrite take_take, take_ge by lia. done.
Qed.

(** ** Streams that work

    A connection that is [live] delivers the bytes [incoming] in segments of
    any length, then the end, and takes all that is written, which [outgoing]
    collects. *)
Class StreamLaws (K : Type) `{Stream K} := {
  live : K -> Prop;
  incoming : K -> bytes;
  outgoing : K -> bytes;
  read_law size k :
    live k -> (0 < size)%nat ->
    exists n k', read size k = (Ok (ReadBytes (take n (incoming k))), k') /\
      (n <= size)%nat /\ (incoming k <> [] -> 0 < n)%nat /\
      live k' /\ incoming k' = drop n (incoming k) /\ outgoing k' = outgoing k;
  write_law ptr k :
    live k ->
    exists n k', write ptr k = (Ok n, k') /\
      live k' /\ incoming k' = incoming k /\ outgoing k' = outgoing k ++ ptr;
}.

(** The reference for [getline]: the text up to and with the first line feed,
    or all of it. *)
Fixpoint cut_line (s : bytes) : bytes * bytes :=
  match s with
  | [] => ([], [])
  | c :: s' => if c =? 10 then ([c], s') else let '(l, rest) := cut_line s' in (c :: l, rest)
  end.

Lemma cut_line_lf l rest : 10 ∉ l -> cut_line (l ++ 10 :: rest) = (l ++ [10], rest).
Proof.
  induction l as [|c l IH]; simpl; [done|]. rewrite not_elem_of_cons. intros [Hc Hl].
  rewrite (proj2 (Z.eqb_neq _ _)) by done. by rewrite IH.
Qed.

Lemma cut_line_app s : s = fst (cut_line s) ++ snd (cut_line s).
Proof.
  induction s as [|c s IH]; simpl; [done|]. case_match; [done|].
  destruct (cut_line s) as [l rest]. simpl in *. by f_equal.
Qed.

Section working.
Context {K : Type} `{StreamLaws K}.

(** [m] returns [a] and leaves [rest] to be read; it writes nothing. *)
Definition reads {A} (m : M K A) (k : K) (a : A) (rest : bytes) : Prop :=
  exists k', m k = (Ok a, k') /\ live k' /\ incoming k' = rest /\ outgoing k' = outgoing k.

(** Reading one byte. *)
Lemma read_byte k c s :
  live k -> incoming k = c :: s -> reads (read 1) k (ReadBytes [c]) s.
Proof.
  intros Hk Hi. destruct (read_law 1 k Hk) as (n & k' & E & Hn & Hpos & Hk' & Hi' & Ho); [lia|].
  rewrite Hi in *. assert (n = 1)%nat as -> by (specialize (Hpos ltac:(done)); lia).
  exists k'. eauto.
Qed.

Lemma read_end size k :
  live k -> (0 < size)%nat -> incoming k = [] -> reads (read size) k (ReadBytes []) [].
Proof.
  intros Hk Hs Hi. destruct (read_law size k Hk Hs) as (n & k' & E & _ & _ & Hk' & Hi' & Ho).
  rewrite Hi, take_nil in E. rewrite Hi, drop_nil in Hi'. exists k'. eauto.
Qed.

Lemma reads_bind {A B} (m : M K A) (f : A -> M K B) k a rest b rest' :
  reads m k a rest ->
  (forall k', live k' -> incoming k' = rest -> reads (f a) k' b rest') ->
  reads (m ≫= f) k b rest'.
Proof.
  intros (k1 & E & Hk & Hi & Ho) Hf. destruct (Hf k1 Hk Hi) as (k2 & E2 & Hk2 & Hi2 & Ho2).
  exists k2. rewrite (bind_ok _ _ _ _ _ E), Ho2. eauto.
Qed.

Lemma reads_ret {A} (a : A) k : live k -> reads (mret a) k a (incoming k).
Proof. intros Hk. by exists k. Qed.

(** What [getline] returns when it starts at [s], of which [l] is the first
    line. *)
Definition line_result (s l : bytes) (o : option stream_line_reader) : Prop :=
  match o with None => s = [] | Some r => s <> [] /\ line_text r = l end.

Lemma getline_loop_reads fuel size i r k :
  live k -> reader_ok size r -> (i = 0%nat <-> line_text r = []) ->
  (length (incoming k) < fuel)%nat ->
  exists o, reads (getline_loop fuel size i r) k o (snd (cut_line (incoming k))) /\
    line_result (line_text r ++ incoming k) (line_text r ++ fst (cut_line (incoming k))) o.
Proof.
  revert i r k. induction fuel as [|fuel IH]; intros i r k Hk Hr Hi Hf; [lia|].
  destruct (incoming k) as [|c s] eqn:Es; simpl.
  - exists (if (i =? 0)%nat then None else Some r). split.
    + eapply reads_bind; [apply read_end; [done|lia|done]|]. intros k' Hk' Hi'.
      simpl. rewrite <- Hi'. by apply reads_ret.
    + rewrite app_nil_r. destruct (Nat.eqb_spec i 0) as [E|E]; simpl; [by apply Hi|].
      split; [by rewrite <- Hi|done].
  - destruct (append_text size c r Hr) as [Hr' Ht].
    assert (line_text r ++ c :: s <> []) as Hne by (intros [_ ?]%app_eq_nil; done).
    destruct (Z.eqb_spec c 10) as [->|Hc].
    + exists (Some (append size 10 r)). split.
      * eapply reads_bind; [by apply read_byte|]. intros k' Hk' Hi'. simpl.
        rewrite <- Hi'. by apply reads_ret.
      * split; [done|exact Ht].
    + destruct (cut_line s) as [l rest] eqn:Ecut.
      destruct (read_byte k c s Hk Es) as (k' & E & Hk' & Hi' & Ho).
      destruct (IH (S i) (append size c r) k') as (o & (k2 & E2 & H2) & Hl); try done.
      * rewrite Ht. split; [done|]. intros [_ ?]%app_eq_nil. done.
      * rewrite Hi'. simpl in Hf. lia.
      * exists o. rewrite Hi', Ecut in H2. split.
        -- exists k2. rewrite (bind_ok _ _ _ _ _ E). cbn beta iota.
           rewrite (proj2 (Z.eqb_neq _ _)) by done. rewrite Ho in H2. done.
        -- rewrite Ht, Hi', Ecut, <- !app_assoc in Hl. done.
Qed.

(** (equivalence).  A line is read the same whatever the size of the fixed
    buffer and whatever segments the connection delivers: up to its line
    feed, or to the end of the input; a connection at its end gives none. *)
Theorem getline_cut_line fuel size k :
  live k -> (length (incoming k) < fuel)%nat ->
  exists o, reads (getline fuel size) k o (snd (cut_line (incoming k))) /\
    line_result (incoming k) (fst (cut_line (incoming k))) o.
Proof.
  intros Hk Hf. unfold getline. by apply (getline_loop_reads fuel size 0 empty_reader k); [|left|..].
Qed.
End working.

(** ** A stream

    What the peer still sends, delivered at most three bytes at a time, and
    what it was sent. *)
Record tape := Tape { t_in : bytes; t_out : bytes }.

Definition tape_read (size : nat) (k : tape) : read_result * tape :=
  let n := (size `min` 3)%nat in
  (ReadBytes (take n (t_in k)), Tape (drop n (t_in k)) (t_out k)).

Definition tape_write (ptr : bytes) (k : tape) : Z * tape :=
  (Z.of_nat (length ptr), Tape (t_in k) (t_out k ++ ptr)).

Definition tape_stream : Stream tape :=
  {| read size := call (tape_read size); write ptr := call (tape_write ptr) |}.

#[local] Existing Instance tape_stream.

Lemma tape_read_law size (k : tape) :
  (0 < size)%nat ->
  exists n, tape_read size k = (ReadBytes (take n (t_in k)), Tape (drop n (t_in k)) (t_out k)) /\
    (n <= size)%nat /\ (t_in k <> [] -> 0 < n)%nat.
Proof. intros Hs. exists (size `min` 3)%nat. split_and!; [done|lia|lia]. Qed.

Lemma tape_laws : StreamLaws tape.
Proof.
  refine {| live _ := True; incoming := t_in; outgoing := t_out |}.
  - intros size k _ Hs. destruct (tape_read_law size k Hs) as (n & E & Hn & Hpos).
    exists n, (Tape (drop n (t_in k)) (t_out k)). cbn [read tape_stream]. unfold call. by rewrite E.
  - intros ptr k _. by eexists _, _.
Defined.

#[local] Existing Instance tape_laws.

Lemma write_format_whole_witness :
  write_format (L "GET / HTTP/1.1") (Tape [] []) = write (L "GET / HTTP/1.1") (Tape [] []).
Proof. apply (write_format_whole (L "GET / HTTP/1.1") (Tape [] [])). split; reflexivity. Defined.

Lemma getline_cut_line_witness :
  exists o, reads (getline 9 16) (Tape (L "ab" ++ [10; 99]) []) o [99] /\
    line_result (L "ab" ++ [10; 99]) (L "ab" ++ [10]) o.
Proof.
  exact (getline_cut_line 9 16 (Tape (L "ab" ++ [10; 99]) []) I (proj1 (Nat.ltb_lt 4 9) eq_refl)).
Defined.
