(* ===== verification/HttpPatterns.v ===== *)
(** * HttpPatterns: the three patterns of the HTTP client
    (Include/httplib/httplib.h) and what they match

    Each pattern is the abstract syntax of the literal in the source; a lemma
    gives its captures without backtracking. *)
From S2P Require Import Prelude Regex HttpText.
From Stdlib Require Import ZifyBool.

(** [.] matches all but the line terminators. *)
Definition dot (c : Z) : bool := negb ((c =? 10) || (c =? 13)).

(** [[\t ]] *)
Definition blank (c : Z) : bool := (c =? 9) || (c =? 32).

(** [[^cs]] *)
Definition none_of (cs : string) (c : Z) : bool := negb (existsb (Z.eqb c) (L cs)).

(** *** [(.+?):[\t ]*(.+)], in [read_headers] *)
Definition header_re : re :=
  Cat (Grp 1 (Plus false dot)) (Cat (Lit (L ":")) (Cat (Star true blank) (Grp 2 (Plus true dot)))).

(** *** [(HTTP/1\.[01]) (\d+?) .*\r\n], in [read_response_line] *)
Definition status_re : re :=
  Cat (Grp 1 (Cat (Lit (L "HTTP/1.")) (Chr (in_range 48 49))))
    (Cat (Lit (L " ")) (Cat (Grp 2 (Plus false isdigit))
      (Cat (Lit (L " ")) (Cat (Star true dot) (Lit [13; 10]))))).

(** *** [^((?:[^:/?#]+://)?(?:[^/?#]* )?)?([^?#]*(?:\?[^#]* )?(?:#.* )?)], in
    [write_request] (without the spaces)

    [regex_match] starts at the first character, so the [^] holds. *)
Definition scheme_re : re := Cat (Plus true (none_of ":/?#")) (Lit (L "://")).
Definition authority_re : re := Cat (Opt scheme_re) (Opt (Star true (none_of "/?#"))).
Definition query_re : re := Cat (Lit (L "?")) (Star true (none_of "#")).
Definition fragment_re : re := Cat (Lit (L "#")) (Star true dot).
Definition target_re : re :=
  Cat (Star true (none_of "?#")) (Cat (Opt query_re) (Opt fragment_re)).
Definition path_re : re := Cat (Opt (Grp 1 authority_re)) (Grp 2 target_re).

(** ** Header lines *)

(** A name and a value, as they stand in a line that is read back: the
    value is trimmed, the name has no colon but perhaps its first
    character. *)
Definition header_spec (s : bytes) : option (bytes * bytes) :=
  if forallb dot s then
    match s with
    | [] => None
    | x :: s' =>
        let '(a, b) := span (fun c => negb (c =? 58)) s' in
        match b with
        | _ :: r => match snd (span blank r) with [] => None | v => Some (x :: a, v) end
        | [] => None
        end
    end
  else None.

Definition header_groups (m : caps) : bytes * bytes := (group m 1, group m 2).

Lemma forallb_Forall (p : Z -> bool) s : forallb p s = true <-> Forall (fun x => p x = true) s.
Proof. by rewrite forallb_forall, Forall_forall; setoid_rewrite list_elem_of_In. Qed.

Lemma header_match x a w y v :
  Forall (fun c => negb (c =? 58) = true) a -> Forall (fun c => blank c = true) w ->
  blank y = false -> forallb dot (x :: a ++ 58 :: w ++ y :: v) = true ->
  header_groups <$> regex_match header_re (x :: a ++ 58 :: w ++ y :: v) = Some (x :: a, y :: v).
Proof.
  intros Ha Hw Hy Hd. apply forallb_Forall in Hd.
  apply Forall_cons in Hd as [Hx Hd]. apply Forall_app in Hd as [Hda Hd].
  apply Forall_cons in Hd as [_ Hd]. apply Forall_app in Hd as [_ Hv].
  apply Forall_cons in Hv as [Hdy Hv].
  enough (regex_match header_re (x :: a ++ 58 :: w ++ y :: v)
    = Some (<[2%nat := y :: v]> (<[1%nat := x :: a]> ∅))) as ->.
  { unfold header_groups, group. simpl.
    by rewrite lookup_insert_ne, !lookup_insert_eq by done. }
  unfold regex_match, header_re, Plus. rewrite run_cat, run_grp, run_cat.
  cbn [run]. rewrite Hx. apply star_lazy; [done| |].
  - intros t u -> Hu. destruct u as [|c u]; [done|].
    apply Forall_app in Ha as [_ [Hc _]%Forall_cons].
    cbn [app run Lit foldr L]. apply negb_true_iff, Z.eqb_neq in Hc.
    change (Z.of_nat _) with 58. by rewrite (proj2 (Z.eqb_neq 58 c)) by done.
  - change (x :: a ++ 58 :: w ++ y :: v) with ((x :: a) ++ 58 :: w ++ y :: v).
    rewrite take_group. change (58 :: w ++ y :: v) with (L ":" ++ w ++ y :: v).
    rewrite run_lit. apply star_greedy; [done|by intros ? ? [= <- _]|].
    cbn [run]. rewrite Hdy. rewrite <- (app_nil_r v) at 1.
    apply star_greedy; [done|done|]. by rewrite Nat.sub_0_r, firstn_all.
Qed.

(** The pattern of a header line, on a line whose end was trimmed. *)
Lemma header_match_spec s :
  (forall t c, s = t ++ [c] -> blank c = false) ->
  header_groups <$> regex_match header_re s = header_spec s.
Proof.
  intros Htrim. unfold header_spec. destruct (forallb dot s) eqn:Hd.
  2: { destruct (regex_match header_re s) as [m|] eqn:E; [|done]. exfalso.
       assert (lang header_re s) as (s1 & s' & -> & H1 & s2 & s'' & -> & H2 & s3 & s4 & -> & H3 & H4)
         by (apply regex_match_lang; eauto).
       apply not_true_iff_false in Hd as []. apply forallb_Forall.
       destruct H1 as (c1 & t1 & -> & (d1 & -> & Hd1) & Ht1).
       destruct H4 as (c4 & t4 & -> & (d4 & -> & Hd4) & Ht4).
       apply lang_lit in H2 as ->. simpl in *.
       repeat (rewrite Forall_cons || rewrite Forall_app). split_and!; try done.
       eapply Forall_impl; [exact H3|]. unfold blank, dot. intros c Hc.
       destruct (Z.eqb_spec c 10), (Z.eqb_spec c 13); subst; done. }
  destruct s as [|x s].
  { apply fmap_None, regex_match_none. by intros (? & ? & E & (? & ? & -> & (? & -> & _) & _) & _). }
  pose proof (span_spec (fun c => negb (c =? 58)) s) as (E & Ha & Hb).
  destruct (span (fun c => negb (c =? 58)) s) as [a b]. simpl in E, Ha, Hb. subst s.
  destruct b as [|c r].
  { apply fmap_None, regex_match_none.
    intros (s1 & s' & E & (c1 & t1 & -> & (d1 & -> & _) & _) & s2 & s'' & -> & ->%lang_lit & _).
    rewrite app_nil_r in E. simpl in E. injection E as -> E. subst a.
    apply Forall_app in Ha as [_ [Hc _]%Forall_cons]. done. }
  specialize (Hb c r eq_refl). apply negb_false_iff, Z.eqb_eq in Hb as ->.
  pose proof (span_spec blank r) as (E & Hw & Hv).
  destruct (span blank r) as [w v]. simpl in E, Hw, Hv |- *. subst r.
  destruct v as [|y v]; [|apply header_match; eauto].
  rewrite app_nil_r in *. destruct w as [|y w _] using rev_ind.
  2: { apply Forall_app in Hw as [_ [Hy _]%Forall_cons].
       by rewrite (Htrim (x :: a ++ 58 :: w) y) in Hy by (simpl; by rewrite <- app_assoc). }
  apply fmap_None, regex_match_none.
  intros (s1 & s' & E & (c1 & t1 & -> & (d1 & -> & _) & _) & s2 & s'' & -> & ->%lang_lit &
    s3 & s4 & -> & _ & (c4 & t4 & -> & (d4 & -> & _) & _)).
  simpl in E. injection E as -> E.
  assert (length a = length t1 + length s3 + 1 + length t4)%nat as Hl.
  { apply (f_equal length) in E. rewrite !length_app in E. simpl in E.
    rewrite !length_app in E. simpl in E. lia. }
  assert (a !! length t1 = Some 58) as Hc.
  { rewrite <- (lookup_app_l a [58]) by lia. rewrite E. by apply list_lookup_middle. }
  rewrite Forall_lookup in Ha. by specialize (Ha _ _ Hc).
Qed.

(** ** Status lines *)

Lemma status_match v ds reason :
  in_range 48 49 v = true -> ds <> [] -> Forall (fun c => isdigit c = true) ds ->
  Forall (fun c => dot c = true) reason ->
  header_groups <$> regex_match status_re (L "HTTP/1." ++ v :: 32 :: ds ++ 32 :: reason ++ [13; 10])
    = Some (L "HTTP/1." ++ [v], ds).
Proof.
  intros Hv Hne Hds Hr. destruct ds as [|d ds]; [done|]. apply Forall_cons in Hds as [Hd Hds].
  enough (regex_match status_re (L "HTTP/1." ++ v :: 32 :: (d :: ds) ++ 32 :: reason ++ [13; 10])
    = Some (<[2%nat := d :: ds]> (<[1%nat := L "HTTP/1." ++ [v]]> ∅))) as ->.
  { unfold header_groups, group. simpl. by rewrite lookup_insert_ne, !lookup_insert_eq by done. }
  unfold regex_match, status_re. rewrite run_cat, run_grp, run_cat, run_lit.
  cbn [run]. rewrite Hv.
  change (32 :: (d :: ds) ++ 32 :: reason ++ [13; 10])
    with (L " " ++ d :: ds ++ L " " ++ reason ++ [13; 10]).
  rewrite (take_group_eq _ (L "HTTP/1." ++ [v])) by (by rewrite <- app_assoc).
  rewrite run_lit. cbn [run Plus]. rewrite Hd.
  apply star_lazy; [done| |].
  - intros t u -> Hu. destruct u as [|c u]; [done|].
    apply Forall_app in Hds as [_ [Hc _]%Forall_cons]. change (L " ") with [32]. cbn [app run Lit foldr].
    destruct (Z.eqb_spec 32 c) as [<-|]; [done|done].
  - change (d :: ds ++ L " " ++ reason ++ [13; 10]) with ((d :: ds) ++ L " " ++ reason ++ [13; 10]).
    rewrite take_group, run_lit. apply star_greedy; [done|by intros ? ? [= <- _]|done].
Qed.

(** ** Request paths *)

(** The scheme and host of a path that has them; what is before the first
    slash, question or number sign of one that has none. *)
Definition split_authority (p : bytes) : bytes * bytes :=
  let '(a, b) := span (none_of ":/?#") p in
  if bool_decide (a <> []) && bool_decide (take 3 b = L "://")
  then let '(h, t) := span (none_of "/?#") (drop 3 b) in (a ++ L "://" ++ h, t)
  else span (none_of "/?#") p.

(** The fragment holds no line terminator. *)
Definition fragment_ok (t : bytes) : bool :=
  match snd (span (none_of "#") t) with _ :: f => forallb dot f | [] => true end.

Definition path_spec (p : bytes) : option (bytes * bytes) :=
  let '(a, t) := split_authority p in if fragment_ok t then Some (a, t) else None.

Lemma none_of_char cs c k : none_of cs c = true -> existsb (Z.eqb k) (L cs) = true -> c <> k.
Proof. unfold none_of. intros Hc Hk ->. by rewrite Hk in Hc. Qed.

Lemma none_of_sub cs cs' s :
  Forall (fun c => none_of cs c = true) s ->
  forallb (fun k => existsb (Z.eqb k) (L cs)) (L cs') = true ->
  Forall (fun c => none_of cs' c = true) s.
Proof.
  intros Hs Hsub. eapply Forall_impl; [exact Hs|]. intros c Hc. unfold none_of in *.
  apply negb_true_iff, not_true_iff_false. intros (k & Hk & ->%Z.eqb_eq)%existsb_exists.
  rewrite forallb_forall in Hsub. by rewrite (Hsub k Hk) in Hc.
Qed.

Lemma fragment_run f c k m :
  (forall x f', f = x :: f' -> x = 35 /\ forallb dot f' = true) ->
  k [] c = Some m -> run (Opt fragment_re) f c k = Some m.
Proof.
  intros Hf Hk. destruct f as [|x f]; [done|]. destruct (Hf x f eq_refl) as [-> Hd].
  apply run_opt_some. unfold fragment_re. change (35 :: f) with (L "#" ++ f) at 1.
  rewrite run_cat, run_lit. rewrite <- (app_nil_r f) at 1.
  apply star_greedy; [by apply forallb_Forall|done|]. done.
Qed.

Lemma none_of_question c : none_of "?#" c = false -> c = 63 \/ c = 35.
Proof. unfold none_of. change (L "?#") with [63; 35]. cbn [existsb]. lia. Qed.

Lemma none_of_number c : none_of "#" c = false -> c = 35.
Proof. unfold none_of. change (L "#") with [35]. cbn [existsb]. lia. Qed.

Lemma target_run t c k m :
  fragment_ok t = true -> k [] c = Some m -> run target_re t c k = Some m.
Proof.
  unfold fragment_ok, target_re. intros Hf Hk. rewrite run_cat. apply run_star_span. rewrite run_cat.
  destruct (span_spec (none_of "?#") t) as (E & Hq & Hu).
  destruct (span (none_of "?#") t) as [q u]. cbn [fst snd] in *. subst t.
  rewrite span_app in Hf by (by apply (none_of_sub _ _ _ Hq)). cbn [snd] in Hf.
  destruct u as [|x u]; [done|].
  destruct (none_of_question x (Hu x u eq_refl)) as [->| ->].
  - (* a query *)
    change (63 :: u) with (L "?" ++ u) in *. rewrite span_app in Hf by (by repeat constructor).
    apply run_opt_some. unfold query_re. rewrite run_cat, run_lit. apply run_star_span.
    destruct (span_spec (none_of "#") u) as (Eu & _ & Hn).
    destruct (span (none_of "#") u) as [w f]. cbn [fst snd] in *.
    subst u. rewrite !length_app, (proj2 (Nat.eqb_neq _ _)) by (change (length (L "?")) with 1%nat; lia).
    apply fragment_run; [|done]. intros x f' ->. split; [|done]. by apply none_of_number, (Hn x f').
  - rewrite run_opt_none by done. apply fragment_run; [|done]. by intros x f' [= <- <-].
Qed.

Lemma scheme_lang s :
  lang scheme_re s <->
  exists a, s = a ++ L "://" /\ a <> [] /\ Forall (fun c => none_of ":/?#" c = true) a.
Proof.
  split.
  - intros (a & s2 & -> & (c1 & a' & -> & (x & -> & Hx) & Ha) & ->%lang_lit).
    exists ([x] ++ a'). split_and!; [done|done|]. by constructor.
  - intros (a & -> & Hne & Ha). exists a, (L "://"). split; [done|]. split; [|by apply lang_lit].
    destruct a as [|x a]; [done|]. apply Forall_cons in Ha as [Hx Ha].
    exists [x], a. split_and!; [done| |done]. by exists x.
Qed.

(** What [split_authority] cuts off, and what it leaves: a scheme and a host,
    or a host alone when the path starts with no scheme. *)
Definition authority_cut (p a t : bytes) : Prop :=
  (exists s h, a = s ++ h /\ lang scheme_re s /\ p = s ++ h ++ t /\
      (h, t) = span (none_of "/?#") (h ++ t)) \/
  ((a, t) = span (none_of "/?#") p /\ forall s1 s2, p = s1 ++ s2 -> ~ lang scheme_re s1).

Lemma split_authority_cut p : authority_cut p (fst (split_authority p)) (snd (split_authority p)).
Proof.
  unfold split_authority, authority_cut.
  destruct (span_spec (none_of ":/?#") p) as (Ep & Hs & Hb).
  destruct (span (none_of ":/?#") p) as [s b] eqn:Es. cbn [fst snd] in *.
  destruct (bool_decide (s <> [])) eqn:Hne; [destruct (bool_decide (take 3 b = L "://")) eqn:Hb3|];
    cbn [andb].
  - left. apply bool_decide_eq_true in Hne, Hb3.
    destruct (span_spec (none_of "/?#") (drop 3 b)) as (Eh & _ & _).
    destruct (span (none_of "/?#") (drop 3 b)) as [h t] eqn:Eht. cbn [fst snd] in *.
    exists (s ++ L "://"), h. split_and!.
    + by rewrite <- app_assoc.
    + apply scheme_lang. eauto.
    + rewrite <- Eh, <- app_assoc, <- Hb3, take_drop. done.
    + by rewrite <- Eh, Eht.
  - right. split; [symmetry; apply surjective_pairing|].
    intros s1 s2 E (a & -> & Hna & Ha)%scheme_lang. subst p.
    rewrite E, <- app_assoc, span_eq in Es; [|done|by intros ? ? [= <- _]].
    injection Es as <- <-. by rewrite bool_decide_eq_false in Hb3.
  - right. split; [symmetry; apply surjective_pairing|].
    intros s1 s2 E (a & -> & Hna & Ha)%scheme_lang. subst p.
    rewrite E, <- app_assoc, span_eq in Es; [|done|by intros ? ? [= <- _]].
    injection Es as <- <-. by rewrite bool_decide_eq_false in Hne.
Qed.

Lemma authority_run p a t c k m :
  authority_cut p a t -> k t c = Some m -> run authority_re p c k = Some m.
Proof.
  unfold authority_re. intros [(s & h & -> & Hs & -> & Eh)|[E Hn]] Hk; rewrite run_cat.
  - apply scheme_lang in Hs as (b & -> & Hne & Hb). apply run_opt_some.
    unfold scheme_re, Plus. rewrite !run_cat, <- !app_assoc.
    destruct b as [|x b]; [done|]. apply Forall_cons in Hb as [Hx Hb].
    cbn [app run]. rewrite Hx. apply star_greedy; [done|by intros ? ? [= <- _]|].
    rewrite run_lit. rewrite (proj2 (Nat.eqb_neq _ _))
      by (cbn [length]; rewrite !length_app; change (length (L "://")) with 3%nat; lia).
    apply run_opt_star_span. by rewrite <- Eh.
  - rewrite run_opt_none.
    + apply run_opt_star_span. by rewrite <- E.
    + destruct (run scheme_re p c _) as [m'|] eqn:Er; [|done].
      apply run_sound in Er as (s1 & s2 & c' & -> & H1 & _). by destruct (Hn s1 s2 eq_refl H1).
Qed.

(** An authority that matches nothing is skipped. *)
Lemma authority_skip p c k :
  authority_cut p [] p ->
  run (Grp 1 authority_re) p c
    (fun s' c' => if (length s' =? length p)%nat then None else k s' c') = None.
Proof.
  intros Hcut. destruct (run _ _ _ _) as [m|] eqn:Er; [|done]. exfalso.
  apply run_sound in Er as (s1 & s2 & c' & -> & (x & y & -> & Hx & Hy) & Hl).
  destruct (Nat.eqb_spec (length s2) (length ((x ++ y) ++ s2))) as [|Hlen]; [done|]. clear Hl.
  destruct Hcut as [(s & h & E & Hs & _)|[E Hn]].
  - symmetry in E. apply app_eq_nil in E as [-> _]. apply scheme_lang in Hs as (b & E & _).
    by destruct b.
  - destruct Hx as [->|Hx]; [|by apply (Hn x (y ++ s2)); [rewrite <- app_assoc|]].
    destruct y as [|c0 y]; [by destruct Hlen|]. destruct Hy as [|Hy]; [done|].
    apply Forall_cons in Hy as [Hc0 _]. cbn [app span] in E. rewrite Hc0 in E.
    by destruct (span _ _).
Qed.

Lemma path_lang_ok p : lang path_re p -> exists a t, p = a ++ t /\
  Forall (fun c => none_of "#" c = true) a /\ fragment_ok t = true.
Proof.
  intros (s1 & t & -> & H1 & (q & u & -> & Hq & (w & f & -> & Hw & Hf))). exists s1. eexists.
  split; [done|]. split.
  - destruct H1 as [->|(x & y & -> & Hx & Hy)]; [constructor|]. apply Forall_app. split.
    + destruct Hx as [->|(b & -> & _ & Hb)%scheme_lang]; [constructor|].
      apply Forall_app. split; [by apply (none_of_sub _ _ _ Hb)|by repeat constructor].
    + destruct Hy as [->|Hy]; [constructor|]. by apply (none_of_sub _ _ _ Hy).
  - unfold fragment_ok. rewrite span_app by (by apply (none_of_sub _ _ _ Hq)).
    rewrite span_app.
    + destruct Hf as [->|(x & y & -> & ->%lang_lit & Hy)]; [done|]. by apply forallb_Forall.
    + destruct Hw as [->|(x & y & -> & ->%lang_lit & Hy)]; [constructor|].
      apply Forall_app. split; [by repeat constructor|done].
Qed.

(** The captures of the path pattern. *)
Lemma path_match_spec p : header_groups <$> regex_match path_re p = path_spec p.
Proof.
  unfold path_spec. pose proof (split_authority_cut p) as Hcut.
  destruct (split_authority p) as [a t]. cbn [fst snd] in Hcut.
  assert (p = a ++ t /\ Forall (fun c => none_of "#" c = true) a) as [-> Ha].
  { destruct Hcut as [(s & h & -> & (b & -> & _ & Hb)%scheme_lang & -> & Eh)|[E Hn]].
    - split; [by rewrite <- !app_assoc|].
      destruct (span_spec (none_of "/?#") (h ++ t)) as (_ & Hh & _). rewrite <- Eh in Hh.
      rewrite !Forall_app. split_and!; [by apply (none_of_sub _ _ _ Hb)|by repeat constructor|].
      by apply (none_of_sub _ _ _ Hh).
    - destruct (span_spec (none_of "/?#") p) as (Ep & Hh & _). rewrite <- E in *.
      split; [done|]. by apply (none_of_sub _ _ _ Hh). }
  destruct (fragment_ok t) eqn:Hf.
  - enough (exists m, regex_match path_re (a ++ t) = Some m /\ group m 1 = a /\ group m 2 = t)
      as (m & -> & Hm1 & Hm2) by (simpl; unfold header_groups; by rewrite Hm1, Hm2).
    unfold regex_match, path_re. rewrite run_cat. destruct a as [|x a].
    + exists (<[2%nat := t]> ∅). split_and!; [|done|].
      * cbn [app] in *. rewrite run_opt_none by (by apply authority_skip).
        rewrite run_grp. apply target_run; [done|]. by rewrite Nat.sub_0_r, firstn_all.
      * unfold group. by rewrite lookup_insert_eq.
    + exists (<[2%nat := t]> (<[1%nat := x :: a]> ∅)). split_and!.
      * apply run_opt_some. rewrite run_grp. apply (authority_run _ (x :: a) t); [done|].
        rewrite take_group, length_app, (proj2 (Nat.eqb_neq _ _)) by (cbn [length]; lia).
        rewrite run_grp. apply target_run; [done|]. by rewrite Nat.sub_0_r, firstn_all.
      * unfold group. by rewrite lookup_insert_ne, lookup_insert_eq by done.
      * unfold group. by rewrite lookup_insert_eq.
  - apply fmap_None, regex_match_none. intros (a' & t' & E & Ha' & Hf')%path_lang_ok.
    unfold fragment_ok in Hf, Hf'.
    assert (snd (span (none_of "#") t) = snd (span (none_of "#") t')) as Es.
    { transitivity (snd (span (none_of "#") (a ++ t))); [by rewrite span_app|].
      by rewrite E, span_app. }
    rewrite Es in Hf. congruence.
Qed.

(** ** The target of a request *)

(** (safety).  What is sent for the path: what follows the authority is
    encoded, without spaces and line breaks, and that is all of a path that
    begins with a slash; a path without slash, question and number sign is sent
    as it is, with the line breaks it has. *)
Theorem request_target p m a t :
  regex_match path_re p = Some m -> a = group m 1 -> t = group m 2 ->
  p = a ++ t /\ forallb target_char (encode_url t) = true /\
  (forall p', p = 47 :: p' -> a = []) /\
  (Forall (fun c => none_of "/?#" c = true) p -> a = p /\ t = []).
Proof.
  intros Hm -> ->.
  assert (path_spec p = Some (group m 1, group m 2)) as Hp by by rewrite <- path_match_spec, Hm.
  revert Hp. generalize (group m 1) (group m 2). clear m Hm. intros a t Hp.
  unfold path_spec in Hp. pose proof (split_authority_cut p) as Hcut.
  destruct (split_authority p) as [a' t']. case_match; [|done]. simplify_eq. cbn [fst snd] in Hcut.
  assert (no_slash : forall s u, lang scheme_re s -> p = s ++ u ->
    (forall p', p <> 47 :: p') /\ ~ Forall (fun c => none_of "/?#" c = true) p).
  { intros s u (b & -> & Hne & Hb)%scheme_lang ->. destruct b as [|x b]; [done|].
    apply Forall_cons in Hb as [Hx _]. split.
    - intros p' [= -> _]. done.
    - rewrite <- app_assoc, !Forall_app. intros (_ & Hs & _). apply Forall_cons in Hs as [_ Hs].
      apply Forall_cons in Hs as [Hs _]. done. }
  assert (p = a ++ t) as Heq.
  { destruct Hcut as [(s & h & -> & _ & -> & _)|[E _]]; [by rewrite <- app_assoc|].
    destruct (span_spec (none_of "/?#") p) as (Ep & _). by rewrite <- E in Ep. }
  split_and!; [done|apply encode_url_target|..].
  - intros p' ->. destruct Hcut as [(s & h & -> & Hs & E & _)|[E _]].
    + by destruct (no_slash s (h ++ t) Hs E) as [Hn _]; destruct (Hn p').
    + cbn in E. by injection E as ->.
  - intros Hall. destruct Hcut as [(s & h & -> & Hs & E & _)|[E _]].
    + by destruct (no_slash s (h ++ t) Hs E) as [_ []].
    + rewrite <- (app_nil_r p) in E at 1. rewrite span_eq in E by done. by injection E.
Qed.

Lemma request_target_witness : forallb target_char (encode_url (L "/a b")) = true.
Proof.
  eapply (request_target (L "/a b") _ [] (L "/a b")); [vm_compute; reflexivity|reflexivity..].
Defined.
