(* ===== verification/HttpMessage.v ===== *)
(** * HttpMessage: reading a response and writing its parts
    (Include/httplib/httplib.h)

    [read_response_line], [read_headers], [read_content] with its four ways to
    find the end of a body, [write_headers] and [write_content_chunked].  The
    functions that read change a [Response] they are given: they run on a
    stream and a response.  Each loop's fuel is one more than a bound on the
    bytes that come in. *)
From S2P Require Import Prelude Regex HttpText HttpHeaders HttpStream HttpPatterns.

Definition crlf : bytes := [13; 10].

Section reading.
Context {K : Type} `{Stream K}.

(** The stream [strm] and the response [res]. *)
Abbreviation conn := (K * Response)%type.

Definition strm {A} (m : M K A) : M conn A := zoom fst (fun k s => (k, snd s)) m.
Definition get_res : M conn Response := s ← get; mret (snd s).
Definition set_res (f : Response -> Response) : M conn unit :=
  modify (fun s => (fst s, f (snd s))).

Definition set_status_line (version : bytes) (status : Z) (r : Response) : Response :=
  {| r_version := version; r_status := status; r_headers := r_headers r; r_body := r_body r |}.
Definition set_headers (hs : headers_t) (r : Response) : Response :=
  {| r_version := r_version r; r_status := r_status r; r_headers := hs; r_body := r_body r |}.
Definition set_body (b : bytes) (r : Response) : Response :=
  {| r_version := r_version r; r_status := r_status r; r_headers := r_headers r; r_body := b |}.

(** ** [Client::read_response_line]

    The line is matched as a C string; [version] is set before [std::stoi]
    can throw. *)
Definition read_response_line (fuel : nat) : M conn bool :=
  line ← strm (getline fuel 2048);
  match line with
  | None => mret false
  | Some line_reader =>
      match regex_match status_re (c_str (line_text line_reader)) with
      | Some m =>
          _ ← set_res (fun r => set_status_line (group m 1) (r_status r) r);
          status ← lift_outcome (stoi 10 (group m 2));
          _ ← set_res (fun r => set_status_line (r_version r) status r);
          mret true
      | None => mret true
      end
  end.

(** ** [read_headers] *)

(** The loop that moves [end] back over spaces and tabs. *)
Fixpoint skip_blanks (s : bytes) (end_ : nat) : nat :=
  match end_ with
  | O => O
  | S e => if bool_decide (s !! e = Some 32) || bool_decide (s !! e = Some 9)
           then skip_blanks s e else end_
  end.

(** The text of a header line between its start and [end]. *)
Definition header_line_text (text : bytes) : bytes :=
  take (skip_blanks text (length text - 2)) text.

Fixpoint read_headers (fuel : nat) : M conn bool :=
  match fuel with
  | O => crash "fuel"
  | S fuel' =>
      line ← strm (getline fuel 2048);
      match line with
      | None => mret false
      | Some line_reader =>
          if end_with_crlf line_reader then
            let text := line_text line_reader in
            if (length text =? 2)%nat then mret true
            else
              _ ← match regex_match header_re (header_line_text text) with
                  | Some m => set_res (fun r =>
                      set_headers (emplace (group m 1) (group m 2) (r_headers r)) r)
                  | None => mret ()
                  end;
              read_headers fuel'
          else read_headers fuel'
      end
  end.

(** ** [read_content]

    [out] is the receiver of the client, which appends to the body;
    [max_size()] of a string is 2^63 - 1. *)
Definition out (buf : bytes) : M conn bool :=
  r ← get_res;
  if 2 ^ 63 - 1 <? Z.of_nat (length (r_body r)) + Z.of_nat (length buf) then mret false
  else _ ← set_res (set_body (r_body r ++ buf)); mret true.

Definition RECV_BUFSIZ : Z := 4096.

(** The loop of [read_content_with_length] from [r] bytes on; the client
    gives no progress function. *)
Fixpoint read_content_with_length (fuel : nat) (len r : Z) : M conn bool :=
  match fuel with
  | O => crash "fuel"
  | S fuel =>
      if r <? len then
        n ← strm (read (Z.to_nat (Z.min (len - r) RECV_BUFSIZ)));
        match n with
        | ReadError | ReadBytes [] => mret false
        | ReadBytes buf =>
            ok ← out buf;
            if ok : bool then read_content_with_length fuel len (r + Z.of_nat (length buf))
            else mret false
        end
      else mret true
  end.

Fixpoint skip_content_with_length (fuel : nat) (len r : Z) : M conn unit :=
  match fuel with
  | O => crash "fuel"
  | S fuel =>
      if r <? len then
        n ← strm (read (Z.to_nat (Z.min (len - r) RECV_BUFSIZ)));
        match n with
        | ReadError | ReadBytes [] => mret ()
        | ReadBytes buf => skip_content_with_length fuel len (r + Z.of_nat (length buf))
        end
      else mret ()
  end.

Fixpoint read_content_without_length (fuel : nat) : M conn bool :=
  match fuel with
  | O => crash "fuel"
  | S fuel =>
      n ← strm (read (Z.to_nat RECV_BUFSIZ));
      match n with
      | ReadError => mret false
      | ReadBytes [] => mret true
      | ReadBytes buf =>
          ok ← out buf;
          if ok : bool then read_content_without_length fuel else mret false
      end
  end.

(** [strcmp(line_reader.ptr(), "\r\n") == 0] *)
Definition is_crlf (line_reader : stream_line_reader) : bool :=
  bool_decide (c_str (line_text line_reader) = crlf).

(** The check behind the loop of chunks. *)
Definition chunk_end (fuel : nat) (chunk_len : Z) : M conn bool :=
  if chunk_len =? 0 then
    line ← strm (getline fuel 16);
    match line with
    | None => mret false
    | Some line_reader => mret (is_crlf line_reader)
    end
  else mret true.

(** The loop of chunks; a chunk that no CRLF follows leaves it. *)
Fixpoint read_chunks (fuel : nat) (chunk_len : Z) : M conn bool :=
  match fuel with
  | O => crash "fuel"
  | S fuel' =>
      if 0 <? chunk_len then
        ok ← read_content_with_length fuel chunk_len 0;
        if negb ok then mret false
        else
          line ← strm (getline fuel 16);
          match line with
          | None => mret false
          | Some line_reader =>
              if negb (is_crlf line_reader) then chunk_end fuel chunk_len
              else
                line ← strm (getline fuel 16);
                match line with
                | None => mret false
                | Some line_reader =>
                    chunk_len ← lift_outcome (stoi 16 (line_text line_reader));
                    read_chunks fuel' chunk_len
                end
          end
      else chunk_end fuel chunk_len
  end.

Definition read_content_chunked (fuel : nat) : M conn bool :=
  line ← strm (getline fuel 16);
  match line with
  | None => mret false
  | Some line_reader =>
      chunk_len ← lift_outcome (stoi 16 (line_text line_reader));
      read_chunks fuel chunk_len
  end.

(** [read_content], with the status it leaves in its argument. *)
Definition read_content (fuel : nat) (payload_max_length status : Z) : M conn (bool * Z) :=
  x ← get_res;
  if bool_decide (Response_get_header_value x (L "Content-Encoding") = L "gzip")
  then mret (false, 415)
  else
    '(ret, exceed_payload_max_length) ←
      (if is_chunked_transfer_encoding (r_headers x) then
         ret ← read_content_chunked fuel; mret (ret, false)
       else if negb (has_header (r_headers x) (L "Content-Length")) then
         ret ← read_content_without_length fuel; mret (ret, false)
       else
         let len := get_header_value_uint64 (r_headers x) (L "Content-Length") 0 in
         if payload_max_length <? len then
           _ ← skip_content_with_length fuel len 0; mret (false, true)
         else if 0 <? len then
           ret ← read_content_with_length fuel len 0; mret (ret, false)
         else mret (true, false));
    mret (ret, if ret : bool then status
               else if exceed_payload_max_length : bool then 413 else 400).
End reading.

Arguments strm {K A} m _.
Arguments get_res {K}.
Arguments set_res {K} f _.

(** ** Writing *)

Section writing.
Context {K : Type} `{Stream K}.

Definition header_text (x : bytes * bytes) : bytes :=
  c_str (fst x) ++ L ": " ++ c_str (snd x) ++ crlf.

(** One of the two loops of [write_headers]: a negative length ends the
    function with it. *)
Fixpoint write_header_lines (headers : headers_t) (write_len : Z) : M K (Z + Z) :=
  match headers with
  | [] => mret (inr write_len)
  | x :: headers' =>
      len ← write_format (header_text x);
      if len <? 0 then mret (inl len) else write_header_lines headers' (write_len + len)
  end.

Definition write_headers (info_headers headers : headers_t) : M K Z :=
  r ← write_header_lines info_headers 0;
  match r with
  | inl len => mret len
  | inr write_len =>
      r ← write_header_lines headers write_len;
      match r with
      | inl len => mret len
      | inr write_len =>
          len ← write crlf;
          if len <? 0 then mret len else mret (write_len + len)
      end
  end.

(** What a content provider does in one call: it gives data to the sink or
    says that it is done, any number of times. *)
Inductive provided :=
| Sink (d : bytes)
| Done.

(** The calls of one provider call, on the flag, the offset and the length
    written last. *)
Fixpoint run_provided (ps : list provided) (available : bool) (offset written : Z)
  : M K (bool * Z * Z) :=
  match ps with
  | [] => mret (available, offset, written)
  | Sink d :: ps' =>
      let l := Z.of_nat (length d) in
      written ← write (from_i_to_hex l ++ crlf ++ d ++ crlf);
      run_provided ps' (0 <? l) (offset + l) written
  | Done :: ps' =>
      written ← write (L "0" ++ crlf ++ crlf);
      run_provided ps' false offset written
  end.

Fixpoint write_chunks (fuel : nat) (content_provider : Z -> list provided)
    (offset total_written_length : Z) : M K Z :=
  match fuel with
  | O => crash "fuel"
  | S fuel =>
      '(data_available, offset, written_length) ←
        run_provided (content_provider offset) true offset 0;
      if written_length <? 0 then mret written_length
      else
        let total_written_length := total_written_length + written_length in
        if data_available : bool
        then write_chunks fuel content_provider offset total_written_length
        else mret total_written_length
  end.

Definition write_content_chunked (fuel : nat) (content_provider : Z -> list provided) : M K Z :=
  write_chunks fuel content_provider 0 0.
End writing.

(** ** Running on a stream that works *)

(** [getline] in front of a text with a line feed. *)
Lemma getline_line {K} `{StreamLaws K} fuel size (k : K) l rest :
  live k -> incoming k = l ++ 10 :: rest -> 10 ∉ l -> (length (incoming k) < fuel)%nat ->
  exists r, reads (getline fuel size) k (Some r) rest /\ line_text r = l ++ [10].
Proof.
  intros Hk Hi Hl Hf. destruct (getline_cut_line fuel size k Hk Hf) as (o & Hr & Ho).
  rewrite Hi, cut_line_lf in Hr, Ho by done. cbn [fst snd] in *.
  destruct o as [r|]; [|by apply app_eq_nil in Ho as [_ ?]]. exists r. by destruct Ho.
Qed.

Section running.
Context {K : Type} `{StreamLaws K}.

Abbreviation conn := (K * Response)%type.

(** [m] returns [a], leaves [rest] to be read and the response [res]. *)
Definition yields {A} (m : M conn A) (s : conn) (a : A) (rest : bytes) (res : Response) : Prop :=
  exists k', m s = (Ok a, (k', res)) /\ live k' /\ incoming k' = rest /\
    outgoing k' = outgoing (fst s).

Lemma yields_strm {A} (m : M K A) k res a rest :
  reads m k a rest -> yields (strm m) (k, res) a rest res.
Proof.
  intros (k' & E & H'). exists k'. unfold strm, zoom. cbn [fst]. by rewrite E.
Qed.

Lemma yields_bind {A B} (m : M conn A) (f : A -> M conn B) s a rest res b rest' res' :
  yields m s a rest res ->
  (forall k', live k' -> incoming k' = rest -> yields (f a) (k', res) b rest' res') ->
  yields (m ≫= f) s b rest' res'.
Proof.
  intros (k1 & E & Hk & Hi & Ho) Hf. destruct (Hf k1 Hk Hi) as (k2 & E2 & Hk2 & Hi2 & Ho2).
  exists k2. rewrite (bind_ok _ _ _ _ _ E). cbn [fst] in Ho2. rewrite Ho2. eauto.
Qed.

Lemma yields_ret {A} (a : A) k res rest :
  live k -> incoming k = rest -> yields (mret a) (k, res) a rest res.
Proof. intros Hk Hi. by exists k. Qed.

Lemma yields_get_res k res rest :
  live k -> incoming k = rest -> yields get_res (k, res) res rest res.
Proof. intros Hk Hi. by exists k. Qed.

Lemma yields_set_res f k res rest :
  live k -> incoming k = rest -> yields (set_res f) (k, res) tt rest (f res).
Proof. intros Hk Hi. by exists k. Qed.

Lemma yields_lift {A} (o : outcome A) a k res rest :
  o = Ok a -> live k -> incoming k = rest -> yields (lift_outcome o) (k, res) a rest res.
Proof. intros -> Hk Hi. by exists k. Qed.

(** [m] returns [a] and leaves [rest] to be read, with some response. *)
Definition gives {A} (m : M conn A) (s : conn) (a : A) (rest : bytes) : Prop :=
  exists res, yields m s a rest res.

Lemma gives_bind {A B} (m : M conn A) (f : A -> M conn B) s a rest res b rest' :
  yields m s a rest res ->
  (forall k', live k' -> incoming k' = rest -> gives (f a) (k', res) b rest') ->
  gives (m ≫= f) s b rest'.
Proof.
  intros (k1 & E & Hk & Hi & Ho) Hf.
  destruct (Hf k1 Hk Hi) as (res' & k2 & E2 & Hk2 & Hi2 & Ho2).
  exists res', k2. rewrite (bind_ok _ _ _ _ _ E). cbn [fst] in Ho2. rewrite Ho2. eauto.
Qed.

(** A line read through the response. *)
Lemma yields_line {B} fuel size k res l rest (f : option stream_line_reader -> M conn B) b rest' res' :
  live k -> incoming k = l ++ 10 :: rest -> 10 ∉ l -> (length (incoming k) < fuel)%nat ->
  (forall k' r, live k' -> incoming k' = rest -> line_text r = l ++ [10] ->
     yields (f (Some r)) (k', res) b rest' res') ->
  yields (strm (getline fuel size) ≫= f) (k, res) b rest' res'.
Proof.
  intros Hk Hi Hl Hf Hr. destruct (getline_line fuel size k l rest Hk Hi Hl Hf) as (r & Hg & Ht).
  eapply yields_bind; [by apply yields_strm|]. intros k' Hk' Hi'. by apply Hr.
Qed.

Lemma yields_out buf k res rest :
  live k -> incoming k = rest ->
  Z.of_nat (length (r_body res ++ buf)) < 2 ^ 63 ->
  yields (out buf) (k, res) true rest (set_body (r_body res ++ buf) res).
Proof.
  intros Hk Hi Hmax. unfold out. eapply yields_bind; [by apply yields_get_res|].
  intros k' Hk' Hi'. rewrite length_app in Hmax. rewrite (proj2 (Z.ltb_ge _ _)) by lia.
  eapply yields_bind; [by apply yields_set_res|]. intros. by apply yields_ret.
Qed.

(** A read that is not at the end: a first byte and some that follow it. *)
Lemma read_some size k x s :
  live k -> (0 < size)%nat -> incoming k = x :: s ->
  exists n, (S n <= size)%nat /\ reads (read size) k (ReadBytes (x :: take n s)) (drop n s).
Proof.
  intros Hk Hs Hi. destruct (read_law size k Hk Hs) as (n & k' & E & Hn & Hpos & Hk' & Hi' & Ho).
  rewrite Hi in *. specialize (Hpos ltac:(done)). destruct n as [|n]; [lia|].
  exists n. split; [done|]. by exists k'.
Qed.

(** *** Bodies *)

Lemma set_body_same res : set_body (r_body res) res = res.
Proof. by destruct res. Qed.

(** Taking a body in two parts. *)
Lemma set_body_app b b' res :
  set_body (r_body res ++ b ++ b') res
    = set_body (r_body (set_body (r_body res ++ b) res) ++ b') (set_body (r_body res ++ b) res).
Proof. unfold set_body. cbn [r_body]. by rewrite <- app_assoc. Qed.

Lemma read_with_length_yields fuel len r k body rest res :
  live k -> incoming k = body ++ rest -> r + Z.of_nat (length body) = len ->
  Z.of_nat (length (r_body res ++ body)) < 2 ^ 63 -> (length body < fuel)%nat ->
  yields (read_content_with_length fuel len r) (k, res) true rest
    (set_body (r_body res ++ body) res).
Proof.
  revert r k body res. induction fuel as [|fuel IH]; intros r k body res Hk Hi Hlen Hmax Hf; [lia|].
  cbn [read_content_with_length]. destruct body as [|x body].
  - simpl in Hlen. rewrite (proj2 (Z.ltb_ge _ _)) by lia. rewrite app_nil_r, set_body_same.
    by apply yields_ret.
  - simpl in Hlen, Hf. rewrite (proj2 (Z.ltb_lt _ _)) by lia.
    destruct (read_some (Z.to_nat (Z.min (len - r) RECV_BUFSIZ)) k x (body ++ rest) Hk) as (n & Hn & Hr);
      [unfold RECV_BUFSIZ; lia|done|].
    rewrite take_app_le, drop_app_le in Hr by lia. rewrite length_app in Hmax. simpl in Hmax.
    assert (length (take n body) = n) as Hln by (rewrite length_take; lia).
    eapply yields_bind; [by apply yields_strm|]. intros k' Hk' Hi'.
    eapply yields_bind; [apply yields_out; [done|done|]|].
    { rewrite length_app. simpl. lia. }
    intros k2 Hk2 Hi2. cbn beta iota. replace (x :: body) with ((x :: take n body) ++ drop n body) by (simpl; by rewrite take_drop).
    rewrite set_body_app. apply IH; [done|done|..].
    + rewrite length_drop. simpl. lia.
    + cbn [set_body r_body]. rewrite !length_app. simpl. rewrite length_drop. lia.
    + rewrite length_drop. lia.
Qed.

(** A body that ends early is refused. *)
Lemma read_with_length_short fuel len r k res :
  live k -> Z.of_nat (length (incoming k)) < len - r ->
  Z.of_nat (length (r_body res ++ incoming k)) < 2 ^ 63 -> (length (incoming k) < fuel)%nat ->
  gives (read_content_with_length fuel len r) (k, res) false [].
Proof.
  revert r k res. induction fuel as [|fuel IH]; intros r k res Hk Hlen Hmax Hf; [lia|].
  cbn [read_content_with_length]. rewrite (proj2 (Z.ltb_lt _ _)) by lia.
  set (size := Z.to_nat (Z.min (len - r) RECV_BUFSIZ)).
  assert (0 < size)%nat as Hs by (unfold size, RECV_BUFSIZ; lia).
  destruct (incoming k) as [|x s] eqn:Es.
  - eapply gives_bind; [by apply yields_strm, read_end|]. intros. exists res. by apply yields_ret.
  - destruct (read_some size k x s Hk Hs Es) as (n & Hn & Hr).
    rewrite length_app in Hmax. simpl in Hmax, Hlen, Hf.
    assert (length (take n s) <= length s)%nat as Hle by (rewrite length_take; lia).
    assert (length (take n s) + length (drop n s) = length s)%nat as Hsum
      by (rewrite <- length_app, take_drop; done).
    eapply gives_bind; [by apply yields_strm|]. intros k' Hk' Hi'.
    eapply gives_bind; [apply yields_out; [done|done|]|].
    { rewrite length_app. simpl. lia. }
    intros k2 Hk2 Hi2. apply IH; try done; rewrite Hi2; [simpl; lia| |lia].
    cbn [set_body r_body]. rewrite !length_app. simpl. lia.
Qed.

Lemma read_without_length_yields fuel k res :
  live k -> Z.of_nat (length (r_body res ++ incoming k)) < 2 ^ 63 ->
  (length (incoming k) < fuel)%nat ->
  yields (read_content_without_length fuel) (k, res) true []
    (set_body (r_body res ++ incoming k) res).
Proof.
  revert k res. induction fuel as [|fuel IH]; intros k res Hk Hmax Hf; [lia|].
  cbn [read_content_without_length].
  assert (0 < Z.to_nat RECV_BUFSIZ)%nat as Hs by (unfold RECV_BUFSIZ; lia).
  destruct (incoming k) as [|x s] eqn:Es.
  - eapply yields_bind; [by apply yields_strm, read_end|]. intros k' Hk' Hi'.
    rewrite app_nil_r, set_body_same. by apply yields_ret.
  - destruct (read_some _ k x s Hk Hs Es) as (n & Hn & Hr).
    rewrite length_app in Hmax. simpl in Hmax, Hf.
    assert (length (take n s) + length (drop n s) = length s)%nat as Hsum
      by (rewrite <- length_app, take_drop; done).
    eapply yields_bind; [by apply yields_strm|]. intros k' Hk' Hi'.
    eapply yields_bind; [apply yields_out; [done|done|]|].
    { rewrite length_app. simpl. lia. }
    intros k2 Hk2 Hi2. cbn beta iota. replace (x :: s) with ((x :: take n s) ++ incoming k2)
      by (rewrite Hi2; simpl; by rewrite take_drop).
    rewrite set_body_app.
    apply IH; [done| |rewrite Hi2; lia].
    rewrite Hi2. cbn [set_body r_body]. rewrite !length_app. simpl. lia.
Qed.

(** *** Chunks *)

(** The reference encoding of a body in chunks. *)
Definition chunk_text (d : bytes) : bytes :=
  from_i_to_hex (Z.of_nat (length d)) ++ crlf ++ d ++ crlf.

Definition chunks_text (cs : list bytes) : bytes :=
  concat (map chunk_text cs) ++ L "0" ++ crlf ++ crlf.

(** A chunk the client can read: not empty, its length an [int]. *)
Definition good_chunk (d : bytes) : Prop := 0 < Z.of_nat (length d) < 2 ^ 31.

(** The line with the size of a chunk. *)
Lemma yields_size {B} fuel n k res s (f : Z -> M conn B) b0 b rest res' :
  live k -> 0 <= n < 2 ^ 31 -> incoming k = from_i_to_hex n ++ crlf ++ s ->
  (length (incoming k) < fuel)%nat ->
  (forall k', live k' -> incoming k' = s -> yields (f n) (k', res) b rest res') ->
  yields (line ← strm (getline fuel 16);
          match line with
          | None => mret b0
          | Some r => lift_outcome (stoi 16 (line_text r)) ≫= f
          end) (k, res) b rest res'.
Proof.
  intros Hk Hn Hi Hf Hr.
  eapply (yields_line _ _ _ _ (from_i_to_hex n ++ [13])); [done| | |done|].
  - rewrite Hi. unfold crlf. rewrite <- app_assoc. done.
  - pose proof (digits_no_break 16 _ 10 (from_i_to_hex_chars n ltac:(lia)) ltac:(by left)).
    rewrite elem_of_app, list_elem_of_singleton. by intros [|].
  - intros k' r Hk' Hi' Ht. eapply yields_bind; [|by apply Hr].
    apply yields_lift; [|done|done]. rewrite Ht, <- app_assoc. by apply stoi_from_i_to_hex.
Qed.

(** The line break behind a chunk or behind the last. *)
Lemma yields_break {B} fuel k res s (f : option stream_line_reader -> M conn B) b rest res' :
  live k -> incoming k = crlf ++ s -> (length (incoming k) < fuel)%nat ->
  (forall k' r, live k' -> incoming k' = s -> is_crlf r = true ->
     yields (f (Some r)) (k', res) b rest res') ->
  yields (strm (getline fuel 16) ≫= f) (k, res) b rest res'.
Proof.
  intros Hk Hi Hf Hr. apply (yields_line _ _ _ _ [13] s); [done|done| |done|].
  - by rewrite list_elem_of_singleton.
  - intros k' r Hk' Hi' Ht. apply Hr; [done|done|]. unfold is_crlf. rewrite Ht. reflexivity.
Qed.

(** Behind the last size comes a line break. *)
Lemma read_chunks_last fuel k res rest :
  live k -> incoming k = crlf ++ rest -> (length (incoming k) < fuel)%nat ->
  yields (read_chunks fuel 0) (k, res) true rest res.
Proof.
  intros Hk Hi Hf. destruct fuel as [|fuel]; [lia|]. cbn [read_chunks].
  change (0 <? 0) with false. cbn iota. unfold chunk_end. change (0 =? 0) with true. cbn iota.
  apply (yields_break _ _ _ rest); [done|done|done|].
  intros k4 r' Hk4 Hi4 ->. by apply yields_ret.
Qed.

(** One round of the loop, up to the size of the next chunk. *)
Lemma read_chunks_round fuel k res c n s rest res' :
  live k -> good_chunk c -> 0 <= n < 2 ^ 31 ->
  incoming k = c ++ crlf ++ from_i_to_hex n ++ crlf ++ s ->
  (length (incoming k) < S fuel)%nat -> Z.of_nat (length (r_body res ++ c)) < 2 ^ 63 ->
  (forall k', live k' -> incoming k' = s ->
     yields (read_chunks fuel n) (k', set_body (r_body res ++ c) res) true rest res') ->
  yields (read_chunks (S fuel) (Z.of_nat (length c))) (k, res) true rest res'.
Proof.
  intros Hk Hc Hn Hi Hf Hmax Hr. cbn [read_chunks]. rewrite (proj2 (Z.ltb_lt _ _)) by (apply Hc).
  assert (length (incoming k) = length c + 2 + length (from_i_to_hex n ++ crlf ++ s))%nat as Hl.
  { rewrite Hi, !length_app. change (length crlf) with 2%nat. lia. }
  eapply yields_bind; [apply (read_with_length_yields _ _ _ _ c); [done|exact Hi|lia|done|lia]|].
  intros k1 Hk1 Hi1. cbn [negb].
  eapply yields_break; [done|exact Hi1|rewrite Hi1, length_app; change (length crlf) with 2%nat; lia|].
  intros k2 r Hk2 Hi2 ->. cbn [negb].
  apply (yields_size _ _ _ _ _ _ _ _ _ _ Hk2 Hn Hi2); [rewrite Hi2; lia|done].
Qed.

Lemma chunks_text_cons d cs rest :
  chunks_text (d :: cs) ++ rest =
    from_i_to_hex (Z.of_nat (length d)) ++ crlf ++ d ++ crlf ++ chunks_text cs ++ rest.
Proof. unfold chunks_text, chunk_text. cbn [map concat]. by rewrite <- !app_assoc. Qed.

Lemma read_chunks_yields cs fuel k res c rest :
  live k -> good_chunk c -> Forall good_chunk cs ->
  incoming k = c ++ crlf ++ chunks_text cs ++ rest -> (length (incoming k) < fuel)%nat ->
  Z.of_nat (length (r_body res ++ c ++ concat cs)) < 2 ^ 63 ->
  yields (read_chunks fuel (Z.of_nat (length c))) (k, res) true rest
    (set_body (r_body res ++ c ++ concat cs) res).
Proof.
  revert fuel k res c. induction cs as [|d cs IH]; intros fuel k res c Hk Hc Hcs Hi Hf Hmax;
    (destruct fuel as [|fuel]; [lia|]); rewrite !length_app in Hmax;
    rewrite Hi in Hf; rewrite !length_app in Hf.
  - apply (read_chunks_round _ _ _ _ 0 (crlf ++ rest)); [done|done|done|exact Hi| | |].
    + rewrite Hi, !length_app. lia.
    + rewrite length_app. lia.
    + intros k1 Hk1 Hi1. cbn [concat]. rewrite app_nil_r. apply read_chunks_last; [done|done|].
      rewrite Hi1. simpl in *. lia.
  - apply Forall_cons in Hcs as [Hd Hcs]. rewrite chunks_text_cons in Hi.
    assert (length (chunks_text (d :: cs) ++ rest) >= 2 + length (d ++ crlf ++ chunks_text cs ++ rest))%nat as Hl.
    { rewrite chunks_text_cons, (length_app (from_i_to_hex _)), (length_app crlf).
      change (length crlf) with 2%nat. lia. }
    rewrite length_app in Hl.
    apply (read_chunks_round _ _ _ _ (Z.of_nat (length d)) (d ++ crlf ++ chunks_text cs ++ rest));
      [done|done|unfold good_chunk in Hd; lia|exact Hi| | |].
    + rewrite Hi, <- chunks_text_cons, !length_app. lia.
    + rewrite length_app. lia.
    + intros k1 Hk1 Hi1. cbn [concat]. rewrite set_body_app.
      apply IH; try done; [rewrite Hi1; lia|].
      cbn [set_body r_body]. cbn [concat] in Hmax. rewrite !length_app in *. lia.
Qed.

Lemma read_chunked_yields cs fuel k res rest :
  live k -> Forall good_chunk cs ->
  incoming k = chunks_text cs ++ rest -> (length (incoming k) < fuel)%nat ->
  Z.of_nat (length (r_body res ++ concat cs)) < 2 ^ 63 ->
  yields (read_content_chunked fuel) (k, res) true rest (set_body (r_body res ++ concat cs) res).
Proof.
  intros Hk Hcs Hi Hf Hmax. unfold read_content_chunked. destruct cs as [|c cs].
  - eapply (yields_size _ 0 _ _ (crlf ++ rest)); [done|done|exact Hi|done|].
    intros k1 Hk1 Hi1. cbn [concat]. rewrite app_nil_r, set_body_same.
    apply read_chunks_last; [done|done|]. rewrite Hi in Hf. rewrite Hi1. simpl in *. lia.
  - apply Forall_cons in Hcs as [Hc Hcs].
    rewrite chunks_text_cons in Hi.
    apply (yields_size _ (Z.of_nat (length c)) _ _ (c ++ crlf ++ chunks_text cs ++ rest));
      [done|unfold good_chunk in Hc; lia|done|done|].
    intros k1 Hk1 Hi1. apply read_chunks_yields; try done.
    rewrite Hi in Hf. rewrite Hi1. rewrite (length_app (from_i_to_hex _)), (length_app crlf) in Hf. lia.
Qed.

(** A chunk that no line break follows ends the body, and nothing is
    refused. *)
Lemma read_chunks_broken fuel k res c l rest :
  live k -> good_chunk c -> incoming k = c ++ l ++ 10 :: rest -> 10 ∉ l ->
  c_str (l ++ [10]) <> crlf -> (length (incoming k) < fuel)%nat ->
  Z.of_nat (length (r_body res ++ c)) < 2 ^ 63 ->
  yields (read_chunks fuel (Z.of_nat (length c))) (k, res) true rest
    (set_body (r_body res ++ c) res).
Proof.
  intros Hk Hc Hi Hl Hne Hf Hmax. destruct fuel as [|fuel]; [lia|]. cbn [read_chunks].
  rewrite (proj2 (Z.ltb_lt _ _)) by (apply Hc).
  assert (length (incoming k) = (length c + length (l ++ 10%Z :: rest))%nat) as Hlen
    by (by rewrite Hi, length_app).
  eapply yields_bind; [apply (read_with_length_yields _ _ _ _ c); [done|exact Hi|lia|done|lia]|].
  intros k1 Hk1 Hi1. cbn [negb].
  apply (yields_line _ _ _ _ l rest); [done|done|done|rewrite Hi1; lia|].
  intros k2 r Hk2 Hi2 Ht. unfold is_crlf. rewrite Ht, bool_decide_false by done. cbn [negb].
  unfold chunk_end. rewrite (proj2 (Z.eqb_neq _ _)) by (unfold good_chunk in Hc; lia).
  by apply yields_ret.
Qed.

(** *** Headers *)

(** The reference for a header line without its line break. *)
Definition trim (l : bytes) : bytes := take (skip_blanks l (length l)) l.

Definition add_line (hs : headers_t) (l : bytes) : headers_t :=
  match header_spec (trim l) with Some x => emplace (fst x) (snd x) hs | None => hs end.

Lemma skip_blanks_app l t n : (n <= length l)%nat -> skip_blanks (l ++ t) n = skip_blanks l n.
Proof.
  induction n as [|n IH]; intros Hn; [done|]. cbn [skip_blanks].
  rewrite lookup_app_l by lia. by rewrite IH by lia.
Qed.

Lemma skip_blanks_le l n : (skip_blanks l n <= n)%nat.
Proof. induction n as [|n IH]; simpl; [done|]. case_match; lia. Qed.

Lemma skip_blanks_end l n c :
  (n <= length l)%nat -> take (skip_blanks l n) l !! (skip_blanks l n - 1)%nat = Some c ->
  blank c = false.
Proof.
  induction n as [|n IH]; intros Hn; cbn [skip_blanks]; [done|].
  destruct (bool_decide (l !! n = Some 32)) eqn:E1; [apply IH; lia|].
  destruct (bool_decide (l !! n = Some 9)) eqn:E2; [apply IH; lia|]. cbn [orb].
  rewrite lookup_take_lt by lia. replace (S n - 1)%nat with n by lia. intros E.
  apply bool_decide_eq_false in E1, E2. rewrite E in E1, E2. unfold blank.
  destruct (Z.eqb_spec c 9), (Z.eqb_spec c 32); (congruence || done).
Qed.

Lemma header_line_text_trim l : header_line_text (l ++ crlf) = trim l.
Proof.
  unfold header_line_text, trim. rewrite length_app. change (length crlf) with 2%nat.
  replace (length l + 2 - 2)%nat with (length l) by lia. rewrite skip_blanks_app by lia.
  rewrite take_app_le by (apply skip_blanks_le). done.
Qed.

Lemma trim_no_blank l t c : trim l = t ++ [c] -> blank c = false.
Proof.
  intros E. apply (skip_blanks_end l (length l)); [lia|]. unfold trim in E.
  assert (length (t ++ [c]) = skip_blanks l (length l)) as Hl.
  { rewrite <- E, length_take. pose proof (skip_blanks_le l (length l)). lia. }
  rewrite E, <- Hl, length_app. cbn [length].
  replace (length t + 1 - 1)%nat with (length t) by lia. by apply list_lookup_middle.
Qed.

Lemma trim_id t c : blank c = false -> trim (t ++ [c]) = t ++ [c].
Proof.
  intros Hc. unfold trim. rewrite length_app. cbn [length]. rewrite Nat.add_1_r. cbn [skip_blanks].
  unfold blank in Hc. apply orb_false_iff in Hc as [H9%Z.eqb_neq H32%Z.eqb_neq].
  rewrite list_lookup_middle by done.
  rewrite !bool_decide_false by congruence. cbn [orb].
  apply take_ge. rewrite length_app. simpl. lia.
Qed.

Lemma header_groups_trim l :
  header_groups <$> regex_match header_re (trim l) = header_spec (trim l).
Proof. apply header_match_spec. intros t c. apply trim_no_blank. Qed.

Lemma set_headers_twice hs hs' r : set_headers hs (set_headers hs' r) = set_headers hs r.
Proof. done. Qed.

(** Lines up to an empty one: each that is a header is put in the multimap,
    the others are skipped. *)
Lemma read_headers_yields ls fuel k res rest :
  live k -> Forall (fun l => l <> [] /\ 10 ∉ l) ls ->
  incoming k = concat (map (fun l => l ++ crlf) ls) ++ crlf ++ rest ->
  (length (incoming k) < fuel)%nat ->
  yields (read_headers fuel) (k, res) true rest
    (set_headers (fold_left add_line ls (r_headers res)) res).
Proof.
  revert fuel k res. induction ls as [|l ls IH]; intros fuel k res Hk Hls Hi Hf;
    (destruct fuel as [|fuel]; [lia|]); cbn [read_headers].
  - apply (yields_line _ _ _ _ [13] rest); [done|done| |lia|].
    { by rewrite list_elem_of_singleton. }
    intros k' r Hk' Hi' Ht. rewrite (end_with_crlf_app r []) by done. rewrite Ht. simpl.
    replace (set_headers (r_headers res) res) with res by (by destruct res). by apply yields_ret.
  - apply Forall_cons in Hls as [[Hne Hl] Hls].
    apply (yields_line _ _ _ _ (l ++ [13]) (concat (map (fun l => l ++ crlf) ls) ++ crlf ++ rest));
      [done| | |lia|].
    { rewrite Hi. cbn [map concat]. unfold crlf. by rewrite <- !app_assoc. }
    { rewrite elem_of_app, list_elem_of_singleton. by intros [|]. }
    intros k' r Hk' Hi' Ht. rewrite <- app_assoc in Ht.
    rewrite (end_with_crlf_app r l) by done. rewrite Ht, length_app.
    destruct l as [|x l]; [done|]. cbn [length Nat.add app].
    replace (_ =? 2)%nat with false by (symmetry; apply Nat.eqb_neq; simpl; lia).
    change (x :: l ++ [13; 10]) with ((x :: l) ++ crlf). rewrite header_line_text_trim.
    pose proof (header_groups_trim (x :: l)) as Hg.
    cbn [fold_left]. unfold add_line at 2. rewrite <- Hg.
    rewrite Hi in Hf. cbn [map concat] in Hf. rewrite <- app_assoc, length_app in Hf.
    destruct (regex_match header_re (trim (x :: l))) as [m|]; cbn [fmap option_fmap option_map].
    + eapply yields_bind; [by apply yields_set_res|]. intros k2 Hk2 Hi2.
      set (res1 := set_headers (emplace (group m 1) (group m 2) (r_headers res)) res).
      match goal with |- yields _ _ _ _ ?r =>
        change r with (set_headers (fold_left add_line ls (r_headers res1)) res1) end.
      apply IH; [done|done|done|]. rewrite Hi2. cbn [app length Nat.add] in Hf. lia.
    + eapply yields_bind; [by apply yields_ret|]. intros k2 Hk2 Hi2.
      apply IH; [done|done|done|]. rewrite Hi2. cbn [app length Nat.add] in Hf. lia.
Qed.
End running.

(** ** Writing to a buffer *)

(** A text whose length is an [int]. *)
Definition fits (t : bytes) : Prop := 0 < Z.of_nat (length t) < 2 ^ 31.

#[export] Instance fits_dec t : Decision (fits t).
Proof. unfold fits. apply _. Defined.

Lemma buffer_write_format t buffer :
  fits t -> write_format t buffer = (Ok (Z.of_nat (length t)), buffer ++ t).
Proof.
  intros Hf. rewrite write_format_whole by done. unfold write, BufferStream, BufferStream_write.
  rewrite bind_modify. rewrite i32_small by (unfold fits in Hf; lia). done.
Qed.

Lemma buffer_header_lines hs n buffer :
  Forall (fun x => fits (header_text x)) hs -> 0 <= n ->
  exists n', write_header_lines hs n buffer = (Ok (inr n'), buffer ++ concat (map header_text hs)) /\
    0 <= n'.
Proof.
  intros Hs. revert n buffer. induction Hs as [|x hs Hx Hs IH]; intros n buffer Hn.
  - exists n. by rewrite app_nil_r.
  - cbn [write_header_lines]. rewrite (bind_ok _ _ _ _ _ (buffer_write_format _ _ Hx)).
    unfold fits in Hx. rewrite (proj2 (Z.ltb_ge _ _)) by lia.
    destruct (IH (n + Z.of_nat (length (header_text x))) (buffer ++ header_text x)) as (n' & E & Hn');
      [lia|]. exists n'. by rewrite E, <- app_assoc.
Qed.

(** ** What is written is read *)

(** A provider that gives the chunks [cs], one in each call, and then says
    that it is done. *)
Fixpoint provider_of (cs : list bytes) (offset : Z) : list provided :=
  match cs with
  | [] => [Done]
  | d :: cs' =>
      if offset <? Z.of_nat (length d) then [Sink d]
      else provider_of cs' (offset - Z.of_nat (length d))
  end.

(** A chunk whose text has a length that is an [int]. *)
Definition sendable (d : bytes) : Prop := d <> [] /\ Z.of_nat (length (chunk_text d)) < 2 ^ 31.

Lemma sendable_good d : sendable d -> good_chunk d.
Proof.
  intros [Hne Hl]. unfold chunk_text in Hl. rewrite !length_app in Hl. destruct d; [done|].
  split; simpl in *; lia.
Qed.

Lemma write_chunks_eq cs fuel provider offset total (buffer : bytes) :
  Forall sendable cs -> (forall o, 0 <= o -> provider (offset + o) = provider_of cs o) ->
  (length cs < fuel)%nat ->
  exists n, write_chunks fuel provider offset total buffer = (Ok n, buffer ++ chunks_text cs).
Proof.
  intros Hcs. revert fuel offset total buffer.
  induction Hcs as [|d cs [Hne Hl] Hcs IH]; intros fuel offset total buffer Hp Hf;
    (destruct fuel as [|fuel]; [lia|]); cbn [write_chunks];
    pose proof (Hp 0 ltac:(lia)) as E0; rewrite Z.add_0_r in E0; rewrite E0; cbn [provider_of].
  - eexists. reflexivity.
  - assert (0 < Z.of_nat (length d)) as Hd by (destruct d; [done|simpl; lia]).
    rewrite (proj2 (Z.ltb_lt _ _)) by lia. cbn [run_provided].
    fold (chunk_text d). cbn [write BufferStream]. unfold BufferStream_write.
    rewrite !bind_assoc, bind_modify, !bind_ret.
    rewrite i32_small, (proj2 (Z.ltb_ge _ _)), (proj2 (Z.ltb_lt 0 _)) by lia.
    edestruct (IH fuel (offset + Z.of_nat (length d))) as (n & E).
    + intros o Ho. rewrite <- Z.add_assoc, Hp by lia. cbn [provider_of].
      rewrite (proj2 (Z.ltb_ge _ _)) by lia. f_equal. lia.
    + simpl in Hf. lia.
    + exists n. rewrite E. unfold chunks_text. cbn [map concat]. by rewrite <- !app_assoc.
Qed.

(** C11 (roundtrip).  What [write_content_chunked] writes for a body given in
    chunks is read by [read_content_chunked], over any connection that
    delivers it, as that body, and what follows it is left. *)
Theorem chunked_roundtrip cs fuel {K} `{SL : StreamLaws K} fuel' (k : K) res rest :
  Forall sendable cs -> (length cs < fuel)%nat ->
  exists n text,
    write_content_chunked fuel (provider_of cs) [] = (Ok n, text) /\
    (live k -> incoming k = text ++ rest -> (length (incoming k) < fuel')%nat ->
     Z.of_nat (length (r_body res ++ concat cs)) < 2 ^ 63 ->
     yields (read_content_chunked fuel') (k, res) true rest (set_body (r_body res ++ concat cs) res)).
Proof.
  intros Hcs Hf. destruct (write_chunks_eq cs fuel (provider_of cs) 0 0 [] Hcs) as (n & E); [done|done|].
  exists n, (chunks_text cs). split; [exact E|]. intros Hk Hi Hf' Hm.
  apply read_chunked_yields; try done. eapply Forall_impl; [exact Hcs|apply sendable_good].
Qed.

(** A header that a line can hold: a name without colon behind its first
    character, a value without blanks at its ends, no line breaks, no NUL. *)
Definition clean_header (x : bytes * bytes) : Prop :=
  (exists c a, fst x = c :: a /\ Forall (fun c => negb (c =? 58) = true) a) /\
  (exists y v, snd x = y :: v /\ blank y = false) /\
  (forall v y, snd x = v ++ [y] -> blank y = false) /\
  Forall (fun c => dot c = true /\ c <> 0) (fst x ++ snd x).

Definition header_line (x : bytes * bytes) : bytes := fst x ++ L ": " ++ snd x.

Lemma clean_header_line x :
  clean_header x ->
  header_text x = header_line x ++ crlf /\ header_line x <> [] /\ (10 ∉ header_line x) /\
  forall hs, add_line hs (header_line x) = emplace (fst x) (snd x) hs.
Proof.
  destruct x as [k v]. unfold clean_header, header_text, header_line. cbn [fst snd].
  intros ((c & a & -> & Ha) & (y & v' & -> & Hy) & Hend & Hall).
  apply Forall_app in Hall as [Hk Hv].
  assert (forall s : bytes, Forall (fun c => dot c = true /\ c <> 0) s -> (0 ∉ s) /\ 10 ∉ s) as Hno.
  { intros s Hs. rewrite Forall_forall in Hs. split; intros Hin; by destruct (Hs _ Hin). }
  destruct (Hno _ Hk) as [Hk0 Hk10], (Hno _ Hv) as [Hv0 Hv10]. split_and!.
  - rewrite !c_str_id by done. by rewrite <- !app_assoc.
  - done.
  - rewrite !not_elem_of_app. split_and!; [done| |done]. by apply (bool_decide_unpack _).
  - intros hs. unfold add_line.
    assert (trim ((c :: a) ++ L ": " ++ y :: v') = (c :: a) ++ L ": " ++ y :: v') as ->.
    { destruct (exists_last (l := y :: v')) as (w & z & E); [done|]. rewrite E.
      rewrite !app_assoc. by apply trim_id, (Hend w). }
    unfold header_spec. replace (forallb dot _) with true.
    2: { symmetry. apply forallb_Forall. rewrite !Forall_app. split_and!;
           [|by repeat constructor|]; eapply Forall_impl; try done; by intros ? []. }
    change ((c :: a) ++ L ": " ++ y :: v') with (c :: a ++ 58 :: 32 :: y :: v').
    cbn beta iota. rewrite span_eq by (done || by intros ? ? [= <- _]).
    cbn beta iota. change (32 :: y :: v') with ([32] ++ y :: v').
    rewrite span_eq; [done|by repeat constructor|by intros ? ? [= <- _]].
Qed.


(** (error).  A chunk that is not followed by a line break, as when part of
    it is lost, ends the body: the client takes what it has for the whole and
    reports no failure. *)
Theorem broken_chunk_accepted fuel {K} `{SL : StreamLaws K} (k : K) res c l rest :
  live k -> good_chunk c ->
  incoming k = from_i_to_hex (Z.of_nat (length c)) ++ crlf ++ c ++ l ++ 10 :: rest ->
  (10 ∉ l) -> c_str (l ++ [10]) <> crlf -> (length (incoming k) < fuel)%nat ->
  Z.of_nat (length (r_body res ++ c)) < 2 ^ 63 ->
  yields (read_content_chunked fuel) (k, res) true rest (set_body (r_body res ++ c) res).
Proof.
  intros Hk Hc Hi Hl Hne Hf Hm. unfold read_content_chunked.
  apply (yields_size _ (Z.of_nat (length c)) _ _ (c ++ l ++ 10 :: rest));
    [done|unfold good_chunk in Hc; lia|done|done|].
  intros k' Hk' Hi'. apply (read_chunks_broken _ _ _ c l); try done.
  rewrite Hi in Hf. rewrite Hi'. rewrite (length_app (from_i_to_hex _)), (length_app crlf) in Hf. lia.
Qed.

(** ** The properties at a concrete input *)

#[local] Existing Instances tape_stream tape_laws.

Lemma chunked_roundtrip_witness :
  exists n text, write_content_chunked 4 (provider_of [L "ab"; L "c"]) [] = (Ok n, text) /\
    yields (read_content_chunked 40) (Tape text [], new_Response) true []
      (set_body (L "abc") new_Response).
Proof.
  destruct (chunked_roundtrip [L "ab"; L "c"] 4 40
    (Tape (chunks_text [L "ab"; L "c"]) []) new_Response []) as (n & text & E & Hr).
  - repeat constructor; done.
  - simpl. lia.
  - exists n, text. split; [exact E|].
    assert (text = chunks_text [L "ab"; L "c"]) as ->.
    { assert (snd (write_content_chunked 4 (provider_of [L "ab"; L "c"]) ([] : bytes))
        = chunks_text [L "ab"; L "c"]) as E' by (vm_compute; reflexivity).
      rewrite E in E'. exact E'. }
    apply Hr; [exact I|by rewrite app_nil_r|apply Nat.ltb_lt; reflexivity|reflexivity].
Defined.


Lemma broken_chunk_accepted_witness :
  yields (read_content_chunked 40) (Tape (L "3" ++ crlf ++ L "abc" ++ L "x" ++ [10]) [], new_Response)
    true [] (set_body (L "abc") new_Response).
Proof.
  apply (broken_chunk_accepted 40 (Tape (L "3" ++ crlf ++ L "abc" ++ L "x" ++ [10]) []) new_Response
    (L "abc") (L "x") []); try done.
  - by apply (bool_decide_unpack _).
  - apply Nat.ltb_lt. reflexivity.
Defined.
