(* ===== verification/HttpClient.v ===== *)
(** * HttpClient: [httplib::Client] and [httplib::SSLClient]
    (Include/httplib/httplib.h)

    [write_request], [process_request], [send] and the seven methods
    [http.fetch] calls.  The clients are those the module makes: without
    proxy, credentials, certificates, keep-alive, logger or redirects, and with
    the certificate check off, so the branches of [send] for them are not
    taken; a request has no content provider, receiver or progress function. *)
From S2P Require Import Prelude Regex HttpText HttpHeaders HttpStream HttpPatterns HttpMessage.
From Stdlib Require Import ZifyBool.

(** The part of [Request] that a client uses. *)
Record Request := {
  q_method : bytes;
  q_path : bytes;
  q_headers : headers_t;
  q_body : bytes;
}.

Record Client := {
  host_ : bytes;
  port_ : Z;
  client_is_ssl : bool;
}.

Definition host_and_port_ (cli : Client) : bytes := host_ cli ++ L ":" ++ to_string (port_ cli).

Definition make_Client (host : bytes) : Client :=
  {| host_ := host; port_ := 80; client_is_ssl := false |}.
Definition make_SSLClient (host : bytes) : Client :=
  {| host_ := host; port_ := 443; client_is_ssl := true |}.

(** ** [write_request] *)

(** [if (!req.has_header(key)) { headers.emplace(key, val); }] *)
Definition emplace_default (q : Request) (key val : bytes) (headers : headers_t) : headers_t :=
  if has_header (q_headers q) key then headers else emplace key val headers.

(** The headers the client adds. *)
Definition additional_headers (cli : Client) (q : Request) (last_connection : bool) : headers_t :=
  let headers := if last_connection then emplace (L "Connection") (L "close") [] else [] in
  let headers := emplace_default q (L "Host")
    (if client_is_ssl cli
     then if port_ cli =? 443 then host_ cli else host_and_port_ cli
     else if port_ cli =? 80 then host_ cli else host_and_port_ cli) headers in
  let headers := emplace_default q (L "Accept") (L "*/*") headers in
  let headers := emplace_default q (L "User-Agent") (L "cpp-httplib/0.5") headers in
  match q_body q with
  | [] => emplace (L "Content-Length") (L "0") headers
  | _ =>
      let headers := emplace_default q (L "Content-Type") (L "text/plain") headers in
      emplace_default q (L "Content-Length") (to_string (Z.of_nat (length (q_body q)))) headers
  end.

Definition request_line (method path : bytes) : bytes :=
  c_str method ++ L " " ++ c_str path ++ L " HTTP/1.1" ++ crlf.

(** What [bstrm] is given. *)
Definition fill_buffer (cli : Client) (q : Request) (last_connection : bool) (path : bytes)
  : M bytes unit :=
  _ ← write_format (request_line (q_method q) path);
  _ ← write_headers (q_headers q) (additional_headers cli q last_connection);
  mret ().

(** A local [BufferStream]: its contents at the end. *)
Definition with_buffer {K} (m : M bytes unit) : M K bytes := fun k =>
  match m [] with
  | (Ok _, data) => (Ok data, k)
  | (Throw e, _) => (Throw e, k)
  | (Crash w, _) => (Crash w, k)
  end.

Section client.
Context {K : Type} `{S : Stream K}.

Definition write_request (cli : Client) (q : Request) (last_connection : bool) : M K bool :=
  match regex_match path_re (q_path q) with
  | None => mret false
  | Some m =>
      let path := group m 1 ++ encode_url (group m 2) in
      data ← with_buffer (fill_buffer cli q last_connection path);
      _ ← write data;
      _ ← match q_body q with [] => mret 0 | body => write body end;
      mret true
  end.

(** A method whose answer has a body. *)
Definition has_body (method : bytes) : bool :=
  negb (bool_decide (method = L "HEAD")) && negb (bool_decide (method = L "CONNECT")).

(** ** [process_request]: its result and [connection_close]

    What comes behind the headers, and what comes behind the request. *)
Definition receive_body (fuel : nat) (q : Request) : M (K * Response) (bool * bool) :=
  res ← get_res;
  let connection_close :=
    bool_decide (Response_get_header_value res (L "Connection") = L "close") ||
    bool_decide (r_version res = L "HTTP/1.0") in
  if has_body (q_method q) then
    '(ret, _) ← read_content fuel (2 ^ 64 - 1) 0;
    mret (ret, connection_close)
  else mret (true, connection_close).

Definition receive_response (fuel : nat) (q : Request) : M (K * Response) (bool * bool) :=
  ok ← read_response_line fuel;
  if negb ok then mret (false, false)
  else
    ok ← read_headers fuel;
    if negb ok then mret (false, false) else receive_body fuel q.

Definition process_request (fuel : nat) (cli : Client) (q : Request) (last_connection : bool)
  : M (K * Response) (bool * bool) :=
  ok ← strm (write_request cli q last_connection);
  if negb ok then mret (false, false) else receive_response fuel q.
End client.

(** ** [process_and_close_socket] and [send] *)

Section send.
Context {N : Type} `{Network N}.

Abbreviation S := (N * Response)%type.

(** [Client::process_and_close_socket] with one request: the connection is
    the last, and [connection_close] is a dummy. *)
Definition process_and_close_socket (fuel sock : nat) (cli : Client) (q : Request) : M S bool :=
  '(ret, _) ← process_request (S := SocketStream sock) fuel cli q true;
  _ ← strm (modify (close_socket sock));
  mret ret.

(** [SSLClient::process_and_close_socket]; no CA certificates are set, so
    the server's certificate is not verified. *)
Definition process_and_close_socket_ssl (fuel sock : nat) (cli : Client) (q : Request) : M S bool :=
  ssl ← strm (call (SSL_new sock));
  match ssl with
  | None => _ ← strm (modify (close_socket sock)); mret false
  | Some ssl =>
      _ ← strm (modify (SSL_set_tlsext_host_name ssl (c_str (host_ cli))));
      _ ← strm (modify SSL_CTX_set_verify_none);
      connected ← strm (call (SSL_connect ssl));
      ret ← (if connected =? 1 then
               '(ret, _) ← process_request (S := SSLSocketStream sock ssl) fuel cli q true;
               mret ret
             else mret false);
      _ ← strm (modify (SSL_shutdown ssl));
      _ ← strm (modify (SSL_free ssl));
      _ ← strm (modify (close_socket sock));
      mret ret
  end.

(** [Client::send]; [ctx] tells whether an SSL client has its context. *)
Definition Client_send (fuel : nat) (cli : Client) (ctx : bool) (q : Request) : M S bool :=
  match q_path q with
  | [] => mret false
  | _ =>
      sock ← strm (call (create_client_socket (c_str (host_ cli)) (port_ cli)));
      match sock with
      | None => mret false
      | Some sock =>
          if client_is_ssl cli then
            if ctx then process_and_close_socket_ssl fuel sock cli q else mret false
          else process_and_close_socket fuel sock cli q
      end
  end.

(** A method's end: [send(req, *res) ? std::move(res) : nullptr]. *)
Definition send_request (fuel : nat) (cli : Client) (ctx : bool) (q : Request)
  : M N (option Response) := fun n =>
  match Client_send fuel cli ctx q (n, new_Response) with
  | (Ok true, (n, res)) => (Ok (Some res), n)
  | (Ok false, (n, _)) => (Ok None, n)
  | (Throw e, (n, _)) => (Throw e, n)
  | (Crash w, (n, _)) => (Crash w, n)
  end.

(** [Get], [Head] and [Options]. *)
Definition Client_Get fuel cli ctx (path : bytes) (headers : headers_t) : M N (option Response) :=
  send_request fuel cli ctx
    {| q_method := L "GET"; q_path := path; q_headers := headers; q_body := [] |}.

Definition Client_Head fuel cli ctx (path : bytes) (headers : headers_t) : M N (option Response) :=
  send_request fuel cli ctx
    {| q_method := L "HEAD"; q_path := path; q_headers := headers; q_body := [] |}.

Definition Client_Options fuel cli ctx (path : bytes) (headers : headers_t)
  : M N (option Response) :=
  send_request fuel cli ctx
    {| q_method := L "OPTIONS"; q_path := path; q_headers := headers; q_body := [] |}.

(** [send_with_content_provider] without a provider; the content type is not
    used. *)
Definition send_with_content_provider fuel cli ctx (method path : bytes) (headers : headers_t)
    (body : bytes) : M N (option Response) :=
  send_request fuel cli ctx
    {| q_method := method; q_path := path; q_headers := headers; q_body := body |}.

Definition Client_Post fuel cli ctx := send_with_content_provider fuel cli ctx (L "POST").
Definition Client_Put fuel cli ctx := send_with_content_provider fuel cli ctx (L "PUT").
Definition Client_Patch fuel cli ctx := send_with_content_provider fuel cli ctx (L "PATCH").

(** [Delete] without a content type. *)
Definition Client_Delete fuel cli ctx (path : bytes) (headers : headers_t) (body : bytes)
  : M N (option Response) :=
  send_request fuel cli ctx
    {| q_method := L "DELETE"; q_path := path; q_headers := headers; q_body := body |}.

(** The life of a client: an SSL client makes its context first and frees it
    last. *)
Definition with_client {A} (cli : Client) (m : bool -> M N A) : M N A :=
  if client_is_ssl cli then
    ctx ← call SSL_CTX_new;
    a ← m ctx;
    _ ← (if ctx : bool then modify SSL_CTX_free else mret ());
    mret a
  else m false.
End send.

(** ** What is sent *)

(** The head of a request, and the whole. *)
Definition request_head (cli : Client) (q : Request) (last_connection : bool) (path : bytes) : bytes :=
  request_line (q_method q) path ++
  concat (map header_text (q_headers q ++ additional_headers cli q last_connection)) ++ crlf.

Definition request_text cli q last_connection path : bytes :=
  request_head cli q last_connection path ++ q_body q.

(** Every line of the head is shorter than 2^31 bytes. *)
Definition head_fits cli q last_connection path : Prop :=
  fits (request_line (q_method q) path) /\
  Forall (fun x => fits (header_text x)) (q_headers q ++ additional_headers cli q last_connection).

Lemma fill_buffer_eq cli q last_connection path :
  head_fits cli q last_connection path ->
  fill_buffer cli q last_connection path [] = (Ok (), request_head cli q last_connection path).
Proof.
  intros [Hl Hh]. apply Forall_app in Hh as [Hq Ha]. unfold fill_buffer, request_head.
  rewrite (bind_ok _ _ _ _ _ (buffer_write_format _ [] Hl)). unfold write_headers.
  destruct (buffer_header_lines _ 0 ([] ++ request_line (q_method q) path) Hq) as (n1 & E1 & Hn1);
    [lia|].
  destruct (buffer_header_lines _ n1 (([] ++ request_line (q_method q) path) ++
    concat (map header_text (q_headers q))) Ha Hn1) as (n2 & E2 & Hn2).
  erewrite (bind_ok _ _ _ _ _); [reflexivity|]. rewrite (bind_ok _ _ _ _ _ E1), (bind_ok _ _ _ _ _ E2).
  unfold write, BufferStream, BufferStream_write. rewrite bind_assoc, bind_modify, bind_ret.
  change (i32 (Z.of_nat (length crlf))) with 2. change (2 <? 0) with false. cbn iota.
  rewrite map_app, concat_app. cbn [app]. by rewrite <- !app_assoc.
Qed.

(** ** An exchange *)

(** An answer of a server: its status line, its header lines and what
    follows them. *)
Record answer := {
  a_minor : Z;
  a_status : Z;
  a_reason : bytes;
  a_lines : list bytes;
  a_payload : bytes;
}.

Definition answer_version (a : answer) : bytes := L "HTTP/1." ++ [a_minor a].

Definition answer_text (a : answer) : bytes :=
  answer_version a ++ L " " ++ to_string (a_status a) ++ L " " ++ a_reason a ++ crlf ++
  concat (map (fun l => l ++ crlf) (a_lines a)) ++ crlf ++ a_payload a.

(** The headers the lines make. *)
Definition answer_headers (a : answer) : headers_t := fold_left add_line (a_lines a) [].

(** HTTP/1.0 or 1.1, a status that is an [int], text without line breaks. *)
Definition answer_ok (a : answer) : Prop :=
  in_range 48 49 (a_minor a) = true /\ 0 <= a_status a < 2 ^ 31 /\
  Forall (fun c => dot c = true /\ c <> 0) (a_reason a) /\
  Forall (fun l => l <> [] /\ 10 ∉ l) (a_lines a).

(** [framed hs payload body rest]: the headers say that [payload] is [body]
    followed by [rest]: in chunks, of a given length, or up to the end of the
    connection. *)
Inductive framed (hs : headers_t) : bytes -> bytes -> bytes -> Prop :=
| framed_chunks cs rest :
    is_chunked_transfer_encoding hs = true -> Forall good_chunk cs ->
    framed hs (chunks_text cs ++ rest) (concat cs) rest
| framed_length body rest :
    is_chunked_transfer_encoding hs = false -> has_header hs (L "Content-Length") = true ->
    get_header_value_uint64 hs (L "Content-Length") 0 = Z.of_nat (length body) ->
    framed hs (body ++ rest) body rest
| framed_close body :
    is_chunked_transfer_encoding hs = false -> has_header hs (L "Content-Length") = false ->
    framed hs body body [].

(** The body of an answer to a request of [method]. *)
Definition answer_body (method : bytes) (a : answer) (body rest : bytes) : Prop :=
  if has_body method
  then framed (answer_headers a) (a_payload a) body rest /\
       get_header_value (answer_headers a) (L "Content-Encoding") [] <> L "gzip"
  else body = [] /\ rest = a_payload a.

Definition answer_response (a : answer) (body : bytes) : Response :=
  {| r_version := answer_version a; r_status := a_status a;
     r_headers := answer_headers a; r_body := body |}.

Section exchange.
Context {K : Type} `{SL : StreamLaws K}.

Lemma write_request_eq cli q last_connection a t (k : K) :
  live k -> path_spec (q_path q) = Some (a, t) ->
  head_fits cli q last_connection (a ++ encode_url t) ->
  exists k', write_request cli q last_connection k = (Ok true, k') /\ live k' /\
    incoming k' = incoming k /\
    outgoing k' = outgoing k ++ request_text cli q last_connection (a ++ encode_url t).
Proof.
  intros Hk Hp Hf. unfold write_request. rewrite <- path_match_spec in Hp.
  destruct (regex_match path_re (q_path q)) as [m|]; [|done].
  injection Hp as Hm1 Hm2. rewrite Hm1, Hm2.
  rewrite (bind_ok _ _ k (request_head cli q last_connection (a ++ encode_url t)) k)
    by (unfold with_buffer; by rewrite fill_buffer_eq).
  destruct (write_law (request_head cli q last_connection (a ++ encode_url t)) k Hk)
    as (n & k1 & E1 & Hk1 & Hi1 & Ho1).
  rewrite (bind_ok _ _ _ _ _ E1). unfold request_text. destruct (q_body q) as [|x b] eqn:Eb.
  - exists k1. rewrite app_nil_r. by rewrite bind_ret.
  - destruct (write_law (x :: b) k1 Hk1) as (n2 & k2 & E2 & Hk2 & Hi2 & Ho2).
    exists k2. rewrite (bind_ok _ _ _ _ _ E2), Hi2, Ho2, Ho1, app_assoc. done.
Qed.

Lemma read_response_line_yields fuel (k : K) res v status reason rest :
  live k -> in_range 48 49 v = true -> 0 <= status < 2 ^ 31 ->
  Forall (fun c => dot c = true /\ c <> 0) reason ->
  incoming k = (L "HTTP/1." ++ [v]) ++ L " " ++ to_string status ++ L " " ++ reason ++ crlf ++ rest ->
  (length (incoming k) < fuel)%nat ->
  yields (read_response_line fuel) (k, res) true rest
    (set_status_line (L "HTTP/1." ++ [v]) status res).
Proof.
  intros Hk Hv Hs Hr Hi Hf. unfold read_response_line.
  pose proof (to_string_chars status ltac:(lia)) as Hd.
  set (line := L "HTTP/1." ++ [v] ++ L " " ++ to_string status ++ L " " ++ reason).
  assert (Forall (fun c => c <> 0 /\ c <> 10) line) as Hline.
  { unfold line. rewrite !Forall_app. split_and!; try by apply (bool_decide_unpack _).
    - constructor; [|done]. unfold in_range in Hv. lia.
    - eapply Forall_impl; [exact Hd|]. intros c [d Hc%digit_value_range]. lia.
    - eapply Forall_impl; [exact Hr|]. unfold dot. intros c [Hc Hc0]. lia. }
  apply (yields_line _ _ _ _ (line ++ [13]) rest); [done| | |done|].
  - rewrite Hi. unfold line. by rewrite <- !app_assoc.
  - rewrite elem_of_app, list_elem_of_singleton. intros [Hin|]; [|done].
    rewrite Forall_forall in Hline. by destruct (Hline 10 Hin).
  - intros k' r Hk' Hi' Ht. rewrite Ht.
    rewrite c_str_id.
    2: { rewrite !not_elem_of_app, !list_elem_of_singleton. split_and!; try done.
         intros Hin. rewrite Forall_forall in Hline. by destruct (Hline 0 Hin). }
    assert (header_groups <$> regex_match status_re ((line ++ [13]) ++ [10])
      = Some (L "HTTP/1." ++ [v], to_string status)) as Hm.
    { rewrite <- (status_match v (to_string status) reason); [| |apply to_string_nonempty|..]; try done.
      - do 2 f_equal. unfold line. by rewrite <- !app_assoc.
      - eapply Forall_impl; [exact Hd|]. apply digit_in_10.
      - eapply Forall_impl; [exact Hr|]. by intros c [Hc _]. }
    destruct (regex_match status_re _) as [m|]; [|done]. injection Hm as Hm1 Hm2. rewrite Hm1, Hm2.
    eapply yields_bind; [by apply yields_set_res|]. intros k1 Hk1 Hi1.
    eapply yields_bind.
    { apply yields_lift; [|done|done]. rewrite <- (app_nil_r (to_string status)).
      by apply stoi_to_string. }
    intros k2 Hk2 Hi2. eapply yields_bind; [by apply yields_set_res|]. intros k3 Hk3 Hi3.
    by apply yields_ret.
Qed.

Lemma read_content_yields fuel (k : K) res payload body rest status :
  live k -> incoming k = payload -> framed (r_headers res) payload body rest ->
  get_header_value (r_headers res) (L "Content-Encoding") [] <> L "gzip" ->
  r_body res = [] -> Z.of_nat (length body) < 2 ^ 63 -> (length payload < fuel)%nat ->
  yields (read_content fuel (2 ^ 64 - 1) status) (k, res) (true, status) rest (set_body body res).
Proof.
  intros Hk Hi Hframed Hgzip Hb Hmax Hf. unfold read_content.
  eapply yields_bind; [by apply yields_get_res|]. intros k1 Hk1 Hi1.
  rewrite bool_decide_false by done.
  assert (forall b, r_body res ++ b = b) as Happ by (intros; by rewrite Hb).
  destruct Hframed as [cs rest Hc Hcs|body rest Hc Hl Hn|body Hc Hl]; rewrite Hc, ?Hl; cbn [negb].
  - eapply yields_bind; [eapply yields_bind; [apply (read_chunked_yields cs)|]|]; try done.
    + by rewrite Hi1.
    + by rewrite Happ.
    + intros k2 Hk2 Hi2. by apply yields_ret.
    + intros k2 Hk2 Hi2. rewrite Happ. by apply yields_ret.
  - rewrite Hn, (proj2 (Z.ltb_ge _ _)) by lia. destruct body as [|x body].
    + change (0 <? _) with false. cbn iota.
      eapply yields_bind; [by apply yields_ret|]. intros k2 Hk2 Hi2.
      rewrite <- Hb, set_body_same. by apply yields_ret.
    + rewrite (proj2 (Z.ltb_lt _ _)) by (simpl; lia).
      eapply yields_bind; [eapply yields_bind; [apply (read_with_length_yields _ _ _ _ (x :: body))|]|];
        try done.
      * by rewrite Happ.
      * rewrite length_app in Hf. lia.
      * intros k2 Hk2 Hi2. by apply yields_ret.
      * intros k2 Hk2 Hi2. rewrite Happ. by apply yields_ret.
  - eapply yields_bind; [eapply yields_bind; [apply read_without_length_yields|]|]; try done.
    + by rewrite Happ, Hi1.
    + by rewrite Hi1.
    + intros k2 Hk2 Hi2. by apply yields_ret.
    + intros k2 Hk2 Hi2. rewrite Happ, Hi1. by apply yields_ret.
Qed.

(** The answer is read up to its body. *)
Lemma receive_head fuel q ans (k : K) :
  live k -> incoming k = answer_text ans -> answer_ok ans -> (length (answer_text ans) < fuel)%nat ->
  exists k', receive_response fuel q (k, new_Response)
      = receive_body fuel q (k', answer_response ans []) /\
    live k' /\ incoming k' = a_payload ans /\ outgoing k' = outgoing k /\
    (length (a_payload ans) < fuel)%nat.
Proof.
  intros Hk Hi (Hv & Hs & Hr & Hls) Hf. unfold receive_response.
  set (lines := concat (map (fun l => l ++ crlf) (a_lines ans)) ++ crlf ++ a_payload ans).
  assert (length (answer_text ans) >= length lines)%nat as Hlen.
  { unfold answer_text. rewrite !(length_app (answer_version _)), !(length_app (L " ")),
      !(length_app (to_string _)), !(length_app (L " ")), (length_app (a_reason _)), (length_app crlf).
    unfold lines. lia. }
  destruct (read_response_line_yields fuel k new_Response _ _ _ lines Hk Hv Hs Hr)
    as (k1 & E1 & Hk1 & Hi1 & Ho1); [exact Hi|by rewrite Hi|].
  destruct (read_headers_yields (a_lines ans) fuel k1
    (set_status_line (answer_version ans) (a_status ans) new_Response) (a_payload ans))
    as (k2 & E2 & Hk2 & Hi2 & Ho2); [done|done|exact Hi1|rewrite Hi1; lia|].
  exists k2. rewrite (bind_ok _ _ _ _ _ E1). cbn [negb]. rewrite (bind_ok _ _ _ _ _ E2). cbn [negb].
  cbn [fst] in Ho1, Ho2. rewrite Ho2, Ho1. split_and!; try done.
  unfold lines in Hlen. rewrite !length_app in Hlen. lia.
Qed.

(** The answer is received whole. *)
Lemma receive_response_yields fuel q ans body rest (k : K) :
  live k -> incoming k = answer_text ans -> answer_ok ans ->
  answer_body (q_method q) ans body rest ->
  Z.of_nat (length body) < 2 ^ 63 -> (length (answer_text ans) < fuel)%nat ->
  exists close,
    yields (receive_response fuel q) (k, new_Response) (true, close) rest (answer_response ans body).
Proof.
  intros Hk Hi Ha Hbody Hmax Hf.
  destruct (receive_head fuel q ans k Hk Hi Ha Hf) as (k' & E & Hk' & Hi' & Ho' & Hf').
  enough (exists close, yields (receive_body fuel q) (k', answer_response ans []) (true, close) rest
    (answer_response ans body)) as (close & k2 & E2 & H2).
  { exists close, k2. rewrite E. cbn [fst] in *. by rewrite <- Ho'. }
  eexists. unfold receive_body. eapply yields_bind; [by apply yields_get_res|]. intros k4 Hk4 Hi4.
  unfold answer_body in Hbody. destruct (has_body (q_method q)).
  - destruct Hbody as [Hframed Hgzip]. eapply yields_bind.
    + by apply (read_content_yields _ _ _ (a_payload ans) body rest).
    + intros k5 Hk5 Hi5. by apply yields_ret.
  - destruct Hbody as [-> ->]. by apply yields_ret.
Qed.

(** (functional).  An exchange over a working connection: the server is
    sent the request, byte for byte, and whatever the segments in which its
    answer comes, the response has its version, its status, its headers in the
    order of their names and its body, found by chunks, by length or by the end
    of the connection. *)
Theorem process_request_exchange fuel cli q last_connection a t ans body rest (k : K) :
  live k -> path_spec (q_path q) = Some (a, t) ->
  head_fits cli q last_connection (a ++ encode_url t) ->
  incoming k = answer_text ans -> answer_ok ans -> answer_body (q_method q) ans body rest ->
  Z.of_nat (length body) < 2 ^ 63 -> (length (answer_text ans) < fuel)%nat ->
  exists k' close,
    process_request fuel cli q last_connection (k, new_Response)
      = (Ok (true, close), (k', answer_response ans body)) /\
    live k' /\ incoming k' = rest /\
    outgoing k' = outgoing k ++ request_text cli q last_connection (a ++ encode_url t).
Proof.
  intros Hk Hp Hfit Hi Hans Hbody Hmax Hf.
  destruct (write_request_eq cli q last_connection a t k Hk Hp Hfit) as (k1 & E1 & Hk1 & Hi1 & Ho1).
  unfold process_request.
  rewrite (bind_ok _ _ _ true (k1, new_Response)) by (unfold strm, zoom; cbn [fst]; by rewrite E1).
  rewrite Hi in Hi1.
  destruct (receive_response_yields fuel q ans body rest k1) as (close & k' & E & Hk' & Hi' & Ho');
    try done.
  exists k', close. rewrite Ho'. split; [exact E|]. by rewrite <- Ho1.
Qed.

(** An answer in chunks whose first size [std::stoi] does not take. *)
Definition bad_chunks (method : bytes) (ans : answer) (e : exn) : Prop :=
  has_body method = true /\
  get_header_value (answer_headers ans) (L "Content-Encoding") [] <> L "gzip" /\
  is_chunked_transfer_encoding (answer_headers ans) = true /\
  exists l rest, a_payload ans = l ++ 10 :: rest /\ (10 ∉ l) /\ stoi 16 (l ++ [10]) = Throw e.

(** The exception leaves [process_request]. *)
Lemma process_request_throws fuel cli q last_connection a t ans e (k : K) :
  live k -> path_spec (q_path q) = Some (a, t) ->
  head_fits cli q last_connection (a ++ encode_url t) ->
  incoming k = answer_text ans -> answer_ok ans -> bad_chunks (q_method q) ans e ->
  (length (answer_text ans) < fuel)%nat ->
  exists k' res, process_request fuel cli q last_connection (k, new_Response) = (Throw e, (k', res)).
Proof.
  intros Hk Hp Hfit Hi Ha (Hb & Hg & Hc & l & rest & Hpay & Hl & Hs) Hf.
  destruct (write_request_eq cli q last_connection a t k Hk Hp Hfit) as (k1 & E1 & Hk1 & Hi1 & Ho1).
  unfold process_request.
  rewrite (bind_ok _ _ _ true (k1, new_Response)) by (unfold strm, zoom; cbn [fst]; by rewrite E1).
  rewrite Hi in Hi1. cbn [negb].
  destruct (receive_head fuel q ans k1 Hk1 Hi1 Ha Hf) as (k2 & -> & Hk2 & Hi2 & _ & Hf').
  rewrite Hpay in Hi2. rewrite <- Hi2 in Hpay. rewrite Hpay in Hf'. clear Hpay.
  destruct (getline_line fuel 16 k2 l rest Hk2 Hi2 Hl Hf') as (r & Hread & Ht).
  destruct (yields_strm _ _ (answer_response ans []) _ _ Hread) as (k3 & E3 & _).
  exists k3, (answer_response ans []). unfold receive_body, get_res. rewrite bind_assoc, bind_get, bind_ret.
  rewrite Hb. apply bind_throw. unfold read_content, get_res. rewrite bind_assoc, bind_get, bind_ret.
  cbn [snd]. rewrite bool_decide_false by done. cbn [answer_response r_headers]. rewrite Hc.
  apply bind_throw, bind_throw. unfold read_content_chunked.
  rewrite (bind_ok _ _ _ _ _ E3), Ht. apply bind_throw. unfold lift_outcome. by rewrite Hs.
Qed.

(** An answer that announces more bytes than it has. *)
Definition short_body (method : bytes) (ans : answer) : Prop :=
  has_body method = true /\
  get_header_value (answer_headers ans) (L "Content-Encoding") [] <> L "gzip" /\
  is_chunked_transfer_encoding (answer_headers ans) = false /\
  has_header (answer_headers ans) (L "Content-Length") = true /\
  Z.of_nat (length (a_payload ans))
    < get_header_value_uint64 (answer_headers ans) (L "Content-Length") 0 < 2 ^ 63.

(** It is refused. *)
Lemma process_request_short fuel cli q last_connection a t ans (k : K) :
  live k -> path_spec (q_path q) = Some (a, t) ->
  head_fits cli q last_connection (a ++ encode_url t) ->
  incoming k = answer_text ans -> answer_ok ans -> short_body (q_method q) ans ->
  (length (answer_text ans) < fuel)%nat ->
  exists k' res close,
    process_request fuel cli q last_connection (k, new_Response) = (Ok (false, close), (k', res)).
Proof.
  intros Hk Hp Hfit Hi Ha (Hb & Hg & Hc & Hh & Hlen) Hf.
  destruct (write_request_eq cli q last_connection a t k Hk Hp Hfit) as (k1 & E1 & Hk1 & Hi1 & Ho1).
  unfold process_request.
  rewrite (bind_ok _ _ _ true (k1, new_Response)) by (unfold strm, zoom; cbn [fst]; by rewrite E1).
  rewrite Hi in Hi1. cbn [negb].
  destruct (receive_head fuel q ans k1 Hk1 Hi1 Ha Hf) as (k2 & -> & Hk2 & Hi2 & _ & Hf').
  set (res := answer_response ans []).
  set (len := get_header_value_uint64 (answer_headers ans) (L "Content-Length") 0) in *.
  destruct (read_with_length_short fuel len 0 k2 res Hk2) as (res' & k3 & E3 & _);
    [rewrite Hi2; lia|rewrite Hi2; cbn [res answer_response r_body app]; lia|rewrite Hi2; lia|].
  exists k3, res'. eexists. unfold receive_body, get_res. rewrite bind_assoc, bind_get, bind_ret.
  rewrite Hb. rewrite (bind_ok _ _ _ (false, 400) (k3, res')); [reflexivity|].
  unfold read_content, get_res. rewrite bind_assoc, bind_get, bind_ret.
  cbn [snd]. rewrite bool_decide_false by done. cbn [answer_response r_headers res].
  rewrite Hc, Hh. cbn [negb]. fold len. rewrite (proj2 (Z.ltb_ge _ _)), (proj2 (Z.ltb_lt _ _)) by lia.
  by rewrite (bind_ok _ _ _ (false, false) (k3, res')) by (by rewrite (bind_ok _ _ _ _ _ E3)).
Qed.
End exchange.

(** A first line without a digit is such a size. *)
Lemma stoi_no_digit s :
  strto 16 s = None -> stoi 16 s = Throw (StdException "invalid stoi argument").
Proof. unfold stoi. by intros ->. Qed.
