(* ===== verification/Fetch.v ===== *)
(** * [http.fetch], the FetchResponse object, [gzip] and [crypto.bcrypt] of
    v8_wrapper.cpp

    A handler reads its arguments and starts a job; [run_job] is the body of
    the job's thread.  The HTTP client (httplib), bcrypt and zlib are
    interfaces. *)
From S2P Require Import Prelude Values Gzip Async HttpHeaders.

(** [FetchRequest]. *)
Record FetchRequest := {
  is_ssl : bool;
  hostname : bytes;
  path : bytes;
  method : bytes;
  body : bytes;
  headers : headers_t;
}.

(** The calls of [httplib::Client] and [httplib::SSLClient]. *)
Inductive client_call :=
| Get (path : bytes) (headers : headers_t)
| Post (path : bytes) (headers : headers_t) (body : bytes)
| Head (path : bytes) (headers : headers_t)
| Put (path : bytes) (headers : headers_t) (body : bytes)
| Delete (path : bytes) (headers : headers_t) (body : bytes)
| Options (path : bytes) (headers : headers_t)
| Patch (path : bytes) (headers : headers_t) (body : bytes).

(** The world [N] of the threads: an SSL client (its certificate check
    disabled) or a plain one makes a call to a host, which can throw; bcrypt
    gives its result code with the text it wrote. *)
Class Native (N : Type) := {
  client : bool -> bytes -> client_call -> N -> outcome (option Response) * N;
  bcrypt_gensalt : Z -> N -> (Z * bytes) * N;
  bcrypt_hashpw : bytes -> bytes -> Z * bytes;
  bcrypt_checkpw : bytes -> bytes -> Z;
  (** [std::string::capacity]. *)
  capacity_of : bytes -> Z;
}.

Inductive job :=
| JFetch (fetch_request : FetchRequest)
| JCompress (string : bytes) (compressionLevel : Z)
| JDecompress (buffer : bytes)
| JHash (input : bytes) (workload : Z)
| JCheck (password hash : bytes).

(** ** Properties of a script's object *)

(** [object->Get(context, name)]: empty when a getter throws. *)
Definition Get_property (object : value) (name : key) : option value :=
  match object with
  | VObject props =>
      match list_find (fun p => fst p = name) props with
      | Some (_, (_, v)) => v
      | None => Some VUndefined
      end
  | _ => Some VUndefined
  end.

(** The keys [GetPropertyNames] lists; an index stays a number. *)
Definition GetPropertyNames (object : value) : list key :=
  match object with VObject props => map fst props | _ => [] end.

Definition key_value (k : key) : value :=
  match k with KName name => VString name | KIndex i => VInt i end.

Section fetch.
Context {N : Type} `{Native N} {Str : Type} `{Zlib Str} `{V8Strings} `{V8Host}.

Abbreviation A := (async_state job N).

(** ** [http.fetch] *)

Definition get_value (object : value) (name : string) : M A value :=
  match Get_property object (KName (L name)) with
  | Some value => mret value
  | None => raise "unable to get value."
  end.

(** The loop over the property names of [headers]. *)
Fixpoint fetch_headers (object_value : value) (prop_names : list key) (hs : headers_t)
  : M A headers_t :=
  match prop_names with
  | [] => mret hs
  | key :: prop_names' =>
      match Get_property object_value key with
      | None => crash "empty handle"
      | Some val =>
          k ← from_v8_string (key_value key);
          v ← from_v8_string val;
          fetch_headers object_value prop_names' (emplace k v hs)
      end
  end.

Definition init_body (object : value) (r : FetchRequest) : M A FetchRequest :=
  value ← get_value object "body";
  if IsString value then
    s ← from_v8_string value;
    mret {| is_ssl := is_ssl r; hostname := hostname r; path := path r; method := method r;
            body := s; headers := headers r |}
  else mret r.

Definition init_method (object : value) (r : FetchRequest) : M A FetchRequest :=
  value ← get_value object "method";
  if IsString value then
    s ← from_v8_string value;
    mret {| is_ssl := is_ssl r; hostname := hostname r; path := path r; method := s;
            body := body r; headers := headers r |}
  else mret r.

Definition init_is_ssl (object : value) (r : FetchRequest) : M A FetchRequest :=
  value ← get_value object "is_ssl";
  if IsBoolean value then
    b ← from_v8_bool value;
    mret {| is_ssl := b; hostname := hostname r; path := path r; method := method r;
            body := body r; headers := headers r |}
  else mret r.

Definition init_headers (object : value) (r : FetchRequest) : M A FetchRequest :=
  value ← get_value object "headers";
  if IsObject value then
    hs ← fetch_headers value (GetPropertyNames value) (headers r);
    mret {| is_ssl := is_ssl r; hostname := hostname r; path := path r; method := method r;
            body := body r; headers := hs |}
  else mret r.

Definition fetch : handler A := fun args =>
  _ ← throw_if (args_Length args <? 2) "invalid function signature for http.fetch";
  _ ← throw_if (negb (IsString (arg args 0)) || negb (IsString (arg args 1)))
        "invalid argument types for http.fetch";
  hostname ← from_v8_string (arg args 0);
  path ← from_v8_string (arg args 1);
  let fetch_request := {| is_ssl := false; hostname := hostname; path := path;
                          method := L "GET"; body := []; headers := [] |} in
  fetch_request ←
    (if (2 <? args_Length args) && IsObject (arg args 2) then
       r ← init_body (arg args 2) fetch_request;
       r ← init_method (arg args 2) r;
       r ← init_is_ssl (arg args 2) r;
       init_headers (arg args 2) r
     else mret fetch_request);
  spawn (JFetch fetch_request).

(** The chain of [if]s on the method; the last that applies sets the
    response. *)
Definition dispatch (r : FetchRequest) : option client_call :=
  let p := c_str (path r) in
  if bool_decide (method r = L "GET") then Some (Get p (headers r))
  else if bool_decide (method r = L "POST") then Some (Post p (headers r) (body r))
  else if bool_decide (method r = L "HEAD") then Some (Head p (headers r))
  else if bool_decide (method r = L "PUT") then Some (Put p (headers r) (body r))
  else if bool_decide (method r = L "DELETE") then Some (Delete p (headers r) (body r))
  else if bool_decide (method r = L "OPTIONS") then Some (Options p (headers r))
  else if bool_decide (method r = L "PATCH") then Some (Patch p (headers r) (body r))
  else None.

(** [FetchResponse::capacity]: 4 bytes of status; 32 of a string and 64 of a
    pair of strings for every header. *)
Definition FetchResponse_capacity (r : Response) : Z :=
  capacity_of (r_body r) + capacity_of (r_version r) + 4 +
  (32 + 64) * Z.of_nat (length (r_headers r)).

(** The JavaScript object of a response, as its internal pointer. *)
Variable fetch_object : Response -> value.

(** The function of the thread; nothing catches an exception of the client,
    which [std::terminate] makes the end of the process. *)
Definition fetch_thread (r : FetchRequest) (n : N) : outcome settlements * N :=
  let '(response, n) :=
    match dispatch r with
    | Some c => client (is_ssl r) (hostname r) c n
    | None => (Ok None, n)
    end in
  match response with
  | Throw _ => (Crash "std::terminate", n)
  | Crash w => (Crash w, n)
  | Ok None => (Ok [(Reject (to_v8_string (L "unable to fetch")), None)], n)
  | Ok (Some response) =>
      (Ok [(Resolve (fetch_object response), Some (FetchResponse_capacity response))], n)
  end.

(** ** [gzip] *)

(** [Z_DEFAULT_COMPRESSION], or the clamped argument. *)
Definition compression_level (args : callback_info) : Z :=
  if (1 <? args_Length args) && IsInt32 (arg args 1)
  then Z.max 0 (Z.min (from_v8_default Z (arg args 1) 0) 9)
  else -1.

Definition gzip_compress : handler A := fun args =>
  _ ← throw_if (args_Length args <? 1) "invalid function signature for gzip.compress";
  _ ← throw_if (negb (IsString (arg args 0)))
        "invalid first parameter, must be a string for gzip.compress";
  string ← from_v8_string (arg args 0);
  spawn (JCompress string (compression_level args)).

Definition gzip_decompress : handler A := fun args =>
  _ ← throw_if (args_Length args <? 1) "invalid function signature for gzip.decompress";
  match arg args 0 with
  | VUint8Array u => spawn (JDecompress (array_buffer u))
  | _ => raise "invalid first parameter, must be a uint8array for gzip.decompress"
  end.

(** [catch (std::exception &)] leaves the empty string; a loop that does not
    end never settles the promise. *)
Definition gzip_outcome (o : outcome bytes) : outcome bytes :=
  match o with Throw _ => Ok [] | _ => o end.

Definition compress_thread (fuel : nat) (string : bytes) (level : Z)
  : outcome settlements :=
  match gzip_outcome (compress (S := Str) fuel string level) with
  | Ok [] => Ok [(Reject (to_v8_string (L "failed to compress using gzip.")), None)]
  | Ok compressed =>
      Ok [(Resolve (VUint8Array {| array_buffer := compressed; byte_offset := 0;
                                   byte_length := length compressed |}), None)]
  | Throw e => Throw e
  | Crash w => Crash w
  end.

Definition decompress_thread (fuel : nat) (buffer : bytes) : outcome settlements :=
  match gzip_outcome (decompress (S := Str) fuel buffer) with
  | Ok [] => Ok [(Reject (to_v8_string (L "failed to decompress using gzip.")), None)]
  | Ok decompressed => Ok [(Resolve (to_v8_string decompressed), None)]
  | Throw e => Throw e
  | Crash w => Crash w
  end.

(** ** [crypto.bcrypt] *)

Definition bcrypt_workload (args : callback_info) : Z :=
  if (1 <? args_Length args) && IsInt32 (arg args 1)
  then from_v8_default Z (arg args 1) 0 else 12.

Definition bcrypt_hash : handler A := fun args =>
  _ ← throw_if (args_Length args <? 1) "invalid function signature for crypto.bcrypt";
  _ ← throw_if (negb (IsString (arg args 0)))
        "invalid first parameter, must be a string for crypto.bcrypt";
  input ← from_v8_string (arg args 0);
  spawn (JHash input (bcrypt_workload args)).

Definition bcrypt_check : handler A := fun args =>
  _ ← throw_if (args_Length args <? 2) "invalid function signature for crypto.bcryptCompare";
  _ ← throw_if (negb (IsString (arg args 0)) || negb (IsString (arg args 1)))
        "invalid first parameter, must be a string for crypto.bcryptCompare";
  password ← from_v8_string (arg args 0);
  hash ← from_v8_string (arg args 1);
  spawn (JCheck password hash).

Definition hash_thread (input_value : bytes) (workload : Z) (n : N)
  : outcome settlements * N :=
  let failed := Ok [(Reject (to_v8_string (L "failed to generate bcrypt hash.")), None)] in
  let '((result, salt), n) := bcrypt_gensalt workload n in
  if negb (result =? 0) then (failed, n)
  else
    let '(result, hash) := bcrypt_hashpw (c_str input_value) salt in
    if negb (result =? 0) then (failed, n)
    else (Ok [(Resolve (to_v8_string (c_str hash)), None)], n).

Definition check_thread (input_password input_hash : bytes) : outcome settlements :=
  Ok [(Resolve (to_v8_bool (bcrypt_checkpw (c_str input_password) (c_str input_hash) =? 0)), None)].

(** The thread of a job; the fuel is for the loops of gzip. *)
Definition run_job (fuel : nat) (j : job) (n : N) : outcome settlements * N :=
  match j with
  | JFetch r => fetch_thread r n
  | JCompress s level => (compress_thread fuel s level, n)
  | JDecompress b => (decompress_thread fuel b, n)
  | JHash s workload => hash_thread s workload n
  | JCheck p h => (check_thread p h, n)
  end.

(** ** FetchResponse *)

(** The methods; the state they run on is the response the object holds. *)
Definition check_response (args : callback_info) (msg : string) : M Response unit :=
  throw_if (negb (this_field args)) msg.

Definition response_status : handler Response := fun args =>
  _ ← check_response args "invalid fetch response for status";
  r ← get; mret (to_v8_int (r_status r)).

Definition response_text : handler Response := fun args =>
  _ ← check_response args "invalid fetch response for text";
  r ← get;
  match r_body r with
  | [] => mret VNull
  | contents =>
      match NewExternalOneByte contents with
      | Some string => mret (VString string)
      | None => crash "empty handle"
      end
  end.

Definition response_blob : handler Response := fun args =>
  _ ← check_response args "invalid fetch response for blob";
  r ← get;
  match r_body r with
  | [] => mret VNull
  | contents => mret (VUint8Array {| array_buffer := contents; byte_offset := 0;
                                     byte_length := length contents |})
  end.

(** [headers_object->Set]: replaces the property or adds it at the end. *)
Fixpoint set_property (props : list (key * option value)) (k : key) (v : value)
  : list (key * option value) :=
  match props with
  | [] => [(k, Some v)]
  | (k', v') :: props' =>
      if decide (k' = k) then (k', Some v) :: props' else (k', v') :: set_property props' k v
  end.

Definition response_headers : handler Response := fun args =>
  _ ← check_response args "invalid fetch response for headers";
  r ← get;
  match r_headers r with
  | [] => mret VNull
  | hs =>
      mret (VObject (fold_left (fun props h =>
        set_property props (KName (NewFromUtf8 (fst h))) (to_v8_string (snd h))) hs []))
  end.

Definition fetch_response_object : list (string * handler Response) := [
  ("status", response_status); ("text", response_text); ("blob", response_blob);
  ("headers", response_headers)
]%string.
End fetch.

(** ** Lemmas *)

Section fetch_lemmas.
Context {N : Type} `{Native N} {Str : Type} `{Zlib Str} `{V8Strings} `{V8Host}.

Lemma fetch_arguments args (st : async_state job N) host p :
  argv args !! 0%nat = Some (VString host) -> argv args !! 1%nat = Some (VString p) ->
  fetch args st =
    ((if (2 <? args_Length args) && IsObject (arg args 2) then
        r ← init_body (arg args 2)
              {| is_ssl := false; hostname := Utf8Value host; path := Utf8Value p;
                 method := L "GET"; body := []; headers := [] |};
        r ← init_method (arg args 2) r;
        r ← init_is_ssl (arg args 2) r;
        init_headers (arg args 2) r
      else mret {| is_ssl := false; hostname := Utf8Value host; path := Utf8Value p;
                   method := L "GET"; body := []; headers := [] |})
     ≫= fun r => spawn (JFetch r)) st.
Proof.
  intros H0' H1'. unfold fetch. rewrite bind_throw_if.
  2: { unfold args_Length. destruct (argv args) as [|a [|b l]]; try done.
       apply Z.ltb_ge. cbn [length]. lia. }
  assert (arg args 0 = VString host) as -> by (unfold arg; by rewrite H0').
  assert (arg args 1 = VString p) as -> by (unfold arg; by rewrite H1').
  by rewrite bind_throw_if.
Qed.

Lemma bind_get_value {A} object name v (k : value -> M (async_state job N) A) (st : async_state job N) :
  Get_property object (KName (L name)) = Some v -> (get_value object name ≫= k) st = k v st.
Proof. intros E. unfold get_value. by rewrite E. Qed.

(** The request a string property and a boolean property change. *)
Definition or_string (v : value) (d : bytes) : bytes :=
  match v with VString s => Utf8Value s | _ => d end.
Definition or_bool (v : value) (d : bool) : bool :=
  match v with VBoolean b => b | _ => d end.

Lemma init_options_eq object b m s r (st : async_state job N) :
  Get_property object (KName (L "body")) = Some b ->
  Get_property object (KName (L "method")) = Some m ->
  Get_property object (KName (L "is_ssl")) = Some s ->
  (r ← init_body object r; r ← init_method object r;
   r ← init_is_ssl object r; init_headers object r) st
  = init_headers object
      {| is_ssl := or_bool s (is_ssl r); hostname := hostname r; path := path r;
         method := or_string m (method r); body := or_string b (body r);
         headers := headers r |} st.
Proof.
  intros Hb Hm Hs. destruct r as [ssl host p me bo hs].
  rewrite (bind_ok _ _ st {| is_ssl := ssl; hostname := host; path := p; method := me;
                             body := or_string b bo; headers := hs |} st).
  2: { unfold init_body. rewrite (bind_get_value _ _ b) by done. by destruct b. }
  rewrite (bind_ok _ _ st {| is_ssl := ssl; hostname := host; path := p;
                             method := or_string m me; body := or_string b bo;
                             headers := hs |} st).
  2: { unfold init_method. rewrite (bind_get_value _ _ m) by done. by destruct m. }
  rewrite (bind_ok _ _ st {| is_ssl := or_bool s ssl; hostname := host; path := p;
                             method := or_string m me; body := or_string b bo;
                             headers := hs |} st); [done|].
  unfold init_is_ssl. rewrite (bind_get_value _ _ s) by done. by destruct s.
Qed.

(** The pairs of a plain object of strings. *)
Lemma Get_property_unique pre k v post :
  k ∉ map fst pre -> Get_property (VObject (pre ++ (k, v) :: post)) k = v.
Proof.
  intros Hk. simpl. induction pre as [|[k' v'] pre IH]; simpl.
  - by rewrite decide_True.
  - apply not_elem_of_cons in Hk as [Hne Hk]. rewrite decide_False by (simpl in *; congruence).
    specialize (IH Hk). by destruct (list_find _ (pre ++ _)) as [[i [k2 v2]]|].
Qed.

Definition header_props (pairs : list (wstring * wstring)) : list (key * option value) :=
  map (fun p => (KName (fst p), Some (VString (snd p)))) pairs.

(** The pairs as the texts of names and values. *)
Definition utf8_pairs (pairs : list (wstring * wstring)) : list (bytes * bytes) :=
  map (fun p => (Utf8Value (fst p), Utf8Value (snd p))) pairs.

Lemma fetch_headers_eq pre pairs hs (st : async_state job N) :
  NoDup (map fst (pre ++ pairs)) ->
  fetch_headers (VObject (header_props (pre ++ pairs))) (map fst (header_props pairs)) hs st
  = (Ok (emplace_all hs (utf8_pairs pairs)), st).
Proof.
  revert pre hs. induction pairs as [|[k v] pairs IH]; intros pre hs Hnd.
  - done.
  - cbn [header_props map fetch_headers fst snd].
    replace (Get_property _ (KName k)) with (Some (VString v)).
    2: { unfold header_props. rewrite map_app. symmetry. apply Get_property_unique.
         rewrite map_app in Hnd. apply NoDup_app in Hnd as (_ & Hd & _).
         rewrite list_elem_of_fmap. intros ([k' v'] & E & Hin).
         apply list_elem_of_fmap in Hin as ([a b] & [= -> _] & Hin). simpl in E.
         injection E as ->. apply (Hd a); [|apply list_elem_of_here].
         by apply (list_elem_of_fmap_2 fst pre (a, b)). }
    rewrite !(bind_from_v8_string _ k), (bind_from_v8_string _ v) by done.
    specialize (IH (pre ++ [(k, v)])). rewrite <- app_assoc in IH. simpl in IH.
    fold (header_props (pre ++ (k, v) :: pairs)). by rewrite IH.
Qed.

Lemma set_property_lookup props k v k' :
  Get_property (VObject (set_property props k v)) k'
    = if decide (k = k') then Some v else Get_property (VObject props) k'.
Proof.
  simpl. induction props as [|[k0 v0] props IH]; simpl.
  - by destruct (decide (k = k')).
  - destruct (decide (k0 = k)) as [->|Hne]; simpl.
    + by destruct (decide (k = k')).
    + destruct (decide (k0 = k')) as [->|Hne']; simpl.
      * by rewrite decide_False.
      * destruct (list_find _ (set_property props k v)) as [[i [a b]]|]; simpl;
          destruct (list_find _ props) as [[i' [a' b']]|]; simpl in *; done.
Qed.
End fetch_lemmas.

(** ** The properties *)

Section fetch_properties.
Context {N : Type} `{Native N} {Str : Type} `{Zlib Str} `{V8Strings} `{V8Host}.

(** (functional).  [http.fetch] with an init object starts one thread with
    exactly the request described: body and method when they are strings,
    is_ssl when it is a boolean, GET without SSL and an empty body
    otherwise, and the multimap of the pairs of the headers object. *)
Theorem fetch_starts_request host p props b m s pairs (st : async_state job N) :
  Get_property (VObject props) (KName (L "body")) = Some b ->
  Get_property (VObject props) (KName (L "method")) = Some m ->
  Get_property (VObject props) (KName (L "is_ssl")) = Some s ->
  Get_property (VObject props) (KName (L "headers")) = Some (VObject (header_props pairs)) ->
  NoDup (map fst pairs) ->
  fetch {| this_field := false; argv := [VString host; VString p; VObject props] |} st =
    spawn (JFetch
      {| is_ssl := or_bool s false; hostname := Utf8Value host; path := Utf8Value p;
         method := or_string m (L "GET"); body := or_string b [];
         headers := emplace_all [] (utf8_pairs pairs) |}) st.
Proof.
  intros Hb Hm Hs Hh Hnd.
  rewrite (fetch_arguments _ _ host p) by done.
  change ((2 <? _) && IsObject _) with true. cbn iota. change (arg _ 2) with (VObject props).
  erewrite bind_ok; [reflexivity|]. rewrite (init_options_eq _ b m s) by done.
  unfold init_headers. rewrite (bind_get_value _ _ _ _ _ Hh). cbn [IsObject GetPropertyNames].
  erewrite bind_ok; [|apply (fetch_headers_eq [] pairs); done]. done.
Qed.

(** (error).  Headers given as an array of pairs are always refused: the
    property names of an array are numbers, and the converter of the name
    throws; no thread is started and no promise made. *)
Theorem fetch_array_headers_throw host p props b m s i v hs (st : async_state job N) :
  Get_property (VObject props) (KName (L "body")) = Some b ->
  Get_property (VObject props) (KName (L "method")) = Some m ->
  Get_property (VObject props) (KName (L "is_ssl")) = Some s ->
  Get_property (VObject props) (KName (L "headers"))
    = Some (VObject ((KIndex i, Some v) :: hs)) ->
  fetch {| this_field := false; argv := [VString host; VString p; VObject props] |} st
    = (Throw (InvalidArgument "String" "number"), st).
Proof.
  intros Hb Hm Hs Hh.
  rewrite (fetch_arguments _ _ host p) by done.
  change ((2 <? _) && IsObject _) with true. cbn iota. change (arg _ 2) with (VObject props).
  apply bind_throw. rewrite (init_options_eq _ b m s) by done.
  unfold init_headers. rewrite (bind_get_value _ _ _ _ _ Hh). cbn [IsObject GetPropertyNames map].
  apply bind_throw. cbn [fetch_headers fst].
  replace (Get_property _ _) with (Some v) by (simpl; by rewrite decide_True).
  by apply bind_throw.
Qed.

(** (functional).  The thread of a fetch makes one call, chosen by the
    method alone and not by SSL; for a method that is none of the seven it
    makes none, and the promise is rejected like a failed request. *)
Theorem fetch_thread_calls fetch_object r n :
  (dispatch r = None ->
     fetch_thread fetch_object r n =
       (Ok [(Reject (to_v8_string (L "unable to fetch")), None)], n)) ∧
  (forall c, dispatch r = Some c ->
     snd (fetch_thread fetch_object r n) = snd (client (is_ssl r) (hostname r) c n) ∧
     forall ssl, dispatch {| is_ssl := ssl; hostname := hostname r; path := path r;
                             method := method r; body := body r; headers := headers r |} = Some c) ∧
  (dispatch r = None <->
     method r ∉ [L "GET"; L "POST"; L "HEAD"; L "PUT"; L "DELETE"; L "OPTIONS"; L "PATCH"]).
Proof.
  unfold fetch_thread. split_and!.
  - by intros ->.
  - intros c Hc. rewrite Hc. split; [|by intros ssl].
    by destruct (client _ _ c n) as [[[response|]|e|w] n'].
  - unfold dispatch. split.
    + intros Hd. repeat case_bool_decide; try discriminate.
      rewrite !not_elem_of_cons. repeat split; try done. apply not_elem_of_nil.
    + rewrite !not_elem_of_cons. intros (? & ? & ? & ? & ? & ? & ? & _).
      by rewrite !bool_decide_false by done.
Qed.

(** (bounds).  Whatever second argument [gzip.compress] gets, zlib is
    given a level it accepts: the default or 0 to 9, and the argument itself
    when it is one of these. *)
Theorem compression_level_valid args :
  (compression_level args = -1 ∨ 0 <= compression_level args <= 9) ∧
  forall s z, argv args = [s; VInt z] -> 0 <= z <= 9 -> compression_level args = z.
Proof.
  unfold compression_level. split.
  - case_match; [right|by left]. lia.
  - intros s z Ha Hz. unfold args_Length, arg. rewrite Ha. simpl.
    rewrite is_int32_num by lia. unfold from_v8_default. simpl.
    rewrite to_int32_num, i32_small by lia. lia.
Qed.

(** (functional).  The object of [headers()] has, for every name, the
    value of the last header of that name. *)
Theorem response_headers_last r name :
  r_headers r ≠ [] ->
  exists props,
    response_headers {| this_field := true; argv := [] |} r = (Ok (VObject props), r) ∧
    Get_property (VObject props) (KName name) =
      Some (match list.last (filter (fun h => NewFromUtf8 (fst h) = name) (r_headers r)) with
            | Some h => to_v8_string (snd h)
            | None => VUndefined
            end).
Proof.
  intros Hne. unfold response_headers, check_response.
  rewrite bind_throw_if, bind_get by done.
  destruct (r_headers r) as [|h hs] eqn:Eh; [done|]. clear Hne Eh. eexists. split; [reflexivity|].
  generalize (h :: hs). clear h hs. intros hs.
  induction hs as [|h hs IH] using rev_ind; [done|].
  rewrite fold_left_app. cbn [fold_left]. rewrite set_property_lookup, filter_app.
  destruct (decide (NewFromUtf8 h.1 = name)) as [He|He].
  - rewrite decide_True by congruence. rewrite filter_cons_True, filter_nil by done.
    by rewrite last_snoc.
  - rewrite decide_False by congruence. rewrite filter_cons_False, filter_nil by done.
    by rewrite app_nil_r.
Qed.

Context `{!ZlibLaws Str}.

(** C19 (roundtrip).  The promises of [gzip.compress] and [gzip.decompress]
    of any text, of any size.  More than two billion bytes are not compressed;
    otherwise the first promise is resolved with an array, and decompressing the
    array gives the text back, unless the text is empty or the rounds of twice
    the array that its output takes pass a billion bytes: then the second
    promise is rejected. *)
Theorem gzip_promises_inverse fuel fuel' (text : bytes) level (s s' : Str) :
  deflateInit2 level = Some s -> inflateInit2 = Some s' ->
  (length (pending (set_input text s)) < fuel)%nat -> (length text < fuel')%nat ->
  if 2000000000 <? Z.of_nat (length text)
  then compress_thread (Str := Str) fuel text level =
         Ok [(Reject (to_v8_string (L "failed to compress using gzip.")), None)]
  else exists u,
    compress_thread (Str := Str) fuel text level = Ok [(Resolve (VUint8Array u), None)] ∧
    decompress_thread (Str := Str) fuel' (array_buffer u) =
      Ok [(if bool_decide (text = []) ||
              (1000000000 <? decompress_room (Z.of_nat (length (array_buffer u))) (Z.of_nat (length text)))
           then Reject (to_v8_string (L "failed to decompress using gzip."))
           else Resolve (to_v8_string text), None)].
Proof.
  intros Hs Hs' Hf Hf'.
  destruct (inflate_deflated level text s s' Hs Hs') as [Hne Hd].
  unfold compress_thread. rewrite (compress_eq _ _ _ _ Hs Hf).
  destruct (Z.ltb_spec 2000000000 (Z.of_nat (length text))); [done|]. cbn [gzip_outcome].
  destruct (pending (set_input text s)) as [|c rest] eqn:Ep; [done|].
  eexists. split; [reflexivity|]. cbn [array_buffer].
  pose proof (decompress_cases fuel' _ _ text Hs' Hne Hd Hf') as Hc. unfold decompress_thread.
  destruct (1000000000 <? _).
  - destruct Hc as [e ->]. by rewrite orb_true_r.
  - rewrite Hc, orb_false_r. by destruct text.
Qed.
End fetch_properties.

(** ** The properties at a concrete input *)

#[local] Existing Instances ascii_strings stored stored_laws.

Definition offline : Native unit := {|
  client _ _ _ n := (Ok None, n);
  bcrypt_gensalt _ n := ((0, []), n);
  bcrypt_hashpw _ salt := (0, salt);
  bcrypt_checkpw _ _ := 0;
  capacity_of b := Z.of_nat (length b);
|}.

#[local] Existing Instance offline.

Definition init_props (h : value) : list (key * option value) :=
  [(KName (L "method"), Some (VString (L "POST"))); (KName (L "headers"), Some h)].

Lemma fetch_starts_request_witness :
  fetch {| this_field := false;
           argv := [VString (L "h"); VString (L "/");
                    VObject (init_props (VObject (header_props [(L "a", L "b")])))] |} (started ())
  = spawn (JFetch {| is_ssl := false; hostname := L "h"; path := L "/"; method := L "POST";
                     body := []; headers := [(L "a", L "b")] |}) (started ()).
Proof.
  rewrite (fetch_starts_request (L "h") (L "/")
    (init_props (VObject (header_props [(L "a", L "b")]))) VUndefined (VString (L "POST")) VUndefined
    [(L "a", L "b")] (started ())); [reflexivity..|].
  apply (bool_decide_unpack _). reflexivity.
Defined.

Lemma fetch_array_headers_throw_witness :
  fetch {| this_field := false;
           argv := [VString (L "h"); VString (L "/");
                    VObject (init_props (VObject [(KIndex 0, Some VUndefined)]))] |} (started ())
  = (Throw (InvalidArgument "String" "number"), started ()).
Proof.
  rewrite (fetch_array_headers_throw (L "h") (L "/")
    (init_props (VObject [(KIndex 0, Some VUndefined)])) VUndefined (VString (L "POST")) VUndefined
    0 VUndefined [] (started ())); reflexivity.
Defined.

Definition two_headers : Response :=
  {| r_version := []; r_status := 200; r_headers := [(L "a", L "1"); (L "a", L "2")]; r_body := [] |}.

Lemma response_headers_last_witness :
  exists props,
    response_headers {| this_field := true; argv := [] |} two_headers
      = (Ok (VObject props), two_headers) ∧
    Get_property (VObject props) (KName (L "a")) = Some (VString (L "2")).
Proof.
  destruct (response_headers_last two_headers (L "a")) as (props & E & Hp); [discriminate|].
  exists props. split; [exact E|]. rewrite Hp. reflexivity.
Defined.

Lemma gzip_promises_inverse_witness :
  exists u, compress_thread (Str := bytes * bool) 5 (L "ab") 9 = Ok [(Resolve (VUint8Array u), None)] ∧
    decompress_thread (Str := bytes * bool) 5 (array_buffer u)
      = Ok [(Resolve (VString (L "ab")), None)].
Proof.
  pose proof (gzip_promises_inverse 5 5 (L "ab") 9 ([], true) ([], false)) as Hg.
  destruct Hg as (u & E1 & E2); try solve [reflexivity | simpl; lia].
  exists u. split; [exact E1|]. rewrite E2. vm_compute in E1. injection E1 as <-. reflexivity.
Defined.
