(* ===== verification/GzipBuffer.v ===== *)
(** * GzipBuffer: the array [gzip.decompress] reads on its thread
    (v8_wrapper.cpp)

    The thread captures the address of the [ArrayBuffer]'s contents and their
    length; the script goes on with the array.  Fetch.v gives the thread the
    bytes themselves: here the buffers are a store both work on. *)
From S2P Require Import Prelude Values Gzip Async HttpHeaders Fetch.

Section gzip_buffer.
Context {Str : Type} `{Zlib Str} `{V8Strings}.
Variable fuel : nat.

(** The contents of the [ArrayBuffer]s that were not collected, by address, and
    those the script can still reach. *)
Record buffer_heap := BufferHeap {
  buffers : gmap nat bytes;
  reached : gset nat;
}.

Abbreviation gzip_state := (async_state (nat * Z) buffer_heap).

Definition new_buffer (b : bytes) (h : buffer_heap) : buffer_heap :=
  let a := fresh (dom (buffers h)) in
  BufferHeap (<[a := b]> (buffers h)) ({[a]} ∪ reached h).

(** [array[i] = x]. *)
Definition write_buffer (a i : nat) (x : Z) (h : buffer_heap) : buffer_heap :=
  BufferHeap (alter (fun b => <[i := x]> b) a (buffers h)) (reached h).

Definition forget_buffer (a : nat) (h : buffer_heap) : buffer_heap :=
  BufferHeap (buffers h) (reached h ∖ {[a]}).

Definition free_buffer (a : nat) (h : buffer_heap) : buffer_heap :=
  BufferHeap (delete a (buffers h)) (reached h).

(** [gzip.decompress] of an array on the buffer at [a]: what
    [Buffer()->GetContents()] gives is captured. *)
Definition decompress_call (a : nat) : M gzip_state value :=
  st ← get;
  match buffers (native st) !! a with
  | None => crash "not a buffer"
  | Some b => spawn (a, Z.of_nat (length b))
  end.

(** The thread reads [length] bytes at the address. *)
Definition decompress_work (j : nat * Z) (h : buffer_heap)
  : outcome settlements * buffer_heap :=
  let '(buffer, length) := j in
  match buffers h !! buffer with
  | None => (Crash "read of a freed buffer", h)
  | Some b => (decompress_thread (Str := Str) fuel (take (Z.to_nat length) b), h)
  end.

(** The script makes an array, writes to one, passes one to
    [gzip.decompress] or forgets one; V8 collects an array nothing reaches; a
    thread ends. *)
Inductive gzip_step : relation gzip_state :=
| gzip_new b st : gzip_step st (set_native (new_buffer b (native st)) st)
| gzip_write a i x st :
    a ∈ reached (native st) ->
    gzip_step st (set_native (write_buffer a i x (native st)) st)
| gzip_call a v st st' :
    a ∈ reached (native st) -> decompress_call a st = (Ok v, st') -> gzip_step st st'
| gzip_forget a st : gzip_step st (set_native (forget_buffer a (native st)) st)
| gzip_collect a st :
    a ∉ reached (native st) -> gzip_step st (set_native (free_buffer a (native st)) st)
| gzip_thread p job before after calls n st :
    running st = before ++ (p, job) :: after ->
    decompress_work job (native st) = (Ok calls, n) ->
    gzip_step st (finish p (before ++ after) calls n st).

(** A step that keeps the array at [a] as it is while the thread of promise [p]
    runs: the script does not let go of it and does not write to it.  Other
    arrays, those of other threads too, can be written and collected. *)
Definition careful_step (p a : nat) (st st' : gzip_state) : Prop :=
  gzip_step st st' /\
  (p ∈ map fst (running st) ->
    (a ∈ reached (native st) -> a ∈ reached (native st')) /\
    (forall i x, st' <> set_native (write_buffer a i x (native st)) st)).

Definition gzip_start : gzip_state := started (BufferHeap ∅ ∅).

(** ** Lemmas *)

Lemma decompress_call_ok a v st st' :
  decompress_call a st = (Ok v, st') ->
  exists b, buffers (native st) !! a = Some b /\
    st' = snd (spawn (a, Z.of_nat (length b)) st).
Proof.
  unfold decompress_call. rewrite bind_get. destruct (buffers (native st) !! a) as [b|]; [|done].
  intros [= _ <-]. by exists b.
Qed.

Lemma decompress_work_ok job h calls n :
  decompress_work job h = (Ok calls, n) -> n = h /\ exists s, calls = [(s, None)].
Proof.
  destruct job as [a len]. unfold decompress_work. destruct (buffers h !! a) as [b|]; [|done].
  intros [= E <-]. split; [done|]. unfold decompress_thread in E.
  destruct (gzip_outcome _) as [[]| |]; simplify_eq; by eexists.
Qed.

Lemma gzip_step_async st st' : gzip_step st st' -> async_step decompress_work st st'.
Proof.
  intros [b x|a i c x _|a v x x' _ E|a x|a x _|p job b c calls n x Hr E];
    try apply step_native.
  - destruct (decompress_call_ok _ _ _ _ E) as (b & _ & ->). apply step_spawn.
  - by eapply step_finish.
Qed.

Lemma gzip_steps_async st st' : rtc gzip_step st st' -> rtc (async_step decompress_work) st st'.
Proof.
  intros Hst. induction Hst as [x|x y z Hxy _ IH]; [done|].
  by eapply rtc_l; [apply gzip_step_async|].
Qed.

(** A promise to come has no thread. *)
Lemma running_below st p job :
  rtc gzip_step gzip_start st -> (p, job) ∈ running st -> (p < next_promise st)%nat.
Proof.
  intros Hreach%gzip_steps_async Hin.
  assert (settles_once decompress_work) as Honce.
  { intros j h calls n E. by destruct (decompress_work_ok _ _ _ _ E) as [_ [s ->]]. }
  pose proof (promises_ok_reachable _ _ _ Honce Hreach) as Hok.
  assert (p ∈ seq 0 (next_promise st)) as Hseq.
  { rewrite <- Hok. apply elem_of_app. left. apply list_elem_of_fmap. by exists (p, job). }
  apply elem_of_seq in Hseq. lia.
Qed.

(** The thread of promise [p] works on the buffer at [a], which has the bytes
    [b] and is kept; or it has ended. *)
Definition intact (p a : nat) (b : bytes) (st : gzip_state) : Prop :=
  (p < next_promise st)%nat /\
  forall job, (p, job) ∈ running st ->
    job = (a, Z.of_nat (length b)) /\ a ∈ reached (native st) /\
    buffers (native st) !! a = Some b.

Lemma intact_step p a b st st' : intact p a b st -> careful_step p a st st' -> intact p a b st'.
Proof.
  intros [Hp Hi] [Hst Hc]. unfold intact.
  assert (forall job, (p, job) ∈ running st -> p ∈ map fst (running st)) as Hin.
  { intros job Hj. apply list_elem_of_fmap. by exists (p, job). }
  destruct Hst as [c x|c i y x Hre'|c v x x' Hre' E|c x|c x Hn|q job' l1 l2 calls n x Hr E].
  - split; [exact Hp|]. intros job Hrun. destruct (Hi job Hrun) as (-> & Hre & Hb).
    split_and!; [done|by apply elem_of_union_r|]. simpl.
    rewrite lookup_insert_ne; [done|]. intros Ea.
    apply (is_fresh (dom (buffers (native x)))). rewrite Ea. by apply elem_of_dom.
  - split; [exact Hp|]. intros job Hrun. destruct (Hi job Hrun) as (-> & Hre & Hb).
    split_and!; [done..|]. simpl.
    destruct (decide (c = a)) as [->|Hne]; [|by rewrite lookup_alter_ne].
    destruct (Hc (Hin _ Hrun)) as [_ Hw]. by destruct (Hw i y).
  - destruct (decompress_call_ok _ _ _ _ E) as (d & _ & ->). split; [simpl; lia|]. simpl.
    intros job Hrun. apply elem_of_app in Hrun as [Hrun|Hrun]; [by apply Hi|].
    apply list_elem_of_singleton in Hrun. injection Hrun as -> _. lia.
  - split; [exact Hp|]. intros job Hrun. destruct (Hi job Hrun) as (-> & Hre & Hb).
    split_and!; [done| |done]. by apply (Hc (Hin _ Hrun)).
  - split; [exact Hp|]. intros job Hrun. destruct (Hi job Hrun) as (-> & Hre & Hb).
    split_and!; [done..|]. simpl. rewrite lookup_delete_ne; [done|]. by intros ->.
  - destruct (finish_state q (l1 ++ l2) calls n x) as (-> & -> & -> & _). split; [exact Hp|].
    intros job Hrun. destruct (decompress_work_ok _ _ _ _ E) as [-> _]. apply Hi. rewrite Hr.
    rewrite elem_of_app in Hrun. rewrite elem_of_app, elem_of_cons. tauto.
Qed.

(** ** The properties *)

(** C20 (safety).  [gzip.decompress] on shared arrays implements the machine
    of promises of Async.v.  As long as the script keeps the array of one call and
    writes nothing to it while the thread of that call runs, the thread settles
    the promise as Fetch.v has it, with the decompressed bytes the array had at
    the call: whatever the script does to other arrays, those other threads work
    on too, and whatever is collected. *)
Theorem decompress_kept_buffer st st1 st2 a b v job :
  rtc gzip_step gzip_start st ->
  buffers (native st) !! a = Some b -> a ∈ reached (native st) ->
  decompress_call a st = (Ok v, st1) -> rtc (careful_step (next_promise st) a) st1 st2 ->
  (next_promise st, job) ∈ running st2 ->
  rtc (async_step decompress_work) gzip_start st2 /\ v = VPromise (next_promise st) /\
  decompress_work job (native st2) = (decompress_thread (Str := Str) fuel b, native st2).
Proof.
  intros Hreach Hb Ha Hcall Hst Hrun.
  assert (v = VPromise (next_promise st) /\ st1 = snd (spawn (a, Z.of_nat (length b)) st)) as [-> Est1].
  { unfold decompress_call in Hcall. rewrite bind_get, Hb in Hcall. by injection Hcall as <- <-. }
  assert (intact (next_promise st) a b st2) as [_ Hi].
  { refine (rtc_invariant _ _ st1 st2 (intact_step _ _ _) _ Hst).
    rewrite Est1. split; [simpl; lia|]. intros j Hj. simpl in *. apply elem_of_app in Hj as [Hj|Hj].
    - apply running_below in Hj; [lia|done].
    - apply list_elem_of_singleton in Hj. by injection Hj as ->. }
  destruct (Hi job Hrun) as (-> & _ & Hb2). split_and!; [|done|].
  - apply gzip_steps_async. transitivity st; [done|]. eapply rtc_l; [exact (gzip_call a _ st st1 Ha Hcall)|].
    clear -Hst. induction Hst as [x|x y z [Hxy _] _ IH]; [done|by eapply rtc_l].
  - unfold decompress_work. by rewrite Hb2, Nat2Z.id, firstn_all.
Qed.

(** (safety).  Nothing but the script keeps the array: for any bytes, a
    state is reachable in which the array of a running thread was collected and
    the thread reads freed memory, and one in which it reads bytes written
    after the call. *)
Theorem decompress_buffer_unprotected b i x :
  exists st st', rtc gzip_step gzip_start st /\ rtc gzip_step gzip_start st' /\
    running st = [(0%nat, (0%nat, Z.of_nat (length b)))] /\ running st' = running st /\
    fst (decompress_work (0%nat, Z.of_nat (length b)) (native st)) = Crash "read of a freed buffer" /\
    fst (decompress_work (0%nat, Z.of_nat (length b)) (native st')) =
      decompress_thread (Str := Str) fuel (<[i := x]> b).
Proof.
  set (s1 := set_native (BufferHeap (<[0%nat := b]> ∅) ({[0%nat]} ∪ ∅)) gzip_start).
  set (s2 := snd (spawn (0%nat, Z.of_nat (length b)) s1)).
  assert (buffers (native s2) !! 0%nat = Some b) as Hb by apply (lookup_insert_eq ∅ 0%nat b).
  assert (0%nat ∈ reached (native s2)) as Hin by by apply elem_of_union_l, elem_of_singleton.
  assert (rtc gzip_step gzip_start s2) as Hreach.
  { apply (rtc_l _ _ s1); [exact (gzip_new b gzip_start)|]. apply rtc_once, (gzip_call 0 (VPromise 0)); [exact Hin|].
    unfold decompress_call. rewrite bind_get.
    by replace (buffers (native s1) !! 0%nat) with (Some b). }
  set (s3 := set_native (forget_buffer 0 (native s2)) s2).
  exists (set_native (free_buffer 0 (native s3)) s3),
    (set_native (write_buffer 0 i x (native s2)) s2).
  split_and!; try done.
  - eapply rtc_r; [eapply rtc_r; [exact Hreach|apply (gzip_forget 0)]|].
    apply gzip_collect. by intros [_ Hn]%elem_of_difference; apply Hn, elem_of_singleton.
  - eapply rtc_r; [exact Hreach|]. by apply gzip_write.
  - unfold decompress_work.
    replace (_ !! _) with (Some (<[i := x]> b))
      by (symmetry; etransitivity; [apply lookup_alter_eq|by rewrite Hb]).
    cbn [fst]. by rewrite firstn_all2 by (rewrite length_insert; lia).
Qed.
End gzip_buffer.

(** ** At a concrete input: the zlib of Gzip.v that stores its input *)

#[local] Existing Instances stored ascii_strings.

Definition example_bytes : bytes := L "abc".

Definition buffer_made : async_state (nat * Z) buffer_heap :=
  set_native (new_buffer example_bytes (native gzip_start)) gzip_start.

Lemma decompress_kept_buffer_witness :
  let st1 := snd (decompress_call 0 buffer_made) in
  decompress_work (Str := bytes * bool) 5 (0%nat, 3) (native st1) =
    (decompress_thread (Str := bytes * bool) 5 example_bytes, native st1).
Proof.
  intros st1.
  apply (decompress_kept_buffer (Str := bytes * bool) 5 buffer_made st1 st1 0 example_bytes
           (VPromise 0) (0%nat, 3)).
  - apply rtc_once. apply (gzip_new (Str := bytes * bool) 5 example_bytes gzip_start).
  - reflexivity.
  - apply (bool_decide_unpack _). vm_compute. exact I.
  - reflexivity.
  - apply rtc_refl.
  - left.
Defined.
