(* ===== verification/HttpFetch.v ===== *)
(** * HttpFetch: [http.fetch] on the network

    The client of HttpClient.v as the interface of Fetch.v, so that a thread
    of [http.fetch] (v8_wrapper.cpp) runs down to the sockets: what the server
    is sent and what the script gets, sockets that are closed, and answers that
    end the process. *)
From S2P Require Import Prelude Values Gzip Async Regex HttpText HttpHeaders HttpStream.
From S2P Require Import HttpPatterns HttpMessage HttpClient Fetch.

Section native.
Context {N : Type} `{Network N}.

(** The call of the thread on its client. *)
Definition call_client (fuel : nat) (cli : Client) (call : client_call) (ctx : bool)
  : M N (option HttpHeaders.Response) :=
  match call with
  | Get path headers => Client_Get fuel cli ctx path headers
  | Post path headers body => Client_Post fuel cli ctx path headers body
  | Head path headers => Client_Head fuel cli ctx path headers
  | Put path headers body => Client_Put fuel cli ctx path headers body
  | Delete path headers body => Client_Delete fuel cli ctx path headers body
  | Options path headers => Client_Options fuel cli ctx path headers
  | Patch path headers body => Client_Patch fuel cli ctx path headers body
  end.

(** [httplib::SSLClient client(hostname)] or [httplib::Client client(hostname)]. *)
Definition make_client (ssl : bool) (hostname : bytes) : Client :=
  if ssl then make_SSLClient hostname else make_Client hostname.

Definition http_client (fuel : nat) (ssl : bool) (hostname : bytes) (call : client_call)
  : M N (option HttpHeaders.Response) :=
  let cli := make_client ssl hostname in with_client cli (call_client fuel cli call).

(** The world of the threads, with this client in the place of another's. *)
Definition http_native (fuel : nat) (other : Native N) : Native N := {|
  client ssl hostname call n := http_client fuel ssl hostname call n;
  bcrypt_gensalt := bcrypt_gensalt;
  bcrypt_hashpw := bcrypt_hashpw;
  bcrypt_checkpw := bcrypt_checkpw;
  capacity_of := capacity_of;
|}.
End native.

(** The request of a call. *)
Definition call_request (call : client_call) : Request :=
  match call with
  | Get path headers =>
      {| q_method := L "GET"; q_path := path; q_headers := headers; q_body := [] |}
  | Post path headers body =>
      {| q_method := L "POST"; q_path := path; q_headers := headers; q_body := body |}
  | Head path headers =>
      {| q_method := L "HEAD"; q_path := path; q_headers := headers; q_body := [] |}
  | Put path headers body =>
      {| q_method := L "PUT"; q_path := path; q_headers := headers; q_body := body |}
  | Delete path headers body =>
      {| q_method := L "DELETE"; q_path := path; q_headers := headers; q_body := body |}
  | Options path headers =>
      {| q_method := L "OPTIONS"; q_path := path; q_headers := headers; q_body := [] |}
  | Patch path headers body =>
      {| q_method := L "PATCH"; q_path := path; q_headers := headers; q_body := body |}
  end.

Lemma call_client_send {N} `{Network N} fuel cli call ctx :
  call_client fuel cli call ctx = send_request fuel cli ctx (call_request call).
Proof. by destruct call. Qed.

(** ** Sockets are closed *)

(** Only connecting and closing change the set of open sockets. *)
Class SocketLaws (N : Type) `{Network N} := {
  sockets : N -> gset nat;
  connect_sockets host port n :
    match create_client_socket host port n with
    | (Some sock, n') => (sock ∉ sockets n) /\ sockets n' = ({[sock]} ∪ sockets n)
    | (None, n') => sockets n' = sockets n
    end;
  close_sockets sock n : sockets (close_socket sock n) = sockets n ∖ {[sock]};
  select_sockets sock n : sockets (snd (select_read sock n)) = sockets n;
  recv_sockets sock size n : sockets (snd (recv sock size n)) = sockets n;
  send_sockets sock ptr n : sockets (snd (send sock ptr n)) = sockets n;
  ctx_new_sockets n : sockets (snd (SSL_CTX_new n)) = sockets n;
  ctx_free_sockets n : sockets (SSL_CTX_free n) = sockets n;
  ssl_new_sockets sock n : sockets (snd (SSL_new sock n)) = sockets n;
  ssl_host_sockets ssl host n : sockets (SSL_set_tlsext_host_name ssl host n) = sockets n;
  ssl_verify_sockets n : sockets (SSL_CTX_set_verify_none n) = sockets n;
  ssl_connect_sockets ssl n : sockets (snd (SSL_connect ssl n)) = sockets n;
  ssl_read_sockets ssl size n : sockets (snd (SSL_read ssl size n)) = sockets n;
  ssl_write_sockets ssl ptr n : sockets (snd (SSL_write ssl ptr n)) = sockets n;
  ssl_shutdown_sockets ssl n : sockets (SSL_shutdown ssl n) = sockets n;
  ssl_free_sockets ssl n : sockets (SSL_free ssl n) = sockets n;
}.

Section keeps_client.
Context {K : Type} `{S : Stream K} (P : K -> Prop).
Hypothesis read_keeps : forall size, keeps P (read size).
Hypothesis write_keeps : forall ptr, keeps P (write ptr).

#[local] Hint Resolve read_keeps write_keeps : keeps.
#[local] Hint Extern 3 (keeps _ (match ?x with _ => _ end)) => destruct x : keeps.

Definition of_stream (s : K * HttpHeaders.Response) : Prop := P (fst s).

Lemma keeps_strm {A} (m : M K A) : keeps P m -> keeps of_stream (strm m).
Proof.
  intros Hm [k res] Hk. unfold strm, zoom, of_stream in *. cbn [fst] in *.
  specialize (Hm k Hk). by destruct (m k).
Qed.
#[local] Hint Resolve keeps_strm : keeps.

Lemma keeps_get_res : keeps of_stream get_res.
Proof. by intros [k res]. Qed.

Lemma keeps_set_res f : keeps of_stream (set_res f).
Proof. by intros [k res]. Qed.

Lemma keeps_lift {A} (o : outcome A) : keeps of_stream (lift_outcome o).
Proof. by intros s. Qed.
#[local] Hint Resolve keeps_get_res keeps_set_res keeps_lift : keeps.

Lemma keeps_getline fuel size : keeps P (getline fuel size).
Proof.
  unfold getline. generalize 0%nat empty_reader.
  induction fuel as [|fuel IH]; intros i r; cbn [getline_loop]; auto 10 with keeps.
Qed.
#[local] Hint Resolve keeps_getline : keeps.

Lemma keeps_out buf : keeps of_stream (out buf).
Proof. unfold out. auto 10 with keeps. Qed.
#[local] Hint Resolve keeps_out : keeps.

Lemma keeps_with_length fuel len r : keeps of_stream (read_content_with_length fuel len r).
Proof. revert r. induction fuel; intros r; cbn [read_content_with_length]; auto 10 with keeps. Qed.

Lemma keeps_skip fuel len r : keeps of_stream (skip_content_with_length fuel len r).
Proof. revert r. induction fuel; intros r; cbn [skip_content_with_length]; auto 10 with keeps. Qed.

Lemma keeps_without_length fuel : keeps of_stream (read_content_without_length fuel).
Proof. induction fuel; cbn [read_content_without_length]; auto 10 with keeps. Qed.
#[local] Hint Resolve keeps_with_length keeps_skip keeps_without_length : keeps.

Lemma keeps_chunk_end fuel n : keeps of_stream (chunk_end fuel n).
Proof. unfold chunk_end. auto 10 with keeps. Qed.
#[local] Hint Resolve keeps_chunk_end : keeps.

Lemma keeps_chunks fuel n : keeps of_stream (read_chunks fuel n).
Proof. revert n. induction fuel; intros n; cbn [read_chunks]; auto 20 with keeps. Qed.
#[local] Hint Resolve keeps_chunks : keeps.

Lemma keeps_content fuel max status : keeps of_stream (read_content fuel max status).
Proof. unfold read_content, read_content_chunked. auto 20 with keeps. Qed.

Lemma keeps_headers fuel : keeps of_stream (read_headers fuel).
Proof. induction fuel as [|fuel IH]; cbn [read_headers]; auto 20 with keeps. Qed.

Lemma keeps_response_line fuel : keeps of_stream (read_response_line fuel).
Proof. unfold read_response_line. auto 20 with keeps. Qed.
#[local] Hint Resolve keeps_content keeps_headers keeps_response_line : keeps.

Lemma keeps_with_buffer m : keeps P (with_buffer m).
Proof. intros k Hk. unfold with_buffer. by destruct (m []) as [[]]. Qed.
#[local] Hint Resolve keeps_with_buffer : keeps.

Lemma keeps_write_request cli q last : keeps P (write_request cli q last).
Proof. unfold write_request. auto 20 with keeps. Qed.
#[local] Hint Resolve keeps_write_request : keeps.

Lemma keeps_process_request fuel cli q last : keeps of_stream (process_request fuel cli q last).
Proof. unfold process_request, receive_response, receive_body. auto 30 with keeps. Qed.
End keeps_client.

Section closing.
Context {N : Type} `{SocketLaws N}.

Abbreviation S := (N * HttpHeaders.Response)%type.

(** [m] keeps [P] until it returns, and then [Q] holds. *)
Definition ends {A} (P Q : S -> Prop) (m : M S A) : Prop := forall s, P s ->
  match m s with (Ok _, s') => Q s' | (_, s') => P s' end.

Lemma ends_bind {A B} P Q (m : M S A) (f : A -> M S B) :
  keeps P m -> (forall a, ends P Q (f a)) -> ends P Q (m ≫= f).
Proof.
  intros Hm Hf s Hs. specialize (Hm s Hs). unfold mbind, M_bind.
  destruct (m s) as [[a|e|w] s']; [by apply Hf|done|done].
Qed.

(** The open sockets are [X] and [sock], or [X]. *)
Definition holds (X : gset nat) (s : S) : Prop := sockets (fst s) = X.
Definition opened (sock : nat) (X : gset nat) : gset nat := {[sock]} ∪ X.

Section one_socket.
Context (sock : nat) (X : gset nat).
Hypothesis fresh_sock : sock ∉ X.

Abbreviation P := (fun n => sockets n = opened sock X).

Lemma keeps_socket_stream :
  (forall size, keeps P (read (Stream := SocketStream sock) size)) /\
  (forall ptr, keeps P (write (Stream := SocketStream sock) ptr)).
Proof.
  split; intros x; unfold read, write, SocketStream, SocketStream_read, SocketStream_write.
  - apply keeps_bind; [|intros ready; destruct (0 <? ready); [|apply keeps_ret]];
      apply keeps_call; intros n Hn; by rewrite ?select_sockets, ?recv_sockets.
  - apply keeps_call. intros n Hn. by rewrite send_sockets.
Qed.

Lemma keeps_ssl_stream ssl :
  (forall size, keeps P (read (Stream := SSLSocketStream sock ssl) size)) /\
  (forall ptr, keeps P (write (Stream := SSLSocketStream sock ssl) ptr)).
Proof.
  split; intros x; unfold read, write, SSLSocketStream, SSLSocketStream_read, SSLSocketStream_write.
  - apply keeps_bind; [apply keeps_get|]. intros n0. destruct (0 <? SSL_pending ssl n0).
    + apply keeps_call. intros n Hn. by rewrite ssl_read_sockets.
    + apply keeps_bind; [|intros ready; destruct (0 <? ready); [|apply keeps_ret]];
        apply keeps_call; intros n Hn; by rewrite ?select_sockets, ?ssl_read_sockets.
  - apply keeps_call. intros n Hn. by rewrite ssl_write_sockets.
Qed.

Lemma close_ends {A} (a : A) :
  ends (holds (opened sock X)) (holds X) (_ ← strm (modify (close_socket sock)); mret a).
Proof.
  intros [n res] Hn. unfold holds, opened, strm in *. run_M. cbn [fst snd] in *.
  rewrite close_sockets, Hn. set_solver.
Qed.

(** A step on the world that keeps the sockets. *)
Lemma keeps_world (f : N -> N) :
  (forall n, sockets (f n) = sockets n) -> keeps (holds (opened sock X)) (strm (modify f)).
Proof. intros Hf [n res] Hn. unfold holds, strm in *. cbn in *. by rewrite Hf. Qed.

Lemma keeps_world_call {A} (f : N -> A * N) :
  (forall n, sockets (snd (f n)) = sockets n) -> keeps (holds (opened sock X)) (strm (call f)).
Proof.
  intros Hf. apply (keeps_strm P). apply keeps_call. intros n Hn. by rewrite Hf.
Qed.

Lemma process_ends fuel cli q :
  ends (holds (opened sock X)) (holds X) (process_and_close_socket fuel sock cli q).
Proof.
  destruct keeps_socket_stream as [Hr Hw]. unfold process_and_close_socket.
  apply ends_bind; [by apply (keeps_process_request P)|]. intros [ret close]. apply close_ends.
Qed.

Lemma process_ssl_ends fuel cli q :
  ends (holds (opened sock X)) (holds X) (process_and_close_socket_ssl fuel sock cli q).
Proof.
  unfold process_and_close_socket_ssl.
  apply ends_bind; [apply keeps_world_call, ssl_new_sockets|].
  intros [ssl|]; [|apply close_ends]. destruct (keeps_ssl_stream ssl) as [Hr Hw].
  apply ends_bind; [apply keeps_world, ssl_host_sockets|intros _].
  apply ends_bind; [apply keeps_world, ssl_verify_sockets|intros _].
  apply ends_bind; [apply keeps_world_call, ssl_connect_sockets|intros connected].
  apply ends_bind.
  { destruct (connected =? 1); [|apply keeps_ret].
    apply keeps_bind; [by apply (keeps_process_request P)|]. intros [ret close]. apply keeps_ret. }
  intros ret.
  apply ends_bind; [apply keeps_world, ssl_shutdown_sockets|intros _].
  apply ends_bind; [apply keeps_world, ssl_free_sockets|intros _]. apply close_ends.
Qed.
End one_socket.

(** (safety).  Whatever the server does, a request that returns has closed
    the one socket it opened; one that is left by an exception has not, and its
    socket stays open. *)
Theorem client_closes_socket fuel cli ctx q n :
  (client_is_ssl cli = true -> ctx = true) ->
  match send_request fuel cli ctx q n with
  | (Ok _, n') => sockets n' = sockets n
  | (_, n') => exists sock, (sock ∉ sockets n) /\ sockets n' = opened sock (sockets n)
  end.
Proof.
  intros Hctx. unfold send_request, Client_send. destruct (q_path q) as [|c p]; [done|].
  unfold strm at 1, zoom, call, mbind, M_bind. cbn [fst].
  pose proof (connect_sockets (c_str (host_ cli)) (port_ cli) n) as Hc.
  destruct (create_client_socket _ _ n) as [[sock|] n1]; [|done]. destruct Hc as [Hfresh Hn1].
  cbn [snd].
  set (m := if client_is_ssl cli then _ else _).
  assert (ends (holds (opened sock (sockets n))) (holds (sockets n)) m) as Hm.
  { unfold m. destruct (client_is_ssl cli); [rewrite Hctx by done|];
      [by apply process_ssl_ends|by apply process_ends]. }
  specialize (Hm (n1, new_Response) Hn1).
  destruct (m (n1, new_Response)) as [[[]|e|w] [n' res]]; try done; by exists sock.
Qed.
End closing.

(** ** A whole request *)

(** The streams of sockets and of SSL connections work. *)
Class NetworkLaws (N : Type) `{Network N} := {
  socket_laws sock :: StreamLaws N (H := SocketStream sock);
  ssl_laws sock ssl :: StreamLaws N (H := SSLSocketStream sock ssl);
}.

(** A connection a client opens: the socket, and the SSL object of an SSL
    client. *)
Inductive connection := Plain (sock : nat) | Ssl (sock ssl : nat).

Section connections.
Context {N : Type} `{NetworkLaws N} `{V8Strings}.

Definition conn_live (c : connection) (n : N) : Prop :=
  match c with
  | Plain sock => live (StreamLaws := socket_laws sock) n
  | Ssl sock ssl => live (StreamLaws := ssl_laws sock ssl) n
  end.

Definition conn_incoming (c : connection) (n : N) : bytes :=
  match c with
  | Plain sock => incoming (StreamLaws := socket_laws sock) n
  | Ssl sock ssl => incoming (StreamLaws := ssl_laws sock ssl) n
  end.

(** What the server was sent. *)
Definition conn_outgoing (c : connection) (n : N) : bytes :=
  match c with
  | Plain sock => outgoing (StreamLaws := socket_laws sock) n
  | Ssl sock ssl => outgoing (StreamLaws := ssl_laws sock ssl) n
  end.

(** [connects cli n c n']: in the world [n] the client opens the connection
    [c], which works and is fresh. *)
Definition connects (cli : Client) (n : N) (c : connection) (n' : N) : Prop :=
  conn_live c n' /\ conn_outgoing c n' = [] /\
  match c with
  | Plain sock =>
      client_is_ssl cli = false /\
      create_client_socket (c_str (host_ cli)) (port_ cli) n = (Some sock, n')
  | Ssl sock ssl =>
      client_is_ssl cli = true /\ exists n1 n2 n3,
      SSL_CTX_new n = (true, n1) /\
      create_client_socket (c_str (host_ cli)) (port_ cli) n1 = (Some sock, n2) /\
      SSL_new sock n2 = (Some ssl, n3) /\
      SSL_connect ssl
        (SSL_CTX_set_verify_none (SSL_set_tlsext_host_name ssl (c_str (host_ cli)) n3)) = (1, n')
  end.

(** What the client does to the world when it is done. *)
Definition disconnect (c : connection) (n : N) : N :=
  match c with
  | Plain sock => close_socket sock n
  | Ssl sock ssl => SSL_CTX_free (close_socket sock (SSL_free ssl (SSL_shutdown ssl n)))
  end.

(** [process_request] on the stream of a connection. *)
Definition conn_process (c : connection) fuel cli q :=
  match c with
  | Plain sock => process_request (S := SocketStream sock) fuel cli q true
  | Ssl sock ssl => process_request (S := SSLSocketStream sock ssl) fuel cli q true
  end.

Lemma strm_call {K A} (f : K -> A * K) a k k' res :
  f k = (a, k') -> strm (call f) (k, res) = (Ok a, (k', res)).
Proof. intros E. unfold strm, zoom, call. cbn [fst snd]. by rewrite E. Qed.

Lemma strm_modify {K} (f : K -> K) k res : strm (modify f) (k, res) = (Ok (), (f k, res)).
Proof. done. Qed.

(** A client whose connection works comes to what [process_request] gives. *)
Lemma with_client_returns fuel cli q n c n1 ret close n2 res :
  connects cli n c n1 -> q_path q <> [] ->
  conn_process c fuel cli q (n1, new_Response) = (Ok (ret, close), (n2, res)) ->
  with_client cli (fun ctx => send_request fuel cli ctx q) n
    = (Ok (if ret : bool then Some res else None), disconnect c n2).
Proof.
  intros (_ & _ & Hc) Hp E. unfold with_client, send_request, Client_send.
  destruct (q_path q) as [|x p]; [done|]. destruct c as [sock|sock ssl].
  - destruct Hc as [-> Hn1]. rewrite (bind_ok _ _ _ _ _ (strm_call _ _ _ _ _ Hn1)).
    unfold process_and_close_socket. cbn [conn_process] in E. rewrite (bind_ok _ _ _ _ _ E).
    rewrite (bind_ok _ _ _ _ _ (strm_modify _ _ _)). by destruct ret.
  - destruct Hc as [-> (n3 & n4 & n5 & E3 & E4 & E5 & E6)].
    rewrite (bind_ok _ _ n true n3) by (unfold call; by rewrite E3).
    rewrite (bind_ok _ _ n3 (if ret then Some res else None)
      (close_socket sock (SSL_free ssl (SSL_shutdown ssl n2)))); [done|].
    rewrite (bind_ok _ _ _ _ _ (strm_call _ _ _ _ _ E4)). unfold process_and_close_socket_ssl.
    rewrite (bind_ok _ _ _ _ _ (strm_call _ _ _ _ _ E5)).
    rewrite !(bind_ok _ _ _ _ _ (strm_modify _ _ _)).
    rewrite (bind_ok _ _ _ _ _ (strm_call _ _ _ _ _ E6)). change (1 =? 1) with true. cbn iota.
    cbn [conn_process] in E.
    rewrite (bind_ok _ _ (n1, new_Response) ret (n2, res)) by (by rewrite (bind_ok _ _ _ _ _ E)).
    rewrite !(bind_ok _ _ _ _ _ (strm_modify _ _ _)). by destruct ret.
Qed.

(** One whose connection throws leaves the socket as it is. *)
Lemma with_client_throws fuel cli q n c n1 e n2 res :
  connects cli n c n1 -> q_path q <> [] ->
  conn_process c fuel cli q (n1, new_Response) = (Throw e, (n2, res)) ->
  with_client cli (fun ctx => send_request fuel cli ctx q) n = (Throw e, n2).
Proof.
  intros (_ & _ & Hc) Hp E. unfold with_client, send_request, Client_send.
  destruct (q_path q) as [|x p]; [done|]. destruct c as [sock|sock ssl].
  - destruct Hc as [-> Hn1]. rewrite (bind_ok _ _ _ _ _ (strm_call _ _ _ _ _ Hn1)).
    unfold process_and_close_socket. cbn [conn_process] in E. by rewrite (bind_throw _ _ _ _ _ E).
  - destruct Hc as [-> (n3 & n4 & n5 & E3 & E4 & E5 & E6)].
    rewrite (bind_ok _ _ n true n3) by (unfold call; by rewrite E3). apply bind_throw.
    rewrite (bind_ok _ _ _ _ _ (strm_call _ _ _ _ _ E4)). unfold process_and_close_socket_ssl.
    rewrite (bind_ok _ _ _ _ _ (strm_call _ _ _ _ _ E5)).
    rewrite !(bind_ok _ _ _ _ _ (strm_modify _ _ _)).
    rewrite (bind_ok _ _ _ _ _ (strm_call _ _ _ _ _ E6)). change (1 =? 1) with true. cbn iota.
    cbn [conn_process] in E.
    by rewrite (bind_throw _ _ (n1, new_Response) e (n2, res)) by (by apply bind_throw).
Qed.

Lemma conn_exchange c fuel cli q a t ans body rest n :
  conn_live c n -> path_spec (q_path q) = Some (a, t) ->
  head_fits cli q true (a ++ encode_url t) ->
  conn_incoming c n = answer_text ans -> answer_ok ans -> answer_body (q_method q) ans body rest ->
  Z.of_nat (length body) < 2 ^ 63 -> (length (answer_text ans) < fuel)%nat ->
  exists n' close,
    conn_process c fuel cli q (n, new_Response) = (Ok (true, close), (n', answer_response ans body)) /\
    conn_outgoing c n' = conn_outgoing c n ++ request_text cli q true (a ++ encode_url t).
Proof.
  destruct c as [sock|sock ssl]; intros Hl Hp Hfit Hi Ha Hb Hm Hf;
    [destruct (process_request_exchange (SL := socket_laws sock) fuel cli q true a t ans body rest n)
      as (n' & close & E & _ & _ & Ho)
    |destruct (process_request_exchange (SL := ssl_laws sock ssl) fuel cli q true a t ans body rest n)
      as (n' & close & E & _ & _ & Ho)]; try done; exists n', close; by split.
Qed.

Lemma conn_throws c fuel cli q a t ans e n :
  conn_live c n -> path_spec (q_path q) = Some (a, t) ->
  head_fits cli q true (a ++ encode_url t) ->
  conn_incoming c n = answer_text ans -> answer_ok ans -> bad_chunks (q_method q) ans e ->
  (length (answer_text ans) < fuel)%nat ->
  exists n' res, conn_process c fuel cli q (n, new_Response) = (Throw e, (n', res)).
Proof.
  destruct c as [sock|sock ssl]; intros;
    [by apply (process_request_throws (SL := socket_laws sock) fuel cli q true a t ans e n)
    |by apply (process_request_throws (SL := ssl_laws sock ssl) fuel cli q true a t ans e n)].
Qed.

Lemma conn_short c fuel cli q a t ans n :
  conn_live c n -> path_spec (q_path q) = Some (a, t) ->
  head_fits cli q true (a ++ encode_url t) ->
  conn_incoming c n = answer_text ans -> answer_ok ans -> short_body (q_method q) ans ->
  (length (answer_text ans) < fuel)%nat ->
  exists n' res close,
    conn_process c fuel cli q (n, new_Response) = (Ok (false, close), (n', res)).
Proof.
  destruct c as [sock|sock ssl]; intros;
    [by apply (process_request_short (SL := socket_laws sock) fuel cli q true a t ans n)
    |by apply (process_request_short (SL := ssl_laws sock ssl) fuel cli q true a t ans n)].
Qed.

(** The thread of a fetch is the request of its call. *)
Lemma fetch_thread_send fuel other fetch_object r call n :
  dispatch r = Some call ->
  fetch_thread (H := http_native fuel other) fetch_object r n =
    match with_client (make_client (is_ssl r) (hostname r))
      (fun ctx => send_request fuel (make_client (is_ssl r) (hostname r)) ctx (call_request call)) n with
    | (Ok (Some response), n') =>
        (Ok [(Resolve (fetch_object response), Some (FetchResponse_capacity (H := other) response))], n')
    | (Ok None, n') => (Ok [(Reject (to_v8_string (L "unable to fetch")), None)], n')
    | (Throw _, n') => (Crash "std::terminate", n')
    | (Crash w, n') => (Crash w, n')
    end.
Proof.
  intros Hd. unfold fetch_thread. rewrite Hd. unfold client, http_native, http_client.
  replace (call_client fuel _ call) with (fun ctx => send_request fuel
    (make_client (is_ssl r) (hostname r)) ctx (call_request call)) by (by destruct call).
  by destruct (with_client _ _ n) as [[[]|e|w] n'].
Qed.

(** ** The properties *)

(** A request the client can write: its path is matched as [a] and [t], and
    its lines are not too long. *)
Definition request_ok (cli : Client) (q : Request) (a t : bytes) : Prop :=
  q_path q <> [] /\ path_spec (q_path q) = Some (a, t) /\
  head_fits cli q true (a ++ encode_url t).

(** C9 (functional).  [http.fetch] from the dispatched request to the socket:
    when the server the host name leads to answers, the thread resolves the promise with
    an object that holds the version, status, headers and body of that answer;
    over the one connection it opened, and closed, it sent exactly the request
    of the script. *)
Theorem fetch_exchange fuel other fetch_object r call n c n1 a t ans body rest :
  dispatch r = Some call ->
  connects (make_client (is_ssl r) (hostname r)) n c n1 ->
  request_ok (make_client (is_ssl r) (hostname r)) (call_request call) a t ->
  conn_incoming c n1 = answer_text ans -> answer_ok ans ->
  answer_body (q_method (call_request call)) ans body rest ->
  Z.of_nat (length body) < 2 ^ 63 -> (length (answer_text ans) < fuel)%nat ->
  exists n2,
    fetch_thread (H := http_native fuel other) fetch_object r n =
      (Ok [(Resolve (fetch_object (answer_response ans body)),
            Some (FetchResponse_capacity (H := other) (answer_response ans body)))],
       disconnect c n2) /\
    conn_outgoing c n2 =
      request_text (make_client (is_ssl r) (hostname r)) (call_request call) true (a ++ encode_url t).
Proof.
  intros Hd Hc (Hne & Hp & Hfit) Hi Ha Hb Hm Hf. pose proof Hc as (Hl & Ho & _).
  destruct (conn_exchange c fuel _ _ a t ans body rest n1 Hl Hp Hfit Hi Ha Hb Hm Hf)
    as (n2 & close & E & Ho2).
  exists n2. rewrite Ho2, Ho. split; [|done]. rewrite (fetch_thread_send _ _ _ _ _ _ Hd).
  by rewrite (with_client_returns _ _ _ _ _ _ _ _ _ _ Hc Hne E).
Qed.

(** C10 (error).  A server can end the process of a script that fetches from
    it: when it announces chunks and the first size is no number, the exception
    of [std::stoi] is not caught on its way out of the thread. *)
Theorem fetch_bad_chunk_terminates fuel other fetch_object r call n c n1 a t ans e :
  dispatch r = Some call ->
  connects (make_client (is_ssl r) (hostname r)) n c n1 ->
  request_ok (make_client (is_ssl r) (hostname r)) (call_request call) a t ->
  conn_incoming c n1 = answer_text ans -> answer_ok ans ->
  bad_chunks (q_method (call_request call)) ans e ->
  (length (answer_text ans) < fuel)%nat ->
  fst (fetch_thread (H := http_native fuel other) fetch_object r n) = Crash "std::terminate".
Proof.
  intros Hd Hc (Hne & Hp & Hfit) Hi Ha Hb Hf. pose proof Hc as (Hl & _ & _).
  destruct (conn_throws c fuel _ _ a t ans e n1 Hl Hp Hfit Hi Ha Hb Hf) as (n2 & res & E).
  by rewrite (fetch_thread_send _ _ _ _ _ _ Hd), (with_client_throws _ _ _ _ _ _ _ _ _ Hc Hne E).
Qed.

(** C27 (error).  An answer that ends before the length it announced is not
    taken for a body: the promise is rejected. *)
Theorem fetch_truncated_rejected fuel other fetch_object r call n c n1 a t ans :
  dispatch r = Some call ->
  connects (make_client (is_ssl r) (hostname r)) n c n1 ->
  request_ok (make_client (is_ssl r) (hostname r)) (call_request call) a t ->
  conn_incoming c n1 = answer_text ans -> answer_ok ans ->
  short_body (q_method (call_request call)) ans ->
  (length (answer_text ans) < fuel)%nat ->
  exists n2, fetch_thread (H := http_native fuel other) fetch_object r n =
    (Ok [(Reject (to_v8_string (L "unable to fetch")), None)], disconnect c n2).
Proof.
  intros Hd Hc (Hne & Hp & Hfit) Hi Ha Hb Hf. pose proof Hc as (Hl & _ & _).
  destruct (conn_short c fuel _ _ a t ans n1 Hl Hp Hfit Hi Ha Hb Hf) as (n2 & res & close & E).
  exists n2. by rewrite (fetch_thread_send _ _ _ _ _ _ Hd), (with_client_returns _ _ _ _ _ _ _ _ _ _ Hc Hne E).
Qed.
End connections.

(** (safety).  A header value is sent as it is: one with a line break in
    it is sent as two headers, the second of the script's choice. *)
Theorem header_value_splits k v k' v' :
  0 ∉ k ++ v ++ k' ++ v' ->
  header_text (k, v ++ crlf ++ k' ++ L ": " ++ v') = header_text (k, v) ++ header_text (k', v').
Proof.
  intros H0. rewrite !not_elem_of_app in H0. destruct H0 as (Hk & Hv & Hk' & Hv').
  unfold header_text. cbn [fst snd].
  assert (c_str (v ++ crlf ++ k' ++ L ": " ++ v') = v ++ crlf ++ k' ++ L ": " ++ v') as ->.
  { apply c_str_id. rewrite !not_elem_of_app. split_and!; try done;
      by apply (bool_decide_unpack _). }
  rewrite !c_str_id by done. by rewrite <- !app_assoc.
Qed.

(** ** A network

    Every connection is to a server that sends the same bytes. *)
Record net := Net { net_answer : bytes; net_open : gmap nat tape }.

Definition net_connect (n : net) : option nat * net :=
  let sock := fresh (dom (net_open n)) in
  (Some sock, Net (net_answer n) (<[sock := Tape (net_answer n) []]> (net_open n))).

(** An operation on the tape of a socket. *)
Definition net_tape {A} (sock : nat) (f : tape -> A * tape) (closed : A) (n : net) : A * net :=
  match net_open n !! sock with
  | Some k => let '(a, k') := f k in (a, Net (net_answer n) (<[sock := k']> (net_open n)))
  | None => (closed, n)
  end.

Definition one_server : Network net := {|
  create_client_socket _ _ := net_connect;
  select_read _ n := (1, n);
  recv sock size := net_tape sock (tape_read size) ReadError;
  send sock ptr := net_tape sock (tape_write ptr) (-1);
  close_socket sock n := Net (net_answer n) (delete sock (net_open n));
  SSL_CTX_new n := (true, n);
  SSL_CTX_free n := n;
  SSL_new sock n := (Some sock, n);
  SSL_set_tlsext_host_name _ _ n := n;
  SSL_CTX_set_verify_none n := n;
  SSL_connect _ n := (1, n);
  SSL_pending _ _ := 0;
  SSL_read ssl size := net_tape ssl (tape_read size) ReadError;
  SSL_write ssl ptr := net_tape ssl (tape_write ptr) (-1);
  SSL_shutdown _ n := n;
  SSL_free _ n := n;
|}.

#[local] Existing Instance one_server.

Lemma net_tape_sockets {A} sock f (a : A) n : dom (net_open (snd (net_tape sock f a n))) = dom (net_open n).
Proof.
  unfold net_tape. destruct (net_open n !! sock) as [k|] eqn:E; [|done].
  destruct (f k) as [a' k']. cbn [snd net_open].
  rewrite dom_insert_L. apply elem_of_dom_2 in E. set_solver.
Qed.

Lemma one_server_sockets : SocketLaws net.
Proof.
  refine {| sockets n := dom (net_open n) |}; intros; try done; try apply net_tape_sockets.
  - cbn. split; [apply is_fresh|]. by rewrite dom_insert_L.
  - cbn. by rewrite dom_delete_L.
Defined.

Definition net_in (sock : nat) (n : net) : bytes :=
  match net_open n !! sock with Some k => t_in k | None => [] end.
Definition net_out (sock : nat) (n : net) : bytes :=
  match net_open n !! sock with Some k => t_out k | None => [] end.

Lemma net_read_law sock size n :
  is_Some (net_open n !! sock) -> (0 < size)%nat ->
  exists m n', net_tape sock (tape_read size) ReadError n = (ReadBytes (take m (net_in sock n)), n') /\
    (m <= size)%nat /\ (net_in sock n <> [] -> 0 < m)%nat /\
    is_Some (net_open n' !! sock) /\ net_in sock n' = drop m (net_in sock n) /\
    net_out sock n' = net_out sock n.
Proof.
  intros [k E] Hs. unfold net_tape, net_in, net_out. rewrite E.
  destruct (tape_read_law size k Hs) as (m & -> & Hm & Hpos).
  eexists m, _. split; [done|]. cbn [net_open]. rewrite lookup_insert_eq. eauto.
Qed.

Lemma net_write_law sock ptr n :
  is_Some (net_open n !! sock) ->
  exists m n', net_tape sock (tape_write ptr) (-1) n = (m, n') /\
    is_Some (net_open n' !! sock) /\ net_in sock n' = net_in sock n /\
    net_out sock n' = net_out sock n ++ ptr.
Proof.
  intros [k E]. unfold net_tape, net_in, net_out. rewrite E. cbn [tape_write].
  eexists _, _. split; [done|]. cbn [net_open]. rewrite lookup_insert_eq. eauto.
Qed.

Lemma one_server_socket sock : StreamLaws net (H := SocketStream sock).
Proof.
  refine {| live n := is_Some (net_open n !! sock) : Prop;
            incoming := net_in sock; outgoing := net_out sock |}.
  - intros size n Hn Hs. destruct (net_read_law sock size n Hn Hs) as (m & n' & E & H').
    exists m, n'. split; [|exact H'].
    unfold read, SocketStream, SocketStream_read, call, mbind, M_bind. cbn. by rewrite E.
  - intros ptr n Hn. destruct (net_write_law sock ptr n Hn) as (m & n' & E & H').
    exists m, n'. split; [|exact H']. unfold write, SocketStream, SocketStream_write, call. cbn. by rewrite E.
Defined.

Lemma one_server_ssl sock ssl : StreamLaws net (H := SSLSocketStream sock ssl).
Proof.
  refine {| live n := is_Some (net_open n !! ssl) : Prop;
            incoming := net_in ssl; outgoing := net_out ssl |}.
  - intros size n Hn Hs. destruct (net_read_law ssl size n Hn Hs) as (m & n' & E & H').
    exists m, n'. split; [|exact H'].
    unfold read, SSLSocketStream, SSLSocketStream_read, call, get, mbind, M_bind. cbn. by rewrite E.
  - intros ptr n Hn. destruct (net_write_law ssl ptr n Hn) as (m & n' & E & H').
    exists m, n'. split; [|exact H'].
    unfold write, SSLSocketStream, SSLSocketStream_write, call. cbn. by rewrite E.
Defined.

Definition one_server_laws : NetworkLaws net :=
  {| socket_laws := one_server_socket; ssl_laws := one_server_ssl |}.

#[local] Existing Instances one_server_sockets one_server_laws.

(** ** The properties at a concrete input *)

#[local] Existing Instance ascii_strings.

Definition no_client : Native net := {|
  client _ _ _ n := (Ok None, n);
  bcrypt_gensalt _ n := ((0, []), n);
  bcrypt_hashpw _ salt := (0, salt);
  bcrypt_checkpw _ _ := 0;
  capacity_of b := Z.of_nat (length b);
|}.

(** A server that gives an answer to each connection, and the connection a
    client opens to it. *)
Definition serving (ans : answer) : net := Net (answer_text ans) ∅.
Definition sock0 : nat := fresh (dom (∅ : gmap nat tape)).
Definition connected (ans : answer) : net :=
  Net (answer_text ans) (<[sock0 := Tape (answer_text ans) []]> ∅).

Lemma connected_open ans : net_open (connected ans) !! sock0 = Some (Tape (answer_text ans) []).
Proof. apply lookup_insert_eq. Qed.

Lemma connects_serving cli ans :
  connects cli (serving ans) (if client_is_ssl cli then Ssl sock0 sock0 else Plain sock0) (connected ans).
Proof.
  assert (is_Some (net_open (connected ans) !! sock0)) as Hl by (rewrite connected_open; eauto).
  assert (net_out sock0 (connected ans) = []) as Ho by (unfold net_out; by rewrite connected_open).
  unfold connects. destruct (client_is_ssl cli); split_and!; try done. by eexists _, _, _.
Qed.

Lemma incoming_serving cli ans :
  conn_incoming (if client_is_ssl cli then Ssl sock0 sock0 else Plain sock0) (connected ans)
    = answer_text ans.
Proof.
  assert (net_in sock0 (connected ans) = answer_text ans) as Hi
    by (unfold net_in; by rewrite connected_open).
  by destruct (client_is_ssl cli).
Qed.

Definition get_request (ssl : bool) : FetchRequest :=
  {| is_ssl := ssl; hostname := L "h"; path := L "/a b"; method := L "GET"; body := []; headers := [] |}.

Definition get_call : client_call := Get (L "/a b") [].

Lemma get_request_ok ssl :
  request_ok (make_client ssl (L "h")) (call_request get_call) [] (L "/a b").
Proof.
  split_and!; [done|reflexivity|].
  destruct ssl; (split; [by apply (bool_decide_unpack _); vm_compute|]);
    apply (bool_decide_unpack _); by vm_compute.
Qed.

Definition an_answer (line : bytes) (payload : bytes) : answer :=
  {| a_minor := 49; a_status := 200; a_reason := L "OK"; a_lines := [line]; a_payload := payload |}.

Lemma an_answer_ok line payload : line <> [] -> 10 ∉ line -> answer_ok (an_answer line payload).
Proof.
  intros Hne Hl. split_and!; [done|done|done| |by repeat constructor].
  change (L "OK") with [79; 75]. by repeat constructor.
Qed.

Definition chunked_line : bytes := L "Transfer-Encoding: chunked".

Lemma fetch_exchange_witness :
  exists n2,
    fetch_thread (H := http_native 200 no_client) (fun _ => VNull) (get_request true)
        (serving (an_answer chunked_line (chunks_text [L "ab"; L "c"]))) =
      (Ok [(Resolve VNull, Some (FetchResponse_capacity (H := no_client)
        (answer_response (an_answer chunked_line (chunks_text [L "ab"; L "c"])) (L "abc"))))],
       disconnect (Ssl sock0 sock0) n2) /\
    conn_outgoing (Ssl sock0 sock0) n2 =
      L "GET /a%20b HTTP/1.1" ++ crlf ++ L "Accept: */*" ++ crlf ++ L "Connection: close" ++ crlf ++
      L "Content-Length: 0" ++ crlf ++ L "Host: h" ++ crlf ++ L "User-Agent: cpp-httplib/0.5" ++ crlf ++
      crlf.
Proof.
  apply (fetch_exchange 200 no_client (fun _ => VNull) (get_request true) get_call
    (serving (an_answer chunked_line (chunks_text [L "ab"; L "c"]))) (Ssl sock0 sock0)
    (connected (an_answer chunked_line (chunks_text [L "ab"; L "c"]))) [] (L "/a b")
    (an_answer chunked_line (chunks_text [L "ab"; L "c"])) (L "abc") []).
  - reflexivity.
  - apply (connects_serving (make_client true (L "h"))).
  - apply get_request_ok.
  - apply (incoming_serving (make_client true (L "h"))).
  - apply an_answer_ok; [done|]. by apply (bool_decide_unpack _).
  - split; [|by vm_compute].
    apply (framed_chunks _ [L "ab"; L "c"] []); [reflexivity|by repeat constructor].
  - reflexivity.
  - apply Nat.ltb_lt. reflexivity.
Defined.

Lemma fetch_bad_chunk_terminates_witness :
  fst (fetch_thread (H := http_native 200 no_client) (fun _ => VNull) (get_request false)
    (serving (an_answer chunked_line (L "no" ++ crlf)))) = Crash "std::terminate".
Proof.
  apply (fetch_bad_chunk_terminates 200 no_client (fun _ => VNull) (get_request false) get_call
    (serving (an_answer chunked_line (L "no" ++ crlf))) (Plain sock0)
    (connected (an_answer chunked_line (L "no" ++ crlf))) [] (L "/a b")
    (an_answer chunked_line (L "no" ++ crlf)) (StdException "invalid stoi argument")).
  - reflexivity.
  - apply (connects_serving (make_client false (L "h"))).
  - apply get_request_ok.
  - apply (incoming_serving (make_client false (L "h"))).
  - apply an_answer_ok; [done|]. by apply (bool_decide_unpack _).
  - split_and!; [reflexivity|by vm_compute|reflexivity|].
    exists (L "no" ++ [13]), []. split_and!; [reflexivity| |reflexivity].
    by apply (bool_decide_unpack _).
  - apply Nat.ltb_lt. reflexivity.
Defined.

Definition length_line : bytes := L "Content-Length: 3".

Lemma fetch_truncated_rejected_witness :
  exists n2, fetch_thread (H := http_native 200 no_client) (fun _ => VNull) (get_request false)
      (serving (an_answer length_line (L "ab"))) =
    (Ok [(Reject (to_v8_string (L "unable to fetch")), None)], disconnect (Plain sock0) n2).
Proof.
  apply (fetch_truncated_rejected 200 no_client (fun _ => VNull) (get_request false) get_call
    (serving (an_answer length_line (L "ab"))) (Plain sock0)
    (connected (an_answer length_line (L "ab"))) [] (L "/a b") (an_answer length_line (L "ab"))).
  - reflexivity.
  - apply (connects_serving (make_client false (L "h"))).
  - apply get_request_ok.
  - apply (incoming_serving (make_client false (L "h"))).
  - apply an_answer_ok; [done|]. by apply (bool_decide_unpack _).
  - split_and!; [reflexivity|by vm_compute|reflexivity|reflexivity|reflexivity|reflexivity].
  - apply Nat.ltb_lt. reflexivity.
Defined.

Lemma client_closes_socket_witness :
  match send_request 200 (make_client false (L "h")) true (call_request get_call)
          (serving (an_answer length_line (L "ab"))) with
  | (Ok _, n') => sockets n' = sockets (serving (an_answer length_line (L "ab")))
  | (_, n') => exists sock, (sock ∉ sockets (serving (an_answer length_line (L "ab")))) /\
      sockets n' = opened sock (sockets (serving (an_answer length_line (L "ab"))))
  end.
Proof. apply client_closes_socket. done. Defined.

Lemma header_value_splits_witness :
  header_text (L "A", L "1" ++ crlf ++ L "B" ++ L ": " ++ L "2")
    = header_text (L "A", L "1") ++ header_text (L "B", L "2").
Proof. apply header_value_splits. by apply (bool_decide_unpack _). Defined.
