(* ===== verification/Db.v ===== *)
(** * The methods of the db object made by [initialize_objects], and the work
    of its threads, on one context

    cppdb is not part of the repository (only its headers are): [CppDb] is the
    interface to a [DbContext], the session with its statement and result. *)
From S2P Require Import Prelude Values Async.

(** A value bound to a statement, and the column of a result. *)
Inductive db_value :=
| DbNull
| DbString (s : bytes)
| DbInt (z : Z)
| DbDouble (f : spec_float).

Inductive column := ByIndex (i : Z) | ByName (name : bytes).

(** The operations on a [DbContext]; each can throw a [cppdb_error]. *)
Class CppDb (D : Type) := {
  session_open : bytes -> M D unit;
  (** [statement = session.prepare(query)] *)
  session_prepare : bytes -> M D unit;
  session_close : M D unit;
  (** The assignments of fresh objects. *)
  fresh_session : D -> D;
  fresh_statement : D -> D;
  fresh_result : D -> D;
  statement_reset : M D unit;
  statement_exec : M D unit;
  (** [result = statement.query()] and [result = statement.row()] *)
  statement_query : M D unit;
  statement_row : M D unit;
  statement_bind : Z -> db_value -> M D unit;
  (** [statement = statement.bind(value)] *)
  statement_bind_next : db_value -> M D unit;
  result_empty : D -> bool;
  result_next : M D bool;
  result_is_null : column -> M D bool;
  result_get_string : column -> M D bytes;
  result_get_int : column -> M D Z;
  result_get_double : column -> M D spec_float;
  (** V8: [ToString], empty when it throws. *)
  ToString : value -> option wstring;
}.

Inductive DB_DATA_TYPES := STRING | INTEGER | DOUBLE | BOOL | BINARY.

Definition data_type_of_int (z : Z) : option DB_DATA_TYPES :=
  if z =? 0 then Some STRING
  else if z =? 1 then Some INTEGER
  else if z =? 2 then Some DOUBLE
  else if z =? 3 then Some BOOL
  else if z =? 4 then Some BINARY
  else None.

Inductive db_job := JExec | JQuery | JQueryRow.

Section db.
Context {D : Type} `{CppDb D} `{V8Strings}.

Definition check_db (args : callback_info) (msg : string) : M D unit :=
  throw_if (negb (this_field args)) msg.

Definition db_prepare : handler D := fun args =>
  _ ← check_db args "invalid db context for prepare";
  _ ← throw_if (args_Length args <? 1) "invalid function signature for prepare";
  _ ← throw_if (negb (IsString (arg args 0)))
        "invalid first parameter, must be a string for prepare";
  query ← from_v8_string (arg args 0);
  _ ← session_prepare query;
  mret VUndefined.

Definition db_reset : handler D := fun args =>
  _ ← check_db args "invalid db context for reset";
  _ ← statement_reset; mret VUndefined.

Definition db_execSync : handler D := fun args =>
  _ ← check_db args "invalid db context for exec";
  _ ← statement_exec; mret VUndefined.

Definition db_querySync : handler D := fun args =>
  _ ← check_db args "invalid db context for query";
  _ ← statement_query; mret VUndefined.

Definition db_queryRowSync : handler D := fun args =>
  _ ← check_db args "invalid db context for row";
  _ ← statement_row;
  d ← get; mret (to_v8_bool (negb (result_empty d))).

Definition db_close : handler D := fun args =>
  _ ← check_db args "invalid db context for close";
  _ ← session_close;
  _ ← modify fresh_session;
  _ ← modify fresh_statement;
  _ ← modify fresh_result;
  mret VUndefined.

Definition db_next : handler D := fun args =>
  _ ← check_db args "invalid db context for next";
  b ← result_next; mret (to_v8_bool b).

(** *** [fetch] *)

Definition fetch_column (v : value) : M D column :=
  if IsString v then name ← from_v8_string v; mret (ByName name)
  else if IsInt32 v then i ← from_v8_int v; mret (ByIndex i)
  else raise "invalid second parameter must be an integer (32-bit only) or string".

(** The [switch]; [get<int>] of a BOOL is compared with 0. *)
Definition fetch_as (data_type : Z) (col : column) : M D value :=
  match data_type_of_int data_type with
  | Some STRING => s ← result_get_string col; mret (to_v8_string s)
  | Some INTEGER => z ← result_get_int col; mret (to_v8_int z)
  | Some DOUBLE => f ← result_get_double col; mret (VNumber f)
  | Some BOOL => z ← result_get_int col; mret (to_v8_bool (negb (z =? 0)))
  | _ => raise "unknown data type for fetch"
  end.

Definition db_fetch : handler D := fun args =>
  _ ← check_db args "invalid db context for fetch";
  _ ← throw_if (args_Length args <? 2) "not enough arugments for fetch";
  _ ← throw_if (negb (IsInt32 (arg args 0)))
        "invalid first parameter must be an integer (32-bit only)";
  data_type ← from_v8_int (arg args 0);
  col ← fetch_column (arg args 1);
  null ← result_is_null col;
  if null : bool then mret VNull else fetch_as data_type col.

(** *** [bind] *)

(** The chain of tests on the value; a [bool] is bound as an [int]. *)
Definition bind_value (input_value : value) : M D db_value :=
  if IsString input_value then s ← from_v8_string input_value; mret (DbString s)
  else if IsInt32 input_value then z ← from_v8_int input_value; mret (DbInt z)
  else if IsBoolean input_value then
    b ← from_v8_bool input_value; mret (DbInt (if b : bool then 1 else 0))
  else if IsNumber input_value then f ← from_v8_double input_value; mret (DbDouble f)
  else if IsNullOrUndefined input_value then mret DbNull
  else
    match ToString input_value with
    | None => raise "invalid type provided."
    | Some to_string => mret (DbString (Utf8Value to_string))
    end.

Definition db_bind : handler D := fun args =>
  _ ← check_db args "invalid db context for bind";
  _ ← throw_if (args_Length args <? 1) "not enough arugments for bind";
  let with_index := 1 <? args_Length args in
  let input_value := arg args (if with_index then 1 else 0) in
  _ ← throw_if (with_index && negb (IsInt32 (arg args 0))) "invalid index type for bind";
  index ← (if with_index then from_v8_int (arg args 0) else mret 0);
  v ← bind_value input_value;
  _ ← (if with_index then statement_bind index v else statement_bind_next v);
  mret VUndefined.

(** *** The threads of [exec], [query] and [queryRow] *)

(** [catch (std::exception const &e) { error_message = e.what(); }], and a
    promise that is rejected when the message is not empty. *)
Definition settle_by (m : M D unit) (result : D -> value)
  : D -> outcome settlements * D := fun d =>
  match m d with
  | (Ok _, d') => (Ok [(Resolve (result d'), None)], d')
  | (Throw e, d') =>
      (Ok [(if bool_decide (what e = EmptyString) then Resolve (result d')
            else Reject (to_v8_string (L (what e))), None)], d')
  | (Crash w, d') => (Crash w, d')
  end.

Definition db_thread (j : db_job) : D -> outcome settlements * D :=
  match j with
  | JExec => settle_by statement_exec (fun _ => VUndefined)
  | JQuery => settle_by statement_query (fun _ => VUndefined)
  | JQueryRow => settle_by statement_row (fun d => to_v8_bool (negb (result_empty d)))
  end.

End db.

(** ** Laws *)

(** What cppdb documents of a result: every column of the row has a value,
    [is_null] and [get] look at it. *)
Class CppDbLaws (D : Type) `{CppDb D} := {
  cell : D -> column -> db_value;
  is_null_spec c d :
    result_is_null c d = (Ok (match cell d c with DbNull => true | _ => false end), d);
  get_string_spec c d s : cell d c = DbString s -> result_get_string c d = (Ok s, d);
  get_int_spec c d z : cell d c = DbInt z -> result_get_int c d = (Ok z, d);
  get_double_spec c d f : cell d c = DbDouble f -> result_get_double c d = (Ok f, d);
}.

Section db_properties.
Context {D : Type} `{CppDb D} `{V8Strings}.

(** The type code a value is fetched with. *)
Definition code_of (v : value) : Z :=
  match v with
  | VString _ => 0
  | VNumber f => if is_int32_sf f then 1 else 2
  | VBoolean _ => 3
  | _ => 0
  end.

(** The values [bind] stores without a conversion by [ToString]. *)
Definition storable `{!V8StringsLaws} (v : value) : Prop :=
  match v with
  | VString s => well_formed s
  | VNumber f => is_int32_sf f = true -> exists z, f = num z
  | VBoolean _ | VNull => True
  | _ => False
  end.

Lemma fetch_column_index i (d : D) : - 2 ^ 31 <= i < 2 ^ 31 -> fetch_column (VInt i) d = (Ok (ByIndex i), d).
Proof.
  intros Hi. unfold fetch_column. change (IsString (VInt i)) with false.
  rewrite IsInt32_num by done. by rewrite (bind_from_v8_int _ i).
Qed.

Lemma fetch_arguments_eq code v1 col d :
  - 2 ^ 31 <= code < 2 ^ 31 ->
  fetch_column v1 d = (Ok col, d) ->
  db_fetch {| this_field := true; argv := [VInt code; v1] |} d =
    (null ← result_is_null col; if null : bool then mret VNull else fetch_as code col) d.
Proof.
  intros Hc Hcol. unfold db_fetch, check_db. rewrite !bind_throw_if by done.
  change (arg _ 0) with (VInt code). change (arg _ 1) with v1.
  rewrite bind_throw_if, (bind_from_v8_int _ code) by (done || by rewrite IsInt32_num).
  by rewrite (bind_ok _ _ d col d).
Qed.

Context `{!V8StringsLaws} `{!CppDbLaws D}.

(** C23 (roundtrip).  A column that holds what [bind] stored for a string, a
    number, a boolean or null gives the same value back when [fetch] asks
    for its type, whatever the type code for null. *)
Theorem db_bind_fetch v d d' dv i :
  storable v -> bind_value v d' = (Ok dv, d') -> - 2 ^ 31 <= i < 2 ^ 31 ->
  cell d (ByIndex i) = dv ->
  db_fetch {| this_field := true; argv := [VInt (code_of v); VInt i] |} d = (Ok v, d).
Proof.
  intros Hv Hb Hi Hcell.
  assert (- 2 ^ 31 <= code_of v < 2 ^ 31) as Hcode by (destruct v; simpl; try lia; by case_match).
  rewrite (fetch_arguments_eq _ _ (ByIndex i)).
  2: done.
  2: by apply fetch_column_index.
  rewrite (bind_ok _ _ _ _ _ (is_null_spec (ByIndex i) d)). rewrite Hcell.
  destruct v as [| |b|f|s| |?|?|?|?]; try done; unfold bind_value in Hb; cbn in Hb.
  - injection Hb as <-. done.
  - injection Hb as <-. unfold fetch_as. cbn.
    rewrite (bind_ok _ _ _ _ _ (get_int_spec _ _ _ Hcell)). by destruct b.
  - unfold code_of. destruct (is_int32_sf f) eqn:Ef.
    + injection Hb as <-. unfold fetch_as. cbn.
      rewrite (bind_ok _ _ _ _ _ (get_int_spec _ _ _ Hcell)).
      destruct (Hv Ef) as [z ->]. unfold to_v8_int.
      rewrite to_int32_num, i32_small; [|apply i32_range].
      assert (i32 z = z) as ->; [|done].
      apply i32_small. destruct z as [|p|p]; [lia|..]; simpl in Ef;
        rewrite !Z.shiftl_0_r in Ef; apply andb_true_iff in Ef as [[_ ?]%andb_true_iff ?]; lia.
    + injection Hb as <-. unfold fetch_as. cbn.
      by rewrite (bind_ok _ _ _ _ _ (get_double_spec _ _ _ Hcell)).
  - injection Hb as <-. unfold fetch_as. cbn.
    rewrite (bind_ok _ _ _ _ _ (get_string_spec _ _ _ Hcell)).
    unfold to_v8_string. by rewrite NewFromUtf8_Utf8Value.
Qed.

(** (error).  A [bind] with an index that is not a 32-bit integer throws
    and binds nothing; with one it binds at that index, alone it binds the
    next parameter. *)
Theorem db_bind_index v w rest d :
  (IsInt32 v = false ->
     db_bind {| this_field := true; argv := v :: w :: rest |} d
       = (Throw (StdException "invalid index type for bind"), d)) ∧
  (forall i, v = VInt i -> - 2 ^ 31 <= i < 2 ^ 31 ->
     db_bind {| this_field := true; argv := v :: w :: rest |} d
       = (dv ← bind_value w; _ ← statement_bind i dv; mret VUndefined) d) ∧
  db_bind {| this_field := true; argv := [v] |} d
    = (dv ← bind_value v; _ ← statement_bind_next dv; mret VUndefined) d.
Proof.
  assert (1 <? args_Length {| this_field := true; argv := v :: w :: rest |} = true) as Hl.
  { apply Z.ltb_lt. unfold args_Length. cbn [argv length]. lia. }
  unfold db_bind, check_db. rewrite !bind_throw_if by done. rewrite Hl.
  rewrite (bind_throw_if (_ <? 1)) by (apply Z.ltb_ge; apply Z.ltb_lt in Hl; lia).
  change (arg _ 1) with w. change (arg _ 0) with v. cbn [andb].
  split_and!.
  - intros Hv. by rewrite bind_throw_if_true by (by rewrite Hv).
  - intros i -> Hi. by rewrite bind_throw_if, (bind_from_v8_int _ i) by
      (done || by rewrite IsInt32_num).
  - by rewrite bind_throw_if.
Qed.
End db_properties.

(** ** The properties at a concrete input *)

(** A context is the row of its result; binding stores at the index. *)
Definition row_db : CppDb (column -> db_value) := {|
  session_open _ := mret ();
  session_prepare _ := mret ();
  session_close := mret ();
  fresh_session := id; fresh_statement := id; fresh_result := id;
  statement_reset := mret (); statement_exec := mret (); statement_query := mret ();
  statement_row := mret ();
  statement_bind i v := modify (fun row c =>
    match c with ByIndex j => if j =? i then v else row c | _ => row c end);
  statement_bind_next v := modify (fun row c =>
    match c with ByIndex 0 => v | _ => row c end);
  result_empty _ := false;
  result_next := mret false;
  result_is_null c row := (Ok (match row c with DbNull => true | _ => false end), row);
  result_get_string c row := (match row c with DbString s => Ok s | _ => Ok [] end, row);
  result_get_int c row := (match row c with DbInt z => Ok z | _ => Ok 0 end, row);
  result_get_double c row := (match row c with DbDouble f => Ok f | _ => Ok S754_nan end, row);
  ToString _ := None;
|}.

Lemma row_db_laws : CppDbLaws (column -> db_value) (H := row_db).
Proof.
  refine {| cell := (fun row c => row c) : (column -> db_value) -> column -> db_value |};
    intros; simpl; try rewrite H; done.
Defined.

Lemma ascii_laws : V8StringsLaws (H := ascii_strings).
Proof. by refine {| well_formed _ := True |}. Defined.

#[local] Existing Instances row_db row_db_laws ascii_strings ascii_laws.

Definition one_cell : column -> db_value := fun _ => DbInt 42.

Lemma db_bind_fetch_witness :
  db_fetch {| this_field := true; argv := [VInt 1; VInt 0] |} one_cell = (Ok (VInt 42), one_cell).
Proof.
  apply (db_bind_fetch (VInt 42) one_cell one_cell (DbInt 42) 0);
    [intros _; by exists 42|reflexivity|lia|reflexivity].
Defined.
