(* ===== verification/DbObjects.v ===== *)
(** * The db objects together: [db.init], the methods called on one object,
    their threads, and the collection of an object (v8_wrapper.cpp)

    Every object owns a [DbContext] on the C++ heap, given by its address.  The
    threads of [exec], [query] and [queryRow] capture that address, and the
    weak callback of the object deletes what is there. *)
From S2P Require Import Prelude Values Async Db.

Section db_objects.
Context {D : Type} `{CppDb D} `{V8Strings}.

(** The contexts that were not deleted, by address, and the objects the
    script can still reach: V8 collects none of those. *)
Record db_heap := DbHeap {
  next_context : nat;
  contexts : gmap nat D;
  referenced : gset nat;
}.

Abbreviation db_state := (async_state (nat * db_job) db_heap).

(** What [db.init] starts from: [DbContext()], the object made for an address,
    and [sizeof DbContext]. *)
Variable new_context : D.
Variable db_object : nat -> value.
Variable capacity : Z.

Definition add_context (d : D) (h : db_heap) : db_heap :=
  DbHeap (S (next_context h)) (<[next_context h := d]> (contexts h))
    ({[next_context h]} ∪ referenced h).

Definition set_context (a : nat) (d : D) (h : db_heap) : db_heap :=
  DbHeap (next_context h) (<[a := d]> (contexts h)) (referenced h).

(** A context is opened before the object is made: a session that does not
    open leaves no object. *)
Definition db_init : handler db_state := fun args =>
  _ ← throw_if (args_Length args <? 1) "invalid function signature for db.init";
  _ ← throw_if (negb (IsString (arg args 0)))
        "invalid first parameter, must be a string for db.init";
  connection_info ← from_v8_string (arg args 0);
  match session_open connection_info new_context with
  | (Throw e, _) => throw e
  | (Crash w, _) => crash w
  | (Ok _, d) =>
      st ← get;
      _ ← modify (fun st => set_native (add_context d (native st)) (new_object capacity st));
      mret (db_object (next_context (native st)))
  end.

(** The body of a method on the context at [a]. *)
Definition on_context {A} (a : nat) (m : M D A) : M db_state A := fun st =>
  match contexts (native st) !! a with
  | None => (Crash "use of a deleted DbContext", st)
  | Some d => let '(r, d') := m d in (r, set_native (set_context a d' (native st)) st)
  end.

(** [exec], [query] and [queryRow] of the object at [a]: the thread captures
    the pointer. *)
Definition db_async (j : db_job) (msg : string) (a : nat) : handler db_state := fun args =>
  _ ← throw_if (negb (this_field args)) msg;
  spawn (a, j).

Definition db_exec := db_async JExec "invalid db context for exec".
Definition db_query := db_async JQuery "invalid db context for query".
Definition db_queryRow := db_async JQueryRow "invalid db context for row".

Definition db_methods : list (string * handler D) := [
  ("prepare", db_prepare); ("reset", db_reset); ("execSync", db_execSync);
  ("querySync", db_querySync); ("queryRowSync", db_queryRowSync); ("close", db_close);
  ("next", db_next); ("fetch", db_fetch); ("bind", db_bind)]%string.

Definition db_async_methods : list (string * (nat -> handler db_state)) := [
  ("exec", db_exec); ("query", db_query); ("queryRow", db_queryRow)]%string.

(** The body of a started thread. *)
Definition db_work (job : nat * db_job) (h : db_heap) : outcome settlements * db_heap :=
  match contexts h !! job.1 with
  | None => (Crash "use of a deleted DbContext", h)
  | Some d => let '(r, d') := db_thread job.2 d in (r, set_context job.1 d' h)
  end.

Definition drop_reference (a : nat) (h : db_heap) : db_heap :=
  DbHeap (next_context h) (contexts h) (referenced h ∖ {[a]}).

(** The weak callback of the object at [a]: [delete data.GetParameter()]. *)
Definition delete_context (a : nat) (h : db_heap) : db_heap :=
  DbHeap (next_context h) (delete a (contexts h)) (referenced h).

(** A step: the script makes an object, calls a method of one it reaches or
    forgets one; a thread ends; V8 collects an object nothing reaches. *)
Inductive db_step : relation db_state :=
| db_step_init args v st st' :
    db_init args st = (Ok v, st') -> db_step st st'
| db_step_call a name h args r st st' :
    a ∈ referenced (native st) -> In (name, h) db_methods ->
    on_context a (h {| this_field := true; argv := args |}) st = (r, st') ->
    (forall w, r ≠ Crash w) -> db_step st st'
| db_step_start a name h args v st st' :
    a ∈ referenced (native st) -> In (name, h) db_async_methods ->
    h a {| this_field := true; argv := args |} st = (Ok v, st') -> db_step st st'
| db_step_thread p job before after calls n st :
    running st = before ++ (p, job) :: after ->
    db_work job (native st) = (Ok calls, n) ->
    db_step st (finish p (before ++ after) calls n st)
| db_step_forget a st :
    db_step st (set_native (drop_reference a (native st)) st)
| db_step_collect a before after st :
    is_Some (contexts (native st) !! a) -> a ∉ referenced (native st) ->
    alive st = before ++ capacity :: after ->
    db_step st
      (set_native (delete_context a (native st))
         (Async (next_promise st) (running st) (settled st)
            (external_memory st - capacity) (before ++ after) (native st))).

Definition db_start : db_state := started (DbHeap 0 ∅ ∅).

(** ** Lemmas *)

Lemma db_init_ok args v st st' :
  db_init args st = (Ok v, st') -> exists d,
    st' = set_native (add_context d (native st)) (new_object capacity st).
Proof.
  unfold db_init. intros E.
  apply bind_ok_inv in E as (? & s1 & [_ ->]%throw_if_ok_inv & E).
  apply bind_ok_inv in E as (? & s2 & [_ ->]%throw_if_ok_inv & E).
  apply bind_ok_inv in E as (ci & s3 & E3 & E).
  pose proof (from_v8_string_state (arg args 0) st) as Hs. rewrite E3 in Hs. simpl in Hs. subst s3.
  destruct (session_open ci new_context) as [[[]|e|w] d]; try discriminate E.
  rewrite bind_get, bind_modify in E. injection E as _ <-. by exists d.
Qed.

(** The three asynchronous methods only start a thread on their object. *)
Lemma db_async_ok name h a args v st st' :
  In (name, h) db_async_methods -> h a args st = (Ok v, st') ->
  exists j, st' = snd (spawn (a, j) st).
Proof.
  intros Hin E.
  assert (exists j msg, h = db_async j msg) as (j & msg & ->).
  { simpl in Hin. destruct Hin as [E1|[E1|[E1|[]]]]; injection E1 as _ <-; by do 2 eexists. }
  unfold db_async in E. apply bind_ok_inv in E as (? & s1 & [_ ->]%throw_if_ok_inv & E).
  exists j. by rewrite E.
Qed.

(** A method changes the context it is called on. *)
Lemma on_context_ok {A} a (m : M D A) r st st' :
  on_context a m st = (r, st') -> (forall w, r ≠ Crash w) ->
  exists d d', contexts (native st) !! a = Some d ∧
    st' = set_native (set_context a d' (native st)) st.
Proof.
  unfold on_context. destruct (contexts (native st) !! a) as [d|] eqn:E.
  - destruct (m d) as [r' d']. intros [= -> <-] _. by exists d, d'.
  - intros [= <- <-] Hc. by destruct (Hc "use of a deleted DbContext").
Qed.

(** A thread that returns worked on a context that was there, and made one
    call of its resolver and no object. *)
Lemma db_thread_ok j d calls d' :
  db_thread j d = (Ok calls, d') -> exists s, calls = [(s, None)].
Proof.
  assert (forall m res, settle_by m res d = (Ok calls, d') -> exists s, calls = [(s, None)]) as Hs.
  { intros m res. unfold settle_by. destruct (m d) as [[]]; inversion 1; by eexists. }
  destruct j; apply Hs.
Qed.

Lemma db_work_ok job h calls h' :
  db_work job h = (Ok calls, h') ->
  (exists s, calls = [(s, None)]) ∧
  exists d d', contexts h !! job.1 = Some d ∧ h' = set_context job.1 d' h.
Proof.
  unfold db_work. destruct (contexts h !! job.1) as [d|]; [|discriminate].
  destruct (db_thread job.2 d) as [r d'] eqn:E. intros [= -> <-].
  split; [by eapply db_thread_ok|by exists d, d'].
Qed.

(** ** Invariants *)

(** Addresses below [next_context] only; one object of the size of a
    [DbContext] for every context; what the script reaches is there. *)
Definition heap_ok (st : db_state) : Prop :=
  (forall a, is_Some (contexts (native st) !! a) -> (a < next_context (native st))%nat) ∧
  alive st = replicate (size (contexts (native st))) capacity ∧
  (forall a, a ∈ referenced (native st) -> is_Some (contexts (native st) !! a)).

Lemma heap_ok_set a d' st :
  is_Some (contexts (native st) !! a) -> heap_ok st ->
  heap_ok (set_native (set_context a d' (native st)) st).
Proof.
  intros Ha (H1 & H2 & H3). unfold heap_ok. simpl. split_and!.
  - intros b Hb. destruct (decide (b = a)) as [->|Hne]; [by apply H1|].
    rewrite lookup_insert_ne in Hb by done. by apply H1.
  - rewrite H2. destruct Ha as [d Ha]. by rewrite map_size_insert_Some by (by exists d).
  - intros b Hb. destruct (decide (b = a)) as [->|Hne].
    + rewrite lookup_insert_eq. by eexists.
    + rewrite lookup_insert_ne by done. by apply H3.
Qed.

Lemma heap_ok_step st st' : heap_ok st -> db_step st st' -> heap_ok st'.
Proof.
  intros Hok Hst.
  destruct Hst as [args v st st' E|a name h args r st st' Ha Hin E Hc|a name h args v st st' Ha Hin E
    |p job b c calls n st Hr E|a st|a b c st Ha Hn Hal].
  - apply db_init_ok in E as [d ->]. destruct Hok as (H1 & H2 & H3).
    assert (contexts (native st) !! next_context (native st) = None) as Hnone.
    { apply eq_None_not_Some. intros Hs. apply H1 in Hs. lia. }
    unfold heap_ok. simpl. split_and!.
    + intros a. destruct (decide (a = next_context (native st))) as [->|Hne]; [lia|].
      rewrite lookup_insert_ne by done. intros Hs%H1. lia.
    + rewrite map_size_insert_None by done. by rewrite H2, replicate_S_end.
    + intros a. rewrite elem_of_union, elem_of_singleton. intros [->|Hs%H3].
      * rewrite lookup_insert_eq. by eexists.
      * destruct (decide (a = next_context (native st))) as [->|Hne];
          [rewrite lookup_insert_eq; by eexists|by rewrite lookup_insert_ne].
  - apply on_context_ok in E as (d & d' & Hd & ->); [|done]. apply heap_ok_set; [by exists d|done].
  - destruct (db_async_ok _ _ _ _ _ _ _ Hin E) as [j ->]. done.
  - apply db_work_ok in E as ([? ->] & d & d' & Hd & ->).
    apply (heap_ok_set job.1 d'); [by exists d|done].
  - destruct Hok as (H1 & H2 & H3). unfold heap_ok. simpl. split_and!; [done..|].
    intros b [Hb _]%elem_of_difference. by apply H3.
  - destruct Hok as (H1 & H2 & H3). unfold heap_ok. simpl. split_and!.
    + intros x [_ Hx]%lookup_delete_is_Some. by apply H1.
    + rewrite map_size_delete_Some by done. rewrite Hal in H2. apply (replicate_middle _ _ capacity).
      by rewrite <- H2.
    + intros x Hx. apply lookup_delete_is_Some. split; [by intros ->|by apply H3].
Qed.

Lemma heap_ok_start : heap_ok db_start.
Proof.
  unfold heap_ok. simpl. split_and!; [|done|].
  - intros a [d Hd]. by rewrite lookup_empty in Hd.
  - intros a Ha. by apply not_elem_of_empty in Ha.
Qed.

(** A step of the objects is made of steps of promises and weak objects. *)
Lemma db_step_async st st' : db_step st st' -> rtc (async_step db_work) st st'.
Proof.
  intros Hst.
  destruct Hst as [args v st st' E|a name h args r st st' Ha Hin E Hc|a name h args v st st' Ha Hin E
    |p job b c calls n st Hr E|a st|a b c st Ha Hn Hal].
  - apply db_init_ok in E as [d ->].
    eapply rtc_l; [apply step_new|]. apply rtc_once. apply step_native.
  - apply on_context_ok in E as (d & d' & Hd & ->); [|done]. apply rtc_once, step_native.
  - destruct (db_async_ok _ _ _ _ _ _ _ Hin E) as [j ->]. apply rtc_once, step_spawn.
  - apply rtc_once. by eapply step_finish.
  - apply rtc_once, step_native.
  - eapply rtc_l; [by eapply step_collect|]. apply rtc_once. apply step_native.
Qed.

(** ** The properties *)

(** C29 (refinement).  The db objects of a script, their threads and their
    collection implement the abstract machine of promises and weak objects of
    Async.v; what V8 is told of external memory is [sizeof DbContext] for
    every context that exists. *)
Theorem db_objects_refine st :
  rtc db_step db_start st ->
  rtc (async_step db_work) db_start st ∧
  external_memory st = Z.of_nat (size (contexts (native st))) * capacity.
Proof.
  intros Hreach. split.
  - induction Hreach as [|x y z Hxy _ IH]; [done|].
    transitivity y; [by apply db_step_async|done].
  - pose proof (rtc_invariant _ _ _ _ heap_ok_step heap_ok_start Hreach) as (_ & Hal & _).
    assert (memory_ok st) as Hm.
    { refine (rtc_invariant db_step memory_ok db_start st _ _ Hreach); [|done].
      intros x y Hx Hxy%db_step_async.
      by apply (rtc_invariant (async_step db_work) memory_ok x y (memory_ok_step _)). }
    unfold memory_ok in Hm. by rewrite Hm, Hal, sum_replicate.
Qed.

(** A step of a script that keeps an object until the threads it started on
    it have ended. *)
Definition held_step (st st' : db_state) : Prop :=
  db_step st st' ∧
  forall p a j, (p, (a, j)) ∈ running st -> a ∈ referenced (native st) ->
    a ∈ referenced (native st') ∨ (p, (a, j)) ∉ running st'.

Definition threads_held (st : db_state) : Prop :=
  forall p a j, (p, (a, j)) ∈ running st -> a ∈ referenced (native st).

Lemma threads_held_step st st' : threads_held st -> held_step st st' -> threads_held st'.
Proof.
  intros Href [Hxy Hkeep] p a j Hin.
  destruct Hxy as [args v x y E|a1 name h args r x y Ha _ E Hc|a1 name h args v x y Ha Hin' E
    |q job b c calls n x Hr E|a1 x|a1 b c x Ha Hn Hal].
  - apply db_init_ok in E as [d ->]. simpl in *. apply elem_of_union_r. eauto.
  - apply on_context_ok in E as (d & d' & Hd & ->); [|done]. simpl in *. eauto.
  - destruct (db_async_ok _ _ _ _ _ _ _ Hin' E) as [j1 ->]. simpl in *.
    apply elem_of_app in Hin as [Hin|Hin]; [eauto|].
    apply list_elem_of_singleton in Hin. by injection Hin as -> -> ->.
  - apply db_work_ok in E as ([? ->] & d & d' & Hd & ->). simpl in *. apply (Href p _ j).
    rewrite Hr. apply elem_of_app in Hin as [Hin|Hin]; apply elem_of_app;
      [by left|right; by apply elem_of_cons; right].
  - destruct (Hkeep p a j); [done|by apply (Href p _ j)|done|done].
  - simpl in *. eauto.
Qed.

(** (safety).  When the script keeps every db object until the promises it
    got from it are settled, each running thread finds its context, whatever
    other objects, threads and collections do: it does the statement's work
    on that context and changes no other. *)
Theorem held_contexts_alive st p a j :
  rtc held_step db_start st -> (p, (a, j)) ∈ running st ->
  exists d, contexts (native st) !! a = Some d ∧
    db_work (a, j) (native st) =
      ((db_thread j d).1, set_context a (db_thread j d).2 (native st)).
Proof.
  intros Hreach Hp.
  assert (threads_held st) as Href.
  { apply (rtc_invariant _ _ _ _ threads_held_step) in Hreach; [done|].
    intros p' a' j' Hin. by apply not_elem_of_nil in Hin. }
  assert (heap_ok st) as (_ & _ & H3).
  { refine (rtc_invariant held_step heap_ok db_start st _ heap_ok_start Hreach).
    intros x y Hok [Hxy _]. by apply (heap_ok_step x). }
  destruct (H3 a (Href p a j Hp)) as [d Hd]. exists d.
  split; [done|]. unfold db_work. simpl. rewrite Hd. by destruct (db_thread j d).
Qed.

(** (safety).  Nothing but the script keeps the context of a running
    thread: with any connection that opens, a state is reachable in which the
    object was collected while its thread runs, and the thread uses a deleted
    context. *)
Theorem collected_context_used info d :
  session_open (Utf8Value info) new_context = (Ok (), d) ->
  exists st p a j, rtc db_step db_start st ∧ (p, (a, j)) ∈ running st ∧
    contexts (native st) !! a = None ∧
    fst (db_work (a, j) (native st)) = Crash "use of a deleted DbContext".
Proof.
  intros Hopen.
  set (s1 := set_native (add_context d (native db_start)) (new_object capacity db_start)).
  set (s2 := snd (spawn (0%nat, JExec) s1)).
  set (s3 := set_native (drop_reference 0 (native s2)) s2).
  exists (set_native (delete_context 0 (native s3))
            (Async (next_promise s3) (running s3) (settled s3)
               (external_memory s3 - capacity) ([] ++ []) (native s3))), 0%nat, 0%nat, JExec.
  split_and!; [|apply list_elem_of_here|apply lookup_delete_eq|].
  - eapply rtc_l; [|eapply rtc_l; [|eapply rtc_l; [|apply rtc_once]]].
    + apply (db_step_init {| this_field := true; argv := [VString info] |} (db_object 0) _ s1).
      unfold db_init. rewrite !bind_throw_if by done.
      rewrite (bind_from_v8_string _ info) by done. rewrite Hopen. done.
    + apply (db_step_start 0 "exec" db_exec [] (VPromise 0) s1 s2); [|by left|done].
      simpl. apply elem_of_union_l. by apply elem_of_singleton.
    + apply (db_step_forget 0 s2).
    + apply (db_step_collect 0 [] [] s3); [|intros [_ Hn]%elem_of_difference; by apply Hn, elem_of_singleton|done].
      exists d. apply lookup_insert_eq.
  - unfold db_work. by replace (_ !! _) with (@None D) by (symmetry; apply lookup_delete_eq).
Qed.
End db_objects.

(** ** At a concrete input: an object, and a thread on its context *)

#[local] Existing Instances row_db ascii_strings.

Abbreviation example_step := (db_step one_cell (fun _ => VObject []) 96).
Abbreviation example_held := (held_step one_cell (fun _ => VObject []) 96).

Definition object_made : async_state (nat * db_job) db_heap :=
  Async 0 [] [] 96 [96] (DbHeap 1 {[0%nat := one_cell]} {[0%nat]}).

Definition thread_started : async_state (nat * db_job) db_heap :=
  Async 1 [(0%nat, (0%nat, JExec))] [] 96 [96] (DbHeap 1 {[0%nat := one_cell]} {[0%nat]}).

Lemma object_made_step : example_step db_start object_made.
Proof.
  apply (db_step_init _ _ _ {| this_field := true; argv := [VString (L "a.db")] |} (VObject [])).
  vm_compute. reflexivity.
Qed.

Lemma thread_started_step : example_step object_made thread_started.
Proof.
  apply (db_step_start _ _ _ 0 "exec" db_exec [] (VPromise 0)); [|by left|done].
  by apply elem_of_singleton.
Qed.

Lemma thread_started_held : rtc example_held db_start thread_started.
Proof.
  eapply rtc_l; [split; [apply object_made_step|]|apply rtc_once; split; [apply thread_started_step|]].
  - intros p a j Hin. by apply not_elem_of_nil in Hin.
  - intros p a j Hin. by apply not_elem_of_nil in Hin.
Qed.

Lemma db_objects_refine_witness :
  rtc (async_step db_work) db_start object_made ∧ external_memory object_made = 1 * 96.
Proof.
  apply (db_objects_refine one_cell (fun _ => VObject []) 96 object_made).
  apply rtc_once, object_made_step.
Defined.

Lemma held_contexts_alive_witness :
  exists d, contexts (native thread_started) !! 0%nat = Some d ∧
    db_work (0%nat, JExec) (native thread_started) =
      ((db_thread JExec d).1, set_context 0 (db_thread JExec d).2 (native thread_started)).
Proof.
  apply (held_contexts_alive one_cell (fun _ => VObject []) 96 thread_started 0 0 JExec
           thread_started_held).
  apply list_elem_of_here.
Defined.

Lemma collected_context_used_witness :
  exists st p a j, rtc example_step db_start st ∧ (p, (a, j)) ∈ running st ∧
    contexts (native st) !! a = None ∧
    fst (db_work (a, j) (native st)) = Crash "use of a deleted DbContext".
Proof.
  apply (collected_context_used one_cell (fun _ => VObject []) 96 (L "a.db") one_cell).
  reflexivity.
Defined.
