(* ===== verification/Jobs.v ===== *)
(** * Jobs: the asynchronous functions of the module together

    [http.fetch], [gzip], [crypto.bcrypt] and the three asynchronous methods of
    the db objects share one isolate and its promises.  Fetch.v and DbObjects.v
    have the threads; here they run beside each other, on the machine of
    Async.v. *)
From S2P Require Import Prelude Values Gzip Async HttpHeaders Fetch Db DbObjects.

Section jobs.
Context {N Str D : Type} `{Native N} `{Zlib Str} `{CppDb D} `{V8Strings}.
Variable fetch_object : Response -> value.
Variable fuel : nat.

(** A job of http, gzip and crypto, or one on the [DbContext] at an address. *)
Definition module_job : Type := job + nat * db_job.

(** The thread of a job, on the world of the first and the heap of the second. *)
Definition module_work (j : module_job) (n : N * db_heap (D := D))
  : outcome settlements * (N * db_heap (D := D)) :=
  match j with
  | inl j => let '(r, n1) := run_job (Str := Str) fetch_object fuel j (fst n) in (r, (n1, snd n))
  | inr j => let '(r, h) := db_work j (snd n) in (r, (fst n, h))
  end.

Abbreviation module_state := (async_state module_job (N * db_heap (D := D))).
Abbreviation module_step := (async_step module_work).

(** ** Lemmas *)

(** Each thread of [http], [gzip] and [crypto] that returns has called its
    resolver once, on every path. *)
Lemma fetch_settles r n calls n' :
  fetch_thread fetch_object r n = (Ok calls, n') -> length calls = 1%nat.
Proof.
  unfold fetch_thread.
  destruct (match dispatch r with Some _ => _ | None => _ end) as [[[response|]|e|w] n1];
    by intros [= <- _].
Qed.

Lemma compress_settles text level calls :
  compress_thread (Str := Str) fuel text level = Ok calls -> length calls = 1%nat.
Proof. unfold compress_thread. destruct (gzip_outcome _) as [[|c l]|e|w]; by intros [= <-]. Qed.

Lemma decompress_settles b calls :
  decompress_thread (Str := Str) fuel b = Ok calls -> length calls = 1%nat.
Proof. unfold decompress_thread. destruct (gzip_outcome _) as [[|c l]|e|w]; by intros [= <-]. Qed.

Lemma hash_settles text workload n calls n' :
  hash_thread text workload n = (Ok calls, n') -> length calls = 1%nat.
Proof.
  unfold hash_thread. destruct (bcrypt_gensalt workload n) as [[r salt] n1].
  destruct (negb (r =? 0)); [by intros [= <- _]|].
  destruct (bcrypt_hashpw _ salt) as [r2 hash]. destruct (negb (r2 =? 0)); by intros [= <- _].
Qed.

Lemma run_job_settles j n calls n' :
  run_job (Str := Str) fetch_object fuel j n = (Ok calls, n') -> length calls = 1%nat.
Proof.
  destruct j as [r|text level|b|text workload|p h]; cbn [run_job].
  - apply fetch_settles.
  - intros [= E _]. by eapply compress_settles.
  - intros [= E _]. by eapply decompress_settles.
  - apply hash_settles.
  - by intros [= <- _].
Qed.

Lemma module_work_settles : settles_once module_work.
Proof.
  intros [j|j] n calls n'; cbn [module_work].
  - destruct (run_job _ _ _ _) as [r n1] eqn:E. intros [= -> <-]. by eapply run_job_settles.
  - destruct (db_work j (snd n)) as [r h] eqn:E. intros [= -> <-].
    by destruct (db_work_ok _ _ _ _ E) as [[s ->] _].
Qed.

(** ** The properties *)

(** C26 (invariant).  Every promise of [http.fetch], [gzip], [crypto.bcrypt]
    and the db objects: in every interleaving of calls, threads that return and
    collections, it has one running thread and its resolver was not called, or
    no thread and one call of its resolver; and a thread that returns has called
    its resolver exactly once, whichever of its paths it took. *)
Theorem promises_settle_once n st p :
  rtc module_step (started n) st -> (p < next_promise st)%nat ->
  (exists before after, map fst (running st) ++ map fst (settled st) = before ++ p :: after /\
    (p ∉ before ++ after)) /\
  forall before after job calls n',
    running st = before ++ (p, job) :: after -> module_work job (native st) = (Ok calls, n') ->
    exists s, settled (finish p (before ++ after) calls n' st) = settled st ++ [(p, s)].
Proof.
  intros Hreach Hp. split; [by eapply promise_once; [apply module_work_settles|..]|].
  intros b a job calls n' _ E. apply module_work_settles in E.
  destruct (finish_state p (b ++ a) calls n' st) as (_ & _ & _ & ->).
  destruct calls as [|[s z] [|? ?]]; try discriminate E. by exists s.
Qed.
End jobs.

(** ** At a concrete input: a password is checked and a statement fails *)

#[local] Existing Instances offline ascii_strings stored row_db.

Abbreviation example_work :=
  (module_work (N := unit) (Str := bytes * bool) (D := column -> db_value) (fun _ => VObject []) 5).

Definition example_start : unit * db_heap (D := column -> db_value) :=
  ((), DbHeap 1 {[0%nat := fun _ => DbNull]} {[0%nat]}).

(** The first thread has returned, the second runs. *)
Definition one_returned : async_state module_job (unit * db_heap (D := column -> db_value)) :=
  Async 2 [(1%nat, inr (0%nat, JExec))] [(0%nat, Resolve (VBoolean true))] 0 [] example_start.

Lemma one_returned_reachable : rtc (async_step example_work) (started example_start) one_returned.
Proof.
  eapply rtc_l; [apply (step_spawn _ (inl (JCheck (L "p") (L "h"))))|].
  eapply rtc_l; [apply (step_spawn _ (inr (0%nat, JExec)))|].
  apply rtc_once.
  apply (step_finish example_work 0 (inl (JCheck (L "p") (L "h"))) [] [(1%nat, inr (0%nat, JExec))]
           [(Resolve (VBoolean true), None)] example_start); reflexivity.
Qed.

Lemma promises_settle_once_witness :
  (exists before after, [1%nat; 0%nat] = before ++ 0%nat :: after /\ (0%nat ∉ before ++ after)) /\
  (exists before after, [1%nat; 0%nat] = before ++ 1%nat :: after /\ (1%nat ∉ before ++ after)).
Proof.
  split.
  - apply (promises_settle_once (fun _ => VObject []) 5 example_start one_returned 0 one_returned_reachable).
    simpl. lia.
  - apply (promises_settle_once (fun _ => VObject []) 5 example_start one_returned 1 one_returned_reachable).
    simpl. lia.
Defined.
