(* ===== verification/IpcObject.v ===== *)
(** * The ipc objects together: [ipc.init], the methods [set], [get], [close]
    made by [initialize_objects], and the collection of an object

    Every object owns an [IPC_KV], the table of its name in memory that all
    processes share.  [IPC_KV] is in a library the repository has only the
    declarations of; V8's serializer is V8's.  Both are interfaces, and nothing
    is assumed of them: what a table keeps under a key is not looked at here. *)
From S2P Require Import Prelude Values Async.

Abbreviation IPCKV_DATA_SIZE := 2048.

(** [W] is what the processes share, [H] an [IPC_KV] of one of them. *)
Class IpcKv (W H : Type) := {
  (** The constructor and the destructor. *)
  IPC_KV : bytes -> M W H;
  kv_delete : H -> W -> W;
  kv_set : H -> bytes -> bytes -> M W unit;
  (** The value found; the caller's buffer has [IPCKV_DATA_SIZE] bytes. *)
  kv_get : H -> bytes -> M W (option bytes);
  kv_close : H -> M W unit;
  (** [ValueSerializer] and [ValueDeserializer]. *)
  WriteValue : value -> option bytes;
  ReadValue : bytes -> option value;
}.

(** An [IPCHandler]: its [IPC_KV], and whether the internal field of the
    JavaScript object still points to it. *)
Record ipc_handler (H : Type) := IPCHandler {
  m_context : H;
  internal_field : bool;
}.
Arguments IPCHandler {H}.
Arguments m_context {H}.
Arguments internal_field {H}.

(** The objects that were not collected, by address; those the script can
    still reach; what all processes share. *)
Record ipc_heap (W H : Type) := IpcHeap {
  next_object : nat;
  objects : gmap nat (ipc_handler H);
  reached : gset nat;
  shared : W;
}.
Arguments IpcHeap {W H}.
Arguments next_object {W H}.
Arguments objects {W H}.
Arguments reached {W H}.
Arguments shared {W H}.

Section ipc.
Context {Job W H : Type} `{IpcKv W H} `{V8Strings}.

Abbreviation ipc_state := (async_state Job (ipc_heap W H)).

Definition set_shared (w : W) (h : ipc_heap W H) : ipc_heap W H :=
  IpcHeap (next_object h) (objects h) (reached h) w.

Definition set_object (a : nat) (o : ipc_handler H) (h : ipc_heap W H) : ipc_heap W H :=
  IpcHeap (next_object h) (<[a := o]> (objects h)) (reached h) (shared h).

Definition add_object (k : H) (h : ipc_heap W H) : ipc_heap W H :=
  IpcHeap (S (next_object h)) (<[next_object h := IPCHandler k true]> (objects h))
    ({[next_object h]} ∪ reached h) (shared h).

Definition on_table {A} (m : M W A) : M ipc_state A :=
  zoom (fun st => shared (native st)) (fun w st => set_native (set_shared w (native st)) st) m.

(** The pointer in the internal field of the object at [a], which must not be
    null. *)
Definition IPC_OBJECT (a : nat) (msg : string) : M ipc_state H :=
  st ← get;
  match objects (native st) !! a with
  | None => crash "use of a collected object"
  | Some o => _ ← throw_if (negb (internal_field o)) msg; mret (m_context o)
  end.

Definition ipc_set (a : nat) : handler ipc_state := fun args =>
  k ← IPC_OBJECT a "invalid function pointer for ipc.set";
  _ ← throw_if (args_Length args <? 2) "invalid function signature for ipc.set";
  _ ← throw_if (negb (IsString (arg args 0)))
        "invalid first parameter, must be a string for ipc.set";
  key ← from_v8_string (arg args 0);
  match WriteValue (arg args 1) with
  | None => raise "invalid object given, unable to serialize for ipc.set"
  | Some buffer => _ ← on_table (kv_set k key buffer); mret VUndefined
  end.

Definition ipc_get (a : nat) : handler ipc_state := fun args =>
  k ← IPC_OBJECT a "invalid function pointer for ipc.get";
  _ ← throw_if (args_Length args <? 1) "invalid function signature for ipc.get";
  _ ← throw_if (negb (IsString (arg args 0)))
        "invalid first parameter, must be a string for ipc.get";
  key ← from_v8_string (arg args 0);
  result ← on_table (kv_get k key);
  match result with
  | None => mret VNull
  | Some buffer =>
      if IPCKV_DATA_SIZE <? Z.of_nat (length buffer) then crash "write outside the buffer"
      else
        match ReadValue buffer with
        | None => raise "unable to deserialize value for ipc.get"
        | Some v => mret v
        end
  end.

Definition ipc_close (a : nat) : handler ipc_state := fun args =>
  k ← IPC_OBJECT a "invalid function pointer for ipc.close";
  _ ← on_table (kv_close k);
  _ ← modify (fun st => set_native (set_object a (IPCHandler k false) (native st)) st);
  mret VUndefined.

(** What [ipc.init] starts from: the object made for an address, and
    [sizeof(IPC_KV)]. *)
Variable ipc_object : nat -> value.
Variable capacity : Z.

Definition ipc_init : handler ipc_state := fun args =>
  _ ← throw_if (args_Length args <? 1) "invalid function signature for db.init";
  _ ← throw_if (negb (IsString (arg args 0)))
        "invalid first parameter, must be a string for db.init";
  name ← from_v8_string (arg args 0);
  ipc_context ← on_table (IPC_KV (c_str name));
  st ← get;
  _ ← modify (fun st => set_native (add_object ipc_context (native st)) (new_object capacity st));
  mret (ipc_object (next_object (native st))).

Definition ipc_methods : list (string * (nat -> handler ipc_state)) := [
  ("set", ipc_set); ("get", ipc_get); ("close", ipc_close)]%string.

(** The weak callback of the object at [a]: it deletes the handler, which
    deletes its [IPC_KV]. *)
Definition delete_handler (a : nat) (o : ipc_handler H) (h : ipc_heap W H) : ipc_heap W H :=
  IpcHeap (next_object h) (delete a (objects h)) (reached h) (kv_delete (m_context o) (shared h)).

Definition forget (a : nat) (h : ipc_heap W H) : ipc_heap W H :=
  IpcHeap (next_object h) (objects h) (reached h ∖ {[a]}) (shared h).

(** A step: the script makes an object, calls a method of one it reaches or
    forgets one; V8 collects an object nothing reaches; another process changes
    what is shared, in ways [other] allows. *)
Inductive ipc_step (other : relation W) : relation ipc_state :=
| ipc_step_init args r st st' :
    ipc_init args st = (r, st') -> ipc_step other st st'
| ipc_step_call a name h args r st st' :
    a ∈ reached (native st) -> In (name, h) ipc_methods ->
    h a {| this_field := true; argv := args |} st = (r, st') -> ipc_step other st st'
| ipc_step_forget a st : ipc_step other st (set_native (forget a (native st)) st)
| ipc_step_collect a o before after st :
    objects (native st) !! a = Some o -> a ∉ reached (native st) ->
    alive st = before ++ capacity :: after ->
    ipc_step other st
      (set_native (delete_handler a o (native st))
         (Async (next_promise st) (running st) (settled st)
            (external_memory st - capacity) (before ++ after) (native st)))
| ipc_step_other w st :
    other (shared (native st)) w -> ipc_step other st (set_native (set_shared w (native st)) st).

Definition ipc_start (w : W) : ipc_state := started (IpcHeap 0 ∅ ∅ w).
End ipc.

(** ** The life of an [IPC_KV]

    The objects make it, use it, close it and delete it; here with the number of
    the [IPC_KV] that the constructor gave. *)
Inductive kv_event :=
| EMake (i : nat)
| EUse (i : nat)
| EClose (i : nat)
| EDelete (i : nat).

Inductive kv_status := Open | Closed | Deleted.

(** What may happen to an [IPC_KV] in each state: it is made once; it is used
    and closed while it is open; it is deleted once. *)
Definition kv_next (e : kv_event) (m : gmap nat kv_status) : option (gmap nat kv_status) :=
  match e with
  | EMake i => match m !! i with None => Some (<[i := Open]> m) | _ => None end
  | EUse i => match m !! i with Some Open => Some m | _ => None end
  | EClose i => match m !! i with Some Open => Some (<[i := Closed]> m) | _ => None end
  | EDelete i =>
      match m !! i with
      | Some Open | Some Closed => Some (<[i := Deleted]> m)
      | _ => None
      end
  end.

(** The states behind a list of events, if each was allowed. *)
Definition kv_replay (l : list kv_event) : option (gmap nat kv_status) :=
  fold_left (fun m e => match m with Some m => kv_next e m | None => None end) l (Some ∅).

(** Any implementation of [IPC_KV], with a list of the calls made to it.  The
    number of a new one is that of the calls before it. *)
Definition logged {W H} `{IpcKv W H} : IpcKv (W * list kv_event) (nat * H) := {|
  IPC_KV name := fun '(w, l) =>
    match IPC_KV name w with
    | (Ok k, w') => (Ok (length l, k), (w', l ++ [EMake (length l)]))
    | (Throw e, w') => (Throw e, (w', l))
    | (Crash why, w') => (Crash why, (w', l))
    end;
  kv_delete k := fun '(w, l) => (kv_delete (snd k) w, l ++ [EDelete (fst k)]);
  kv_set k key b := fun '(w, l) =>
    let '(r, w') := kv_set (snd k) key b w in (r, (w', l ++ [EUse (fst k)]));
  kv_get k key := fun '(w, l) =>
    let '(r, w') := kv_get (snd k) key w in (r, (w', l ++ [EUse (fst k)]));
  kv_close k := fun '(w, l) =>
    let '(r, w') := kv_close (snd k) w in
    (r, (w', l ++ [match r with Ok _ => EClose (fst k) | _ => EUse (fst k) end]));
  WriteValue := WriteValue (W := W) (H := H);
  ReadValue := ReadValue (W := W) (H := H);
|}.

Section ipc_properties.
Context {Job W H : Type} `{IpcKv W H} `{V8Strings}.
Variable ipc_object : nat -> value.
Variable capacity : Z.
Variable other : relation W.

Abbreviation ipc_state := (async_state Job (ipc_heap W H)).
Abbreviation step := (ipc_step (Job := Job) ipc_object capacity other).

(** ** Lemmas *)

(** A step that only reads the state, in front of another. *)
Lemma bind_same {S A B} (m : M S A) (f : A -> M S B) s r s' :
  snd (m s) = s -> (m ≫= f) s = (r, s') ->
  s' = s \/ exists a, m s = (Ok a, s) /\ f a s = (r, s').
Proof.
  unfold mbind, M_bind. intros Hs E. destruct (m s) as [[a|e|w] s1]; simpl in Hs; subst s1.
  - right. by exists a.
  - left. by injection E.
  - left. by injection E.
Qed.

Lemma throw_if_same {S} b msg (s : S) : snd (throw_if b msg s) = s.
Proof. by destruct b. Qed.

Lemma bind_IPC_OBJECT {A} a o msg (f : H -> M ipc_state A) st :
  objects (native st) !! a = Some o ->
  (IPC_OBJECT a msg ≫= f) st =
    if internal_field o then f (m_context o) st else (Throw (StdException msg), st).
Proof.
  intros Ho. unfold IPC_OBJECT, mbind, M_bind. simpl. rewrite Ho.
  by destruct (internal_field o).
Qed.

Lemma on_table_eq {A} (m : M W A) (st : ipc_state) :
  on_table m st =
    let '(r, w) := m (shared (native st)) in (r, set_native (set_shared w (native st)) st).
Proof. reflexivity. Qed.

(** A call of an [IPC_KV] in front of a return. *)
Lemma bind_on_table {A B} (m : M W A) (f : A -> M ipc_state B) (st : ipc_state) r w :
  m (shared (native st)) = (r, w) ->
  (on_table m ≫= f) st =
    match r with
    | Ok a => f a (set_native (set_shared w (native st)) st)
    | Throw e => (Throw e, set_native (set_shared w (native st)) st)
    | Crash why => (Crash why, set_native (set_shared w (native st)) st)
    end.
Proof. intros E. unfold mbind, M_bind. rewrite on_table_eq, E. by destruct r. Qed.

(** ** What a step changes *)

(** A call of [set] or [get] on [k], or one of [close] that does not return. *)
Inductive kv_used (k : H) (w w' : W) : Prop :=
| used_set key b r : kv_set k key b w = (r, w') -> kv_used k w w'
| used_get key r : kv_get k key w = (r, w') -> kv_used k w w'
| used_close r : kv_close k w = (r, w') -> (forall u, r <> Ok u) -> kv_used k w w'.

(** Nothing; an object is made, or is not; one that was not closed uses its
    [IPC_KV]; one is closed, forgotten or collected; another process works. *)
Inductive effect (st : ipc_state) : ipc_state -> Prop :=
| effect_none : effect st st
| effect_make name k w :
    IPC_KV name (shared (native st)) = (Ok k, w) ->
    effect st
      (set_native (add_object k (set_shared w (native st))) (new_object capacity st))
| effect_unmade name r w :
    IPC_KV name (shared (native st)) = (r, w) -> (forall k, r <> Ok k) ->
    effect st (set_native (set_shared w (native st)) st)
| effect_use a k w :
    objects (native st) !! a = Some (IPCHandler k true) -> kv_used k (shared (native st)) w ->
    effect st (set_native (set_shared w (native st)) st)
| effect_close a k w :
    objects (native st) !! a = Some (IPCHandler k true) ->
    kv_close k (shared (native st)) = (Ok (), w) ->
    effect st
      (set_native (set_object a (IPCHandler k false) (set_shared w (native st))) st)
| effect_forget a : effect st (set_native (forget a (native st)) st)
| effect_collect a o before after :
    objects (native st) !! a = Some o -> a ∉ reached (native st) ->
    alive st = before ++ capacity :: after ->
    effect st
      (set_native (delete_handler a o (native st))
         (Async (next_promise st) (running st) (settled st)
            (external_memory st - capacity) (before ++ after) (native st)))
| effect_other w :
    other (shared (native st)) w -> effect st (set_native (set_shared w (native st)) st).

Ltac read_only E := let x := fresh "x" in let Hx := fresh "Hx" in
  apply bind_same in E as [->|(x & Hx & E)];
  [apply effect_none| |first [apply throw_if_same|apply from_v8_string_state]].

Lemma init_effect args r st st' :
  ipc_init ipc_object capacity args st = (r, st') -> effect st st'.
Proof.
  unfold ipc_init. intros E. do 3 read_only E.
  destruct (IPC_KV (c_str x1) (shared (native st))) as [r' w] eqn:Ek.
  rewrite (bind_on_table _ _ _ _ _ Ek) in E. destruct r' as [k|e|why].
  - cbn in E. injection E as _ <-. by apply (effect_make _ _ _ _ Ek).
  - injection E as _ <-. by apply (effect_unmade _ _ _ _ Ek).
  - injection E as _ <-. by apply (effect_unmade _ _ _ _ Ek).
Qed.

Lemma set_effect a o args r st st' :
  objects (native st) !! a = Some o ->
  ipc_set a args st = (r, st') -> effect st st'.
Proof.
  intros Ho E. unfold ipc_set in E. rewrite (bind_IPC_OBJECT _ _ _ _ _ Ho) in E.
  destruct o as [k []]; [|injection E as _ <-; apply effect_none]. do 3 read_only E.
  destruct (WriteValue _) as [b|]; [|injection E as _ <-; apply effect_none].
  destruct (kv_set k x1 b (shared (native st))) as [r' w] eqn:Ek. simpl in E.
  rewrite (bind_on_table _ _ _ _ _ Ek) in E.
  assert (st' = set_native (set_shared w (native st)) st) as -> by (destruct r'; by injection E).
  by eapply effect_use, used_set.
Qed.

Lemma get_effect a o args r st st' :
  objects (native st) !! a = Some o ->
  ipc_get a args st = (r, st') -> effect st st'.
Proof.
  intros Ho E. unfold ipc_get in E. rewrite (bind_IPC_OBJECT _ _ _ _ _ Ho) in E.
  destruct o as [k []]; [|injection E as _ <-; apply effect_none]. do 3 read_only E.
  destruct (kv_get k x1 (shared (native st))) as [r' w] eqn:Ek. simpl in E.
  rewrite (bind_on_table _ _ _ _ _ Ek) in E.
  assert (st' = set_native (set_shared w (native st)) st) as ->
    by (repeat case_match; by injection E).
  by eapply effect_use, used_get.
Qed.

Lemma close_effect a o args r st st' :
  objects (native st) !! a = Some o ->
  ipc_close a args st = (r, st') -> effect st st'.
Proof.
  intros Ho E. unfold ipc_close in E. rewrite (bind_IPC_OBJECT _ _ _ _ _ Ho) in E.
  destruct o as [k []]; [|injection E as _ <-; apply effect_none]. simpl in E.
  destruct (kv_close k (shared (native st))) as [r' w] eqn:Ek.
  rewrite (bind_on_table _ _ _ _ _ Ek) in E. destruct r' as [[]|e|why]; injection E as _ <-.
  - by apply (effect_close st a k w).
  - by eapply effect_use, used_close.
  - by eapply effect_use, used_close.
Qed.

(** ** The invariant *)

(** Addresses below [next_object] only; V8 is told the size of every object;
    what the script reaches is there. *)
Record heap_ok (st : ipc_state) : Prop := HeapOk {
  ok_fresh a : is_Some (objects (native st) !! a) -> (a < next_object (native st))%nat;
  ok_sizes : alive st = replicate (size (objects (native st))) capacity;
  ok_reached a : a ∈ reached (native st) -> is_Some (objects (native st) !! a);
}.

Lemma step_effect st st' : heap_ok st -> step st st' -> effect st st'.
Proof.
  intros Hok Hst.
  destruct Hst as [args r st st' E|a name h args r st st' Ha Hin E|a st|a o b c st Ho Hn Hal|w st Hw].
  - by eapply init_effect.
  - destruct (ok_reached _ Hok a Ha) as [o Ho].
    simpl in Hin. destruct Hin as [E1|[E1|[E1|[]]]]; injection E1 as _ <-;
      [by eapply set_effect|by eapply get_effect|by eapply close_effect].
  - apply effect_forget.
  - by eapply effect_collect.
  - by apply effect_other.
Qed.

Lemma next_object_free st : heap_ok st -> objects (native st) !! next_object (native st) = None.
Proof. intros Hok. apply eq_None_not_Some. intros Hs. apply (ok_fresh _ Hok) in Hs. lia. Qed.

Lemma effect_ok st st' : heap_ok st -> effect st st' -> heap_ok st'.
Proof.
  intros Hok He. pose proof (next_object_free st Hok) as Hnone. destruct Hok as [Hfr Hsz Hre].
  destruct He as [|name k w E|name r w E Hr|a k w Ha E|a k w Ha E|a|a o before after Ha Hn Hal|w E];
    try (split; done).
  - split; simpl.
    + intros a. destruct (decide (a = next_object (native st))) as [->|Hne]; [lia|].
      rewrite lookup_insert_ne by done. intros Hs%Hfr. lia.
    + rewrite map_size_insert_None by done. by rewrite Hsz, replicate_S_end.
    + intros a. rewrite elem_of_union, elem_of_singleton, lookup_insert_is_Some'.
      intros [->|Hs%Hre]; auto.
  - split; simpl.
    + intros b. rewrite lookup_insert_is_Some'. intros [<-|Hs%Hfr]; [|done]. apply Hfr. by eexists.
    + by rewrite map_size_insert_Some by (by eexists).
    + intros b Hs%Hre. rewrite lookup_insert_is_Some'. auto.
  - split; simpl; try done. intros b [Hb _]%elem_of_difference. auto.
  - split; simpl.
    + intros b [_ Hs]%lookup_delete_is_Some. by apply Hfr.
    + rewrite map_size_delete_Some by (by eexists). rewrite Hsz in Hal.
      by apply (replicate_middle _ _ capacity).
    + intros b Hb. apply lookup_delete_is_Some. split; [by intros ->|by apply Hre].
Qed.

Lemma step_ok st st' : heap_ok st -> step st st' -> heap_ok st'.
Proof. intros Hok Hst. eapply effect_ok; [done|by apply step_effect]. Qed.

Lemma ipc_ok_start w : heap_ok (ipc_start w).
Proof. split; simpl; try done; intros a; rewrite ?lookup_empty; by intros [? [=]] || done. Qed.

Lemma ipc_ok_reachable w st : rtc step (ipc_start w) st -> heap_ok st.
Proof. by apply (rtc_invariant step heap_ok), ipc_ok_start; apply step_ok. Qed.

(** A step of the objects is made of steps of promises and weak objects. *)
Lemma effect_async work st st' : effect st st' -> rtc (async_step work) st st'.
Proof.
  intros [|name k w E|name r w E Hr|a k w Ha E|a k w Ha E|a|a o b c Ha Hn Hal|w E]; [done| | | | | | |].
  - eapply rtc_l; [apply step_new|]. apply rtc_once, step_native.
  - apply rtc_once, step_native.
  - apply rtc_once, step_native.
  - apply rtc_once, step_native.
  - apply rtc_once, step_native.
  - eapply rtc_l; [by eapply step_collect|]. apply rtc_once, step_native.
  - apply rtc_once, step_native.
Qed.

Lemma ipc_async work w st :
  rtc step (ipc_start w) st -> rtc (async_step work) (ipc_start w) st.
Proof.
  pose proof (ipc_ok_start w) as Hok. intros Hst. revert Hok.
  induction Hst as [x|x y z Hxy _ IH]; intros Hok; [done|].
  transitivity y; [by apply effect_async, step_effect|by apply IH, (step_ok _ _ Hok Hxy)].
Qed.

(** An object that is there behind a step was there before it, if it is not a
    new one, and was not closed if it is not. *)
Lemma effect_object st st' b o :
  effect st st' -> (b < next_object (native st))%nat -> objects (native st') !! b = Some o ->
  (next_object (native st) <= next_object (native st'))%nat /\
  exists o', objects (native st) !! b = Some o' /\ (internal_field o' = false -> internal_field o = false).
Proof.
  intros He Hb.
  destruct He as [|name k w E|name r w E Hr|a k w Ha E|a k w Ha E|a|a o1 before after Ha Hn Hal|w E];
    simpl; intros Ho; try (split; [done|by exists o]).
  - apply lookup_insert_Some in Ho as [[Hbn _]|[_ Ho]]; [lia|]. split; [lia|by exists o].
  - split; [done|]. apply lookup_insert_Some in Ho as [[<- <-]|[Hab Ho]]; [|by exists o].
    by exists (IPCHandler k true).
  - split; [done|]. apply lookup_delete_Some in Ho as [Hab Ho]. by exists o.
Qed.

Lemma steps_object st st' b o :
  heap_ok st -> rtc step st st' ->
  (b < next_object (native st))%nat -> objects (native st') !! b = Some o ->
  exists o', objects (native st) !! b = Some o' /\ (internal_field o' = false -> internal_field o = false).
Proof.
  intros Hok Hst. induction Hst as [st|st st1 st2 Hst _ IH]; intros Hb Ho; [by exists o|].
  pose proof (step_ok _ _ Hok Hst) as Hok1. apply step_effect in Hst as He; [|done].
  assert (next_object (native st) <= next_object (native st1))%nat as Hnext.
  { destruct He; simpl; lia. }
  destruct IH as (o1 & Ho1 & Hf1); [done|lia|done|].
  destruct (effect_object _ _ _ _ He Hb Ho1) as (_ & o2 & Ho2 & Hf2).
  exists o2. split; [done|]. auto.
Qed.

(** ** The properties *)

(** (error).  A closed ipc object is dead: whatever happens behind the
    [close], its [set], [get] and a second [close] throw and do not reach the
    table. *)
Theorem ipc_closed w a args args' name h (st st1 st2 : ipc_state) :
  rtc step (ipc_start w) st -> is_Some (objects (native st) !! a) ->
  ipc_close a args st = (Ok VUndefined, st1) ->
  rtc step st1 st2 -> a ∈ reached (native st2) -> In (name, h) ipc_methods ->
  exists msg, h a args' st2 = (Throw (StdException msg), st2).
Proof.
  intros Hok%ipc_ok_reachable [o Ho] Hclose Hst Ha Hin.
  pose proof (effect_ok _ _ Hok (close_effect _ _ _ _ _ _ Ho Hclose)) as Hok1.
  apply (rtc_invariant _ heap_ok _ _ step_ok Hok1) in Hst as Hok2.
  destruct (ok_reached _ Hok2 a Ha) as [o2 Ho2].
  assert (a < next_object (native st))%nat as Hlt by (apply (ok_fresh _ Hok); by eexists).
  unfold ipc_close in Hclose. rewrite (bind_IPC_OBJECT _ _ _ _ _ Ho) in Hclose.
  destruct o as [k []]; [|done]. simpl in Hclose.
  destruct (kv_close k (shared (native st))) as [r w'] eqn:Ek.
  rewrite (bind_on_table _ _ _ _ _ Ek) in Hclose. destruct r as [[]|?|?]; [|done..].
  injection Hclose as <-.
  destruct (steps_object _ _ a o2 Hok1 Hst Hlt Ho2) as (o1 & Ho1 & Hf).
  simpl in Ho1. rewrite lookup_insert_eq in Ho1. injection Ho1 as <-. specialize (Hf eq_refl).
  simpl in Hin. destruct Hin as [E1|[E1|[E1|[]]]]; injection E1 as <- <-;
    unfold ipc_set, ipc_get, ipc_close; rewrite (bind_IPC_OBJECT _ _ _ _ _ Ho2), Hf; by eexists.
Qed.
End ipc_properties.

(** ** The calls of the objects, in any implementation of [IPC_KV] *)

Section ipc_calls.
Context {Job W H : Type} `{IpcKv W H} `{V8Strings}.
Variable ipc_object : nat -> value.
Variable capacity : Z.

(** Other processes change what is shared in any way; the calls in the list
    are those of this process. *)
Definition other_process (x y : W * list kv_event) : Prop := snd y = snd x.

Abbreviation state := (async_state Job (ipc_heap (W * list kv_event) (nat * H))).
Abbreviation step := (ipc_step (H0 := logged) (Job := Job) ipc_object capacity other_process).
Abbreviation start w := (ipc_start (Job := Job) (W := W * list kv_event) (H := nat * H) (w, [])).
Abbreviation step_changes := (effect (H0 := logged) capacity other_process).

Definition calls (st : state) : list kv_event := snd (shared (native st)).

(** The number of the [IPC_KV] of an object. *)
Definition number (o : ipc_handler (nat * H)) : nat := fst (m_context o).

(** The calls were allowed and left the states [m]: of a state that fits the
    internal field for each object; each [IPC_KV] that was not deleted belongs to
    one object. *)
Record calls_ok (st : state) (m : gmap nat kv_status) : Prop := CallsOk {
  ok_replay : kv_replay (calls st) = Some m;
  ok_below i : is_Some (m !! i) -> (i < length (calls st))%nat;
  ok_status a o : objects (native st) !! a = Some o ->
    m !! number o = Some (if internal_field o then Open else Closed);
  ok_apart a b o o' : objects (native st) !! a = Some o -> objects (native st) !! b = Some o' ->
    number o = number o' -> a = b;
  ok_owned i s : m !! i = Some s -> s <> Deleted ->
    exists a o, objects (native st) !! a = Some o /\ number o = i;
}.

Lemma kv_replay_snoc l e m : kv_replay l = Some m -> kv_replay (l ++ [e]) = kv_next e m.
Proof. unfold kv_replay. intros E. by rewrite fold_left_app, E. Qed.

(** Only what is shared changed, and the calls are the same. *)
Lemma calls_ok_shared st m w :
  calls_ok st m -> calls_ok (set_native (set_shared (w, calls st) (native st)) st) m.
Proof. by intros []. Qed.

Lemma calls_ok_use st m a k w :
  calls_ok st m -> objects (native st) !! a = Some (IPCHandler k true) ->
  calls_ok (set_native (set_shared (w, calls st ++ [EUse (fst k)]) (native st)) st) m.
Proof.
  intros [Hr Hb Hs Ha Ho] Hobj. pose proof (Hs a _ Hobj) as Hk. unfold number in Hk. simpl in Hk.
  split; try done; unfold calls; simpl.
  - rewrite (kv_replay_snoc _ _ _ Hr). simpl. by rewrite Hk.
  - intros i Hi%Hb. rewrite length_app. simpl. unfold calls in Hi. lia.
Qed.

Lemma calls_ok_make st m k w :
  heap_ok capacity st -> calls_ok st m ->
  calls_ok
    (set_native (add_object (length (calls st), k)
                   (set_shared (w, calls st ++ [EMake (length (calls st))]) (native st)))
       (new_object capacity st)) (<[length (calls st) := Open]> m).
Proof.
  intros Hok [Hr Hb Hs Ha Ho].
  pose proof (next_object_free _ _ Hok) as Hnone.
  assert (m !! length (calls st) = None) as Hnew.
  { apply eq_None_not_Some. intros Hi%Hb. lia. }
  assert (forall a o, objects (native st) !! a = Some o -> length (calls st) <> number o) as Hne.
  { intros a o Hobj%Hs E. rewrite <- E in Hobj. congruence. }
  split; unfold calls; simpl.
  - rewrite (kv_replay_snoc _ _ _ Hr). simpl. by unfold calls in Hnew; rewrite Hnew.
  - intros i. rewrite lookup_insert_is_Some', length_app. simpl. intros [<-|Hi%Hb]; unfold calls in *; lia.
  - intros a o [[<- <-]|[_ Hobj]]%lookup_insert_Some; [apply lookup_insert_eq|].
    rewrite lookup_insert_ne by by eapply Hne. by eapply Hs.
  - intros a b o o' [[<- <-]|[_ H1']]%lookup_insert_Some [[<- <-]|[_ H2']]%lookup_insert_Some E;
      [done| | |by eapply Ha]; exfalso; [by eapply (Hne b)|by eapply (Hne a)].
  - intros i s [[<- <-]|[_ Hi]]%lookup_insert_Some Hs'.
    + eexists _, _. split; [apply lookup_insert_eq|done].
    + destruct (Ho i s Hi Hs') as (a & o & Hobj & E). exists a, o. split; [|done].
      rewrite lookup_insert_ne; [done|]. intros <-. congruence.
Qed.

Lemma calls_ok_close st m a k w :
  calls_ok st m -> objects (native st) !! a = Some (IPCHandler k true) ->
  calls_ok
    (set_native (set_object a (IPCHandler k false)
                   (set_shared (w, calls st ++ [EClose (fst k)]) (native st))) st)
    (<[fst k := Closed]> m).
Proof.
  intros [Hr Hb Hs Ha Ho] Hobj. pose proof (Hs a _ Hobj) as Hk. unfold number in Hk. simpl in Hk.
  split; unfold calls; simpl.
  - rewrite (kv_replay_snoc _ _ _ Hr). simpl. by rewrite Hk.
  - intros i. rewrite lookup_insert_is_Some', length_app. simpl.
    intros [<-|Hi%Hb]; [|unfold calls in *; lia].
    assert (fst k < length (calls st))%nat by (apply Hb; by eexists). unfold calls in *. lia.
  - intros b o [[<- <-]|[Hab Hob]]%lookup_insert_Some; [apply lookup_insert_eq|].
    rewrite lookup_insert_ne; [by eapply Hs|]. intros E. destruct Hab. by eapply (Ha a b).
  - intros b c o o' [[<- <-]|[Hab Hob]]%lookup_insert_Some [[<- <-]|[Hac Hoc]]%lookup_insert_Some E;
      [done| | |by eapply Ha].
    + by eapply (Ha a c).
    + by eapply (Ha b a).
  - intros i s [[<- <-]|[Hik Hi]]%lookup_insert_Some Hs'.
    + exists a, (IPCHandler k false). split; [apply lookup_insert_eq|done].
    + destruct (Ho i s Hi Hs') as (b & o & Hob & E). exists b, o. split; [|done].
      rewrite lookup_insert_ne; [done|]. intros <-. rewrite Hobj in Hob. injection Hob as <-. done.
Qed.

Lemma calls_ok_collect st m a o p r s e l w :
  calls_ok st m -> objects (native st) !! a = Some o ->
  calls_ok
    (Async p r s e l
       (IpcHeap (next_object (native st)) (delete a (objects (native st))) (reached (native st))
          (w, calls st ++ [EDelete (number o)])))
    (<[number o := Deleted]> m).
Proof.
  intros [Hr Hb Hs Ha Ho] Hobj. pose proof (Hs a _ Hobj) as Hk.
  split; unfold calls; simpl.
  - rewrite (kv_replay_snoc _ _ _ Hr). simpl. rewrite Hk. by destruct (internal_field o).
  - intros i. rewrite lookup_insert_is_Some', length_app. simpl.
    intros [<-|Hi%Hb]; [|unfold calls in *; lia].
    assert (number o < length (calls st))%nat by (apply Hb; by eexists). unfold calls in *. lia.
  - intros b o' [Hab Hob]%lookup_delete_Some. rewrite lookup_insert_ne; [by eapply Hs|].
    intros E. destruct Hab. by eapply (Ha a b).
  - intros b c o1 o2 [_ H1']%lookup_delete_Some [_ H2']%lookup_delete_Some. by eapply Ha.
  - intros i s' [[<- <-]|[Hik Hi]]%lookup_insert_Some Hs'; [done|].
    destruct (Ho i s' Hi Hs') as (b & o' & Hob & E). exists b, o'. split; [|done].
    rewrite lookup_delete_ne; [done|]. intros <-. rewrite Hobj in Hob. by injection Hob as <-.
Qed.

Lemma logged_use (k : nat * H) (x y : W * list kv_event) :
  kv_used (H0 := logged) k x y -> snd y = snd x ++ [EUse (fst k)].
Proof.
  destruct x as [w l]. intros [key b r E|key r E|r E Hr]; simpl in E.
  - destruct (kv_set _ _ _ _). by injection E as _ <-.
  - destruct (kv_get _ _ _). by injection E as _ <-.
  - destruct (kv_close _ _) as [r' w']. injection E as <- <-. destruct r' as [u|e|why]; [|done..].
    by destruct (Hr u).
Qed.

Lemma effect_calls st st' m :
  heap_ok capacity st -> calls_ok st m -> step_changes st st' -> exists m', calls_ok st' m'.
Proof.
  intros Hok Hc He.
  assert (forall x : W * list kv_event, snd x = calls st ->
    calls_ok (set_native (set_shared x (native st)) st) m) as Hsame.
  { intros [w l]. simpl. intros ->. by apply calls_ok_shared. }
  destruct He as [|name k w E|name r w E Hr|a k w Ha E|a k w Ha E|a|a o before after Ha Hn Hal|w E].
  - by exists m.
  - simpl in E. destruct (shared (native st)) as [w0 l0] eqn:Es.
    destruct (IPC_KV name w0) as [[k0|e|why] w1]; [|done..]. injection E as <- <-.
    replace l0 with (calls st) by (unfold calls; by rewrite Es). eexists. by apply calls_ok_make.
  - exists m. apply Hsame. simpl in E. unfold calls. destruct (shared (native st)) as [w0 l0].
    destruct (IPC_KV name w0) as [[k0|e|why] w1]; injection E as <- <-; [|done..]. by edestruct Hr.
  - exists m. pose proof (logged_use _ _ _ E) as El. destruct w as [w l]. simpl in El. subst l.
    by eapply calls_ok_use.
  - simpl in E. destruct (shared (native st)) as [w0 l0] eqn:Es.
    destruct (kv_close (snd k) w0) as [[[]|e|why] w1]; [|done..]. injection E as <-.
    replace l0 with (calls st) by (unfold calls; by rewrite Es). eexists. by apply calls_ok_close.
  - exists m. by destruct Hc.
  - exists (<[number o := Deleted]> m). unfold delete_handler. simpl.
    pose proof (calls_ok_collect st m a o (next_promise st) (running st) (settled st)
      (external_memory st - capacity) (before ++ after)) as Hd.
    unfold calls in Hd. destruct (shared (native st)) as [w0 l0]. by apply Hd.
  - exists m. by apply Hsame.
Qed.

Lemma reachable_calls w st : rtc step (start w) st -> heap_ok capacity st /\ exists m, calls_ok st m.
Proof.
  intros Hst.
  apply (rtc_invariant step (fun st => heap_ok capacity st /\ exists m, calls_ok st m) (start w) st); [| |done].
  - intros x y [Hok [m Hm]] Hxy. apply step_effect in Hxy as He; [|done].
    split; [by eapply effect_ok|by eapply effect_calls].
  - split; [apply ipc_ok_start|]. exists ∅. split; unfold calls; simpl; try done.
    + by intros i [s Hs].
Qed.

End ipc_calls.

(** ** The properties at a concrete input

    Tables that stay when nobody has them open, and a serializer of strings. *)
Abbreviation kv_tables := (gmap bytes (gmap bytes bytes)).

Definition table_of (name : bytes) (w : kv_tables) : gmap bytes bytes := default ∅ (w !! name).

Definition map_kv : IpcKv kv_tables bytes := {|
  IPC_KV name := fun w => (Ok name, w);
  kv_delete _ w := w;
  kv_set name key b := fun w =>
    if Z.of_nat (length b) <=? IPCKV_DATA_SIZE
    then (Ok (), <[name := <[key := b]> (table_of name w)]> w)
    else (Throw (StdException "data too large"), w);
  kv_get name key := fun w => (Ok (table_of name w !! key), w);
  kv_close _ := fun w => (Ok (), w);
  WriteValue v := match v with VString s => Some s | _ => None end;
  ReadValue b := Some (VString b);
|}.

#[local] Existing Instance ascii_strings.
#[local] Instance logged_map_kv : IpcKv (kv_tables * list kv_event) (nat * bytes) := logged (H0 := map_kv).

Abbreviation example_state := (async_state Empty_set (ipc_heap (kv_tables * list kv_event) (nat * bytes))).
Abbreviation example_step :=
  (ipc_step (Job := Empty_set) (fun _ => VObject []) 96 (other_process (W := kv_tables))).

Definition on_key (key : wstring) (rest : list value) : callback_info :=
  {| this_field := true; argv := VString key :: rest |}.

Definition init_args : callback_info := on_key (L "t") [].

(** Two objects of the name "t"; the first stores "v" under "k", which the
    second reads; the first is closed, forgotten and collected. *)
Definition one_object : example_state :=
  snd (ipc_init (fun _ => VObject []) 96 init_args (ipc_start (∅, []))).
Definition two_objects : example_state := snd (ipc_init (fun _ => VObject []) 96 init_args one_object).
Definition stored : example_state := snd (ipc_set 0 (on_key (L "k") [VString (L "v")]) two_objects).
Definition first_closed : example_state :=
  snd (ipc_close 0 {| this_field := true; argv := [] |} stored).
Definition forgotten : example_state := set_native (forget 0 (native first_closed)) first_closed.
Definition collected : example_state :=
  set_native (delete_handler 0 (IPCHandler (0%nat, L "t") false) (native forgotten))
    (Async (next_promise forgotten) (running forgotten) (settled forgotten)
       (external_memory forgotten - 96) ([] ++ [96]) (native forgotten)).

Example second_reads : ipc_get 1 (on_key (L "k") []) first_closed
  = (Ok (VString (L "v")), set_native (set_shared
      (fst (shared (native first_closed)), calls first_closed ++ [EUse 1]) (native first_closed)) first_closed).
Proof. vm_compute. reflexivity. Qed.

Lemma stored_reachable : rtc example_step (ipc_start (∅, [])) stored.
Proof.
  apply (rtc_l _ _ one_object); [by eapply (ipc_step_init _ _ _ init_args), surjective_pairing|].
  apply (rtc_l _ _ two_objects); [by eapply (ipc_step_init _ _ _ init_args), surjective_pairing|].
  apply rtc_once. eapply (ipc_step_call _ _ _ 0 "set" ipc_set [VString (L "k"); VString (L "v")]);
    [|by left|apply surjective_pairing]. apply (bool_decide_unpack _); vm_compute; exact I.
Qed.

Lemma closed_step : example_step stored first_closed.
Proof.
  eapply (ipc_step_call _ _ _ 0 "close" ipc_close []); [|by right; right; left|apply surjective_pairing].
  apply (bool_decide_unpack _); vm_compute; exact I.
Qed.

Lemma collected_reachable : rtc example_step (ipc_start (∅, [])) collected.
Proof.
  eapply rtc_r; [eapply rtc_r; [eapply rtc_r; [apply stored_reachable|apply closed_step]|]|].
  - apply (ipc_step_forget _ _ _ 0).
  - apply (ipc_step_collect _ _ _ 0); [vm_compute; reflexivity| |vm_compute; reflexivity].
    apply (bool_decide_unpack _); vm_compute; exact I.
Qed.

Definition no_work (job : Empty_set) (n : ipc_heap (kv_tables * list kv_event) (nat * bytes))
  : outcome settlements * ipc_heap (kv_tables * list kv_event) (nat * bytes) := match job with end.


Lemma ipc_closed_witness :
  exists msg, ipc_set 0 (on_key (L "k") []) first_closed = (Throw (StdException msg), first_closed).
Proof.
  apply (ipc_closed (fun _ => VObject []) 96 (other_process (W := kv_tables)) (∅, []) 0
           {| this_field := true; argv := [] |} (on_key (L "k") []) "set" ipc_set stored first_closed first_closed).
  - apply stored_reachable.
  - by eexists; vm_compute.
  - apply injective_projections; [vm_compute; reflexivity|reflexivity].
  - done.
  - apply (bool_decide_unpack _); vm_compute; exact I.
  - by left.
Defined.
