(* ===== verification/Registration.v ===== *)
(** * The module at its edges: [RegisterModule] (main.cpp), [ModuleFactory]
    (module_factory.h), and the constants [create_shell_context] gives to
    scripts *)
From S2P Require Import Prelude Values Callback Fetch Db.

(** ** Registration *)

(** The notifications the module asks for. *)
Inductive notification := GL_PRE_BEGIN_REQUEST | RQ_BEGIN_REQUEST | RQ_SEND_RESPONSE.

(** [IHttpModuleRegistrationInfo] and [IHttpServer]; a class object of the
    module is known by the notifications its methods override. *)
Class RegistrationInfo (I : Type) := {
  GetAppPoolName : I -> wstring;
  SetGlobalNotifications : list notification -> I -> Z * I;
  SetRequestNotifications : list notification -> Z -> I -> Z * I;
}.

Section registration.
Context {I : Type} `{RegistrationInfo I}.

(** The application pools [v8_wrapper::start] was called with, and IIS. *)
Record server_state := ServerState {
  started_engines : list wstring;
  info : I;
}.

Definition on_info (f : I -> Z * I) (st : server_state) : Z * server_state :=
  let '(hr, i) := f (info st) in (hr, ServerState (started_engines st) i).

Definition RegisterModule : M server_state Z :=
  _ ← modify (fun st => ServerState (started_engines st ++ [GetAppPoolName (info st)]) (info st));
  hr ← call (on_info (SetGlobalNotifications [GL_PRE_BEGIN_REQUEST]));
  if hr <? 0 then mret hr
  else call (on_info (SetRequestNotifications [RQ_BEGIN_REQUEST; RQ_SEND_RESPONSE] 0)).
End registration.
Arguments server_state : clear implicits.
Arguments ServerState {I}.

(** The method that serves a notification, and its [CALLBACK_TYPES]. *)
Definition notification_type (n : notification) : CALLBACK_TYPES :=
  match n with
  | GL_PRE_BEGIN_REQUEST => PRE_BEGIN_REQUEST
  | RQ_BEGIN_REQUEST => BEGIN_REQUEST
  | RQ_SEND_RESPONSE => SEND_RESPONSE
  end.

(** [GetHttpModule]: [S_OK] and a new module; [new] does not return null. *)
Definition GetHttpModule (modules : nat) : Z * nat := (0, S modules).

(** ** Constants *)

#[local] Open Scope string_scope.
#[local] Open Scope Z_scope.

Definition callback_constants : list (string * Z) :=
  [("BEGIN_REQUEST", 0); ("SEND_RESPONSE", 1); ("PRE_BEGIN_REQUEST", 2)].

Definition result_constants : list (string * Z) := [("CONTINUE", 0); ("FINISH", 1)].

Definition db_constants : list (string * Z) :=
  [("STRING", 0); ("INTEGER", 1); ("DOUBLE", 2); ("BOOL", 3)].

Definition gzip_constants : list (string * Z) :=
  [("NO_COMPRESSION", 0); ("BEST_SPEED", 1); ("BEST_COMPRESSION", 9)].

Definition callback_name (type : CALLBACK_TYPES) : string :=
  match type with
  | BEGIN_REQUEST => "BEGIN_REQUEST"
  | SEND_RESPONSE => "SEND_RESPONSE"
  | PRE_BEGIN_REQUEST => "PRE_BEGIN_REQUEST"
  end.

Definition data_type_name (type : DB_DATA_TYPES) : string :=
  match type with
  | STRING => "STRING" | INTEGER => "INTEGER" | DOUBLE => "DOUBLE"
  | BOOL => "BOOL" | BINARY => "BINARY"
  end.

(** ** The properties *)

(** (functional).  [RegisterModule] starts the engine of the pool in every
    case; a refused global notification is returned and nothing more is asked
    for. *)
Theorem RegisterModule_cases {I} `{RegistrationInfo I} engines (i : I) :
  let '(hr, i1) := SetGlobalNotifications [GL_PRE_BEGIN_REQUEST] i in
  let '(hr2, i2) := SetRequestNotifications [RQ_BEGIN_REQUEST; RQ_SEND_RESPONSE] 0 i1 in
  RegisterModule (ServerState engines i) =
    let engines' := (engines ++ [GetAppPoolName i])%list in
    if hr <? 0 then (Ok hr, ServerState engines' i1) else (Ok hr2, ServerState engines' i2).
Proof.
  destruct (SetGlobalNotifications _ i) as [hr i1] eqn:E1.
  destruct (SetRequestNotifications _ 0 i1) as [hr2 i2] eqn:E2.
  unfold RegisterModule. rewrite bind_modify.
  rewrite (bind_ok _ _ _ hr (ServerState (engines ++ [GetAppPoolName i])%list i1))
    by (unfold call, on_info; simpl; by rewrite E1).
  destruct (hr <? 0); [done|]. unfold call, on_info. simpl. by rewrite E2.
Qed.

(** (functional).  Every kind of callback is served by a notification asked
    for. *)
Theorem notifications_served type :
  exists n, In n [GL_PRE_BEGIN_REQUEST; RQ_BEGIN_REQUEST; RQ_SEND_RESPONSE] ∧
    notification_type n = type.
Proof.
  destruct type; [exists RQ_BEGIN_REQUEST|exists RQ_SEND_RESPONSE|exists GL_PRE_BEGIN_REQUEST];
    simpl; auto.
Qed.

(** (functional).  The constants given to scripts are the codes the
    handlers read: [register] with a constant installs the function for the
    notification of that name, a returned CONTINUE or FINISH is answered with
    the status of that name, [fetch] with a constant reads the column as that
    type, and [gzip.compress] keeps the levels. *)
Theorem constants_decoded `{V8Strings} {D} `{CppDb D} :
  (forall name code f fs, In (name, code) callback_constants ->
     exists type, callback_name type = name ∧
       register {| this_field := false; argv := [VInt code; VFunction f] |} fs
         = (Ok VUndefined, set_callback_function type f fs)) ∧
  (forall name code, In (name, code) result_constants ->
     request_status (VInt code) =
       if String.eqb name "FINISH" then RQ_NOTIFICATION_FINISH_REQUEST
       else RQ_NOTIFICATION_CONTINUE) ∧
  (forall name code, In (name, code) db_constants ->
     exists type, data_type_name type = name ∧ data_type_of_int code = Some type ∧
       forall i (d : D), - 2 ^ 31 <= i < 2 ^ 31 ->
         result_is_null (ByIndex i) d = (Ok false, d) ->
         db_fetch {| this_field := true; argv := [VInt code; VInt i] |} d
           = fetch_as code (ByIndex i) d) ∧
  (forall name level s, In (name, level) gzip_constants ->
     compression_level {| this_field := false; argv := [s; VInt level] |} = level).
Proof.
  split_and!.
  - intros name code f fs Hin.
    repeat destruct Hin as [Hin|Hin]; try done; injection Hin as <- <-;
      (eexists; split; [|reflexivity]; reflexivity).
  - intros name code Hin.
    repeat destruct Hin as [Hin|Hin]; try done; injection Hin as <- <-; reflexivity.
  - intros name code Hin.
    assert (exists type, data_type_name type = name ∧ data_type_of_int code = Some type)
      as (type & Hn & Ht).
    { repeat destruct Hin as [Hin|Hin]; try done; injection Hin as <- <-; (eexists; split; [|reflexivity]; reflexivity). }
    exists type. split_and!; [done..|]. intros i d Hi Hnull.
    assert (- 2 ^ 31 <= code < 2 ^ 31).
    { unfold data_type_of_int in Ht. repeat case_match; try done; lia. }
    rewrite (fetch_arguments_eq _ _ (ByIndex i)) by (done || by apply fetch_column_index).
    by rewrite (bind_ok _ _ _ _ _ Hnull).
  - intros name level s Hin. eapply compression_level_valid; [done|].
    repeat destruct Hin as [Hin|Hin]; try done; injection Hin as <- <-; lia.
Qed.
