(* ===== verification/Types.v ===== *)
(** * Types: the types of the methods

    In v8_wrapper.cpp a comment above each function a script can call gives its
    type.  The tables below are these types, object by object, for every function
    a script can call; the theorem says that the functions keep to them.  The
    README repeats the types; where it differs (four functions) a comment tells. *)
From S2P Require Import Prelude Values Async HttpHeaders.
From S2P Require Callback Engine Http Fetch Fs Db DbObjects IpcObject.

Inductive js_type :=
  TVoid | TNull | TBoolean | TNumber | TString | TUint8Array | TPromise | TObject.

#[export] Instance js_type_eq_dec : EqDecision js_type.
Proof. solve_decision. Defined.

Definition type_of (v : value) : js_type :=
  match v with
  | VUndefined => TVoid
  | VNull => TNull
  | VBoolean _ => TBoolean
  | VNumber _ => TNumber
  | VString _ => TString
  | VUint8Array _ => TUint8Array
  | VPromise _ => TPromise
  | _ => TObject
  end.

(** A value of one of the types of a union. *)
Definition has_type (ts : list js_type) (v : value) : Prop := type_of v ∈ ts.

#[export] Instance has_type_dec ts v : Decision (has_type ts v).
Proof. unfold has_type. apply _. Defined.

(** The README gives [redirect] and [setErrorDescription] the type boolean. *)
Definition response_types : list (string * list js_type) := [
  ("clear", [TVoid]); ("clearHeaders", [TVoid]); ("closeConnection", [TVoid]);
  ("disableBuffering", [TVoid]); ("setNeedDisconnect", [TVoid]);
  ("getKernelCacheEnabled", [TBoolean]); ("resetConnection", [TVoid]); ("getStatus", [TNumber]);
  ("setStatus", [TVoid]); ("redirect", [TVoid]); ("setErrorDescription", [TVoid]);
  ("disableKernelCache", [TVoid]); ("deleteHeader", [TVoid]); ("getHeader", [TString; TNull]);
  ("read", [TString; TUint8Array; TNull]); ("write", [TVoid]); ("setHeader", [TVoid])
]%string.

(** The README gives [read] the type string; a request without body gives
    null. *)
Definition request_types : list (string * list js_type) := [
  ("read", [TString; TNull]); ("setUrl", [TVoid]); ("deleteHeader", [TVoid]); ("setHeader", [TVoid]);
  ("getMethod", [TString]); ("getAbsPath", [TString]); ("getFullUrl", [TString]);
  ("getQueryString", [TString]); ("getPath", [TString]); ("getHost", [TString]);
  ("getLocalAddress", [TString]); ("getRemoteAddress", [TString]); ("getHeader", [TString; TNull])
]%string.

(** The README gives [headers] the type Object; a response without headers
    gives null. *)
Definition fetch_types : list (string * list js_type) := [
  ("status", [TNumber]); ("text", [TString; TNull]); ("blob", [TUint8Array; TNull]);
  ("headers", [TObject; TNull])
]%string.

(** The functions of the global object. *)
Definition global_types : list (string * list js_type) := [
  ("print", [TVoid]); ("load", [TVoid]); ("register", [TVoid])
]%string.

Definition fs_types : list (string * list js_type) := [
  ("register", [TVoid]); ("copy", [TBoolean]); ("exists", [TBoolean]); ("delete", [TBoolean]);
  ("write", [TVoid]); ("read", [TString; TUint8Array; TNull])
]%string.

(** The methods that end their work, and those that return a promise. *)
Definition db_types : list (string * list js_type) := [
  ("prepare", [TVoid]); ("reset", [TVoid]); ("execSync", [TVoid]); ("querySync", [TVoid]);
  ("queryRowSync", [TBoolean]); ("close", [TVoid]); ("next", [TBoolean]);
  ("fetch", [TNumber; TString; TBoolean; TNull]); ("bind", [TVoid])
]%string.

Definition db_async_types : list (string * list js_type) := [
  ("exec", [TPromise]); ("query", [TPromise]); ("queryRow", [TPromise])
]%string.

(** [http], [gzip] and [crypto.bcrypt]. *)
Definition promise_types : list (string * list js_type) := [
  ("http.fetch", [TPromise]); ("gzip.compress", [TPromise]); ("gzip.decompress", [TPromise]);
  ("crypto.bcrypt.hash", [TPromise]); ("crypto.bcrypt.check", [TPromise])
]%string.

(** [get] returns a value of any type. *)
Definition any_type : list js_type :=
  [TVoid; TNull; TBoolean; TNumber; TString; TUint8Array; TPromise; TObject].

Definition ipc_types : list (string * list js_type) := [
  ("set", [TVoid]); ("get", any_type); ("close", [TVoid])
]%string.

(** [m] returns only values with [P]. *)
Definition returns {S A} (P : A -> Prop) (m : M S A) : Prop :=
  forall s a s', m s = (Ok a, s') -> P a.

Create HintDb returns.

Lemma returns_bind {S A B} (P : B -> Prop) (m : M S A) (f : A -> M S B) :
  (forall a, returns P (f a)) -> returns P (m ≫= f).
Proof.
  intros Hf s b s' E. destruct (bind_ok_inv _ _ _ _ _ E) as (a & s1 & _ & E2). by apply (Hf a s1 b s').
Qed.

Lemma returns_ret {S A} (P : A -> Prop) (a : A) : P a -> returns P (mret a : M S A).
Proof. intros Ha s b s' [= <- _]. done. Qed.

(** A result that is returned after a last step. *)
Lemma returns_after {S A B} (P : A -> Prop) (m : M S A) (n : A -> M S B) :
  returns P m -> returns P (m ≫= fun a => n a ≫= fun _ => mret a).
Proof.
  intros Hm s b s' E. destruct (bind_ok_inv _ _ _ _ _ E) as (a & s1 & E1 & E2).
  destruct (bind_ok_inv _ _ _ _ _ E2) as (x & s2 & _ & [= <- _]). by apply (Hm s a s1).
Qed.

Lemma returns_raise {S A} (P : A -> Prop) w : returns P (raise w : M S A).
Proof. by intros s b s'. Qed.

Lemma returns_throw {S A} (P : A -> Prop) e : returns P (throw e : M S A).
Proof. by intros s b s'. Qed.

Lemma returns_crash {S A} (P : A -> Prop) w : returns P (crash w : M S A).
Proof. by intros s b s'. Qed.

Lemma returns_any {S} (m : M S value) : returns (has_type any_type) m.
Proof. intros s v s' _. apply (bool_decide_unpack _). by destruct v. Qed.

#[export] Hint Resolve returns_raise returns_throw returns_crash returns_any : returns.
#[export] Hint Extern 1 (returns _ (mret _)) =>
  apply returns_ret; apply (bool_decide_unpack _); vm_compute; exact I : returns.
#[export] Hint Extern 1 (returns _ (_ ≫= fun a => _ ≫= fun _ => mret a)) =>
  apply returns_after : returns.
#[export] Hint Extern 2 (returns _ (_ ≫= _)) => apply returns_bind; intros : returns.
#[export] Hint Extern 3 (returns _ (let '(_, _) := ?x in _)) => destruct x : returns.
#[export] Hint Extern 3 (returns _ (match ?x with _ => _ end)) => destruct x : returns.

Lemma returns_spawn {Job N} (job : Job) :
  returns (has_type [TPromise]) (spawn job : M (async_state Job N) value).
Proof. intros s a s' [= <- _]. apply list_elem_of_here. Qed.
#[export] Hint Resolve returns_spawn : returns.

(** The methods of an object have the types of a table. *)
Definition typed {S} (methods : list (string * handler S)) (types : list (string * list js_type))
  : Prop :=
  Forall2 (fun m t => fst m = fst t /\ forall args, returns (has_type (snd t)) (snd m args))
    methods types.

Ltac unfold_methods :=
  unfold Http.response_clear, Http.response_clearHeaders, Http.response_closeConnection,
    Http.response_disableBuffering, Http.response_setNeedDisconnect,
    Http.response_getKernelCacheEnabled, Http.response_resetConnection, Http.response_getStatus,
    Http.response_setStatus, Http.response_redirect, Http.response_setErrorDescription,
    Http.response_disableKernelCache, Http.response_deleteHeader, Http.response_getHeader,
    Http.response_setHeader, Http.response_read, Http.response_write, Http.request_read,
    Http.request_setUrl, Http.request_deleteHeader, Http.request_setHeader,
    Http.request_getHeader, Http.request_getMethod, Http.request_getAbsPath,
    Http.request_getFullUrl, Http.request_getQueryString, Http.request_getPath,
    Http.request_getHost, Http.request_getLocalAddress, Http.request_getRemoteAddress,
    Http.deleteHeader, Http.getHeader, Http.setHeader,
    Fetch.response_status, Fetch.response_text, Fetch.response_blob, Fetch.response_headers,
    Fs.fs_copy, Fs.fs_exists, Fs.fs_delete, Fs.fs_write, Fs.fs_read,
    Db.db_prepare, Db.db_reset, Db.db_execSync, Db.db_querySync, Db.db_queryRowSync, Db.db_close,
    Db.db_next, Db.db_fetch, Db.fetch_as, Db.db_bind,
    IpcObject.ipc_set, IpcObject.ipc_close,
    DbObjects.db_exec, DbObjects.db_query, DbObjects.db_queryRow, DbObjects.db_async,
    Callback.fs_register, Callback.register, Engine.print, Engine.load,
    Fetch.fetch, Fetch.gzip_compress, Fetch.gzip_decompress, Fetch.bcrypt_hash, Fetch.bcrypt_check.

(** The methods of the ipc object at an address, and the asynchronous ones of
    the db object at an address. *)
Definition ipc_methods {Job W K} `{IpcObject.IpcKv W K} `{V8Strings} (a : nat)
  : list (string * handler (async_state Job (IpcObject.ipc_heap W K))) :=
  map (fun m => (fst m, snd m a)) IpcObject.ipc_methods.

Definition db_async_methods {D} `{Db.CppDb D} (a : nat)
  : list (string * handler (async_state (nat * Db.db_job) (DbObjects.db_heap (D := D)))) :=
  map (fun m => (fst m, snd m a)) DbObjects.db_async_methods.

(** [print] and [load], and [register], of the global object; [fs.register] and
    the other functions of [fs]; the functions that return a promise. *)
Definition engine_methods {W} `{Engine.Host W} `{V8Strings} execute
  : list (string * handler (Engine.engine W)) := [
  ("print", Engine.print); ("load", Engine.load execute)
]%string.

Definition register_methods : list (string * handler Callback.functions) := [
  ("register", Callback.register)
]%string.

Definition fs_register_methods : list (string * handler Callback.functions) := [
  ("register", Callback.fs_register)
]%string.

Definition fs_methods {W} `{Fs.FileSystem W} `{V8Strings} `{V8Host} : list (string * handler (Fs.fs_state W)) := [
  ("copy", Fs.fs_copy); ("exists", Fs.fs_exists); ("delete", Fs.fs_delete); ("write", Fs.fs_write);
  ("read", Fs.fs_read)
]%string.

Definition promise_methods {N} `{V8Strings} `{V8Host}
  : list (string * handler (async_state Fetch.job N)) := [
  ("http.fetch", Fetch.fetch); ("gzip.compress", Fetch.gzip_compress);
  ("gzip.decompress", Fetch.gzip_decompress); ("crypto.bcrypt.hash", Fetch.bcrypt_hash);
  ("crypto.bcrypt.check", Fetch.bcrypt_check)
]%string.

(** [db.init] and [ipc.init] return the object made for the new address. *)
Lemma returns_db_init {D} `{Db.CppDb D} `{V8Strings} d db_object capacity args :
  (forall a, has_type [TObject] (db_object a)) ->
  returns (has_type [TObject]) (DbObjects.db_init d db_object capacity args).
Proof. intros Hobj. unfold DbObjects.db_init. auto 20 using returns_ret with returns. Qed.

Lemma returns_ipc_init {Job W K} `{IpcObject.IpcKv W K} `{V8Strings} ipc_object capacity args :
  (forall a, has_type [TObject] (ipc_object a)) ->
  returns (has_type [TObject]) (IpcObject.ipc_init (Job := Job) ipc_object capacity args).
Proof. intros Hobj. unfold IpcObject.ipc_init. auto 20 using returns_ret with returns. Qed.

Ltac typed_table :=
  unfold typed; repeat (apply Forall2_cons_2; [split; [done|intros args; cbn [fst snd]]|]);
  try apply Forall2_nil_2; unfold_methods; auto 30 with returns.

(** C28 (type).  Every function a script can call, those of the global object,
    [http], [ipc], [fs], [db], [gzip] and [crypto.bcrypt], and those of the
    response, the request, the object of a fetch, the db object and the ipc
    object, returns only values of the type the source gives it in a comment: the
    asynchronous ones promises, those of the db object too, and [db.init] and
    [ipc.init] the object that was made. *)
Theorem methods_typed {E H W D N Job I K} `{Engine.Host E} `{Http.IIS H} `{Fs.FileSystem W} `{Db.CppDb D}
    `{IpcObject.IpcKv I K} `{V8Strings} `{V8Host} execute db_context db_object ipc_object size size' :
  (forall a, has_type [TObject] (db_object a)) -> (forall a, has_type [TObject] (ipc_object a)) ->
  typed (engine_methods (W := E) execute) (take 2 global_types) /\
  typed register_methods (drop 2 global_types) /\
  typed fs_register_methods (take 1 fs_types) /\
  typed (S := Fs.fs_state W) fs_methods (drop 1 fs_types) /\
  typed (promise_methods (N := N)) promise_types /\
  (forall args, returns (has_type [TObject]) (DbObjects.db_init (D := D) db_context db_object size args)) /\
  typed (S := D) DbObjects.db_methods db_types /\
  (forall a, typed (db_async_methods (D := D) a) db_async_types) /\
  (forall args, returns (has_type [TObject])
     (IpcObject.ipc_init (Job := Job) (W := I) (H := K) ipc_object size' args)) /\
  (forall a, typed (ipc_methods (Job := Job) (W := I) (K := K) a) ipc_types) /\
  typed (S := H) Http.http_response_object response_types /\
  typed (S := H) Http.http_request_object request_types /\
  typed Fetch.fetch_response_object fetch_types.
Proof.
  intros Hdb Hipc. split_and!; try (intros a; by apply returns_db_init || by apply returns_ipc_init);
    try intros a; typed_table.
Qed.

(** ** Promises *)

(** The type a promise is resolved with. *)
Definition job_type (j : Fetch.job) : list js_type :=
  match j with
  | Fetch.JFetch _ => [TObject]
  | Fetch.JCompress _ _ => [TUint8Array]
  | Fetch.JDecompress _ => [TString]
  | Fetch.JHash _ _ => [TString]
  | Fetch.JCheck _ _ => [TBoolean]
  end.

Definition db_job_type (j : Db.db_job) : list js_type :=
  match j with Db.JQueryRow => [TBoolean] | _ => [TVoid] end.

(** A settlement with a value of the type, or with a message. *)
Definition settles (ts : list js_type) (s : settlement) : Prop :=
  match s with Resolve v => has_type ts v | Reject v => has_type [TString] v end.

Lemma db_settles_by {D} `{V8Strings} (m : M D unit) result ts :
  (forall d, has_type ts (result d)) ->
  forall d calls d', Db.settle_by m result d = (Ok calls, d') ->
    Forall (fun c => settles ts (fst c)) calls.
Proof.
  intros Hr d calls d' E. unfold Db.settle_by in E.
  destruct (m d) as [[[]|e|w] d1]; [| |done]; injection E as <- _; apply Forall_singleton.
  - apply Hr.
  - simpl. destruct (bool_decide _); [apply Hr|]. by apply (bool_decide_unpack _).
Qed.

Ltac settle := simplify_eq; apply Forall_singleton;
  first [by apply (bool_decide_unpack _); vm_compute | done].

(** (type).  Every promise is resolved with a value of the type the source
    gives it, or rejected with a string: those of [http.fetch], [gzip] and
    [crypto.bcrypt], and those of the db object. *)
Theorem promises_typed {N Str D} `{Fetch.Native N} `{Gzip.Zlib Str} `{Db.CppDb D} `{V8Strings}
    fetch_object fuel :
  (forall r, has_type [TObject] (fetch_object r)) ->
  (forall j n calls n',
     Fetch.run_job (Str := Str) fetch_object fuel j n = (Ok calls, n') ->
     Forall (fun c => settles (job_type j) (fst c)) calls) /\
  (forall j (d : D) calls d', Db.db_thread j d = (Ok calls, d') ->
     Forall (fun c => settles (db_job_type j) (fst c)) calls).
Proof.
  intros Hobj. split.
  - intros [r|str level|b|i w|p h] n calls n' E; cbn [Fetch.run_job job_type] in *.
    + unfold Fetch.fetch_thread in E. destruct (match Fetch.dispatch r with Some _ => _ | _ => _ end)
        as [[[res|]|e|w] n1]; try discriminate E; [|settle].
      simplify_eq. apply Forall_singleton, Hobj.
    + injection E as E _. unfold Fetch.compress_thread in E.
      destruct (Fetch.gzip_outcome _) as [[|c l]|e|w]; try discriminate E; settle.
    + injection E as E _. unfold Fetch.decompress_thread in E.
      destruct (Fetch.gzip_outcome _) as [[|c l]|e|w]; try discriminate E; settle.
    + unfold Fetch.hash_thread in E. destruct (Fetch.bcrypt_gensalt w n) as [[r salt] n1].
      destruct (negb (r =? 0)); [settle|].
      destruct (Fetch.bcrypt_hashpw _ salt) as [r2 hash].
      destruct (negb (r2 =? 0)); settle.
    + injection E as E _. unfold Fetch.check_thread in E. settle.
  - intros [] d calls d' E; cbn [Db.db_thread db_job_type] in *;
      eapply db_settles_by; try exact E; intros; first [by apply (bool_decide_unpack _); vm_compute | done].
Qed.

(** ** At a concrete input *)

#[local] Existing Instances Fetch.offline ascii_strings Gzip.stored Db.row_db Http.memory_iis Http.ascii_host
  Fs.memory_file_system IpcObject.map_kv Engine.test_host.

Lemma promises_typed_witness :
  Forall (fun c => settles [TBoolean] (fst c)) [(Resolve (VBoolean true), @None Z)].
Proof.
  exact (proj1 (promises_typed (N := unit) (Str := bytes * bool) (D := Db.column -> Db.db_value) (fun _ => VObject []) 0
    (fun _ => list_elem_of_here _ _)) (Fetch.JCheck [] []) tt _ tt eq_refl).
Defined.

(** [fs.register] and [db.exec] at work, and [db.init] of an object. *)
Lemma methods_typed_witness :
  returns (has_type [TVoid]) (Callback.fs_register {| this_field := false; argv := [VFunction 3] |}) /\
  returns (has_type [TPromise])
    (DbObjects.db_exec (D := Db.column -> Db.db_value) 0 {| this_field := true; argv := [] |}) /\
  returns (has_type [TObject])
    (DbObjects.db_init (D := Db.column -> Db.db_value) (fun _ => Db.DbNull) (fun _ => VObject []) 96
       {| this_field := false; argv := [VString (L "c")] |}).
Proof.
  destruct (methods_typed (E := Z) (H := Http.memory_context) (W := Fs.memory_fs)
    (D := Db.column -> Db.db_value) (N := unit) (Job := Empty_set) (I := IpcObject.kv_tables) (K := bytes)
    (fun _ => mret ()) (fun _ => Db.DbNull) (fun _ => VObject []) (fun _ => VObject []) 96 96
    (fun _ => list_elem_of_here _ _) (fun _ => list_elem_of_here _ _))
    as (_ & _ & Hfs & _ & _ & Hinit & _ & Hasync & _).
  split_and!.
  - exact (proj2 (proj1 (Forall2_cons_1 _ _ _ _ _ Hfs)) _).
  - exact (proj2 (proj1 (Forall2_cons_1 _ _ _ _ _ (Hasync 0%nat))) _).
  - apply Hinit.
Defined.
