(* ===== verification/MsgObject.v ===== *)
(** * MessagePack: objects and their bytes

    Include/rpc/msgpack: the object type (v1/object_fwd.hpp), the loads and
    stores of sysdep.h, the [packer] (v1/pack.hpp), the packing, the comparison
    and the memory of objects (v1/object.hpp).  An object here is the tree it
    stands for; MsgVisitor.v has the pointers.  A [double] is the 64 bits of
    its representation. *)
From S2P Require Import Prelude.

(** ** Loads and stores *)

(** The [n] low bytes of [z], the most significant one first: what
    [_msgpack_store16], [_msgpack_store32] and [_msgpack_store64] copy. *)
Fixpoint store (n : nat) (z : Z) : bytes :=
  match n with
  | O => []
  | S m => z / 2 ^ (8 * Z.of_nat m) mod 256 :: store m z
  end.

(** [load<T>] for an unsigned [T]. *)
Definition load (s : bytes) : Z := foldl (fun acc b => acc * 256 + b) 0 s.

(** The value of a signed integer of [w] bits. *)
Definition signed (w z : Z) : Z := if z mod 2 ^ w <? 2 ^ (w - 1) then z mod 2 ^ w else z mod 2 ^ w - 2 ^ w.

(** [load<T>] for a signed [T]. *)
Definition load_signed (s : bytes) : Z := signed (8 * Z.of_nat (length s)) (load s).

(** [take8_8], [take8_16], [take8_32], [take8_64]: the byte at the least address of
    a little-endian machine. *)
Definition take8 (d : Z) : Z := d mod 256.

Definition is_byte (b : Z) : Prop := 0 <= b < 256.

(** ** Floats

    The conversions of the language between [float] and [double], to the
    nearest and to even; a signalling NaN becomes a quiet one. *)

(** [double d = f;] *)
Definition widen (f : Z) : Z :=
  let s := f / 2 ^ 31 in
  let e := f / 2 ^ 23 mod 256 in
  let m := f mod 2 ^ 23 in
  s * 2 ^ 63 +
  if e =? 255 then 2047 * 2 ^ 52 + (if m =? 0 then 0 else Z.lor (m * 2 ^ 29) (2 ^ 51))
  else if e =? 0 then
    if m =? 0 then 0
    else (Z.log2 m + 874) * 2 ^ 52 + (m * 2 ^ (52 - Z.log2 m) - 2 ^ 52)
  else (e + 896) * 2 ^ 52 + m * 2 ^ 29.

(** [x / 2^n], to the nearest and to even. *)
Definition round_shift (x n : Z) : Z :=
  let q := x / 2 ^ n in
  let r := x mod 2 ^ n in
  if (2 ^ (n - 1) <? r) || ((r =? 2 ^ (n - 1)) && Z.odd q) then q + 1 else q.

(** [float f = d;] *)
Definition narrow (d : Z) : Z :=
  let s := d / 2 ^ 63 in
  let e := d / 2 ^ 52 mod 2048 in
  let m := d mod 2 ^ 52 in
  s * 2 ^ 31 +
  if e =? 2047 then 255 * 2 ^ 23 + (if m =? 0 then 0 else Z.lor (m / 2 ^ 29) (2 ^ 22))
  else if e =? 0 then 0
  else if e <=? 896 then round_shift (2 ^ 52 + m) (926 - e)
  else Z.min ((e - 897) * 2 ^ 23 + round_shift (2 ^ 52 + m) 29) (255 * 2 ^ 23).

(** A [float] the conversions keep: not a signalling NaN. *)
Definition quiet (f : Z) : Prop :=
  f / 2 ^ 23 mod 256 = 255 -> f mod 2 ^ 23 = 0 \/ Z.testbit f 22 = true.

(** ** Objects *)

Inductive object :=
| NIL
| BOOLEAN (b : bool)
| POSITIVE_INTEGER (u64 : Z)
| NEGATIVE_INTEGER (i64 : Z)
| FLOAT32 (f64 : Z)
| FLOAT64 (f64 : Z)
| STR (s : bytes)
| BIN (s : bytes)
(** [ptr]: the byte of the type and the data. *)
| EXT (type : Z) (data : bytes)
| ARRAY (items : list object)
| MAP (items : list (object * object)).

(** The induction principle with the items of arrays and maps. *)
Lemma object_ind_items (P : object -> Prop) :
  P NIL -> (forall b, P (BOOLEAN b)) -> (forall u, P (POSITIVE_INTEGER u)) ->
  (forall i, P (NEGATIVE_INTEGER i)) -> (forall f, P (FLOAT32 f)) -> (forall f, P (FLOAT64 f)) ->
  (forall s, P (STR s)) -> (forall s, P (BIN s)) -> (forall t d, P (EXT t d)) ->
  (forall l, Forall P l -> P (ARRAY l)) ->
  (forall l, Forall (fun kv => P kv.1 /\ P kv.2) l -> P (MAP l)) ->
  forall o, P o.
Proof.
  intros ????????? Ha Hm. fix IH 1. intros [| | | | | | | | |l|l].
  10: { apply Ha. induction l; constructor; auto. }
  10: { apply Hm. induction l as [|[]]; constructor; auto. }
  all: clear IH; auto.
Qed.

(** ** The packer

    Each operation gives the bytes it appends to the stream. *)

Definition pack_nil : bytes := [0xc0].
Definition pack_true : bytes := [0xc3].
Definition pack_false : bytes := [0xc2].

Definition pack_imp_uint8 (d : Z) : bytes :=
  if d <? 2 ^ 7 then [take8 d] else [0xcc; take8 d].

Definition pack_imp_uint16 (d : Z) : bytes :=
  if d <? 2 ^ 7 then [take8 d]
  else if d <? 2 ^ 8 then [0xcc; take8 d]
  else 0xcd :: store 2 d.

Definition pack_imp_uint32 (d : Z) : bytes :=
  if d <? 2 ^ 8 then
    if d <? 2 ^ 7 then [take8 d] else [0xcc; take8 d]
  else if d <? 2 ^ 16 then 0xcd :: store 2 d
  else 0xce :: store 4 d.

Definition pack_imp_uint64 (d : Z) : bytes :=
  if d <? 2 ^ 8 then
    if d <? 2 ^ 7 then [take8 d] else [0xcc; take8 d]
  else if d <? 2 ^ 16 then 0xcd :: store 2 d
  else if d <? 2 ^ 32 then 0xce :: store 4 d
  else 0xcf :: store 8 d.

Definition pack_imp_int8 (d : Z) : bytes :=
  if d <? - 2 ^ 5 then [0xd0; take8 d] else [take8 d].

Definition pack_imp_int16 (d : Z) : bytes :=
  if d <? - 2 ^ 5 then
    if d <? - 2 ^ 7 then 0xd1 :: store 2 d else [0xd0; take8 d]
  else if d <? 2 ^ 7 then [take8 d]
  else if d <? 2 ^ 8 then [0xcc; take8 d]
  else 0xcd :: store 2 d.

Definition pack_imp_int32 (d : Z) : bytes :=
  if d <? - 2 ^ 5 then
    if d <? - 2 ^ 15 then 0xd2 :: store 4 d
    else if d <? - 2 ^ 7 then 0xd1 :: store 2 d
    else [0xd0; take8 d]
  else if d <? 2 ^ 7 then [take8 d]
  else if d <? 2 ^ 8 then [0xcc; take8 d]
  else if d <? 2 ^ 16 then 0xcd :: store 2 d
  else 0xce :: store 4 d.

Definition pack_imp_int64 (d : Z) : bytes :=
  if d <? - 2 ^ 5 then
    if d <? - 2 ^ 15 then
      if d <? - 2 ^ 31 then 0xd3 :: store 8 d else 0xd2 :: store 4 d
    else if d <? - 2 ^ 7 then 0xd1 :: store 2 d
    else [0xd0; take8 d]
  else if d <? 2 ^ 7 then [take8 d]
  else if d <? 2 ^ 16 then
    if d <? 2 ^ 8 then [0xcc; take8 d] else 0xcd :: store 2 d
  else if d <? 2 ^ 32 then 0xce :: store 4 d
  else 0xcf :: store 8 d.

Definition pack_float (f : Z) : bytes := 0xca :: store 4 f.
Definition pack_double (f : Z) : bytes := 0xcb :: store 8 f.

Definition pack_array (n : Z) : bytes :=
  if n <? 16 then [Z.lor 0x90 n]
  else if n <? 65536 then 0xdc :: store 2 n
  else 0xdd :: store 4 n.

Definition pack_map (n : Z) : bytes :=
  if n <? 16 then [Z.lor 0x80 n]
  else if n <? 65536 then 0xde :: store 2 n
  else 0xdf :: store 4 n.

Definition pack_str (l : Z) : bytes :=
  if l <? 32 then [Z.lor 0xa0 l]
  else if l <? 256 then [0xd9; l]
  else if l <? 65536 then 0xda :: store 2 l
  else 0xdb :: store 4 l.

Definition pack_bin (l : Z) : bytes :=
  if l <? 256 then [0xc4; l]
  else if l <? 65536 then 0xc5 :: store 2 l
  else 0xc6 :: store 4 l.

Definition pack_ext (l type : Z) : bytes :=
  if l =? 1 then [0xd4; u8 type]
  else if l =? 2 then [0xd5; u8 type]
  else if l =? 4 then [0xd6; u8 type]
  else if l =? 8 then [0xd7; u8 type]
  else if l =? 16 then [0xd8; u8 type]
  else if l <? 256 then [0xc7; l; u8 type]
  else if l <? 65536 then 0xc8 :: store 2 l ++ [u8 type]
  else 0xc9 :: store 4 l ++ [u8 type].

(** The size of a container, which is kept in 32 bits. *)
Definition zlen {A} (l : list A) : Z := Z.of_nat (length l).

(** [operator<<(packer&, object const&)]. *)
Fixpoint pack (v : object) : bytes :=
  match v with
  | NIL => pack_nil
  | BOOLEAN b => if b then pack_true else pack_false
  | POSITIVE_INTEGER u => pack_imp_uint64 u
  | NEGATIVE_INTEGER i => pack_imp_int64 i
  | FLOAT32 f => pack_float (narrow f)
  | FLOAT64 f => pack_double f
  | STR s => pack_str (zlen s) ++ s
  | BIN s => pack_bin (zlen s) ++ s
  | EXT type data => pack_ext (zlen data) (signed 8 type) ++ data
  | ARRAY items => pack_array (zlen items) ++ concat (map pack items)
  | MAP items => pack_map (zlen items) ++ concat (map (fun kv => pack kv.1 ++ pack kv.2) items)
  end.

(** ** Comparison and memory *)

(** [==] of [double]: zeros are equal and a NaN is not equal to itself. *)
Definition is_nan (d : Z) : bool := (d / 2 ^ 52 mod 2048 =? 2047) && negb (d mod 2 ^ 52 =? 0).

Definition f64_eq (x y : Z) : bool :=
  negb (is_nan x) && negb (is_nan y) &&
  ((x =? y) || ((x mod 2 ^ 63 =? 0) && (y mod 2 ^ 63 =? 0))).

(** [std::memcmp(x, y, n) == 0]. *)
Definition memcmp (x y : bytes) (n : nat) : bool := bool_decide (take n x = take n y).

Section operator_eq_items.
Context {A : Type} (eq : A -> A -> bool).

(** The loops over arrays and maps of the same size. *)
Fixpoint eq_items (x y : list A) : bool :=
  match x, y with
  | a :: x', b :: y' => if eq a b then eq_items x' y' else false
  | _, _ => true
  end.
End operator_eq_items.

(** [operator==(object const&, object const&)]; an extension is compared over
    the size of its data, from the byte of its type on. *)
Fixpoint operator_eq (x y : object) : bool :=
  match x, y with
  | NIL, NIL => true
  | BOOLEAN a, BOOLEAN b => Bool.eqb a b
  | POSITIVE_INTEGER a, POSITIVE_INTEGER b => a =? b
  | NEGATIVE_INTEGER a, NEGATIVE_INTEGER b => a =? b
  | FLOAT32 a, FLOAT32 b | FLOAT64 a, FLOAT64 b => f64_eq a b
  | STR a, STR b | BIN a, BIN b => (zlen a =? zlen b) && memcmp a b (length a)
  | EXT t a, EXT u b => (zlen a =? zlen b) && memcmp (t :: a) (u :: b) (length a)
  | ARRAY a, ARRAY b => (zlen a =? zlen b) && eq_items operator_eq a b
  | MAP a, MAP b =>
      (zlen a =? zlen b) &&
      eq_items (fun kv kw => operator_eq kv.1 kw.1 && operator_eq kv.2 kw.2) a b
  | _, _ => false
  end.

(** [sizeof(object)] and [sizeof(object_kv)]. *)
Definition sizeof_object : Z := 24.
Definition sizeof_object_kv : Z := 48.

(** [aligned_size] of zone.hpp. *)
Definition aligned_size (size align : Z) : Z := (size + align - 1) / align * align.

Definition sum (l : list Z) : Z := foldr Z.add 0 l.

(** [aligned_zone_size]; [add_ext_type_size] on a 64-bit machine. *)
Fixpoint aligned_zone_size (o : object) : Z :=
  match o with
  | ARRAY l => aligned_size (sizeof_object * zlen l) 8 + sum (map aligned_zone_size l)
  | MAP l =>
      aligned_size (sizeof_object_kv * zlen l) 8 +
      sum (map (fun kv => aligned_zone_size kv.1 + aligned_zone_size kv.2) l)
  | EXT _ d => aligned_size (zlen d + 1) 1
  | STR s | BIN s => aligned_size (zlen s) 1
  | _ => 0
  end.

(** ** Lemmas on loads and stores *)

Lemma length_store n z : length (store n z) = n.
Proof. induction n; simpl; auto. Qed.

Lemma store_bytes n z : Forall is_byte (store n z).
Proof.
  induction n; constructor; [|done].
  split; [apply Z.mod_pos_bound; lia|apply Z.mod_pos_bound; lia].
Qed.

Lemma foldl_load acc s :
  foldl (fun acc b => acc * 256 + b) acc s = acc * 2 ^ (8 * Z.of_nat (length s)) + load s.
Proof.
  unfold load. revert acc. induction s as [|b s IH]; intros acc; cbn [foldl length].
  - change (8 * Z.of_nat 0) with 0. lia.
  - rewrite (IH (acc * 256 + b)), (IH (0 * 256 + b)).
    replace (8 * Z.of_nat (S (length s))) with (8 + 8 * Z.of_nat (length s)) by lia.
    rewrite Z.pow_add_r by lia. change (2 ^ 8) with 256. ring.
Qed.

Lemma load_cons b s : load (b :: s) = b * 2 ^ (8 * Z.of_nat (length s)) + load s.
Proof. unfold load at 1. simpl. by rewrite foldl_load. Qed.

Lemma load_store n z : load (store n z) = z mod 2 ^ (8 * Z.of_nat n).
Proof.
  induction n as [|n IH]; [by rewrite Z.mod_1_r|].
  cbn [store]. rewrite load_cons, length_store, IH.
  replace (8 * Z.of_nat (S n)) with (8 * Z.of_nat n + 8) by lia.
  rewrite Z.pow_add_r by lia. change (2 ^ 8) with 256.
  rewrite Z.rem_mul_r by lia. lia.
Qed.

Lemma load_range s : Forall is_byte s -> 0 <= load s < 2 ^ (8 * Z.of_nat (length s)).
Proof.
  induction 1 as [|b s Hb Hs IH]; [done|]. rewrite load_cons. unfold is_byte in Hb.
  cbn [length]. replace (8 * Z.of_nat (S (length s))) with (8 * Z.of_nat (length s) + 8) by lia.
  rewrite Z.pow_add_r by lia. change (2 ^ 8) with 256. nia.
Qed.

Lemma signed_small w z : 0 < w -> - 2 ^ (w - 1) <= z < 2 ^ (w - 1) -> signed w (z mod 2 ^ w) = z.
Proof.
  intros Hw Hz. unfold signed. rewrite Z.mod_mod by lia.
  assert (2 ^ w = 2 * 2 ^ (w - 1)) as E by (rewrite <- Z.pow_succ_r by lia; f_equal; lia).
  destruct (Z.ltb_spec z 0).
  - replace (z mod 2 ^ w) with (z + 2 ^ w) by (apply Z.mod_unique with (-1); lia).
    destruct (Z.ltb_spec (z + 2 ^ w) (2 ^ (w - 1))); lia.
  - rewrite Z.mod_small by lia. destruct (Z.ltb_spec z (2 ^ (w - 1))); lia.
Qed.

Lemma signed_range w z : 0 < w -> - 2 ^ (w - 1) <= signed w z < 2 ^ (w - 1).
Proof.
  intros Hw. unfold signed.
  assert (2 ^ w = 2 * 2 ^ (w - 1)) as E by (rewrite <- Z.pow_succ_r by lia; f_equal; lia).
  pose proof (Z.mod_pos_bound z (2 ^ w)).
  destruct (Z.ltb_spec (z mod 2 ^ w) (2 ^ (w - 1))); lia.
Qed.

Lemma load_signed_store n z :
  (0 < n)%nat -> - 2 ^ (8 * Z.of_nat n - 1) <= z < 2 ^ (8 * Z.of_nat n - 1) ->
  load_signed (store n z) = z.
Proof.
  intros Hn Hz. unfold load_signed. rewrite length_store, load_store. apply signed_small; lia.
Qed.

Lemma load_store_small n w z : w = 8 * Z.of_nat n -> 0 <= z < 2 ^ w -> load (store n z) = z.
Proof. intros -> Hz. rewrite load_store. by apply Z.mod_small. Qed.

Lemma load_signed_small n w z :
  w = 8 * Z.of_nat n - 1 -> 0 < w -> - 2 ^ w <= z < 2 ^ w -> load_signed (store n z) = z.
Proof. intros -> Hw Hz. apply load_signed_store; [lia|done]. Qed.

Lemma store_1 z : store 1 z = [take8 z].
Proof. cbn [store]. change (2 ^ (8 * Z.of_nat 0)) with 1. by rewrite Z.div_1_r. Qed.

(** The headers with a size in their low bits. *)
Lemma lor_low b k l :
  0 <= k -> 0 <= l < 2 ^ k ->
  Z.lor (b * 2 ^ k) l = b * 2 ^ k + l /\ Z.land (Z.lor (b * 2 ^ k) l) (Z.ones k) = l.
Proof.
  intros Hk Hl.
  assert (Z.lor (b * 2 ^ k) l = b * 2 ^ k + l) as ->.
  { assert (Z.land (b * 2 ^ k) l = 0) as Hland.
    { apply Z.bits_inj'. intros i Hi. rewrite Z.land_spec, Z.bits_0.
      destruct (Z.ltb_spec i k); [by rewrite Z.mul_pow2_bits_low|].
      rewrite <- (Z.mod_small l (2 ^ k)) by lia. rewrite Z.mod_pow2_bits_high by lia. apply andb_false_r. }
    by rewrite <- Z.lxor_lor, <- Z.add_nocarry_lxor. }
  split; [done|]. rewrite Z.land_ones, Z.add_comm, Z.mod_add, Z.mod_small by lia. done.
Qed.

(** ** Floats that are widened *)

(** The fields of a floating-point number of [j] bits of mantissa and [k] of
    exponent. *)
Lemma fields j k s e m :
  0 <= j -> 0 <= k -> 0 <= e < 2 ^ k -> 0 <= m < 2 ^ j ->
  let x := s * 2 ^ (k + j) + (e * 2 ^ j + m) in
  x / 2 ^ (k + j) = s /\ x / 2 ^ j mod 2 ^ k = e /\ x mod 2 ^ j = m.
Proof.
  intros Hj Hk He Hm x. assert (x = (s * 2 ^ k + e) * 2 ^ j + m) as Ex.
  { unfold x. rewrite Z.pow_add_r by lia. ring. }
  assert (0 < 2 ^ j) by lia. assert (0 < 2 ^ k) by lia.
  assert (x / 2 ^ j = s * 2 ^ k + e) as Hd.
  { rewrite Ex, Z.div_add_l, Z.div_small by lia. lia. }
  split_and!.
  - rewrite Z.add_comm, Z.pow_add_r, <- Z.div_div, Hd by lia.
    rewrite Z.div_add_l, Z.div_small by lia. lia.
  - rewrite Hd, Z.add_comm, Z.mod_add, Z.mod_small by lia. done.
  - rewrite Ex, Z.add_comm, Z.mod_add, Z.mod_small by lia. done.
Qed.

Lemma fields_inv j k x :
  0 <= j -> 0 <= k ->
  x = x / 2 ^ (k + j) * 2 ^ (k + j) + (x / 2 ^ j mod 2 ^ k * 2 ^ j + x mod 2 ^ j).
Proof.
  intros. rewrite (Z.add_comm k j), Z.pow_add_r, <- Z.div_div by lia.
  pose proof (Z.div_mod x (2 ^ j)). pose proof (Z.div_mod (x / 2 ^ j) (2 ^ k)). nia.
Qed.

(** Shifting out zeros is exact. *)
Lemma round_shift_exact x n : 0 < n -> round_shift (x * 2 ^ n) n = x.
Proof.
  intros Hn. unfold round_shift. rewrite Z.div_mul, Z.mod_mul by lia.
  assert (0 < 2 ^ (n - 1)) by lia.
  destruct (Z.ltb_spec (2 ^ (n - 1)) 0); [lia|].
  destruct (Z.eqb_spec 0 (2 ^ (n - 1))); [lia|done].
Qed.

Lemma narrow_fields s e m :
  0 <= e < 2048 -> 0 <= m < 2 ^ 52 ->
  narrow (s * 2 ^ 63 + (e * 2 ^ 52 + m)) = s * 2 ^ 31 +
  (if e =? 2047 then 255 * 2 ^ 23 + (if m =? 0 then 0 else Z.lor (m / 2 ^ 29) (2 ^ 22))
  else if e =? 0 then 0
  else if e <=? 896 then round_shift (2 ^ 52 + m) (926 - e)
  else Z.min ((e - 897) * 2 ^ 23 + round_shift (2 ^ 52 + m) 29) (255 * 2 ^ 23)).
Proof.
  intros He Hm. destruct (fields 52 11 s e m) as (H1 & H2 & H3); [lia..|].
  change (11 + 52) with 63 in *. change (2 ^ 11) with 2048 in *.
  unfold narrow. by rewrite H1, H2, H3.
Qed.

Lemma lor_quiet m n k : 0 <= m < 2 ^ (n + 1) -> 0 <= n -> 0 <= k ->
  Z.testbit m n = true -> Z.lor (m * 2 ^ k) (2 ^ (n + k)) = m * 2 ^ k.
Proof.
  intros Hm Hn Hk Ht. apply Z.bits_inj'. intros i Hi.
  rewrite Z.lor_spec, Z.mul_pow2_bits, Z.pow2_bits_eqb by lia.
  destruct (Z.eqb_spec (n + k) i) as [<-|]; [|apply orb_false_r].
  replace (n + k - k) with n by lia. by rewrite Ht.
Qed.

Lemma log2_mantissa m : 0 < m < 2 ^ 23 ->
  0 <= Z.log2 m <= 22 /\ 2 ^ 52 <= m * 2 ^ (52 - Z.log2 m) < 2 * 2 ^ 52.
Proof.
  intros Hm. pose proof (Z.log2_spec m ltac:(lia)) as [H1 H2].
  pose proof (Z.log2_nonneg m). assert (Z.log2 m < 23) by (apply Z.log2_lt_pow2; lia).
  rewrite Z.pow_succ_r in H2 by lia.
  assert (2 ^ 52 = 2 ^ Z.log2 m * 2 ^ (52 - Z.log2 m)) as ->.
  { rewrite <- Z.pow_add_r by lia. f_equal. lia. }
  assert (0 < 2 ^ (52 - Z.log2 m)) by lia. nia.
Qed.

(** A [float] survives as the [double] an object keeps, unless it is a
    signalling NaN. *)
Lemma narrow_widen f : quiet f -> narrow (widen f) = f.
Proof.
  intros Hq. unfold quiet in Hq. unfold widen. pose proof (fields_inv 23 8 f ltac:(lia) ltac:(lia)) as Ef.
  change (8 + 23) with 31 in Ef. change (2 ^ 8) with 256 in Ef.
  pose proof (Z.mod_pos_bound (f / 2 ^ 23) 256 ltac:(lia)) as He.
  pose proof (Z.mod_pos_bound f (2 ^ 23) ltac:(lia)) as Hm.
  set (s := f / 2 ^ 31) in *. set (e := f / 2 ^ 23 mod 256) in *.
  assert (Z.testbit (f mod 2 ^ 23) 22 = Z.testbit f 22) as Ht by (by rewrite Z.mod_pow2_bits_low by lia).
  set (m := f mod 2 ^ 23) in *.
  destruct (Z.eqb_spec e 255) as [E|E]; [|destruct (Z.eqb_spec e 0) as [E0|E0]];
    [destruct (Z.eqb_spec m 0) as [Em|Em]| destruct (Z.eqb_spec m 0) as [Em|Em] |].
  - rewrite narrow_fields by lia. cbn [Z.eqb]. simpl. lia.
  - destruct (Hq E) as [|Hb]; [lia|]. rewrite <- Ht in Hb.
    change (2 ^ 51) with (2 ^ (22 + 29)). rewrite (lor_quiet m 22 29) by (done || lia).
    rewrite narrow_fields by lia. rewrite Z.div_mul by lia. simpl.
    destruct (Z.eqb_spec (m * 2 ^ 29) 0); [lia|].
    pose proof (lor_quiet m 22 0 ltac:(lia) ltac:(lia) ltac:(lia) Hb) as Hl.
    rewrite Z.mul_1_r in Hl. change (22 + 0) with 22 in Hl. lia.
  - change 0 with (0 * 2 ^ 52 + 0) at 1. rewrite narrow_fields by lia. simpl. lia.
  - pose proof (log2_mantissa m ltac:(lia)) as [Hl1 Hl2].
    rewrite narrow_fields by lia.
    destruct (Z.eqb_spec (Z.log2 m + 874) 2047); [lia|].
    destruct (Z.eqb_spec (Z.log2 m + 874) 0); [lia|].
    destruct (Z.leb_spec (Z.log2 m + 874) 896); [|lia].
    replace (2 ^ 52 + (m * 2 ^ (52 - Z.log2 m) - 2 ^ 52)) with (m * 2 ^ (52 - Z.log2 m)) by lia.
    replace (926 - (Z.log2 m + 874)) with (52 - Z.log2 m) by lia.
    rewrite round_shift_exact by lia. lia.
  - rewrite narrow_fields by lia.
    destruct (Z.eqb_spec (e + 896) 2047); [lia|].
    destruct (Z.eqb_spec (e + 896) 0); [lia|].
    destruct (Z.leb_spec (e + 896) 896); [lia|].
    replace (2 ^ 52 + m * 2 ^ 29) with ((2 ^ 23 + m) * 2 ^ 29) by lia.
    rewrite round_shift_exact by lia. lia.
Qed.
