(* ===== verification/MsgParse.v ===== *)
(** * MessagePack: the parser

    Include/rpc/msgpack/v2/parse.hpp: [detail::context], the state machine that
    reads objects from a buffer and can stop at any byte of it, [parse_imp] and
    [parse].  What it calls for the parts of an object is the template
    argument [Visitor], here a [Class]; MsgTree.v and MsgVisitor.v have
    instances. *)
From S2P Require Import Prelude MsgObject.

(** v2/parse_return.hpp. *)
Inductive parse_return :=
| PARSE_SUCCESS
| PARSE_EXTRA_BYTES
| PARSE_CONTINUE
| PARSE_PARSE_ERROR
| PARSE_STOP_VISITOR.

(** unpack_define.h. *)
Abbreviation MSGPACK_CS_HEADER := 0x00.
Abbreviation MSGPACK_CS_BIN_8 := 0x04.
Abbreviation MSGPACK_CS_BIN_16 := 0x05.
Abbreviation MSGPACK_CS_BIN_32 := 0x06.
Abbreviation MSGPACK_CS_EXT_8 := 0x07.
Abbreviation MSGPACK_CS_EXT_16 := 0x08.
Abbreviation MSGPACK_CS_EXT_32 := 0x09.
Abbreviation MSGPACK_CS_FLOAT := 0x0a.
Abbreviation MSGPACK_CS_DOUBLE := 0x0b.
Abbreviation MSGPACK_CS_UINT_8 := 0x0c.
Abbreviation MSGPACK_CS_UINT_16 := 0x0d.
Abbreviation MSGPACK_CS_UINT_32 := 0x0e.
Abbreviation MSGPACK_CS_UINT_64 := 0x0f.
Abbreviation MSGPACK_CS_INT_8 := 0x10.
Abbreviation MSGPACK_CS_INT_16 := 0x11.
Abbreviation MSGPACK_CS_INT_32 := 0x12.
Abbreviation MSGPACK_CS_INT_64 := 0x13.
Abbreviation MSGPACK_CS_FIXEXT_1 := 0x14.
Abbreviation MSGPACK_CS_FIXEXT_2 := 0x15.
Abbreviation MSGPACK_CS_FIXEXT_4 := 0x16.
Abbreviation MSGPACK_CS_FIXEXT_8 := 0x17.
Abbreviation MSGPACK_CS_FIXEXT_16 := 0x18.
Abbreviation MSGPACK_CS_STR_8 := 0x19.
Abbreviation MSGPACK_CS_STR_16 := 0x1a.
Abbreviation MSGPACK_CS_STR_32 := 0x1b.
Abbreviation MSGPACK_CS_ARRAY_16 := 0x1c.
Abbreviation MSGPACK_CS_ARRAY_32 := 0x1d.
Abbreviation MSGPACK_CS_MAP_16 := 0x1e.
Abbreviation MSGPACK_CS_MAP_32 := 0x1f.
Abbreviation MSGPACK_ACS_STR_VALUE := 0x20.
Abbreviation MSGPACK_ACS_BIN_VALUE := 0x21.
Abbreviation MSGPACK_ACS_EXT_VALUE := 0x22.

Inductive msgpack_container_type :=
| MSGPACK_CT_ARRAY_ITEM
| MSGPACK_CT_MAP_KEY
| MSGPACK_CT_MAP_VALUE.

(** An address, or a null pointer. *)
Abbreviation pointer := (option Z).
Abbreviation nullptr := (@None Z).

(** What a visitor does with the parts of an object; the operations on text
    get a pointer, a size and the bytes that are there. *)
Class Visitor (V : Type) := {
  init : V -> V;
  visit_nil : M V bool;
  visit_boolean : bool -> M V bool;
  visit_positive_integer : Z -> M V bool;
  visit_negative_integer : Z -> M V bool;
  visit_float32 : Z -> M V bool;
  visit_float64 : Z -> M V bool;
  visit_str : pointer -> Z -> bytes -> M V bool;
  visit_bin : pointer -> Z -> bytes -> M V bool;
  visit_ext : pointer -> Z -> bytes -> M V bool;
  start_array : Z -> M V bool;
  start_array_item : M V bool;
  end_array_item : M V bool;
  end_array : M V bool;
  start_map : Z -> M V bool;
  start_map_key : M V bool;
  end_map_key : M V bool;
  start_map_value : M V bool;
  end_map_value : M V bool;
  end_map : M V bool;
  parse_error : Z -> Z -> M V unit;
  insufficient_bytes : Z -> Z -> M V unit;
}.

Record stack_elem := StackElem { m_type : msgpack_container_type; m_rest : Z }.

(** [context], the reference [off] it is given, and the visitor of its
    holder. *)
Record context (V : Type) := Context {
  m_current : Z;
  m_trail : Z;
  m_cs : Z;
  m_stack : list stack_elem;
  off : Z;
  visitor : V;
}.
Arguments Context {V}.
Arguments m_current {V} c.
Arguments m_trail {V} c.
Arguments m_cs {V} c.
Arguments m_stack {V} c.
Arguments off {V} c.
Arguments visitor {V} c.

(** How a round of the loop ends: with a return, or with the locals
    [fixed_trail_again] and [n] for the next round. *)
Inductive flow :=
| Return (r : parse_return)
| Next (fixed_trail_again : bool) (n : pointer).

Section parse.
Context {V : Type} `{Visitor V}.

Abbreviation MC := (M (context V)).

Definition set_current (p : Z) (c : context V) : context V :=
  Context p (m_trail c) (m_cs c) (m_stack c) (off c) (visitor c).
Definition set_trail (t : Z) (c : context V) : context V :=
  Context (m_current c) t (m_cs c) (m_stack c) (off c) (visitor c).
Definition set_cs (cs : Z) (c : context V) : context V :=
  Context (m_current c) (m_trail c) cs (m_stack c) (off c) (visitor c).
Definition set_stack (s : list stack_elem) (c : context V) : context V :=
  Context (m_current c) (m_trail c) (m_cs c) s (off c) (visitor c).
Definition set_off (o : Z) (c : context V) : context V :=
  Context (m_current c) (m_trail c) (m_cs c) (m_stack c) o (visitor c).
Definition set_visitor (v : V) (c : context V) : context V :=
  Context (m_current c) (m_trail c) (m_cs c) (m_stack c) (off c) v.

(** [holder().visitor().op()]. *)
Definition visit {A} (op : M V A) : MC A := zoom visitor set_visitor op.

(** [off = m_current - m_start;] *)
Definition store_off : MC unit := modify (fun c => set_off (m_current c) c).

(** [context::init]. *)
Definition context_init (c : context V) : context V :=
  Context (m_current c) 0 MSGPACK_CS_HEADER [] (off c) (init (visitor c)).

(** [unpack_stack::push]. *)
Definition push (type : msgpack_container_type) (rest : Z) : MC parse_return :=
  _ ← modify (fun c => set_stack (StackElem type rest :: m_stack c) c);
  match type with
  | MSGPACK_CT_ARRAY_ITEM =>
      ok ← visit start_array_item; mret (if ok : bool then PARSE_CONTINUE else PARSE_STOP_VISITOR)
  | MSGPACK_CT_MAP_KEY =>
      ok ← visit start_map_key; mret (if ok : bool then PARSE_CONTINUE else PARSE_STOP_VISITOR)
  | MSGPACK_CT_MAP_VALUE => crash "assert(0)"
  end.

(** [if (!op()) return PARSE_STOP_VISITOR;] *)
Definition or_stop (op : M V bool) (k : MC parse_return) : MC parse_return :=
  ok ← visit op; if ok : bool then k else mret PARSE_STOP_VISITOR.

(** [unpack_stack::consume], with the elements from the back on. *)
Fixpoint consume (stack : list stack_elem) : MC parse_return :=
  match stack with
  | [] => mret PARSE_SUCCESS
  | e :: below =>
      match m_type e with
      | MSGPACK_CT_ARRAY_ITEM =>
          or_stop end_array_item
            (let rest := u32 (m_rest e - 1) in
             if rest =? 0 then
               _ ← modify (set_stack below); or_stop end_array (consume below)
             else
               _ ← modify (set_stack (StackElem MSGPACK_CT_ARRAY_ITEM rest :: below));
               or_stop start_array_item (mret PARSE_CONTINUE))
      | MSGPACK_CT_MAP_KEY =>
          or_stop end_map_key (or_stop start_map_value
            (_ ← modify (set_stack (StackElem MSGPACK_CT_MAP_VALUE (m_rest e) :: below));
             mret PARSE_CONTINUE))
      | MSGPACK_CT_MAP_VALUE =>
          or_stop end_map_value
            (let rest := u32 (m_rest e - 1) in
             if rest =? 0 then
               _ ← modify (set_stack below); or_stop end_map (consume below)
             else
               _ ← modify (set_stack (StackElem MSGPACK_CT_MAP_KEY rest :: below));
               or_stop start_map_key (mret PARSE_CONTINUE))
      end
  end.

(** [m_stack.consume(holder())]. *)
Definition consume_stack : MC parse_return := c ← get; consume (m_stack c).

(** The end of [after_visit_proc]. *)
Definition finish_visit : MC parse_return :=
  ret ← consume_stack;
  _ ← match ret with PARSE_CONTINUE => mret () | _ => store_off end;
  _ ← modify (set_cs MSGPACK_CS_HEADER);
  mret ret.

(** [after_visit_proc], with the call whose result it is given. *)
Definition after_visit_proc (visit_result : M V bool) : MC parse_return :=
  ok ← visit visit_result;
  _ ← modify (fun c => set_current (m_current c + 1) c);
  if ok : bool then finish_visit
  else _ ← store_off; mret PARSE_STOP_VISITOR.

(** [if (ret != PARSE_CONTINUE) { off = m_current - m_start; return ret; }] *)
Definition return_unless_continue (m : MC parse_return) (k : MC parse_return) : MC parse_return :=
  ret ← m;
  match ret with PARSE_CONTINUE => k | _ => _ ← store_off; mret ret end.

(** [start_aggregate], for the size that was loaded. *)
Definition start_aggregate (sv : Z -> M V bool) (ev : M V bool)
    (type : msgpack_container_type) (size : Z) : MC parse_return :=
  _ ← modify (fun c => set_current (m_current c + 1) c);
  return_unless_continue (or_stop (sv size) (
      if size =? 0 then or_stop ev consume_stack else push type size))
    (_ ← modify (set_cs MSGPACK_CS_HEADER); mret PARSE_CONTINUE).

Definition start_array_aggregate := start_aggregate start_array end_array MSGPACK_CT_ARRAY_ITEM.
Definition start_map_aggregate := start_aggregate start_map end_map MSGPACK_CT_MAP_KEY.

(** The lengths after the headers from 0xc4 to 0xdf. *)
Definition trail : list Z :=
  [1; 2; 4; 1; 2; 4; 4; 8; 1; 2; 4; 8; 1; 2; 4; 8; 2; 3; 5; 9; 17; 1; 2; 4; 2; 4; 2; 4].

(** [next_cs]. *)
Definition next_cs (p : Z) : Z := Z.land p 0x1f.

(** [if (upr != PARSE_CONTINUE) return upr;] *)
Definition returns (n : pointer) (m : MC parse_return) : MC flow :=
  ret ← m; mret (match ret with PARSE_CONTINUE => Next false n | _ => Return ret end).

(** [m_cs = value; fixed_trail_again = true;] after [m_trail] is set, or the
    visit of what is empty. *)
Definition value_state (n : pointer) (value : Z) (empty : M V bool) (trail : Z) : MC flow :=
  _ ← modify (set_trail trail);
  if trail =? 0 then returns n (after_visit_proc empty)
  else _ ← modify (set_cs value); mret (Next true n).

Section data.
(** The address of the buffer, and its bytes up to [len]. *)
Context (m_start : Z) (data : bytes).

Definition len : Z := Z.of_nat (length data).

(** The [k] bytes at [p] of the buffer. *)
Definition bytes_at (p k : Z) : bytes := take (Z.to_nat k) (drop (Z.to_nat p) data).

Definition read {A} (p k : Z) (f : bytes -> MC A) : MC A :=
  if (0 <=? p) && (p + k <=? len) then f (bytes_at p k) else crash "read outside of the buffer".

(** The part of [execute] for [MSGPACK_CS_HEADER]. *)
Definition header (n : pointer) : MC flow :=
  c ← get;
  read (m_current c) 1 (fun s =>
  let selector := load s in
  if (0x00 <=? selector) && (selector <=? 0x7f) then
    returns n (after_visit_proc (visit_positive_integer selector))
  else if (0xe0 <=? selector) && (selector <=? 0xff) then
    returns n (after_visit_proc (visit_negative_integer (load_signed s)))
  else if (0xc4 <=? selector) && (selector <=? 0xdf) then
    _ ← modify (set_trail (nth (Z.to_nat (selector - 0xc4)) trail 0));
    _ ← modify (set_cs (next_cs selector));
    mret (Next true n)
  else if (0xa0 <=? selector) && (selector <=? 0xbf) then
    value_state n MSGPACK_ACS_STR_VALUE (visit_str n 0 []) (Z.land selector 0x1f)
  else if (0x90 <=? selector) && (selector <=? 0x9f) then
    returns n (start_array_aggregate (Z.land selector 0x0f))
  else if (0x80 <=? selector) && (selector <=? 0x8f) then
    returns n (start_map_aggregate (Z.land selector 0x0f))
  else if selector =? 0xc2 then returns n (after_visit_proc (visit_boolean false))
  else if selector =? 0xc3 then returns n (after_visit_proc (visit_boolean true))
  else if selector =? 0xc0 then returns n (after_visit_proc visit_nil)
  else
    _ ← store_off;
    c ← get;
    _ ← visit (parse_error (u64 (off c - 1)) (off c));
    mret (Return PARSE_PARSE_ERROR)).

(** The [switch] on [m_cs], with [n] at [p]. *)
Definition switch (p : Z) : MC flow :=
  c ← get;
  let n := Some (m_start + p) in
  let visited op := returns n (after_visit_proc op) in
  let value k value empty := read p k (fun s => value_state n value (empty n 0 []) (load s)) in
  let ext_value k :=
    read p k (fun s => value_state n MSGPACK_ACS_EXT_VALUE (visit_ext n 0 []) (load s + 1)) in
  let fixext k := read p k (fun s => visited (visit_ext n k s)) in
  match m_cs c with
  | MSGPACK_CS_FLOAT => read p 4 (fun s => visited (visit_float32 (load s)))
  | MSGPACK_CS_DOUBLE => read p 8 (fun s => visited (visit_float64 (load s)))
  | MSGPACK_CS_UINT_8 => read p 1 (fun s => visited (visit_positive_integer (load s)))
  | MSGPACK_CS_UINT_16 => read p 2 (fun s => visited (visit_positive_integer (load s)))
  | MSGPACK_CS_UINT_32 => read p 4 (fun s => visited (visit_positive_integer (load s)))
  | MSGPACK_CS_UINT_64 => read p 8 (fun s => visited (visit_positive_integer (load s)))
  | MSGPACK_CS_INT_8 => read p 1 (fun s => visited (visit_negative_integer (load_signed s)))
  | MSGPACK_CS_INT_16 => read p 2 (fun s => visited (visit_negative_integer (load_signed s)))
  | MSGPACK_CS_INT_32 => read p 4 (fun s => visited (visit_negative_integer (load_signed s)))
  | MSGPACK_CS_INT_64 => read p 8 (fun s => visited (visit_negative_integer (load_signed s)))
  | MSGPACK_CS_FIXEXT_1 => fixext (1 + 1)
  | MSGPACK_CS_FIXEXT_2 => fixext (2 + 1)
  | MSGPACK_CS_FIXEXT_4 => fixext (4 + 1)
  | MSGPACK_CS_FIXEXT_8 => fixext (8 + 1)
  | MSGPACK_CS_FIXEXT_16 => fixext (16 + 1)
  | MSGPACK_CS_STR_8 => value 1 MSGPACK_ACS_STR_VALUE visit_str
  | MSGPACK_CS_BIN_8 => value 1 MSGPACK_ACS_BIN_VALUE visit_bin
  | MSGPACK_CS_EXT_8 => ext_value 1
  | MSGPACK_CS_STR_16 => value 2 MSGPACK_ACS_STR_VALUE visit_str
  | MSGPACK_CS_BIN_16 => value 2 MSGPACK_ACS_BIN_VALUE visit_bin
  | MSGPACK_CS_EXT_16 => ext_value 2
  | MSGPACK_CS_STR_32 => value 4 MSGPACK_ACS_STR_VALUE visit_str
  | MSGPACK_CS_BIN_32 => value 4 MSGPACK_ACS_BIN_VALUE visit_bin
  | MSGPACK_CS_EXT_32 => ext_value 4
  | MSGPACK_ACS_STR_VALUE =>
      let size := u32 (m_trail c) in read p size (fun s => visited (visit_str n size s))
  | MSGPACK_ACS_BIN_VALUE =>
      let size := u32 (m_trail c) in read p size (fun s => visited (visit_bin n size s))
  | MSGPACK_ACS_EXT_VALUE =>
      let size := u32 (m_trail c) in read p size (fun s => visited (visit_ext n size s))
  | MSGPACK_CS_ARRAY_16 => read p 2 (fun s => returns n (start_array_aggregate (load s)))
  | MSGPACK_CS_ARRAY_32 => read p 4 (fun s => returns n (start_array_aggregate (load s)))
  | MSGPACK_CS_MAP_16 => read p 2 (fun s => returns n (start_map_aggregate (load s)))
  | MSGPACK_CS_MAP_32 => read p 4 (fun s => returns n (start_map_aggregate (load s)))
  | _ =>
      _ ← store_off;
      _ ← visit (parse_error (u64 (p - 1)) p);
      mret (Return PARSE_PARSE_ERROR)
  end.

(** The part of [execute] behind the header. *)
Definition behind_header (fixed_trail_again : bool) : MC flow :=
  _ ← (if fixed_trail_again then modify (fun c => set_current (m_current c + 1) c) else mret ());
  c ← get;
  if len - m_current c <? m_trail c then
    _ ← store_off; mret (Return PARSE_CONTINUE)
  else
    _ ← modify (set_current (m_current c + (m_trail c - 1)));
    switch (m_current c).

(** One round of the loop of [execute]. *)
Definition round (fixed_trail_again : bool) (n : pointer) : MC flow :=
  c ← get;
  next ← (if m_cs c =? MSGPACK_CS_HEADER then header n else mret (Next fixed_trail_again n));
  match next with
  | Return r => mret (Return r)
  | Next fixed_trail_again n =>
      c ← get;
      if negb (m_cs c =? MSGPACK_CS_HEADER) || fixed_trail_again
      then behind_header fixed_trail_again
      else mret (Next false n)
  end.

Fixpoint loop (fuel : nat) (fixed_trail_again : bool) (n : pointer) : MC parse_return :=
  match fuel with
  | O => crash "the loop of execute does not end"
  | S fuel =>
      next ← round fixed_trail_again n;
      match next with
      | Return r => mret r
      | Next fixed_trail_again n =>
          c ← get;
          if m_current c =? len then _ ← store_off; mret PARSE_CONTINUE
          else loop fuel fixed_trail_again n
      end
  end.

(** Rounds that are enough: a round consumes a byte, but for one that finds
    the length of a text. *)
Definition rounds (fixed_trail_again : bool) (current : Z) : nat :=
  Z.to_nat (2 * (len - current) + if fixed_trail_again then 0 else 1).

(** [context::execute]; [off] is where it starts. *)
Definition execute : MC parse_return :=
  c ← get;
  if len <? off c then crash "assert(len >= off)"
  else
    _ ← modify (set_current (off c));
    if off c =? len then _ ← store_off; mret PARSE_CONTINUE
    else loop (rounds false (off c)) false nullptr.
End data.

(** ** The whole of a buffer *)

(** [parse_imp]: the offset it leaves and its result. *)
Definition parse_imp (m_start : Z) (data : bytes) (start : Z) : M V (parse_return * Z) := fun v =>
  if len data <=? start then
    (_ ← insufficient_bytes start start; mret (PARSE_CONTINUE, start)) v
  else
    let '(o, c) := execute m_start data (Context start 0 MSGPACK_CS_HEADER [] start v) in
    match o with
    | Ok PARSE_CONTINUE =>
        (_ ← insufficient_bytes (u64 (off c - 1)) (off c); mret (PARSE_CONTINUE, off c)) (visitor c)
    | Ok PARSE_SUCCESS =>
        (Ok (if off c <? len data then PARSE_EXTRA_BYTES else PARSE_SUCCESS, off c), visitor c)
    | Ok r => (Ok (r, start), visitor c)
    | Throw e => (Throw e, visitor c)
    | Crash w => (Crash w, visitor c)
    end.

(** [parse]: whether an object was read, and where it ends. *)
Definition parse (m_start : Z) (data : bytes) (start : Z) : M V (bool * Z) :=
  r ← parse_imp m_start data start;
  mret (match r.1 with PARSE_SUCCESS | PARSE_EXTRA_BYTES => true | _ => false end, r.2).
End parse.

(** [null_visitor] (v2/null_visitor.hpp), which has no [init]: nothing is done and
    nothing stopped. *)
#[export] Instance null_visitor : Visitor () := {|
  init := fun v => v;
  visit_nil := mret true;
  visit_boolean := fun _ => mret true;
  visit_positive_integer := fun _ => mret true;
  visit_negative_integer := fun _ => mret true;
  visit_float32 := fun _ => mret true;
  visit_float64 := fun _ => mret true;
  visit_str := fun _ _ _ => mret true;
  visit_bin := fun _ _ _ => mret true;
  visit_ext := fun _ _ _ => mret true;
  start_array := fun _ => mret true;
  start_array_item := mret true;
  end_array_item := mret true;
  end_array := mret true;
  start_map := fun _ => mret true;
  start_map_key := mret true;
  end_map_key := mret true;
  start_map_value := mret true;
  end_map_value := mret true;
  end_map := mret true;
  parse_error := fun _ _ => mret ();
  insufficient_bytes := fun _ _ => mret ();
|}.

(** ** Progress *)

Lemma bind_ext {S A B} (m : M S A) (k1 k2 : A -> M S B) s :
  (forall a s', m s = (Ok a, s') -> k1 a s' = k2 a s') -> (m ≫= k1) s = (m ≫= k2) s.
Proof. intros Hk. unfold mbind, M_bind. destruct (m s) as [[a| |] s']; auto. Qed.

(** [m_trail] is what [m_cs] waits for. *)
Definition context_ok {V} (c : context V) : Prop :=
  m_cs c = MSGPACK_CS_HEADER \/
  (0x04 <= m_cs c <= 0x1f /\ m_trail c = nth (Z.to_nat (m_cs c - 4)) trail 0) \/
  (0x20 <= m_cs c <= 0x22 /\ 1 <= m_trail c <= 2 ^ 32).

(** A round that goes on is behind a value, or in front of the bytes of one. *)
Definition advanced {V} (fixed : bool) (c c' : context V) : Prop :=
  context_ok c' /\
  if fixed then m_current c' = m_current c /\ m_cs c' <> MSGPACK_CS_HEADER
  else m_current c' = m_current c + 1 /\ m_cs c' = MSGPACK_CS_HEADER.

(** What visits and the stack leave alone. *)
Definition position {V} (c : context V) := (m_current c, m_trail c, m_cs c, off c).

Section progress.
Context {V : Type} `{Visitor V}.

Lemma keeps_visit (P : context V -> Prop) {A} (op : M V A) :
  (forall v c, P c -> P (set_visitor v c)) -> keeps P (visit op).
Proof. intros HP c Hc. unfold visit, zoom. destruct (op (visitor c)). simpl. auto. Qed.

Lemma keeps_or_stop (P : context V -> Prop) op k :
  (forall v c, P c -> P (set_visitor v c)) -> keeps P k -> keeps P (or_stop op k).
Proof.
  intros HP Hk. apply keeps_bind; [by apply keeps_visit|].
  intros [|]; [done|apply keeps_ret].
Qed.

Lemma keeps_consume f stack : keeps (fun c => position c = f) (consume stack).
Proof.
  induction stack as [|e below IH]; simpl; [apply keeps_ret|].
  destruct (m_type e); repeat first
    [ apply keeps_or_stop; [done|] | case_match | apply keeps_bind; [by apply keeps_modify|intros []]
    | done | apply keeps_ret ].
Qed.

Lemma keeps_push f type rest : keeps (fun c => position c = f) (push type rest).
Proof.
  apply keeps_bind; [by apply keeps_modify|intros []].
  destruct type; [| |apply keeps_crash]; (apply keeps_bind; [by apply keeps_visit|intros b; apply keeps_ret]).
Qed.

Lemma visit_ok_inv {A} (op : M V A) c a c' :
  visit op c = (Ok a, c') -> position c' = position c /\ m_stack c' = m_stack c.
Proof. unfold visit, zoom. destruct (op (visitor c)). by injection 1 as _ <-. Qed.

Lemma after_visit_continue op c c' :
  after_visit_proc op c = (Ok PARSE_CONTINUE, c') ->
  m_current c' = m_current c + 1 /\ m_cs c' = MSGPACK_CS_HEADER.
Proof.
  unfold after_visit_proc. intros E.
  apply bind_ok_inv in E as (ok & c1 & E1 & E). apply visit_ok_inv in E1 as [E1 _].
  rewrite bind_modify in E. destruct ok; [|by apply bind_ok_inv in E as (? & ? & _ & ?)].
  apply bind_ok_inv in E as (ret & c2 & E2 & E).
  pose proof (keeps_consume (position (set_current (m_current c1 + 1) c1)) (m_stack c1) _ eq_refl) as Hk.
  unfold consume_stack in E2. rewrite bind_get in E2. simpl in Hk. cbn [m_stack set_current] in E2.
  rewrite E2 in Hk. simpl in Hk.
  apply bind_ok_inv in E as ([] & c3 & E3 & E). rewrite bind_modify in E.
  injection E as -> <-. injection E3 as <-. unfold position in *. simpl in *. split; [congruence|done].
Qed.

Lemma start_aggregate_continue sv ev type n c c' :
  start_aggregate sv ev type n c = (Ok PARSE_CONTINUE, c') ->
  m_current c' = m_current c + 1 /\ m_cs c' = MSGPACK_CS_HEADER.
Proof.
  unfold start_aggregate, return_unless_continue. intros E. rewrite bind_modify in E.
  apply bind_ok_inv in E as (ret & c1 & E1 & E).
  assert (m_current c1 = m_current c + 1) as Ec.
  { set (c0 := set_current (m_current c + 1) c) in *.
    assert (keeps (fun x => position x = position c0)
      (or_stop (sv n) (if n =? 0 then or_stop ev consume_stack else push type n))) as Hk.
    { apply keeps_or_stop; [done|]. destruct (n =? 0); [|apply keeps_push].
      apply keeps_or_stop; [done|]. apply keeps_bind_get. intros x Hx. by apply keeps_consume. }
    specialize (Hk c0 eq_refl). rewrite E1 in Hk. unfold position in Hk. simpl in Hk. congruence. }
  destruct ret; try (by apply bind_ok_inv in E as (? & ? & _ & ?)).
  rewrite bind_modify in E. injection E as <-. done.
Qed.

Lemma returns_next n m (c : context V) f n' c' :
  returns n m c = (Ok (Next f n'), c') -> f = false /\ m c = (Ok PARSE_CONTINUE, c').
Proof.
  unfold returns. intros E. apply bind_ok_inv in E as (ret & c1 & -> & E).
  destruct ret; inversion E; subst; done.
Qed.

Lemma advanced_visit n op c f n' c' :
  returns n (after_visit_proc op) c = (Ok (Next f n'), c') -> advanced f c c'.
Proof.
  intros [-> E]%returns_next. apply after_visit_continue in E as [E1 E2].
  split; [by left|done].
Qed.

Lemma advanced_aggregate n sv ev type k c f n' c' :
  returns n (start_aggregate sv ev type k) c = (Ok (Next f n'), c') -> advanced f c c'.
Proof.
  intros [-> E]%returns_next. apply start_aggregate_continue in E as [E1 E2].
  split; [by left|done].
Qed.

Lemma advanced_value n value op k c f n' c' :
  value_state n value op k c = (Ok (Next f n'), c') ->
  0x20 <= value <= 0x22 -> 0 <= k <= 2 ^ 32 -> advanced f c c'.
Proof.
  unfold value_state. intros E Hv Hk. rewrite bind_modify in E.
  destruct (Z.eqb_spec k 0).
  - by apply advanced_visit in E.
  - rewrite bind_modify in E. injection E as <- <- <-. split; [|simpl; lia].
    right; right; simpl; lia.
Qed.

(** ** The loop ends *)

Section loop.
Context (m_start : Z) (data : bytes).
Hypothesis data_bytes : Forall is_byte data.

Lemma load_at p k : 0 <= k -> 0 <= load (bytes_at data p k) < 2 ^ (8 * k).
Proof using data_bytes.
  intros Hk. unfold bytes_at.
  assert (Forall is_byte (take (Z.to_nat k) (drop (Z.to_nat p) data))) as Hs
    by (by apply Forall_take, Forall_drop).
  pose proof (load_range _ Hs) as Hl. rewrite length_take, length_drop in Hl.
  enough (2 ^ (8 * Z.of_nat (Z.to_nat k `min` (length data - Z.to_nat p))) <= 2 ^ (8 * k)) by lia.
  apply Z.pow_le_mono_r; lia.
Qed.

Lemma read_ok_inv {A} p k (f : bytes -> M (context V) A) c a c' :
  read data p k f c = (Ok a, c') ->
  0 <= p /\ p + k <= len data /\ f (bytes_at data p k) c = (Ok a, c').
Proof.
  unfold read. destruct (Z.leb_spec 0 p), (Z.leb_spec (p + k) (len data)); simpl; done.
Qed.

Lemma next_cs_eq s : 0xc4 <= s <= 0xdf -> next_cs s = s - 0xc0.
Proof.
  intros Hs. unfold next_cs. change 0x1f with (Z.ones 5). rewrite Z.land_ones by lia.
  symmetry. apply Z.mod_unique with 6; lia.
Qed.

Lemma land_small x k : 0 <= k -> 0 <= Z.land x (Z.ones k) < 2 ^ k.
Proof. intros Hk. rewrite Z.land_ones by lia. apply Z.mod_pos_bound. lia. Qed.

Lemma advanced_header n c f n' c' :
  header data n c = (Ok (Next f n'), c') -> m_current c < len data /\ advanced f c c'.
Proof using data_bytes.
  unfold header. rewrite bind_get. intros (Hp & Hl & E)%read_ok_inv. split; [lia|].
  set (s := load _) in E.
  repeat (case_match; [try by eauto using advanced_visit, advanced_aggregate|]).
  - rewrite !bind_modify in E. injection E as <- <- <-.
    assert (0xc4 <= s <= 0xdf) as Hs by lia. split; [right; left|];
      cbn [m_cs m_trail m_current set_cs set_trail]; rewrite next_cs_eq by done; [|lia].
    split; [lia|]. replace (s - 0xc0 - 4) with (s - 0xc4) by lia. done.
  - apply advanced_value in E; [done|lia|].
    pose proof (land_small s 5 ltac:(lia)) as Hs. change (Z.ones 5) with 31 in Hs. lia.
  - unfold store_off in E. rewrite bind_modify, bind_get in E.
    by apply bind_ok_inv in E as (? & ? & _ & ?).
Qed.

Lemma advanced_switch p c f n' c' :
  switch m_start data p c = (Ok (Next f n'), c') -> advanced f c c'.
Proof using data_bytes.
  unfold switch. rewrite bind_get. intros E.
  repeat case_match;
    try (apply read_ok_inv in E as (Hp & Hl & E);
         first [ by apply advanced_visit in E | by apply advanced_aggregate in E
               | apply advanced_value in E; [done|lia|pose proof (load_at p 1); pose proof (load_at p 2);
                   pose proof (load_at p 4); lia] ]).
  all: unfold store_off in E; rewrite bind_modify in E;
    by apply bind_ok_inv in E as (? & ? & _ & ?).
Qed.

Lemma trail_pos (c : context V) :
  context_ok c -> m_cs c <> MSGPACK_CS_HEADER -> 1 <= m_trail c <= 2 ^ 32.
Proof.
  intros [?|[[Hc ->]|[_ ?]]] Hn; [done| |done].
  assert (Forall (fun t => 1 <= t <= 2 ^ 32) trail) as Ht by (unfold trail; repeat constructor; lia).
  rewrite Forall_forall in Ht. apply Ht, list_elem_of_In, nth_In. simpl. lia.
Qed.

Lemma behind_header_next fixed c f n' c' :
  context_ok c -> m_cs c <> MSGPACK_CS_HEADER ->
  behind_header m_start data fixed c = (Ok (Next f n'), c') ->
  let before := m_current c + if fixed then 1 else 0 in
  advanced f (set_current (before + m_trail c - 1) c) c' /\ before + m_trail c <= len data.
Proof using data_bytes.
  intros Hok Hcs E before. unfold behind_header in E.
  apply bind_ok_inv in E as ([] & c1 & E1 & E). rewrite bind_get in E.
  assert (c1 = set_current before c) as ->.
  { unfold before. destruct fixed; injection E1 as <-; [done|]. rewrite Z.add_0_r. by destruct c. }
  cbn [m_current m_trail set_current] in E.
  destruct (Z.ltb_spec (len data - before) (m_trail c));
    [by apply bind_ok_inv in E as (? & ? & _ & ?)|].
  rewrite bind_modify in E. apply advanced_switch in E. split; [|lia].
  replace (before + m_trail c - 1) with (before + (m_trail c - 1)) by lia. exact E.
Qed.

(** Where a round of the loop starts. *)
Definition ready (fixed : bool) (c : context V) : Prop :=
  context_ok c /\ 0 <= m_current c < len data /\
  (fixed = true -> m_cs c <> MSGPACK_CS_HEADER).

(** A round that goes on has consumed a byte, or found a length. *)
Lemma round_next fixed n c f n' c' :
  ready fixed c -> round m_start data fixed n c = (Ok (Next f n'), c') ->
  context_ok c' /\ m_current c <= m_current c' <= len data /\
  (f = true -> m_cs c' <> MSGPACK_CS_HEADER /\ m_current c' < len data) /\
  (f = false -> m_cs c' = MSGPACK_CS_HEADER) /\
  (rounds data f (m_current c') < rounds data fixed (m_current c))%nat.
Proof using data_bytes.
  intros (Hok & Hc & Hfixed) E. unfold round in E. rewrite bind_get in E.
  apply bind_ok_inv in E as (next & c1 & E1 & E). destruct next as [r|fixed1 n1]; [done|].
  rewrite bind_get in E.
  assert (exists before, context_ok c1 /\ before = m_current c1 + (if fixed1 then 1 else 0) /\
    m_current c <= m_current c1 /\
    (if m_cs c1 =? 0 then m_current c1 = m_current c + 1 /\ fixed1 = false
     else m_current c1 = m_current c /\ (fixed = true -> fixed1 = true))) as (before & Hok1 & -> & Hcc & Hcs).
  { eexists. split; [|split; [done|]].
    - destruct (m_cs c =? 0); [apply advanced_header in E1 as (_ & ? & _); done|by injection E1 as _ _ <-].
    - destruct (Z.eqb_spec (m_cs c) 0) as [Hz|Hz].
      + apply advanced_header in E1 as (_ & _ & E1). destruct fixed1.
        * destruct (Z.eqb_spec (m_cs c1) 0); [lia|]. split; [lia|]. split; [lia|done].
        * destruct E1 as [E1 ->]. simpl. lia.
      + injection E1 as -> _ <-. destruct (Z.eqb_spec (m_cs c) 0); [done|]. split; [lia|]. done. }
  destruct (Z.eqb_spec (m_cs c1) 0) as [Hz|Hz]; simpl in E.
  - destruct Hcs as [Hcs ->]. injection E as <- <- <-. unfold rounds. split_and!; [done|lia..|done|done|].
    destruct fixed; lia.
  - apply behind_header_next in E as [[Hok' E] Hlen]; [|done..].
    cbn [m_current set_current m_cs] in E. pose proof (trail_pos c1 Hok1 Hz).
    destruct Hcs as [Hcs Hff]. unfold rounds.
    destruct f; destruct E as [E1' E2']; split_and!; try done; try lia;
      destruct fixed, fixed1; try lia; by discriminate (Hff eq_refl).
Qed.

Lemma rounds_pos fixed c : ready fixed c -> (0 < rounds data fixed (m_current c))%nat.
Proof. intros (_ & Hc & _). unfold rounds. destruct fixed; lia. Qed.

Lemma round_ready fixed n c f n' c' :
  ready fixed c -> round m_start data fixed n c = (Ok (Next f n'), c') ->
  m_current c' <> len data -> ready f c'.
Proof using data_bytes.
  intros Hr E Hn. pose proof Hr as (_ & Hc & _).
  apply round_next in E as (Hok & Hle & Hf & Hf' & _); [|done].
  split_and!; [done|lia|lia|]. intros Ht. by apply Hf.
Qed.

(** More rounds than [rounds] make no difference. *)
Lemma loop_fuel fuel1 fuel2 fixed n c :
  ready fixed c -> (rounds data fixed (m_current c) <= fuel1)%nat ->
  (rounds data fixed (m_current c) <= fuel2)%nat ->
  loop m_start data fuel1 fixed n c = loop m_start data fuel2 fixed n c.
Proof using data_bytes.
  revert fuel2 fixed n c. induction fuel1 as [|fuel1 IH]; intros [|fuel2] fixed n c Hr H1 H2;
    try (pose proof (rounds_pos _ _ Hr); lia).
  simpl. apply bind_ext. intros [r|f n'] c' E; [done|]. rewrite !bind_get.
  destruct (Z.eqb_spec (m_current c') (len data)) as [|Hn]; [done|].
  pose proof (round_ready _ _ _ _ _ _ Hr E Hn) as Hr'.
  apply round_next in E as (_ & _ & _ & _ & Hlt); [|done]. apply IH; [done|lia..].
Qed.

(** The loop with enough rounds. *)
Definition run (fixed : bool) (n : pointer) : M (context V) parse_return := fun c =>
  loop m_start data (rounds data fixed (m_current c)) fixed n c.

(** How the loop goes on behind a round. *)
Definition go_on (next : flow) : M (context V) parse_return :=
  match next with
  | Return r => mret r
  | Next f n =>
      c ← get;
      if m_current c =? len data then _ ← store_off; mret PARSE_CONTINUE else run f n
  end.

Lemma run_eq fixed n c :
  ready fixed c -> run fixed n c = (round m_start data fixed n ≫= go_on) c.
Proof using data_bytes.
  intros Hr. unfold run at 1. pose proof (rounds_pos _ _ Hr) as Hp.
  destruct (rounds data fixed (m_current c)) as [|fuel] eqn:Ef; [lia|].
  simpl. apply bind_ext. intros [r|f n'] c' E; [done|]. unfold go_on. rewrite !bind_get.
  destruct (Z.eqb_spec (m_current c') (len data)) as [|Hn]; [done|].
  pose proof (round_ready _ _ _ _ _ _ Hr E Hn) as Hr'.
  apply round_next in E as (_ & _ & _ & _ & Hlt); [|done]. apply loop_fuel; [done|lia..].
Qed.
End loop.
End progress.
