(* ===== verification/MsgStream.v ===== *)
(** * MessagePack: parsing a stream

    Two facts on [context::execute] of MsgParse.v that hold for every visitor.
    When the operations of one visitor simulate those of another, so do the
    runs of the parser on them, wherever the buffers are and whatever was in
    front of the bytes that are still to be read.  And the parser can stop at
    any byte: reading a buffer in two parts is reading it at once. *)
From S2P Require Import Prelude MsgObject MsgParse.

Section simulation.
Context {V1 V2 : Type} `{Visitor V1} `{Visitor V2}.
Context (R : V1 -> V2 -> Prop) (readable : pointer -> bytes -> Prop).

(** Where the second operation does not crash, the first ends in the same way. *)
Definition vsim {A} (m1 : M V1 A) (m2 : M V2 A) : Prop :=
  forall v1 v2, R v1 v2 ->
  match m2 v2 with
  | (Ok a, v2') => exists v1', m1 v1 = (Ok a, v1') /\ R v1' v2'
  | (Throw e, v2') => exists v1', m1 v1 = (Throw e, v1') /\ R v1' v2'
  | (Crash _, _) => True
  end.

(** Texts are simulated when the first visitor can read them at the pointer
    it is given. *)
Class Simulation : Prop := {
  sim_init v1 v2 : R v1 v2 -> R (init v1) (init v2);
  sim_nil : vsim visit_nil visit_nil;
  sim_boolean b : vsim (visit_boolean b) (visit_boolean b);
  sim_positive z : vsim (visit_positive_integer z) (visit_positive_integer z);
  sim_negative z : vsim (visit_negative_integer z) (visit_negative_integer z);
  sim_float32 z : vsim (visit_float32 z) (visit_float32 z);
  sim_float64 z : vsim (visit_float64 z) (visit_float64 z);
  sim_str n1 n2 s : readable n1 s -> vsim (visit_str n1 (zlen s) s) (visit_str n2 (zlen s) s);
  sim_bin n1 n2 s : readable n1 s -> vsim (visit_bin n1 (zlen s) s) (visit_bin n2 (zlen s) s);
  sim_ext n1 n2 s : readable n1 s -> vsim (visit_ext n1 (zlen s) s) (visit_ext n2 (zlen s) s);
  sim_start_array k : vsim (start_array k) (start_array k);
  sim_start_array_item : vsim start_array_item start_array_item;
  sim_end_array_item : vsim end_array_item end_array_item;
  sim_end_array : vsim end_array end_array;
  sim_start_map k : vsim (start_map k) (start_map k);
  sim_start_map_key : vsim start_map_key start_map_key;
  sim_end_map_key : vsim end_map_key end_map_key;
  sim_start_map_value : vsim start_map_value start_map_value;
  sim_end_map_value : vsim end_map_value end_map_value;
  sim_end_map : vsim end_map end_map;
  sim_parse_error a1 a2 b1 b2 : vsim (parse_error a1 b1) (parse_error a2 b2);
  sim_insufficient_bytes a1 a2 b1 b2 : vsim (insufficient_bytes a1 b1) (insufficient_bytes a2 b2);
}.

Context {simulation : Simulation}.
Hypothesis readable_nil : forall n, readable n [].

Lemma sim_str_size n1 n2 k s :
  zlen s = k -> readable n1 s -> vsim (visit_str n1 k s) (visit_str n2 k s).
Proof. intros <-. apply sim_str. Qed.

Lemma sim_bin_size n1 n2 k s :
  zlen s = k -> readable n1 s -> vsim (visit_bin n1 k s) (visit_bin n2 k s).
Proof. intros <-. apply sim_bin. Qed.

Lemma sim_ext_size n1 n2 k s :
  zlen s = k -> readable n1 s -> vsim (visit_ext n1 k s) (visit_ext n2 k s).
Proof. intros <-. apply sim_ext. Qed.

(** The first buffer has [d] more bytes in front. *)
Context (d : Z).

Definition same (c1 : context V1) (c2 : context V2) : Prop :=
  m_current c1 = m_current c2 + d /\ m_trail c1 = m_trail c2 /\ m_cs c1 = m_cs c2 /\
  m_stack c1 = m_stack c2 /\ R (visitor c1) (visitor c2).

(** Two results: related by [E], with the same offset where [D] asks for it. *)
Definition result {A} (E : A -> A -> Prop) (D : A -> Prop)
    (r1 : outcome A * context V1) (r2 : outcome A * context V2) : Prop :=
  match r2 with
  | (Ok a2, c2) =>
      exists a1 c1, r1 = (Ok a1, c1) /\ E a1 a2 /\ same c1 c2 /\ (D a2 -> off c1 = off c2 + d)
  | (Throw e, c2) => exists c1, r1 = (Throw e, c1) /\ same c1 c2
  | (Crash _, _) => True
  end.

Definition sim {A} (E : A -> A -> Prop) (D : A -> Prop)
    (m1 : M (context V1) A) (m2 : M (context V2) A) : Prop :=
  forall c1 c2, same c1 c2 -> result E D (m1 c1) (m2 c2).

Lemma result_bind {A B} (E : A -> A -> Prop) D (E' : B -> B -> Prop) D'
    (m1 : M (context V1) A) (m2 : M (context V2) A)
    (k1 : A -> M (context V1) B) (k2 : A -> M (context V2) B) c1 c2 :
  result E D (m1 c1) (m2 c2) ->
  (forall a1 a2 c1' c2', E a1 a2 -> same c1' c2' -> (D a2 -> off c1' = off c2' + d) ->
     result E' D' (k1 a1 c1') (k2 a2 c2')) ->
  result E' D' ((m1 ≫= k1) c1) ((m2 ≫= k2) c2).
Proof.
  intros Hm Hk. unfold mbind, M_bind. destruct (m2 c2) as [[a2|e|w] c2'] eqn:E2; simpl in Hm.
  - destruct Hm as (a1 & c1' & -> & Ha & Hs & Ho). by apply Hk.
  - destruct Hm as (c1' & -> & Hs). by exists c1'.
  - done.
Qed.

Lemma sim_bind {A B} (E : A -> A -> Prop) D (E' : B -> B -> Prop) D'
    (m1 : M (context V1) A) (m2 : M (context V2) A)
    (k1 : A -> M (context V1) B) (k2 : A -> M (context V2) B) :
  sim E D m1 m2 -> (forall a1 a2, E a1 a2 -> sim E' D' (k1 a1) (k2 a2)) ->
  sim E' D' (m1 ≫= k1) (m2 ≫= k2).
Proof. intros Hm Hk c1 c2 Hs. eapply result_bind; [by apply Hm|]. intros. by apply Hk. Qed.

Lemma sim_bind_get {B} (E' : B -> B -> Prop) D'
    (k1 : context V1 -> M (context V1) B) (k2 : context V2 -> M (context V2) B) :
  (forall c1 c2, same c1 c2 -> result E' D' (k1 c1 c1) (k2 c2 c2)) ->
  sim E' D' (get ≫= k1) (get ≫= k2).
Proof. intros Hk c1 c2 Hs. rewrite !bind_get. by apply Hk. Qed.

Lemma sim_ret {A} (E : A -> A -> Prop) (D : A -> Prop) a1 a2 :
  E a1 a2 -> ~ D a2 -> sim E D (mret a1) (mret a2).
Proof. intros Ha HD c1 c2 Hs. exists a1, c1. split_and!; done. Qed.

Lemma sim_return {A} (a : A) : sim eq (fun _ => False) (mret a) (mret a).
Proof. apply sim_ret; [done|by intros ?]. Qed.

Lemma sim_crash {A} (E : A -> A -> Prop) D (m1 : M (context V1) A) w : sim E D m1 (crash w).
Proof. done. Qed.

Lemma sim_modify f1 f2 :
  (forall c1 c2, same c1 c2 -> same (f1 c1) (f2 c2)) ->
  sim eq (fun _ => False) (modify f1) (modify f2).
Proof. intros Hf c1 c2 Hs. exists (), (f1 c1). split_and!; auto. done. Qed.

Lemma sim_visit {A} (op1 : M V1 A) (op2 : M V2 A) :
  vsim op1 op2 -> sim eq (fun _ => False) (visit op1) (visit op2).
Proof.
  intros Hop c1 c2 (? & ? & ? & ? & HR). specialize (Hop _ _ HR).
  unfold visit, zoom. destruct (op2 (visitor c2)) as [[a|e|w] v2]; simpl.
  - destruct Hop as (v1 & -> & HR'). eexists a, _. by split_and!.
  - destruct Hop as (v1 & -> & HR'). eexists. by split_and!.
  - done.
Qed.

Lemma sim_or_stop op1 op2 k1 k2 :
  vsim op1 op2 -> sim eq (fun _ => False) k1 k2 ->
  sim eq (fun _ => False) (or_stop op1 k1) (or_stop op2 k2).
Proof.
  intros Hop Hk. eapply sim_bind; [by apply sim_visit|]. intros [|] _ <-; [done|].
  by apply sim_return.
Qed.

Lemma same_set_stack s c1 c2 : same c1 c2 -> same (set_stack s c1) (set_stack s c2).
Proof. intros (? & ? & ? & ? & ?). by split_and!. Qed.

Lemma same_set_cs cs c1 c2 : same c1 c2 -> same (set_cs cs c1) (set_cs cs c2).
Proof. intros (? & ? & ? & ? & ?). by split_and!. Qed.

Lemma same_set_trail t c1 c2 : same c1 c2 -> same (set_trail t c1) (set_trail t c2).
Proof. intros (? & ? & ? & ? & ?). by split_and!. Qed.

Lemma same_advance c1 c2 :
  same c1 c2 -> same (set_current (m_current c1 + 1) c1) (set_current (m_current c2 + 1) c2).
Proof. intros (? & ? & ? & ? & ?). split_and!; simpl; auto. lia. Qed.

Lemma sim_consume stack : sim eq (fun _ => False) (consume stack) (consume stack).
Proof.
  induction stack as [|e below IH]; simpl; [by apply sim_return|].
  destruct (m_type e).
  - apply sim_or_stop; [apply sim_end_array_item|]. case_match;
      (eapply sim_bind; [apply sim_modify; eauto using same_set_stack|intros _ _ _]).
    + by apply sim_or_stop; [apply sim_end_array|].
    + apply sim_or_stop; [apply sim_start_array_item|by apply sim_return].
  - do 2 (apply sim_or_stop; [apply sim_end_map_key || apply sim_start_map_value|]).
    eapply sim_bind; [apply sim_modify; eauto using same_set_stack|intros _ _ _]. by apply sim_return.
  - apply sim_or_stop; [apply sim_end_map_value|]. case_match;
      (eapply sim_bind; [apply sim_modify; eauto using same_set_stack|intros _ _ _]).
    + by apply sim_or_stop; [apply sim_end_map|].
    + apply sim_or_stop; [apply sim_start_map_key|by apply sim_return].
Qed.

Lemma sim_consume_stack : sim eq (fun _ => False) consume_stack consume_stack.
Proof.
  apply sim_bind_get. intros c1 c2 Hs. pose proof Hs as (_ & _ & _ & -> & _). by apply sim_consume.
Qed.

Lemma sim_push type k : sim eq (fun _ => False) (push type k) (push type k).
Proof.
  eapply sim_bind.
  { apply sim_modify. intros c1 c2 Hs. pose proof Hs as (_ & _ & _ & -> & _). by apply same_set_stack. }
  intros _ _ _. destruct type; [| |apply sim_crash];
    (eapply sim_bind; [apply sim_visit; apply sim_start_array_item || apply sim_start_map_key|]);
    intros a _ <-; by apply sim_return.
Qed.

(** Results that are returned have their offset stored. *)
Definition stored (r : parse_return) : Prop := r <> PARSE_CONTINUE.

Lemma sim_store_off : sim eq (fun _ => True) store_off store_off.
Proof.
  intros c1 c2 (? & ? & ? & ? & ?). eexists (), _. split_and!; [done|done|by split_and!|done].
Qed.

(** The end of a visit: the offset is stored and the result kept. *)
Lemma sim_store_return ret :
  stored ret -> sim eq stored (_ ← store_off; mret ret) (_ ← store_off; mret ret).
Proof.
  intros Hr c1 c2 Hs. eapply result_bind; [by apply sim_store_off|].
  intros [] [] c1' c2' _ Hs' Ho. eexists _, _. split_and!; auto.
Qed.

Lemma sim_weaken {A} (E : A -> A -> Prop) (D D' : A -> Prop) m1 m2 :
  sim E D' m1 m2 -> (forall a, D a -> D' a) -> sim E D m1 m2.
Proof.
  intros Hm HD c1 c2 Hs. specialize (Hm c1 c2 Hs). unfold result in *.
  destruct (m2 c2) as [[a2|e|w] c2']; [|done..].
  destruct Hm as (a1 & c1' & ? & ? & ? & ?). exists a1, c1'. split_and!; auto.
Qed.

Lemma sim_finish_visit : sim eq stored finish_visit finish_visit.
Proof.
  unfold finish_visit. eapply sim_bind; [apply sim_consume_stack|]. intros ret _ <- c1 c2 Hs.
  eapply (result_bind eq (fun _ => stored ret)).
  { destruct ret; try (eapply sim_weaken; [apply sim_store_off|done|done]).
    exists (), c1. split_and!; [done|done|done|]. by intros []. }
  intros [] [] c1' c2' _ Hs' Ho. rewrite !bind_modify.
  eexists _, _. split_and!; [done|done|by apply same_set_cs|done].
Qed.

Lemma sim_after_visit_proc op1 op2 :
  vsim op1 op2 -> sim eq stored (after_visit_proc op1) (after_visit_proc op2).
Proof.
  intros Hop. eapply sim_bind; [by apply sim_visit|]. intros ok _ <-.
  eapply sim_bind; [apply sim_modify; apply same_advance|]. intros _ _ _.
  destruct ok; [apply sim_finish_visit|by apply sim_store_return].
Qed.

Lemma sim_start_aggregate sv1 sv2 ev1 ev2 type k :
  vsim (sv1 k) (sv2 k) -> vsim ev1 ev2 ->
  sim eq stored (start_aggregate sv1 ev1 type k) (start_aggregate sv2 ev2 type k).
Proof.
  intros Hsv Hev. eapply sim_bind; [apply sim_modify; apply same_advance|]. intros _ _ _.
  eapply sim_bind.
  { apply sim_or_stop; [done|]. destruct (k =? 0); [|apply sim_push].
    apply sim_or_stop; [done|apply sim_consume_stack]. }
  intros ret _ <-. destruct ret; try by apply sim_store_return.
  eapply sim_bind; [apply sim_modify; apply same_set_cs|]. intros _ _ _.
  by apply sim_ret; [|intros []].
Qed.

(** Rounds end in the same way, up to the pointer [n]. *)
Definition same_flow (f1 f2 : flow) : Prop :=
  match f1, f2 with
  | Return r1, Return r2 => r1 = r2
  | Next b1 _, Next b2 _ => b1 = b2
  | _, _ => False
  end.

Definition returned (f : flow) : Prop := match f with Return _ => True | Next _ _ => False end.

Lemma sim_returns n1 n2 m1 m2 :
  sim eq stored m1 m2 -> sim same_flow returned (returns n1 m1) (returns n2 m2).
Proof.
  intros Hm c1 c2 Hs. eapply result_bind; [by apply Hm|].
  intros ret _ c1' c2' <- Hs' Ho. eexists _, c1'. split_and!; [done|by destruct ret|done|].
  destruct ret; intros Hr; try done; by apply Ho.
Qed.

Lemma sim_value_state n1 n2 value op1 op2 k :
  vsim op1 op2 -> sim same_flow returned (value_state n1 value op1 k) (value_state n2 value op2 k).
Proof.
  intros Hop. eapply sim_bind; [apply sim_modify; apply same_set_trail|]. intros _ _ _.
  destruct (k =? 0); [by apply sim_returns, sim_after_visit_proc|].
  eapply sim_bind; [apply sim_modify; apply same_set_cs|]. intros _ _ _. by apply sim_ret; [|intros []].
Qed.

Lemma result_parse_error r a1 a2 b1 b2 c1 c2 :
  same c1 c2 -> off c1 = off c2 + d ->
  result same_flow returned ((_ ← visit (parse_error a1 b1); mret (Return r)) c1)
    ((_ ← visit (parse_error a2 b2); mret (Return r)) c2).
Proof using simulation.
  intros (? & ? & ? & ? & HR) Ho. pose proof (sim_parse_error a1 a2 b1 b2 _ _ HR) as Hp.
  unfold visit, zoom, mbind, M_bind.
  destruct (parse_error a2 b2 (visitor c2)) as [[[]|e|w] v2]; simpl; [| |done];
    destruct Hp as (v1 & -> & HR'); [eexists (Return r), _|eexists]; by split_and!.
Qed.

(** ** Buffers *)

Section buffers.
Context (m_start1 m_start2 : Z) (data1 data2 pre : bytes).
Hypothesis shifted : data1 = pre ++ data2.
Hypothesis shift : d = zlen pre.
Hypothesis data_readable : forall p k, d <= p -> p + k <= len data1 ->
  readable (Some (m_start1 + p)) (bytes_at data1 p k).

Lemma len_shift : len data1 = len data2 + d.
Proof using shifted shift. rewrite shifted, shift. unfold len, zlen. rewrite length_app. lia. Qed.

Lemma bytes_at_shift p k : 0 <= p -> bytes_at data1 (p + d) k = bytes_at data2 p k.
Proof using shifted shift.
  intros Hp. unfold bytes_at. rewrite shifted, shift. unfold zlen.
  rewrite drop_app_ge by lia. do 2 f_equal. lia.
Qed.

Lemma zlen_bytes_at (data : bytes) p k :
  0 <= k -> 0 <= p -> p + k <= len data -> zlen (bytes_at data p k) = k.
Proof. intros Hk Hp Hl. unfold bytes_at, zlen, len in *. rewrite length_take, length_drop. lia. Qed.

Lemma result_read {A} (E : A -> A -> Prop) D p k f1 f2 c1 c2 :
  0 <= k -> same c1 c2 ->
  (forall s, readable (Some (m_start1 + (p + d))) s -> zlen s = k -> sim E D (f1 s) (f2 s)) ->
  result E D (read data1 (p + d) k f1 c1) (read data2 p k f2 c2).
Proof using data_readable shifted shift.
  intros Hk Hs Hf. unfold read at 2.
  destruct (Z.leb_spec 0 p) as [Hp|]; [|done].
  destruct (Z.leb_spec (p + k) (len data2)) as [Hl|]; [|done]. simpl.
  pose proof len_shift as Hd. assert (0 <= d) by (rewrite shift; unfold zlen; lia).
  unfold read. rewrite (proj2 (Z.leb_le 0 (p + d))) by lia.
  rewrite (proj2 (Z.leb_le (p + d + k) (len data1))) by lia. simpl.
  rewrite bytes_at_shift by done. apply Hf; [|by apply zlen_bytes_at|done].
  rewrite <- (bytes_at_shift p k) by done. apply data_readable; lia.
Qed.

Lemma sim_header n1 n2 :
  sim same_flow returned (header data1 n1) (header data2 n2).
Proof using data_readable shifted shift readable_nil simulation.
  apply sim_bind_get. intros c1 c2 Hs. pose proof Hs as (-> & _).
  apply result_read; [lia|done|]. intros s _ _. cbv zeta.
  repeat case_match.
  all: try (apply sim_returns, sim_after_visit_proc || apply sim_returns, sim_start_aggregate).
  all: try (by apply sim_positive || apply sim_negative || apply sim_boolean || apply sim_nil
            || apply sim_start_array || apply sim_end_array || apply sim_start_map || apply sim_end_map).
  - eapply sim_bind; [apply sim_modify; apply same_set_trail|]. intros _ _ _.
    eapply sim_bind; [apply sim_modify; apply same_set_cs|]. intros _ _ _.
    by apply sim_ret; [|intros []].
  - by apply sim_value_state, sim_str_size.
  - intros c1' c2' Hs'. eapply result_bind; [by apply sim_store_off|].
    intros [] [] c1'' c2'' _ Hs'' Ho. rewrite !bind_get. apply result_parse_error; auto.
Qed.

Lemma sim_switch p :
  sim same_flow returned (switch m_start1 data1 (p + d)) (switch m_start2 data2 p).
Proof using data_readable shifted shift readable_nil simulation.
  apply sim_bind_get. intros c1 c2 Hs. pose proof Hs as (_ & -> & -> & _). cbv zeta.
  repeat case_match.
  all: try (intros; eapply result_bind; [by apply sim_store_off|];
    intros [] [] c1'' c2'' _ Hs'' Ho; apply result_parse_error; auto; fail).
  all: try (apply result_read; [lia || (apply wrap_range; lia)|done|]; intros s Hr Hz; cbv beta).
  all: try (apply sim_returns, sim_after_visit_proc).
  all: try (apply sim_returns, sim_start_aggregate).
  all: try (apply sim_value_state).
  all: eauto using sim_positive, sim_negative, sim_float32, sim_float64, sim_start_array,
    sim_end_array, sim_start_map, sim_end_map, sim_str_size, sim_bin_size, sim_ext_size.
Qed.

Lemma same_step_over c1 c2 k :
  same c1 c2 -> same (set_current (m_current c1 + k) c1) (set_current (m_current c2 + k) c2).
Proof. intros (? & ? & ? & ? & ?). split_and!; simpl; auto. lia. Qed.

Lemma sim_behind_header f :
  sim same_flow returned (behind_header m_start1 data1 f) (behind_header m_start2 data2 f).
Proof using data_readable shifted shift readable_nil simulation.
  eapply (sim_bind eq (fun _ => False)).
  { destruct f; [apply sim_modify; apply same_advance|apply sim_return]. }
  intros _ _ _. apply sim_bind_get. intros c1 c2 Hs. pose proof Hs as (Hc & Ht & _).
  rewrite Hc, Ht, len_shift.
  replace (len data2 + d - (m_current c2 + d)) with (len data2 - m_current c2) by lia.
  destruct (len data2 - m_current c2 <? m_trail c2).
  - eapply result_bind; [by apply sim_store_off|]. intros [] [] c1' c2' _ Hs' Ho.
    eexists (Return _), _. split_and!; auto. done.
  - rewrite !bind_modify. apply sim_switch.
    replace (m_current c2 + d + (m_trail c2 - 1)) with (m_current c1 + (m_trail c2 - 1)) by lia.
    by apply same_step_over.
Qed.

Lemma sim_round f n1 n2 :
  sim same_flow returned (round m_start1 data1 f n1) (round m_start2 data2 f n2).
Proof using data_readable shifted shift readable_nil simulation.
  apply sim_bind_get. intros c1 c2 Hs. pose proof Hs as (_ & _ & -> & _).
  eapply (result_bind same_flow returned).
  { destruct (m_cs c2 =? 0); [by apply sim_header|]. by apply sim_ret; [|intros []|]. }
  intros [r1|b1 m1] [r2|b2 m2] c1' c2' Hf Hs' Ho; try done.
  - simpl in Hf; destruct Hf. eexists (Return _), c1'. split_and!; done.
  - simpl in Hf; destruct Hf. rewrite !bind_get. pose proof Hs' as (_ & _ & -> & _).
    destruct (_ || _); [by apply sim_behind_header|]. by apply sim_ret; [|intros []|].
Qed.

Lemma same_end c1 c2 : same c1 c2 -> (m_current c1 =? len data1) = (m_current c2 =? len data2).
Proof using shifted shift.
  intros (-> & _). rewrite len_shift. by destruct (Z.eqb_spec (m_current c2) (len data2)),
    (Z.eqb_spec (m_current c2 + d) (len data2 + d)); try lia.
Qed.

Lemma sim_store_continue :
  sim eq (fun _ => True) (_ ← store_off; mret PARSE_CONTINUE) (_ ← store_off; mret PARSE_CONTINUE).
Proof.
  intros c1 c2 Hs. eapply result_bind; [by apply sim_store_off|].
  intros [] [] c1' c2' _ Hs' Ho. eexists _, _. split_and!; auto.
Qed.

Lemma sim_loop fuel f n1 n2 :
  sim eq (fun _ => True) (loop m_start1 data1 fuel f n1) (loop m_start2 data2 fuel f n2).
Proof using data_readable shifted shift readable_nil simulation.
  revert f n1 n2. induction fuel as [|fuel IH]; intros f n1 n2; [apply sim_crash|].
  simpl. intros c1 c2 Hs. eapply result_bind; [by apply sim_round|].
  intros [r1|b1 m1] [r2|b2 m2] c1' c2' Hf Hs' Ho; try done.
  - simpl in Hf; destruct Hf. eexists _, _. by split_and!; auto.
  - simpl in Hf; destruct Hf. rewrite !bind_get, (same_end c1' c2' Hs').
    destruct (_ =? _); [by apply sim_store_continue|by apply IH].
Qed.

(** Runs of the parser are simulated. *)
Lemma sim_execute c1 c2 :
  same c1 c2 -> off c1 = off c2 + d ->
  result eq (fun _ => True) (execute m_start1 data1 c1) (execute m_start2 data2 c2).
Proof using data_readable shifted shift readable_nil simulation.
  intros Hs Ho. unfold execute. rewrite !bind_get, Ho, len_shift.
  replace (len data2 + d <? off c2 + d) with (len data2 <? off c2)
    by (destruct (Z.ltb_spec (len data2) (off c2)), (Z.ltb_spec (len data2 + d) (off c2 + d)); lia).
  destruct (len data2 <? off c2); [done|]. rewrite !bind_modify.
  assert (same (set_current (off c2 + d) c1) (set_current (off c2) c2)) as Hs'.
  { destruct Hs as (? & ? & ? & ? & ?). by split_and!. }
  pose proof (same_end _ _ Hs') as He. cbn [m_current set_current] in He. rewrite len_shift in He.
  rewrite He. destruct (off c2 =? len data2); [by apply sim_store_continue|].
  unfold rounds. rewrite len_shift.
  replace (len data2 + d - (off c2 + d)) with (len data2 - off c2) by lia. by apply sim_loop.
Qed.
End buffers.

(** So is reading a buffer. *)
Lemma vsim_insufficient {A} a1 b1 a2 b2 (x : A) :
  vsim (_ ← insufficient_bytes a1 b1; mret x) (_ ← insufficient_bytes a2 b2; mret x).
Proof using simulation.
  intros w1 w2 Hw. pose proof (sim_insufficient_bytes a1 a2 b1 b2 w1 w2 Hw) as Hi.
  unfold mbind, M_bind. destruct (insufficient_bytes a2 b2 w2) as [[[]|e|w] w2']; [| |done];
    destruct Hi as (w1' & -> & Hw'); by eexists.
Qed.

Lemma sim_parse_imp m_start1 m_start2 data start :
  d = 0 -> (forall p k, d <= p -> p + k <= len data -> readable (Some (m_start1 + p)) (bytes_at data p k)) ->
  vsim (parse_imp m_start1 data start) (parse_imp m_start2 data start).
Proof using readable_nil simulation.
  intros Hd Hread v1 v2 HR. unfold parse_imp.
  destruct (len data <=? start); [by apply vsim_insufficient|].
  pose proof (sim_execute m_start1 m_start2 data data [] eq_refl Hd Hread
    (Context start 0 MSGPACK_CS_HEADER [] start v1) (Context start 0 MSGPACK_CS_HEADER [] start v2)) as Hex.
  assert (same (Context start 0 MSGPACK_CS_HEADER [] start v1)
    (Context start 0 MSGPACK_CS_HEADER [] start v2)) as Hsame by (split_and!; try done; simpl; lia).
  specialize (Hex Hsame ltac:(simpl; lia)). unfold result in Hex.
  destruct (execute m_start2 data _) as [[r|e|w] c2]; [| |done].
  - destruct Hex as (r1 & c1 & -> & -> & (_ & _ & _ & _ & HR') & Ho). specialize (Ho I).
    assert (off c1 = off c2) as -> by lia. destruct r; try (by eexists). by apply vsim_insufficient.
  - destruct Hex as (c1 & -> & (_ & _ & _ & _ & HR')). by eexists.
Qed.
End simulation.

(** ** Stopping at any byte *)

(** A visitor that looks neither at pointers nor at offsets. *)
Class PointerFree (V : Type) `{Visitor V} : Prop := {
  free_str n1 n2 k s (v : V) : visit_str n1 k s v = visit_str n2 k s v;
  free_bin n1 n2 k s (v : V) : visit_bin n1 k s v = visit_bin n2 k s v;
  free_ext n1 n2 k s (v : V) : visit_ext n1 k s v = visit_ext n2 k s v;
  free_parse_error a1 a2 b1 b2 (v : V) : parse_error a1 b1 v = parse_error a2 b2 v;
  free_insufficient_bytes a1 a2 b1 b2 (v : V) :
    insufficient_bytes a1 b1 v = insufficient_bytes a2 b2 v;
}.

Section resume.
Context {V : Type} `{Visitor V} {free : PointerFree V}.

Lemma vsim_same {A} (m1 m2 : M V A) : (forall v, m1 v = m2 v) -> vsim eq m1 m2.
Proof. intros Hm v _ <-. rewrite Hm. destruct (m2 v) as [[a|e|w] v']; eauto. Qed.

#[export] Instance pointer_free_simulation : Simulation eq (fun _ _ => True).
Proof.
  split; try (intros; apply vsim_same; done); try (by intros v1 v2 ->);
    intros; apply vsim_same; intros v;
    first [apply free_str|apply free_bin|apply free_ext|apply free_parse_error
          |apply free_insufficient_bytes].
Qed.

(** The same end: the same value and state, or the same exception and visitor. *)
Definition same_end_as {A} (r1 r2 : outcome A * context V) : Prop :=
  match r2 with
  | (Ok a, c) => r1 = (Ok a, c)
  | (Throw e, c) => exists c', r1 = (Throw e, c') /\ set_off 0 c' = set_off 0 c
  | (Crash _, _) => True
  end.

Lemma same_end_refl {A} (r : outcome A * context V) : same_end_as r r.
Proof. destruct r as [[a|e|w] c]; simpl; eauto. Qed.

Lemma result_same_end {A} (r1 r2 : outcome A * context V) :
  result eq 0 eq (fun _ => True) r1 r2 -> same_end_as r1 r2.
Proof.
  destruct r2 as [[a|e|w] c2]; simpl; [| |done].
  - intros (a1 & c1 & -> & <- & (H1 & H2 & H3 & H4 & H5) & Ho). specialize (Ho I).
    destruct c1, c2; simpl in *. subst. by rewrite !Z.add_0_r.
  - intros (c1 & -> & (H1 & H2 & H3 & H4 & H5)). exists c1. split; [done|].
    destruct c1, c2; unfold set_off; simpl in *. subst. by rewrite !Z.add_0_r.
Qed.

Context (m_start : Z) (part1 part2 : bytes).
Hypothesis part1_bytes : Forall is_byte part1.
Hypothesis part2_bytes : Forall is_byte part2.
Abbreviation whole := (part1 ++ part2).

Lemma whole_bytes : Forall is_byte whole.
Proof using part1_bytes part2_bytes. by apply Forall_app. Qed.

Lemma read_prefix {A} p k (f : bytes -> M (context V) A) c :
  0 <= p -> p + k <= len part1 -> read part1 p k f c = read whole p k f c.
Proof.
  intros Hp Hl. unfold read, len in *. rewrite length_app, (proj2 (Z.leb_le 0 p)) by done. simpl.
  rewrite (proj2 (Z.leb_le (p + k) (Z.of_nat (length part1)))) by lia.
  rewrite (proj2 (Z.leb_le (p + k) (Z.of_nat (length part1 + length part2)))) by lia.
  unfold bytes_at. destruct (Z.leb_spec 0 k).
  - by rewrite drop_app_le, take_app_le by (rewrite ?length_drop; lia).
  - by rewrite !(Z2Nat.nonpos k), !take_0 by lia.
Qed.

Lemma header_prefix n c :
  0 <= m_current c < len part1 -> header part1 n c = header whole n c.
Proof. intros Hc. unfold header. rewrite !bind_get. apply read_prefix; lia. Qed.

Lemma switch_prefix p c :
  context_ok c -> m_cs c <> MSGPACK_CS_HEADER -> 0 <= p -> p + m_trail c <= len part1 ->
  switch m_start part1 p c = switch m_start whole p c.
Proof.
  intros Hok Hcs Hp Hl. unfold switch. rewrite !bind_get. cbv zeta.
  assert (forall k (f : bytes -> M (context V) flow), (exists cs, m_cs c = cs /\ k <= nth (Z.to_nat (cs - 4)) trail 0 /\ 4 <= cs <= 0x1f) ->
    read part1 p k f c = read whole p k f c) as Hr.
  { intros k f (cs & Ecs & Hk & Hcs'). apply read_prefix; [done|].
    destruct Hok as [?|[[_ Ht]|[? _]]]; [lia| |lia]. rewrite Ecs in Ht. lia. }
  assert (forall f : bytes -> M (context V) flow, 0x20 <= m_cs c -> read part1 p (u32 (m_trail c)) f c = read whole p (u32 (m_trail c)) f c) as Hv.
  { intros f Hf. apply read_prefix; [done|]. destruct Hok as [?|[[? _]|[_ Ht]]]; [lia|lia|].
    enough (u32 (m_trail c) <= m_trail c) by lia. apply Z.mod_le; lia. }
  repeat (case_match; try subst); try done; try (apply Hv; lia);
    (apply Hr; eexists; split; [reflexivity|split; [by vm_compute|lia]]).
Qed.

(** Only the lack of bytes is returned as [PARSE_CONTINUE]. *)
Definition decides (m : M (context V) flow) : Prop :=
  forall c c', m c <> (Ok (Return PARSE_CONTINUE), c').

Lemma decides_returns n m : decides (returns n m).
Proof.
  intros c c' E. unfold returns in E. apply bind_ok_inv in E as (ret & c1 & _ & E).
  by destruct ret.
Qed.

Lemma decides_bind {A} (m : M (context V) A) k : (forall a, decides (k a)) -> decides (m ≫= k).
Proof. intros Hk c c' E. apply bind_ok_inv in E as (a & c1 & _ & E). by apply Hk in E. Qed.

Lemma decides_value_state n value op k : decides (value_state n value op k).
Proof.
  apply decides_bind. intros []. destruct (k =? 0); [apply decides_returns|].
  apply decides_bind. by intros [] c c'.
Qed.

Lemma decides_read d p k f : (forall s, decides (f s)) -> decides (read d p k f).
Proof. intros Hf. unfold read. destruct (_ && _); [done|by intros c c']. Qed.

Lemma decides_error {A} (m : M (context V) A) r :
  r <> PARSE_CONTINUE -> decides (m ≫= fun _ => mret (Return r)).
Proof. intros Hr. apply decides_bind. intros _ c c' E. by injection E. Qed.

Lemma decides_header d n : decides (header d n).
Proof.
  apply decides_bind. intros c. apply decides_read. intros s. cbv zeta.
  repeat case_match; try apply decides_returns; try apply decides_value_state.
  - do 2 (apply decides_bind; intros []). by intros ? ?.
  - do 2 (apply decides_bind; intros ?). by apply decides_error.
Qed.

Lemma decides_switch d p : decides (switch m_start d p).
Proof.
  apply decides_bind. intros c. cbv zeta.
  repeat case_match; try (apply decides_read; intros s);
    try apply decides_returns; try apply decides_value_state.
  all: apply decides_bind; intros []; by apply decides_error.
Qed.

(** The part of a round behind the header stops, or reads what is there. *)
Lemma behind_header_prefix f c :
  context_ok c -> m_cs c <> MSGPACK_CS_HEADER -> 0 <= m_current c ->
  let c' := set_current (m_current c + if f : bool then 1 else 0) c in
  behind_header m_start whole f c = behind_header m_start whole false c' /\
  ((behind_header m_start part1 f c = (Ok (Return PARSE_CONTINUE), set_off (m_current c') c') /\
    len part1 - m_current c' < m_trail c') \/
   (behind_header m_start part1 f c = behind_header m_start whole f c /\
    forall c1, behind_header m_start part1 f c <> (Ok (Return PARSE_CONTINUE), c1))).
Proof.
  intros Hok Hcs Hc c'.
  assert (forall d, behind_header m_start d f c = behind_header m_start d false c') as Heq.
  { intros d. unfold behind_header. destruct f; [by rewrite bind_modify, bind_ret|].
    rewrite !bind_ret. unfold c'. rewrite Z.add_0_r. by destruct c. }
  rewrite !Heq. split; [done|]. unfold behind_header. rewrite !bind_ret, !bind_get.
  assert (0 <= m_current c') by (unfold c'; simpl; destruct f; lia).
  destruct (Z.ltb_spec (len part1 - m_current c') (m_trail c')); [by left|].
  right. rewrite !bind_modify. split; [|intros c1; apply decides_switch].
  unfold len in *. rewrite length_app. rewrite (proj2 (Z.ltb_ge _ _)) by lia.
  rewrite bind_modify.
  apply switch_prefix; [done..|]. unfold len. simpl. unfold c' in *. simpl in *. lia.
Qed.

Lemma round_prefix fixed n c :
  ready part1 fixed c ->
  (round m_start part1 fixed n c = round m_start whole fixed n c /\
   forall c1, round m_start part1 fixed n c <> (Ok (Return PARSE_CONTINUE), c1)) \/
  exists c', context_ok c' /\ m_cs c' <> MSGPACK_CS_HEADER /\ 0 <= m_current c' <= len part1 /\
    round m_start part1 fixed n c = (Ok (Return PARSE_CONTINUE), set_off (m_current c') c') /\
    round m_start whole fixed n c = behind_header m_start whole false c' /\
    len part1 - m_current c' < m_trail c'.
Proof using part1_bytes.
  intros (Hok & Hc & Hfixed).
  set (stage (d : bytes) := if m_cs c =? 0 then header d n else mret (Next fixed n)).
  set (rest (d : bytes) (next : flow) := match next with
    | Return r => mret (Return r)
    | Next f n => c ← get; if negb (m_cs c =? 0) || f then behind_header m_start d f else mret (Next false n)
    end).
  assert (forall d, round m_start d fixed n c = (stage d ≫= rest d) c) as Hround by done.
  assert (stage whole c = stage part1 c) as Hstage.
  { unfold stage. destruct (m_cs c =? 0); [|done]. by rewrite header_prefix. }
  assert (forall c2, stage part1 c <> (Ok (Return PARSE_CONTINUE), c2)) as Hd.
  { intros c2. unfold stage. destruct (m_cs c =? 0); [apply decides_header|done]. }
  rewrite !Hround. destruct (stage part1 c) as [[next|e|w] c1] eqn:E1.
  2-3: left; unfold mbind, M_bind; rewrite Hstage, E1; split; [done|by intros].
  rewrite (bind_ok _ _ _ _ _ E1), (bind_ok _ _ _ _ _ Hstage). unfold stage in E1.
  destruct next as [r|f1 n1].
  { left. split; [done|]. simpl. intros c2 E2. injection E2 as -> ->. by apply (Hd c2). }
  simpl. rewrite !bind_get.
  assert (context_ok c1 /\ 0 <= m_current c1 <= len part1 /\
    (f1 = true -> m_cs c1 <> 0 /\ m_current c1 < len part1)) as (Hok1 & Hc1 & Hf1).
  { destruct (Z.eqb_spec (m_cs c) 0) as [Hz|Hz].
    - apply advanced_header in E1 as (_ & Hok1 & E1); [|done]. split; [done|].
      destruct f1; lia.
    - injection E1 as -> _ <-. split; [done|]. split; [lia|]. intros Hf. split; [done|lia]. }
  destruct (Z.eqb_spec (m_cs c1) 0) as [Hz|Hz]; simpl.
  - destruct f1; [by destruct Hf1|left]. split; [done|by intros].
  - destruct (behind_header_prefix f1 c1 Hok1 Hz ltac:(lia)) as [Hw [[Hp Hl]|Hp]]; [right|by left].
    eexists. split_and!; [| | | |exact Hp|exact Hw|exact Hl]; try done; simpl;
      destruct f1; try lia; destruct (Hf1 eq_refl); lia.
Qed.

Abbreviation same' := (same eq 0).

Lemma sim_run_here d f n1 n2 (c1 c2 : context V) :
  same' c1 c2 -> same_end_as (run m_start d f n1 c1) (run m_start d f n2 c2).
Proof.
  intros Hs. apply result_same_end. unfold run. pose proof Hs as (-> & _). rewrite Z.add_0_r.
  by apply (sim_loop eq (fun _ _ => True) (fun _ => I) 0 m_start m_start d d [] eq_refl eq_refl).
Qed.

Lemma same_here (c : context V) : same' c c.
Proof. split_and!; try done. lia. Qed.

(** What [execute] does from where it stopped. *)
Lemma execute_from d (c : context V) :
  0 <= off c <= len d ->
  execute m_start d c =
  if off c =? len d then (Ok PARSE_CONTINUE, set_current (off c) c)
  else run m_start d false nullptr (set_current (off c) c).
Proof.
  intros Hc. unfold execute. rewrite bind_get, (proj2 (Z.ltb_ge _ _)) by lia.
  rewrite bind_modify. destruct (_ =? _); [|done].
  unfold store_off. rewrite bind_modify. by destruct c.
Qed.

(** A stop behind a value, or at the end of the first part. *)
Definition stopped (c c1 : context V) : Prop :=
  c1 = set_off (m_current c) c /\ context_ok c /\ 0 <= m_current c <= len part1.

Lemma resume_stopped n c c1 :
  stopped c c1 -> m_current c < len whole ->
  same_end_as (execute m_start whole c1) (run m_start whole false n c).
Proof.
  intros (-> & Hok & Hc) Hl. rewrite execute_from by (simpl; lia). cbn [off set_off].
  destruct (Z.eqb_spec (m_current c) (len whole)); [lia|].
  apply sim_run_here. split_and!; try done. simpl. lia.
Qed.

Lemma len_whole : len whole = len part1 + len part2.
Proof. unfold len. rewrite length_app. lia. Qed.

Lemma go_on_stopped n c c1 :
  stopped c c1 ->
  same_end_as (execute m_start whole c1) (go_on m_start whole (Next false n) c).
Proof.
  intros Hs. unfold go_on. rewrite bind_get.
  destruct (Z.eqb_spec (m_current c) (len whole)) as [He|He].
  - destruct Hs as (-> & Hok & Hc). unfold store_off. rewrite bind_modify.
    rewrite execute_from by (simpl; lia). cbn [off set_off].
    rewrite (proj2 (Z.eqb_eq _ _)) by done. apply same_end_refl.
  - apply resume_stopped; [done|]. destruct Hs as (_ & _ & Hc).
    rewrite len_whole in *. pose proof (Zle_0_nat (length part2)). unfold len in *. lia.
Qed.

(** The whole is read as its parts: where the parser stops in the first part
    it goes on, and any other end is that of the whole. *)
Definition resumes (r r' : outcome parse_return * context V) : Prop :=
  match r with
  | (Ok PARSE_CONTINUE, c1) =>
      (exists c, stopped c c1) /\ same_end_as (execute m_start whole c1) r'
  | _ => r' = r
  end.

Lemma ready_whole fixed (c : context V) : ready part1 fixed c -> ready whole fixed c.
Proof.
  intros (? & ? & ?). split_and!; try done; try lia.
  rewrite len_whole. unfold len in *. lia.
Qed.

Lemma behind_header_here (c1 c2 : context V) :
  same' c1 c2 ->
  same_end_as ((behind_header m_start whole false ≫= go_on m_start whole) c1)
    ((behind_header m_start whole false ≫= go_on m_start whole) c2).
Proof.
  intros Hs. apply result_same_end. eapply result_bind.
  { by apply (sim_behind_header eq (fun _ _ => True) (fun _ => I) 0 m_start m_start whole whole []). }
  intros [r1|b1 m1] [r2|b2 m2] c1' c2' Hf Hs' Ho; try done; simpl in Hf; destruct Hf.
  - eexists _, _. by split_and!; auto.
  - simpl. rewrite !bind_get.
    assert (m_current c1' = m_current c2') as -> by (pose proof Hs' as (-> & _); lia).
    destruct (_ =? _); [by apply (sim_store_continue eq)|].
    unfold run. replace (m_current c1') with (m_current c2') by (pose proof Hs' as (-> & _); lia).
    by apply (sim_loop eq (fun _ _ => True) (fun _ => I) 0 m_start m_start whole whole []).
Qed.

Lemma resume_waiting c :
  context_ok c -> m_cs c <> MSGPACK_CS_HEADER -> 0 <= m_current c <= len part1 ->
  same_end_as (execute m_start whole (set_off (m_current c) c))
    ((behind_header m_start whole false ≫= go_on m_start whole) c).
Proof using part1_bytes part2_bytes free.
  intros Hok Hcs Hc. pose proof len_whole. assert (0 <= len part2) by (unfold len; lia).
  rewrite execute_from by (simpl; lia). cbn [off set_off].
  destruct (Z.eqb_spec (m_current c) (len whole)) as [He|He].
  - assert (behind_header m_start whole false c = (Ok (Return PARSE_CONTINUE), set_off (m_current c) c)) as Hb.
    { unfold behind_header. rewrite bind_ret, bind_get. pose proof (trail_pos c Hok Hcs).
      rewrite (proj2 (Z.ltb_lt _ _)) by lia. unfold store_off. by rewrite bind_modify. }
    rewrite (bind_ok _ _ _ _ _ Hb). done.
  - set (c1 := set_current _ _).
    assert (ready whole false c1) as Hr by (split_and!; [done|simpl; lia|simpl; lia|done]).
    rewrite run_eq by (done || apply whole_bytes).
    assert (round m_start whole false nullptr c1 = behind_header m_start whole false c1) as Hround.
    { unfold round. rewrite bind_get.
      assert ((m_cs c1 =? 0) = false) as Hcs1 by (by apply Z.eqb_neq).
      by rewrite Hcs1, bind_ret, bind_get, Hcs1. }
    assert (forall k : flow -> M (context V) parse_return,
      (round m_start whole false nullptr ≫= k) c1 = (behind_header m_start whole false ≫= k) c1) as ->
      by (intros k; unfold mbind, M_bind; by rewrite Hround).
    apply behind_header_here. split_and!; try done. simpl. lia.
Qed.

Lemma run_resumes fixed n c :
  ready part1 fixed c -> resumes (run m_start part1 fixed n c) (run m_start whole fixed n c).
Proof using part1_bytes part2_bytes free.
  remember (rounds part1 fixed (m_current c)) as k eqn:Ek. revert fixed n c Ek.
  induction (lt_wf k) as [k _ IH]. intros fixed n c -> Hr.
  rewrite (run_eq m_start part1 part1_bytes), (run_eq m_start whole whole_bytes) by auto using ready_whole.
  destruct (round_prefix fixed n c Hr) as [[Hround Hd]|(c' & Hok & Hcs & Hc & Hp & Hw & Hl)].
  - unfold mbind, M_bind. rewrite <- Hround.
    destruct (round m_start part1 fixed n c) as [[next| |] c'] eqn:E; [|done..].
    destruct next as [r|f n']; [destruct r; try done; by destruct (Hd c')|].
    pose proof (round_next m_start part1 part1_bytes _ _ _ _ _ _ Hr E) as (Hok & Hc & Hf & _ & Hlt).
    unfold go_on at 1. rewrite bind_get.
    destruct (Z.eqb_spec (m_current c') (len part1)) as [He|He].
    + destruct f; [destruct (Hf eq_refl); lia|].
      assert (stopped c' (set_off (m_current c') c')) as Hs by (split_and!; [done..|destruct Hr; lia|lia]).
      unfold store_off. rewrite bind_modify. split; [by exists c'|]. by apply go_on_stopped.
    + unfold go_on. rewrite bind_get. pose proof len_whole. assert (0 <= len part2) by (unfold len; lia).
      destruct (Z.eqb_spec (m_current c') (len whole)); [lia|].
      apply (IH _ Hlt f n' c' eq_refl). by eapply round_ready.
  - rewrite (bind_ok _ _ _ _ _ Hp). split; [by exists c'|].
    assert ((round m_start whole fixed n ≫= go_on m_start whole) c =
      (behind_header m_start whole false ≫= go_on m_start whole) c') as ->
      by (unfold mbind, M_bind; by rewrite Hw).
    by apply resume_waiting.
Qed.

Lemma resumes_refl (c : context V) :
  context_ok c -> off c = len part1 ->
  resumes (Ok PARSE_CONTINUE, set_off (off c) (set_current (off c) c)) (execute m_start whole c).
Proof.
  intros Hok Ho. pose proof len_whole. assert (0 <= len part2 /\ 0 <= len part1) by (unfold len; lia).
  split; [|rewrite !execute_from by (simpl; lia); destruct c; apply same_end_refl].
  exists (set_current (off c) c). split_and!; [done..|simpl; unfold len in *; lia|simpl; lia].
Qed.

(** Reading in two parts. *)
Lemma execute_resumed c :
  context_ok c -> 0 <= off c <= len part1 ->
  resumes (execute m_start part1 c) (execute m_start whole c).
Proof using part1_bytes part2_bytes free.
  intros Hok Ho. pose proof len_whole as Hl. assert (0 <= len part2) by (unfold len; lia).
  rewrite (execute_from part1 c) by done.
  destruct (Z.eqb_spec (off c) (len part1)) as [He|He].
  - replace (set_current (off c) c) with (set_off (off c) (set_current (off c) c)) by (by destruct c).
    by apply resumes_refl.
  - rewrite (execute_from whole c) by lia. destruct (Z.eqb_spec (off c) (len whole)); [lia|].
    apply run_resumes. split_and!; [done|simpl; lia|simpl; lia|done].
Qed.

(** C33 (equivalence).  Reading can stop at any byte.  A buffer that is cut in two
    anywhere is read as the whole: where the parser runs out of the first part it
    stops behind what it has read, and going on from there when the second part has
    come has the value, the visitor and the offset of reading both at once; where
    it does not, the second part makes no difference. *)
Theorem execute_resumes c :
  context_ok c -> 0 <= off c <= len part1 ->
  resumes (execute m_start part1 c) (execute m_start whole c).
Proof using part1_bytes part2_bytes free. apply execute_resumed. Qed.
End resume.

#[export] Instance null_visitor_free : PointerFree ().
Proof. by split. Qed.

(** A map of two entries, cut behind the first byte of a length. *)
Definition cut_map : bytes * bytes :=
  ([0x82; 0xa1; 0x61; 0x01; 0xda; 0x00], [0x02; 0x62; 0x63; 0xc3; 0xc0]).

Lemma execute_resumes_witness :
  resumes 0 cut_map.1 cut_map.2 (execute 0 cut_map.1 (Context 0 0 0 [] 0 ()))
    (execute 0 (cut_map.1 ++ cut_map.2) (Context 0 0 0 [] 0 ())) /\
  (execute 0 cut_map.1 (Context 0 0 0 [] 0 ())).1 = Ok PARSE_CONTINUE /\
  (execute 0 (cut_map.1 ++ cut_map.2) (Context 0 0 0 [] 0 ())).1 = Ok PARSE_SUCCESS.
Proof.
  split_and!; [|reflexivity|reflexivity].
  apply (execute_resumes 0 cut_map.1 cut_map.2);
    [repeat constructor; done..|by left|done].
Defined.
