(* ===== verification/MsgTree.v ===== *)
(** * MessagePack: the objects a buffer stands for

    The specification of [detail::create_object_visitor] (MsgVisitor.v has its
    pointers): a visitor that keeps the arrays and maps that are open, with the
    items they have, and crashes where the order of the calls makes no sense.
    The parser never makes such a call, and what it reads from the bytes of an
    object is the object. *)
From S2P Require Import Prelude MsgObject MsgParse MsgStream.

(** [unpack_limit] (v1/unpack_decl.hpp). *)
Record unpack_limit := UnpackLimit {
  limit_array : Z;
  limit_map : Z;
  limit_str : Z;
  limit_bin : Z;
  limit_ext : Z;
  limit_depth : Z;
}.

Definition default_limit : unpack_limit :=
  UnpackLimit 0xffffffff 0xffffffff 0xffffffff 0xffffffff 0xffffffff 0xffffffff.

(** An array or map that is open: the keys and values it has, in order. *)
Record frame := Frame { is_map : bool; frame_size : Z; frame_items : list object }.

(** The limits, the object that was read last, when nothing was done with it
    yet, and the frames around it. *)
Record tree := Tree { m_limit : unpack_limit; value : option object; frames : list frame }.

Definition capacity (f : frame) : Z := if is_map f then 2 * frame_size f else frame_size f.

(** Whether there is room for one more object. *)
Definition room (fs : list frame) : bool :=
  match fs with [] => true | f :: _ => zlen (frame_items f) <? capacity f end.

Fixpoint pairs (l : list object) : list (object * object) :=
  match l with
  | k :: v :: l' => (k, v) :: pairs l'
  | _ => []
  end.

Definition place (o : object) : M tree bool := fun t =>
  match value t with
  | None => if room (frames t) then (Ok true, Tree (m_limit t) (Some o) (frames t)) else (Crash "no room", t)
  | Some _ => (Crash "an object in its place", t)
  end.

Definition open_frame (map : bool) (n : Z) : M tree bool := fun t =>
  match value t with
  | None =>
      if room (frames t) then (Ok true, Tree (m_limit t) None (Frame map n [] :: frames t))
      else (Crash "no room", t)
  | Some _ => (Crash "an object in its place", t)
  end.

(** An item of the innermost frame is complete. *)
Definition end_item : M tree bool := fun t =>
  match value t, frames t with
  | Some o, f :: fs =>
      (Ok true, Tree (m_limit t) None
        (Frame (is_map f) (frame_size f) (frame_items f ++ [o]) :: fs))
  | _, _ => (Crash "no item", t)
  end.

(** The innermost frame is complete. *)
Definition close_frame (map : bool) : M tree bool := fun t =>
  match value t, frames t with
  | None, f :: fs =>
      if eqb (is_map f) map && (zlen (frame_items f) =? capacity f) then
        (Ok true, Tree (m_limit t)
          (Some (if map then MAP (pairs (frame_items f)) else ARRAY (frame_items f))) fs)
      else (Crash "not complete", t)
  | _, _ => (Crash "no frame", t)
  end.

(** [if (size > m_limit.op()) throw overflow(what);] *)
Definition sized (op : unpack_limit -> Z) (size : Z) (what : string) (m : M tree bool) : M tree bool :=
  t ← get; if op (m_limit t) <? size then raise what else m.

(** A container of [n] items; a size has 32 bits. *)
Definition start_frame (map : bool) (op : unpack_limit -> Z) (n : Z) (what : string) : M tree bool :=
  if (0 <=? n) && (n <? 2 ^ 32) then
    sized op n what (
      t ← get; sized limit_depth (zlen (frames t) + 1) "depth size overflow" (open_frame map n))
  else crash "not a size".

#[export] Instance tree_visitor : Visitor tree := {|
  init := fun t => Tree (m_limit t) None [];
  visit_nil := place NIL;
  visit_boolean := fun b => place (BOOLEAN b);
  visit_positive_integer := fun z => place (POSITIVE_INTEGER z);
  visit_negative_integer := fun z =>
    place (if 0 <=? z then POSITIVE_INTEGER z else NEGATIVE_INTEGER z);
  visit_float32 := fun f => place (FLOAT32 (widen f));
  visit_float64 := fun f => place (FLOAT64 f);
  visit_str := fun _ k s => sized limit_str k "str size overflow" (place (STR s));
  visit_bin := fun _ k s => sized limit_bin k "bin size overflow" (place (BIN s));
  visit_ext := fun _ k s =>
    if k <? 2 ^ 32 then
      sized limit_ext k "ext size overflow"
        match s with type :: data => place (EXT type data) | [] => crash "no type" end
    else crash "not a size";
  start_array := fun n => start_frame false limit_array n "array size overflow";
  start_array_item := mret true;
  end_array_item := end_item;
  end_array := close_frame false;
  start_map := fun n => start_frame true limit_map n "map size overflow";
  start_map_key := mret true;
  end_map_key := end_item;
  start_map_value := mret true;
  end_map_value := end_item;
  end_map := close_frame true;
  parse_error := fun _ _ => raise "parse error";
  insufficient_bytes := fun _ _ => raise "insufficient bytes";
|}.

#[export] Instance tree_visitor_free : PointerFree tree.
Proof. by split. Qed.
(** What [unpack] makes of a buffer, and where the object ends. *)
Definition unpack_tree (limit : unpack_limit) (data : bytes) (start : Z) : outcome (object * Z) :=
  match parse_imp 0 data start (Tree limit None []) with
  | (Ok (_, off), Tree _ (Some o) _) => Ok (o, off)
  | (Ok _, Tree _ None _) => Throw (StdException "no object")
  | (Throw e, _) => Throw e
  | (Crash w, _) => Crash w
  end.

(** ** Objects that fit *)

(** The values the union of an object can hold, with the size of an extension
    that can be sent. *)
Fixpoint wf (o : object) : Prop :=
  match o with
  | NIL | BOOLEAN _ => True
  | POSITIVE_INTEGER u => 0 <= u < 2 ^ 64
  | NEGATIVE_INTEGER i => - 2 ^ 63 <= i < 0
  | FLOAT32 d => exists f, 0 <= f < 2 ^ 32 /\ quiet f /\ d = widen f
  | FLOAT64 d => 0 <= d < 2 ^ 64
  | STR s | BIN s => Forall is_byte s /\ zlen s < 2 ^ 32
  | EXT type s => is_byte type /\ Forall is_byte s /\ zlen s < 2 ^ 32 - 1
  | ARRAY l => zlen l < 2 ^ 32 /\ foldr (fun o P => wf o /\ P) True l
  | MAP l => zlen l < 2 ^ 32 /\ foldr (fun kv P => (wf kv.1 /\ wf kv.2) /\ P) True l
  end.

(** The depth of an object, and its sizes within a limit. *)
Fixpoint depth (o : object) : Z :=
  match o with
  | ARRAY l => 1 + foldr (fun o d => Z.max (depth o) d) 0 l
  | MAP l => 1 + foldr (fun kv d => Z.max (Z.max (depth kv.1) (depth kv.2)) d) 0 l
  | _ => 0
  end.

Fixpoint fits (limit : unpack_limit) (o : object) : Prop :=
  match o with
  | STR s => zlen s <= limit_str limit
  | BIN s => zlen s <= limit_bin limit
  | EXT _ s => zlen s + 1 <= limit_ext limit
  | ARRAY l => zlen l <= limit_array limit /\ foldr (fun o P => fits limit o /\ P) True l
  | MAP l => zlen l <= limit_map limit /\ foldr (fun kv P => (fits limit kv.1 /\ fits limit kv.2) /\ P) True l
  | _ => True
  end.

(** ** Reading what was packed *)

(** [s] is what is at [p] of the buffer. *)
Definition at_ (data : bytes) (p : Z) (s : bytes) : Prop :=
  0 <= p /\ p + zlen s <= len data /\ bytes_at data p (zlen s) = s.

Lemma zlen_app {A} (s t : list A) : zlen (s ++ t) = zlen s + zlen t.
Proof. unfold zlen. rewrite length_app. lia. Qed.

Lemma u32_pred r : 1 <= r < 2 ^ 32 -> u32 (r - 1) = r - 1.
Proof. intros Hr. apply wrap_small. lia. Qed.

Lemma zlen_nonneg {A} (s : list A) : 0 <= zlen s.
Proof. unfold zlen. lia. Qed.

Lemma zlen_cons {A} (x : A) s : zlen (x :: s) = 1 + zlen s.
Proof. unfold zlen. cbn [length]. lia. Qed.

Lemma zlen_store n z : zlen (store n z) = Z.of_nat n.
Proof. unfold zlen. by rewrite length_store. Qed.

Lemma zlen_nil {A} : zlen (@nil A) = 0.
Proof. done. Qed.

(** Arithmetic on lengths. *)
Ltac zlen_lia :=
  repeat first [rewrite zlen_app|rewrite zlen_cons|rewrite zlen_store|rewrite zlen_nil]; lia.

Lemma at_app data p s t : at_ data p (s ++ t) <-> at_ data p s /\ at_ data (p + zlen s) t.
Proof.
  unfold at_, bytes_at. rewrite zlen_app. pose proof (zlen_nonneg s). pose proof (zlen_nonneg t).
  assert (forall q u, 0 <= q -> q + zlen u <= len data ->
    (take (Z.to_nat (zlen u)) (drop (Z.to_nat q) data) = u <-> exists r, drop (Z.to_nat q) data = u ++ r)) as Hpre.
  { intros q u Hq Hl. unfold zlen. rewrite Nat2Z.id. split.
    - intros E. exists (drop (length u) (drop (Z.to_nat q) data)).
      etransitivity; [symmetry; apply (take_drop (length u))|]. by f_equal.
    - intros [r ->]. apply take_app_length. }
  split.
  - intros (Hp & Hl & E). rewrite <- zlen_app in E. apply Hpre in E as [r Hr]; [|done|rewrite zlen_app; lia].
    split; (split; [lia|]; split; [lia|]); apply Hpre; try lia.
    + exists (t ++ r). by rewrite Hr, app_assoc.
    + exists r. rewrite Z2Nat.inj_add, <- drop_drop, Hr by lia.
      unfold zlen. by rewrite Nat2Z.id, <- app_assoc, drop_app_length.
  - intros [(Hp & Hl & E) (Hp' & Hl' & E')]. split; [lia|]. split; [lia|].
    apply Hpre in E as [r Hr]; [|lia..]. apply Hpre in E' as [r' Hr']; [|lia..].
    rewrite <- zlen_app. apply Hpre; [lia|rewrite zlen_app; lia|]. exists r'.
    rewrite Z2Nat.inj_add, <- drop_drop, Hr in Hr' by lia.
    unfold zlen in Hr'. rewrite Nat2Z.id, drop_app_length in Hr'. by rewrite Hr, Hr', app_assoc.
Qed.

Lemma at_cons data p x s : at_ data p (x :: s) <-> at_ data p [x] /\ at_ data (p + 1) s.
Proof. exact (at_app data p [x] s). Qed.

(** The length of a prefix is enough. *)
Lemma at_start data s t : data = s ++ t -> at_ data 0 s.
Proof.
  intros ->. unfold at_, bytes_at, len, zlen. rewrite length_app, Nat2Z.id. simpl.
  split_and!; [lia|lia|apply take_app_length].
Qed.

Lemma at_skip data p s : at_ data p s -> forall pre, at_ (pre ++ data) (zlen pre + p) s.
Proof.
  intros (Hp & Hl & E) pre. pose proof (zlen_nonneg pre). unfold at_, len, zlen in *.
  rewrite length_app. split_and!; [lia|lia|]. rewrite <- E at 2. unfold bytes_at.
  rewrite drop_app_ge by lia. do 2 f_equal. lia.
Qed.

Lemma bind_agrees {S A B} (m1 m2 : M S A) (k : A -> M S B) s1 s2 :
  m1 s1 = m2 s2 -> (m1 ≫= k) s1 = (m2 ≫= k) s2.
Proof. intros Hm. unfold mbind, M_bind. by rewrite Hm. Qed.

Section reading.
Context {V : Type} `{Visitor V} (m_start : Z) (data : bytes).
Hypothesis data_bytes : Forall is_byte data.

Lemma read_at {A} p k s (f : bytes -> M (context V) A) c :
  at_ data p s -> zlen s = k -> read data p k f c = f s c.
Proof.
  intros (Hp & Hl & E) <-. unfold read. rewrite (proj2 (Z.leb_le 0 p)) by done.
  rewrite (proj2 (Z.leb_le _ (len data))) by done. simpl. by rewrite E.
Qed.

(** What follows a value that has been visited. *)
Definition after_value (n : pointer) : M (context V) parse_return :=
  returns n finish_visit ≫= go_on m_start data.

(** A value is visited and gives a new visitor. *)
Lemma visit_placed n op p t cs stk o v v' :
  op v = (Ok true, v') ->
  (returns n (after_visit_proc op) ≫= go_on m_start data) (Context p t cs stk o v) =
  after_value n (Context (p + 1) t cs stk o v').
Proof.
  intros Hop. unfold after_value, after_visit_proc, returns.
  rewrite !bind_assoc.
  assert (visit op (Context p t cs stk o v) = (Ok true, Context p t cs stk o v')) as Hv.
  { unfold visit, zoom. simpl. by rewrite Hop. }
  rewrite (bind_ok _ _ _ _ _ Hv), bind_assoc, bind_modify. done.
Qed.

(** A header that is followed by its value at once. *)
Lemma run_header n c op :
  ready data false c -> m_cs c = MSGPACK_CS_HEADER ->
  header data n c = returns n op c ->
  (forall f n' c', returns n op c = (Ok (Next f n'), c') -> f = false /\ m_cs c' = MSGPACK_CS_HEADER) ->
  run m_start data false n c = (returns n op ≫= go_on m_start data) c.
Proof using data_bytes.
  intros Hr Hcs Hh Hn. rewrite run_eq by done. unfold round.
  rewrite bind_assoc, bind_get, Hcs. simpl. unfold mbind, M_bind. rewrite Hh.
  destruct (returns n op c) as [[[r|f n']| |] c'] eqn:E; try done.
  destruct (Hn _ _ _ eq_refl) as [-> Hcs']. 
  assert (n' = n) as ->.
  { unfold returns in E. apply bind_ok_inv in E as (ret & c1 & _ & E). by destruct ret; inversion E. }
  unfold get. by rewrite Hcs'.
Qed.

Lemma ready_header p t stk o v h s :
  at_ data p (h :: s) -> ready data false (Context p t MSGPACK_CS_HEADER stk o v : context V).
Proof.
  intros (Hp & Hl & _). rewrite zlen_cons in Hl. pose proof (zlen_nonneg s).
  split_and!; [by left|simpl; lia|simpl; lia|done].
Qed.

Lemma round_waiting f n (c : context V) :
  m_cs c <> MSGPACK_CS_HEADER -> round m_start data f n c = behind_header m_start data f c.
Proof.
  intros Hcs%Z.eqb_neq. unfold round. by rewrite bind_get, Hcs, bind_ret, bind_get, Hcs.
Qed.

(** The part behind a header or a length, with all bytes there. *)
Lemma run_behind f n c :
  ready data f c -> m_cs c <> MSGPACK_CS_HEADER ->
  let p := m_current c + (if f : bool then 1 else 0) in
  p + m_trail c <= len data ->
  run m_start data f n c =
  (switch m_start data p ≫= go_on m_start data) (set_current (p + (m_trail c - 1)) c).
Proof using data_bytes.
  intros Hr Hcs p Hl. rewrite run_eq by done.
  assert (behind_header m_start data f c = switch m_start data p (set_current (p + (m_trail c - 1)) c)) as Hb.
  { unfold behind_header.
    assert ((if f then modify (fun c => set_current (m_current c + 1) c) else mret ()) c
      = (Ok (), set_current p c)) as Hp.
    { unfold p. destruct f; [done|]. rewrite Z.add_0_r. by destruct c. }
    rewrite (bind_ok _ _ _ _ _ Hp), bind_get. cbn [m_current m_trail set_current].
    rewrite (proj2 (Z.ltb_ge _ _)) by lia. by rewrite bind_modify. }
  apply bind_agrees. by rewrite round_waiting.
Qed.

(** A header with a length or a value behind it. *)
Lemma run_header_next n n' c c1 :
  ready data false c -> m_cs c = MSGPACK_CS_HEADER ->
  header data n c = (Ok (Next true n'), c1) ->
  m_current c1 + 1 + m_trail c1 <= len data ->
  run m_start data false n c =
  (switch m_start data (m_current c1 + 1) ≫= go_on m_start data)
    (set_current (m_current c1 + m_trail c1) c1).
Proof using data_bytes.
  intros Hr Hcs Hh Hl.
  pose proof (advanced_header data data_bytes _ _ _ _ _ Hh) as (Hp & Hok & Hc & Hcs1).
  assert (run m_start data false n c = run m_start data true n' c1) as ->.
  { assert (ready data true c1) as Hr1.
    { split_and!; [done|rewrite Hc; destruct Hr; lia|lia|done]. }
    rewrite !run_eq by done. apply bind_agrees. rewrite (round_waiting true) by done.
    unfold round. rewrite bind_get, Hcs. simpl.
    rewrite (bind_ok _ _ _ _ _ Hh), bind_get. by rewrite orb_true_r. }
  rewrite run_behind; [|split_and!; [done|rewrite Hc; destruct Hr; lia|lia|done]|done|lia].
  by replace (m_current c1 + 1 + (m_trail c1 - 1)) with (m_current c1 + m_trail c1) by lia.
Qed.

Lemma header_trail n p t stk o v h s :
  0xc4 <= h <= 0xdf -> at_ data p (h :: s) ->
  header data n (Context p t MSGPACK_CS_HEADER stk o v) =
  (Ok (Next true n), Context p (nth (Z.to_nat (h - 0xc4)) trail 0) (h - 0xc0) stk o v).
Proof.
  intros Hh Hat. apply at_cons in Hat as [Hat _]. unfold header. rewrite bind_get.
  cbn [m_current]. rewrite (read_at p 1 [h] _ _ Hat eq_refl). change (load [h]) with h. cbv zeta.
  replace ((0 <=? h) && (h <=? 127)) with false by lia.
  replace ((224 <=? h) && (h <=? 255)) with false by lia.
  replace ((196 <=? h) && (h <=? 223)) with true by lia.
  by rewrite !bind_modify, next_cs_eq.
Qed.

Lemma run_trail n p t stk o v h s :
  0xc4 <= h <= 0xdf -> at_ data p (h :: s) -> zlen s = nth (Z.to_nat (h - 0xc4)) trail 0 ->
  run m_start data false n (Context p t MSGPACK_CS_HEADER stk o v) =
  (switch m_start data (p + 1) ≫= go_on m_start data) (Context (p + zlen s) (zlen s) (h - 0xc0) stk o v).
Proof using data_bytes.
  intros Hh Hat Hs. pose proof (ready_header p t stk o v h s Hat) as Hr.
  rewrite (run_header_next n n _ _ Hr eq_refl (header_trail n p t stk o v h s Hh Hat));
    cbn [m_current m_trail set_current]; rewrite <- Hs; [done|].
  destruct Hat as (_ & Hl & _). rewrite zlen_cons in Hl. lia.
Qed.

(** The bytes of a text, behind its length. *)
Lemma run_value n q k cs stk o v s :
  0x20 <= cs <= 0x22 -> at_ data (q + 1) s -> zlen s = k -> 1 <= k <= 2 ^ 32 -> 0 <= q ->
  run m_start data true n (Context q k cs stk o v) =
  (switch m_start data (q + 1) ≫= go_on m_start data) (Context (q + k) k cs stk o v).
Proof using data_bytes.
  intros Hcs (Hq & Hl & _) Hs Hk Hq0.
  rewrite run_behind; cbn [m_current m_trail m_cs set_current]; [| |lia|lia].
  - by replace (q + 1 + (k - 1)) with (q + k) by lia.
  - split_and!; cbn [m_current m_trail m_cs]; [by right; right|lia|lia|lia].
Qed.
End reading.
(** ** One object *)

Section objects.
Context (m_start : Z) (data : bytes) (lim : unpack_limit).
Hypothesis data_bytes : Forall is_byte data.

Abbreviation run := (run m_start data).
Abbreviation after_value := (after_value m_start data).
Abbreviation empty fs := (Tree lim None fs).
Abbreviation holds o fs := (Tree lim (Some o) fs).

Lemma place_ok o fs : room fs = true -> place o (empty fs) = (Ok true, holds o fs).
Proof. intros Hr. unfold place. simpl. by rewrite Hr. Qed.

Lemma sized_ok op k what m t : k <= op (m_limit t) -> sized op k what m t = m t.
Proof. intros Hk. unfold sized. rewrite bind_get, (proj2 (Z.ltb_ge _ _)); [done|lia]. Qed.

(** The object at [p] is [o], and ends at [q]. *)
Definition reads (p q : Z) (o : object) : Prop :=
  forall t stk o0 fs n, room fs = true -> zlen fs + depth o <= limit_depth lim ->
  exists t' cs' n',
    run false n (Context p t MSGPACK_CS_HEADER stk o0 (empty fs)) =
    after_value n' (Context q t' cs' stk o0 (holds o fs)).

(** An operation of the visitor that places an object. *)
Definition places (op : M tree bool) (o : object) : Prop :=
  forall fs, room fs = true -> op (empty fs) = (Ok true, holds o fs).

Lemma places_place o : places (place o) o.
Proof. intros fs. apply place_ok. Qed.

(** Headers that are values. *)
Lemma reads_header p h s op o :
  at_ data p (h :: s) -> places op o ->
  (forall n t stk o0 fs, header data n (Context p t MSGPACK_CS_HEADER stk o0 (empty fs)) =
    returns n (after_visit_proc op) (Context p t MSGPACK_CS_HEADER stk o0 (empty fs))) ->
  reads p (p + 1) o.
Proof using data_bytes.
  intros Hat Hop Hh t stk o0 fs n Hroom _. exists t, MSGPACK_CS_HEADER, n.
  rewrite (run_header m_start data data_bytes n _ (after_visit_proc op)).
  - apply visit_placed. by apply Hop.
  - by eapply ready_header.
  - done.
  - apply Hh.
  - intros f n' c' E. pose proof (returns_next _ _ _ _ _ _ E) as [-> _].
    by apply advanced_visit in E as (_ & _ & E).
Qed.

(** Headers with a value of a fixed length behind them. *)
Lemma reads_trail p h cs s op o :
  0xc4 <= h <= 0xdf -> h - 0xc0 = cs -> at_ data p (h :: s) -> zlen s = nth (Z.to_nat (h - 0xc4)) trail 0 ->
  places op o ->
  (forall t stk o0 fs,
    let c := Context (p + zlen s) t cs stk o0 (empty fs) in
    switch m_start data (p + 1) c = returns (Some (m_start + (p + 1))) (after_visit_proc op) c) ->
  reads p (p + zlen s + 1) o.
Proof using data_bytes.
  intros Hh <- Hat Hs Hop Hsw t stk o0 fs n Hroom _.
  exists (zlen s), (h - 0xc0), (Some (m_start + (p + 1))).
  rewrite (run_trail m_start data data_bytes n p t stk o0 _ h s Hh Hat Hs).
  rewrite <- (visit_placed m_start data _ op (p + zlen s) _ _ _ _ (empty fs)) by (by apply Hop).
  apply bind_agrees, Hsw.
Qed.

Ltac header_value Hat :=
  let Hat' := fresh in
  intros n t stk o0 fs; apply at_cons in Hat as [Hat' _]; unfold header; rewrite bind_get;
  cbn [m_current]; rewrite (read_at data _ _ [_] _ _ Hat' eq_refl); cbv zeta;
  match goal with |- context [load [?h]] => change (load [h]) with h end.

Lemma reads_nil p : at_ data p pack_nil -> reads p (p + 1) NIL.
Proof using data_bytes.
  intros Hat. eapply reads_header; [exact Hat|apply places_place|]. by header_value Hat.
Qed.

Lemma reads_boolean p b : at_ data p (if b : bool then pack_true else pack_false) -> reads p (p + 1) (BOOLEAN b).
Proof using data_bytes.
  intros Hat. destruct b; (eapply reads_header; [exact Hat|apply places_place|]); by header_value Hat.
Qed.

Lemma reads_positive_fixnum p u s :
  at_ data p (u :: s) -> 0 <= u < 2 ^ 7 -> reads p (p + 1) (POSITIVE_INTEGER u).
Proof using data_bytes.
  intros Hat Hu. eapply reads_header; [exact Hat|apply places_place|].
  header_value Hat. by replace ((0 <=? u) && (u <=? 127)) with true by lia.
Qed.

Lemma places_negative z :
  places (visit_negative_integer z) (if 0 <=? z then POSITIVE_INTEGER z else NEGATIVE_INTEGER z).
Proof. apply places_place. Qed.

Lemma reads_negative_fixnum p i s :
  at_ data p (take8 i :: s) -> - 2 ^ 5 <= i < 0 -> reads p (p + 1) (NEGATIVE_INTEGER i).
Proof using data_bytes.
  intros Hat Hi.
  assert (take8 i = i + 256) as Hb by (unfold take8; symmetry; apply Z.mod_unique with (-1); lia).
  assert (load_signed [take8 i] = i) as Hl
    by (rewrite <- store_1; apply (load_signed_small 1 7); lia).
  eapply (reads_header p _ s (visit_negative_integer i)); [exact Hat| |].
  - pose proof (places_negative i) as Hp. by rewrite (proj2 (Z.leb_gt 0 i)) in Hp by lia.
  - header_value Hat. rewrite Hl.
    replace ((0 <=? take8 i) && (take8 i <=? 127)) with false by lia.
    by replace ((224 <=? take8 i) && (take8 i <=? 255)) with true by lia.
Qed.

Ltac trail_value Hat Hk :=
  let Hat' := fresh in
  eapply reads_trail; [| |exact Hat| | |]; [lia|vm_compute; reflexivity|rewrite Hk; reflexivity| |];
  [|intros t stk o0 fs; cbv zeta; apply at_cons in Hat as [_ Hat']; unfold switch; rewrite bind_get;
    cbn [m_cs Z.sub Z.add Z.opp Z.pos_sub]; by rewrite (read_at data _ _ _ _ _ Hat' Hk)].

Lemma reads_uint p h s :
  at_ data p (h :: s) ->
  (h = 0xcc /\ zlen s = 1) \/ (h = 0xcd /\ zlen s = 2) \/ (h = 0xce /\ zlen s = 4) \/
  (h = 0xcf /\ zlen s = 8) ->
  reads p (p + zlen s + 1) (POSITIVE_INTEGER (load s)).
Proof using data_bytes.
  intros Hat [[-> Hk]|[[-> Hk]|[[-> Hk]|[-> Hk]]]]; trail_value Hat Hk; apply places_place.
Qed.

Lemma reads_int p h s :
  at_ data p (h :: s) ->
  (h = 0xd0 /\ zlen s = 1) \/ (h = 0xd1 /\ zlen s = 2) \/ (h = 0xd2 /\ zlen s = 4) \/
  (h = 0xd3 /\ zlen s = 8) ->
  reads p (p + zlen s + 1)
    (if 0 <=? load_signed s then POSITIVE_INTEGER (load_signed s) else NEGATIVE_INTEGER (load_signed s)).
Proof using data_bytes.
  intros Hat [[-> Hk]|[[-> Hk]|[[-> Hk]|[-> Hk]]]]; trail_value Hat Hk; apply places_place.
Qed.

Lemma reads_float32 p s :
  at_ data p (0xca :: s) -> zlen s = 4 -> reads p (p + zlen s + 1) (FLOAT32 (widen (load s))).
Proof using data_bytes. intros Hat Hk. trail_value Hat Hk. apply places_place. Qed.

Lemma reads_float64 p s :
  at_ data p (0xcb :: s) -> zlen s = 8 -> reads p (p + zlen s + 1) (FLOAT64 (load s)).
Proof using data_bytes. intros Hat Hk. trail_value Hat Hk. apply places_place. Qed.

Lemma places_ext n type d :
  zlen d + 1 < 2 ^ 32 -> zlen d + 1 <= limit_ext lim -> places (visit_ext n (zlen (type :: d)) (type :: d)) (EXT type d).
Proof.
  intros Hd Hl fs Hr. simpl. rewrite (proj2 (Z.ltb_lt _ _)) by (rewrite zlen_cons; lia).
  rewrite sized_ok by (rewrite zlen_cons; simpl; lia). by apply place_ok.
Qed.

Lemma reads_fixext p h type d :
  at_ data p (h :: type :: d) ->
  (h = 0xd4 /\ zlen d = 1) \/ (h = 0xd5 /\ zlen d = 2) \/ (h = 0xd6 /\ zlen d = 4) \/
  (h = 0xd7 /\ zlen d = 8) \/ (h = 0xd8 /\ zlen d = 16) ->
  zlen d + 1 <= limit_ext lim ->
  reads p (p + zlen (type :: d) + 1) (EXT type d).
Proof using data_bytes.
  intros Hat Hh Hl.
  assert (forall k, zlen d = k -> zlen (type :: d) = k + 1) as Hz by (intros k <-; rewrite zlen_cons; lia).
  destruct Hh as [[-> Hk]|[[-> Hk]|[[-> Hk]|[[-> Hk]|[-> Hk]]]]]; apply Hz in Hk; cbn in Hk;
    (trail_value Hat Hk; rewrite <- Hk; apply places_ext; rewrite zlen_cons in Hk; lia).
Qed.

(** Texts: the state that reads their bytes, and the object they are. *)
Inductive text : Z -> bytes -> object -> Prop :=
| text_str d : zlen d <= limit_str lim -> text MSGPACK_ACS_STR_VALUE d (STR d)
| text_bin d : zlen d <= limit_bin lim -> text MSGPACK_ACS_BIN_VALUE d (BIN d)
| text_ext type d : zlen d + 1 < 2 ^ 32 -> zlen d + 1 <= limit_ext lim -> text MSGPACK_ACS_EXT_VALUE (type :: d) (EXT type d).

Definition visit_text (acs : Z) (n : pointer) (k : Z) (d : bytes) : M tree bool :=
  if acs =? MSGPACK_ACS_STR_VALUE then visit_str n k d
  else if acs =? MSGPACK_ACS_BIN_VALUE then visit_bin n k d else visit_ext n k d.

Lemma places_text acs d o n : text acs d o -> places (visit_text acs n (zlen d) d) o.
Proof.
  intros [d' Hl|d' Hl|type d' Hd Hl] fs Hr; unfold visit_text; simpl; [| |by apply (places_ext n)];
    rewrite sized_ok by done; by apply place_ok.
Qed.

Lemma text_acs acs d o : text acs d o -> 0x20 <= acs <= 0x22.
Proof. by intros []. Qed.

(** The bytes of a text. *)
Lemma text_bytes q k acs d o t stk o0 fs :
  text acs d o -> at_ data (q + 1) d -> zlen d = k -> k < 2 ^ 32 -> room fs = true ->
  (switch m_start data (q + 1) ≫= go_on m_start data) (Context t k acs stk o0 (empty fs)) =
  after_value (Some (m_start + (q + 1))) (Context (t + 1) k acs stk o0 (holds o fs)).
Proof.
  intros Ht Hat Hk Hl Hr.
  rewrite <- (visit_placed m_start data _ (visit_text acs (Some (m_start + (q + 1))) k d) t _ _ _ _ (empty fs))
    by (subst k; by apply (places_text acs d o)).
  apply bind_agrees. unfold switch. rewrite bind_get. cbn [m_cs m_trail]. cbv zeta.
  assert (u32 k = k) as Hu by (apply wrap_small; pose proof (zlen_nonneg d); lia).
  destruct Ht; unfold visit_text; cbn [Z.eqb Pos.eqb]; rewrite Hu;
    by rewrite (read_at data _ _ _ _ _ Hat Hk).
Qed.

(** A length of [k1] bytes, and the text. *)
Lemma reads_length p h cs s1 acs d o :
  0xc4 <= h <= 0xdf -> h - 0xc0 = cs -> at_ data p (h :: s1 ++ d) ->
  zlen s1 = nth (Z.to_nat (h - 0xc4)) trail 0 -> text acs d o -> zlen d < 2 ^ 32 ->
  (forall c, m_cs c = cs -> exists n,
    switch m_start data (p + 1) c = value_state n acs (visit_text acs n 0 []) (zlen d) c) ->
  reads p (p + zlen s1 + zlen d + 1) o.
Proof using data_bytes.
  intros Hh <- Hat Hs Ht Hd Hsw t stk o0 fs n Hroom _.
  change (h :: s1 ++ d) with ((h :: s1) ++ d) in Hat. apply at_app in Hat as [Hat Hatd].
  rewrite (run_trail m_start data data_bytes n p t stk o0 _ h s1 Hh Hat Hs).
  set (c := Context _ _ _ _ _ _). destruct (Hsw c eq_refl) as [n' Hsw']. clear Hsw.
  rewrite (bind_agrees _ _ _ _ _ Hsw'). clear Hsw'. unfold value_state.
  rewrite bind_assoc, bind_modify. rewrite zlen_cons in Hatd. pose proof (zlen_nonneg s1).
  pose proof (zlen_nonneg d). destruct (Z.eqb_spec (zlen d) 0) as [Hz|Hz].
  - assert (d = []) as -> by (destruct d; [done|rewrite zlen_cons in Hz; pose proof (zlen_nonneg d); lia]).
    unfold c, set_trail. cbn [m_current m_cs m_stack off visitor].
    rewrite (visit_placed m_start data _ _ (p + zlen s1) _ _ _ _ _ (holds o fs))
      by (by apply (places_text acs [] o)).
    do 3 eexists; f_equal; f_equal; lia.
  - rewrite bind_assoc, bind_modify, bind_ret. unfold c, set_trail, set_cs, go_on.
    rewrite bind_get. cbn [m_current m_trail m_cs m_stack off visitor].
    pose proof Hatd as (_ & Hl & _).
    destruct (Z.eqb_spec (p + zlen s1) (len data)); [lia|].
    replace (p + (1 + zlen s1)) with (p + zlen s1 + 1) in Hatd by lia.
    rewrite (run_value m_start data data_bytes n' _ _ _ _ _ _ d (text_acs _ _ _ Ht) Hatd eq_refl)
      by (destruct Hat; lia).
    rewrite (text_bytes _ _ _ _ _ _ _ _ _ Ht Hatd eq_refl Hd Hroom). do 3 eexists; f_equal; f_equal; lia.
Qed.

(** A text of less than 32 bytes. *)
Lemma reads_fixstr p l d :
  at_ data p (Z.lor 0xa0 l :: d) -> l = zlen d -> l < 32 -> l <= limit_str lim ->
  reads p (p + zlen d + 1) (STR d).
Proof using data_bytes.
  intros Hat -> Hl Hlim. pose proof (zlen_nonneg d).
  pose proof (lor_low 5 5 (zlen d) ltac:(lia) ltac:(lia)) as [Hor Hland].
  change (5 * 2 ^ 5) with 0xa0 in Hor, Hland. change (Z.ones 5) with 0x1f in Hland. rewrite Hor in Hat, Hland.
  pose proof Hat as Hat1. apply at_cons in Hat1 as [_ Hatd].
  assert (forall n t stk o0 fs, header data n (Context p t MSGPACK_CS_HEADER stk o0 (empty fs)) =
    value_state n MSGPACK_ACS_STR_VALUE (visit_str n 0 []) (zlen d)
      (Context p t MSGPACK_CS_HEADER stk o0 (empty fs))) as Hh.
  { header_value Hat. rewrite Hland.
    replace ((0 <=? 0xa0 + zlen d) && (0xa0 + zlen d <=? 127)) with false by lia.
    replace ((224 <=? 0xa0 + zlen d) && (0xa0 + zlen d <=? 255)) with false by lia.
    replace ((196 <=? 0xa0 + zlen d) && (0xa0 + zlen d <=? 223)) with false by lia.
    by replace ((160 <=? 0xa0 + zlen d) && (0xa0 + zlen d <=? 191)) with true by lia. }
  assert (text MSGPACK_ACS_STR_VALUE d (STR d)) as Ht by (by constructor).
  destruct (Z.eqb_spec (zlen d) 0) as [Hz|Hz].
  - assert (d = []) as -> by (destruct d; [done|rewrite zlen_cons in Hz; pose proof (zlen_nonneg d); lia]).
    change (zlen []) with 0. rewrite Z.add_0_r. intros t stk o0 fs n Hroom _.
    exists 0, MSGPACK_CS_HEADER, n.
    set (op := _ ← modify (set_trail 0); after_visit_proc (visit_str n 0 [])).
    assert (forall c, returns n op c = returns n (after_visit_proc (visit_str n 0 [])) (set_trail 0 c)) as Hop.
    { intros c. unfold returns, op. by rewrite bind_assoc, bind_modify. }
    rewrite (run_header m_start data data_bytes n _ op).
    + rewrite (bind_agrees _ _ _ _ _ (Hop _)). apply visit_placed. by apply (places_text _ _ _ n Ht).
    + by eapply ready_header.
    + done.
    + rewrite Hop. by rewrite Hh.
    + intros f n' c' E. rewrite Hop in E. pose proof (returns_next _ _ _ _ _ _ E) as [-> _].
      by apply advanced_visit in E as (_ & _ & E).
  - intros t stk o0 fs n Hroom _.
    pose proof (ready_header data p t stk o0 (empty fs) _ _ Hat) as Hr.
    specialize (Hh n t stk o0 fs). unfold value_state in Hh.
    rewrite bind_modify, (proj2 (Z.eqb_neq _ _)), bind_modify in Hh by done.
    rewrite (run_header_next m_start data data_bytes n n _ _ Hr eq_refl Hh)
      by (unfold set_cs, set_trail; cbn [m_current m_trail]; destruct Hatd; lia).
    unfold set_cs, set_trail, set_current. cbn [m_current m_trail m_cs m_stack off visitor].
    rewrite (text_bytes _ _ _ _ _ _ _ _ _ Ht Hatd eq_refl ltac:(lia) Hroom).
    by do 3 eexists.
Qed.

Lemma reads_end p q q' o : reads p q o -> q = q' -> reads p q' o.
Proof. by intros ? <-. Qed.

Ltac length_value Hat Hk Hload Ht Hd :=
  let c := fresh in let Hc := fresh in
  eapply reads_length; [| |exact Hat| |exact Ht|exact Hd|];
  [lia|vm_compute; reflexivity|rewrite Hk; reflexivity|];
  intros c Hc; eexists; unfold switch; rewrite bind_get, Hc; cbv zeta;
  rewrite app_comm_cons in Hat; apply at_app in Hat as [Hat _]; apply at_cons in Hat as [_ Hat];
  rewrite (read_at data _ _ _ _ _ Hat Hk), Hload; reflexivity.

Lemma reads_length_str p h s1 d :
  at_ data p (h :: s1 ++ d) ->
  (h = 0xd9 /\ zlen s1 = 1) \/ (h = 0xda /\ zlen s1 = 2) \/ (h = 0xdb /\ zlen s1 = 4) ->
  load s1 = zlen d -> zlen d < 2 ^ 32 -> zlen d <= limit_str lim ->
  reads p (p + zlen s1 + zlen d + 1) (STR d).
Proof using data_bytes.
  intros Hat Hh Hload Hd Hlim. pose proof (text_str d Hlim) as Ht.
  destruct Hh as [[-> Hk]|[[-> Hk]|[-> Hk]]]; length_value Hat Hk Hload Ht Hd.
Qed.

Lemma reads_length_bin p h s1 d :
  at_ data p (h :: s1 ++ d) ->
  (h = 0xc4 /\ zlen s1 = 1) \/ (h = 0xc5 /\ zlen s1 = 2) \/ (h = 0xc6 /\ zlen s1 = 4) ->
  load s1 = zlen d -> zlen d < 2 ^ 32 -> zlen d <= limit_bin lim ->
  reads p (p + zlen s1 + zlen d + 1) (BIN d).
Proof using data_bytes.
  intros Hat Hh Hload Hd Hlim. pose proof (text_bin d Hlim) as Ht.
  destruct Hh as [[-> Hk]|[[-> Hk]|[-> Hk]]]; length_value Hat Hk Hload Ht Hd.
Qed.

Lemma reads_length_ext p h s1 type d :
  at_ data p (h :: s1 ++ type :: d) ->
  (h = 0xc7 /\ zlen s1 = 1) \/ (h = 0xc8 /\ zlen s1 = 2) \/ (h = 0xc9 /\ zlen s1 = 4) ->
  load s1 = zlen d -> zlen d < 2 ^ 32 - 1 -> zlen d + 1 <= limit_ext lim ->
  reads p (p + zlen s1 + zlen (type :: d) + 1) (EXT type d).
Proof using data_bytes.
  intros Hat Hh Hload Hd Hlim. pose proof (text_ext type d ltac:(lia) Hlim) as Ht.
  assert (load s1 + 1 = zlen (type :: d)) as Hload' by (rewrite zlen_cons; lia).
  assert (zlen (type :: d) < 2 ^ 32) as Hd' by (rewrite zlen_cons; lia).
  destruct Hh as [[-> Hk]|[[-> Hk]|[-> Hk]]]; length_value Hat Hk Hload' Ht Hd'.
Qed.

(** ** Scalars and texts that were packed *)

Lemma load_take8 u : 0 <= u < 256 -> load [take8 u] = u.
Proof. intros Hu. change (load [take8 u]) with (take8 u). apply Z.mod_small. lia. Qed.

Lemma reads_positive p u :
  0 <= u < 2 ^ 64 -> at_ data p (pack_imp_uint64 u) -> reads p (p + zlen (pack_imp_uint64 u)) (POSITIVE_INTEGER u).
Proof using data_bytes.
  intros Hu. unfold pack_imp_uint64.
  destruct (Z.ltb_spec u (2 ^ 8)); [destruct (Z.ltb_spec u (2 ^ 7))|
    destruct (Z.ltb_spec u (2 ^ 16)); [|destruct (Z.ltb_spec u (2 ^ 32))]]; intros Hat.
  - assert (take8 u = u) as Hb by (apply Z.mod_small; lia). rewrite Hb in *.
    by eapply reads_positive_fixnum; [|lia].
  - rewrite <- (load_take8 u) at 2 by lia. eapply reads_end; [eapply reads_uint; [exact Hat|tauto]|].
    zlen_lia.
  - rewrite <- (load_store_small 2 16 u) at 2 by lia. eapply reads_end;
      [eapply reads_uint; [exact Hat|rewrite zlen_store; auto]|zlen_lia].
  - rewrite <- (load_store_small 4 32 u) at 2 by lia. eapply reads_end;
      [eapply reads_uint; [exact Hat|rewrite zlen_store; auto]|zlen_lia].
  - rewrite <- (load_store_small 8 64 u) at 2 by lia. eapply reads_end;
      [eapply reads_uint; [exact Hat|rewrite zlen_store; auto]|zlen_lia].
Qed.

Lemma reads_negative p i :
  - 2 ^ 63 <= i < 0 -> at_ data p (pack_imp_int64 i) ->
  reads p (p + zlen (pack_imp_int64 i)) (NEGATIVE_INTEGER i).
Proof using data_bytes.
  intros Hi. assert (forall n w, w = 8 * Z.of_nat n - 1 -> 0 < w -> - 2 ^ w <= i < 2 ^ w ->
    NEGATIVE_INTEGER i = if 0 <=? load_signed (store n i) then POSITIVE_INTEGER (load_signed (store n i))
      else NEGATIVE_INTEGER (load_signed (store n i))) as Hload.
  { intros n w Hw Hw0 Hr. rewrite (load_signed_small n w i) by done. by rewrite (proj2 (Z.leb_gt _ _)) by lia. }
  unfold pack_imp_int64. destruct (Z.ltb_spec i (- 2 ^ 5)) as [Hl|Hl].
  - destruct (Z.ltb_spec i (- 2 ^ 15)); [destruct (Z.ltb_spec i (- 2 ^ 31))|destruct (Z.ltb_spec i (- 2 ^ 7))];
      intros Hat; rewrite <- ?store_1 in *.
    + rewrite (Hload 8%nat 63) by lia. eapply reads_end;
        [eapply reads_int; [exact Hat|rewrite zlen_store; auto]|zlen_lia].
    + rewrite (Hload 4%nat 31) by lia. eapply reads_end;
        [eapply reads_int; [exact Hat|rewrite zlen_store; auto]|zlen_lia].
    + rewrite (Hload 2%nat 15) by lia. eapply reads_end;
        [eapply reads_int; [exact Hat|rewrite zlen_store; auto]|zlen_lia].
    + rewrite (Hload 1%nat 7) by lia. eapply reads_end;
        [eapply reads_int; [exact Hat|rewrite zlen_store; auto]|zlen_lia].
  - rewrite (proj2 (Z.ltb_lt i (2 ^ 7))) by lia. intros Hat.
    by eapply reads_negative_fixnum; [|lia].
Qed.

Lemma reads_str p d :
  at_ data p (pack_str (zlen d) ++ d) -> zlen d < 2 ^ 32 -> zlen d <= limit_str lim ->
  reads p (p + zlen (pack_str (zlen d) ++ d)) (STR d).
Proof using data_bytes.
  intros Hat Hd Hl. pose proof (zlen_nonneg d). revert Hat. unfold pack_str.
  destruct (Z.ltb_spec (zlen d) 32); [|destruct (Z.ltb_spec (zlen d) 256); [|destruct (Z.ltb_spec (zlen d) 65536)]];
    intros Hat; (eapply reads_end; [|rewrite zlen_app, zlen_cons; reflexivity]).
  - eapply reads_end; [by eapply reads_fixstr|]. zlen_lia.
  - eapply reads_end; [eapply (reads_length_str p _ [zlen d] d); [exact Hat|by left|done..]|]. zlen_lia.
  - rewrite <- app_comm_cons in Hat. eapply reads_end; [eapply reads_length_str; [exact Hat|rewrite zlen_store; auto|by apply (load_store_small 2 16)|done..]|zlen_lia].
  - rewrite <- app_comm_cons in Hat. eapply reads_end; [eapply reads_length_str; [exact Hat|rewrite zlen_store; auto|by apply (load_store_small 4 32)|done..]|zlen_lia].
Qed.

Lemma reads_bin p d :
  at_ data p (pack_bin (zlen d) ++ d) -> zlen d < 2 ^ 32 -> zlen d <= limit_bin lim ->
  reads p (p + zlen (pack_bin (zlen d) ++ d)) (BIN d).
Proof using data_bytes.
  intros Hat Hd Hl. pose proof (zlen_nonneg d). revert Hat. unfold pack_bin.
  destruct (Z.ltb_spec (zlen d) 256); [|destruct (Z.ltb_spec (zlen d) 65536)];
    intros Hat; (eapply reads_end; [|rewrite zlen_app, zlen_cons; reflexivity]).
  - eapply reads_end; [eapply (reads_length_bin p _ [zlen d] d); [exact Hat|by left|done..]|]. zlen_lia.
  - rewrite <- app_comm_cons in Hat. eapply reads_end; [eapply reads_length_bin; [exact Hat|rewrite zlen_store; auto|by apply (load_store_small 2 16)|done..]|zlen_lia].
  - rewrite <- app_comm_cons in Hat. eapply reads_end; [eapply reads_length_bin; [exact Hat|rewrite zlen_store; auto|by apply (load_store_small 4 32)|done..]|zlen_lia].
Qed.

Lemma reads_ext p type d :
  at_ data p (pack_ext (zlen d) (signed 8 type) ++ d) -> is_byte type ->
  zlen d < 2 ^ 32 - 1 -> zlen d + 1 <= limit_ext lim ->
  reads p (p + zlen (pack_ext (zlen d) (signed 8 type) ++ d)) (EXT type d).
Proof using data_bytes.
  intros Hat Htype Hd Hl. pose proof (zlen_nonneg d).
  assert (u8 (signed 8 type) = type) as Htype'.
  { unfold signed, u8, wrap. unfold is_byte in Htype. rewrite (Z.mod_small type) by lia.
    change (2 ^ 8) with 256. change (2 ^ (8 - 1)) with 128.
    destruct (Z.ltb_spec type 128); [by apply Z.mod_small|].
    symmetry. apply Z.mod_unique with (-1); lia. }
  revert Hat. unfold pack_ext. rewrite Htype'.
  repeat match goal with
  | |- context [zlen d =? ?k] => destruct (Z.eqb_spec (zlen d) k);
      [intros Hat; eapply reads_end;
        [eapply reads_fixext; [exact Hat|auto 6|done]|zlen_lia]|]
  end.
  destruct (Z.ltb_spec (zlen d) 256); [|destruct (Z.ltb_spec (zlen d) 65536)]; intros Hat.
  - eapply reads_end; [eapply (reads_length_ext p _ [zlen d] type d); [exact Hat|by left|done..]|].
    zlen_lia.
  - rewrite <- app_comm_cons, <- app_assoc in Hat.
    eapply reads_end; [eapply reads_length_ext; [exact Hat|rewrite zlen_store; auto|by apply (load_store_small 2 16)|done..]|].
    zlen_lia.
  - rewrite <- app_comm_cons, <- app_assoc in Hat.
    eapply reads_end; [eapply reads_length_ext; [exact Hat|rewrite zlen_store; auto|apply (load_store_small 4 32); lia|done..]|].
    zlen_lia.
Qed.

(** ** Arrays and maps *)

(** Objects one behind the other, in front of the end of the buffer. *)
Inductive reads_seq : Z -> list object -> Z -> Prop :=
| reads_seq_nil p : reads_seq p [] p
| reads_seq_cons p q r o l :
    p < len data -> reads p q o -> reads_seq q l r -> reads_seq p (o :: l) r.

(** A value that ends an item, with items to come. *)
Lemma item_continue n q t cs e e' stk o0 o f fs :
  match m_type e with
  | MSGPACK_CT_ARRAY_ITEM | MSGPACK_CT_MAP_VALUE =>
      u32 (m_rest e - 1) <> 0 /\
      e' = StackElem (match m_type e with MSGPACK_CT_ARRAY_ITEM => MSGPACK_CT_ARRAY_ITEM | _ => MSGPACK_CT_MAP_KEY end)
        (u32 (m_rest e - 1))
  | MSGPACK_CT_MAP_KEY => e' = StackElem MSGPACK_CT_MAP_VALUE (m_rest e)
  end ->
  q <> len data ->
  after_value n (Context q t cs (e :: stk) o0 (holds o (f :: fs))) =
  run false n (Context q t MSGPACK_CS_HEADER (e' :: stk) o0
    (empty (Frame (is_map f) (frame_size f) (frame_items f ++ [o]) :: fs))).
Proof.
  intros He Hq. unfold after_value, returns.
  assert (finish_visit (Context q t cs (e :: stk) o0 (holds o (f :: fs))) =
    (Ok PARSE_CONTINUE, Context q t MSGPACK_CS_HEADER (e' :: stk) o0
      (empty (Frame (is_map f) (frame_size f) (frame_items f ++ [o]) :: fs)))) as Hf.
  { unfold finish_visit, consume_stack. rewrite bind_assoc, bind_get. simpl.
    destruct (m_type e).
    - destruct He as [Hz ->]. apply Z.eqb_neq in Hz. rewrite Hz. reflexivity.
    - subst e'. reflexivity.
    - destruct He as [Hz ->]. apply Z.eqb_neq in Hz. rewrite Hz. reflexivity. }
  rewrite bind_assoc, (bind_ok _ _ _ _ _ Hf), bind_ret. unfold go_on. rewrite bind_get. cbn [m_current].
  by rewrite (proj2 (Z.eqb_neq _ _)).
Qed.

(** The value that ends the last item. *)
Lemma item_last n q t cs e stk o0 o f fs (map : bool) :
  m_type e = (if map then MSGPACK_CT_MAP_VALUE else MSGPACK_CT_ARRAY_ITEM) ->
  m_rest e = 1 -> is_map f = map -> zlen (frame_items f) + 1 = capacity f ->
  after_value n (Context q t cs (e :: stk) o0 (holds o (f :: fs))) =
  after_value n (Context q t cs stk o0
    (holds (if map then MAP (pairs (frame_items f ++ [o])) else ARRAY (frame_items f ++ [o])) fs)).
Proof.
  intros Ht Hr Hm Hz. unfold after_value, returns. rewrite !bind_assoc. apply bind_agrees.
  unfold finish_visit, consume_stack. rewrite !bind_assoc, !bind_get. apply bind_agrees.
  assert ((if map then close_frame true else close_frame false)
      (empty (Frame (is_map f) (frame_size f) (frame_items f ++ [o]) :: fs)) =
    (Ok true, holds (if map then MAP (pairs (frame_items f ++ [o])) else ARRAY (frame_items f ++ [o])) fs)) as Hc.
  { assert ((zlen (frame_items f ++ [o]) =?
      capacity (Frame (is_map f) (frame_size f) (frame_items f ++ [o]))) = true) as Hcap.
    { apply Z.eqb_eq. unfold capacity in *. cbn [is_map frame_size]. zlen_lia. }
    destruct map; unfold close_frame; cbn [value frames frame_items is_map m_limit]; by rewrite Hcap, Hm. }
  simpl. rewrite Ht. destruct map; unfold or_stop, visit, zoom, mbind, M_bind; simpl; rewrite Hr; simpl;
    by rewrite Hc.
Qed.

Lemma room_frame (map : bool) size items fs :
  zlen items < (if map then 2 * size else size) -> room (Frame map size items :: fs) = true.
Proof. intros Hl. unfold room, capacity. cbn [is_map frame_size frame_items]. by apply Z.ltb_lt. Qed.

Lemma reads_seq_nonempty p o l q : reads_seq p (o :: l) q -> p <> len data.
Proof. inversion 1; subst. lia. Qed.

Definition deep (fs : list frame) (o : object) : Prop := zlen fs + 1 + depth o <= limit_depth lim.

Lemma reads_array_items l : forall o p q done_ rest size t stk o0 fs n,
  reads_seq p (o :: l) q -> Forall (deep fs) (o :: l) ->
  rest = zlen (o :: l) -> zlen done_ + rest = size -> size < 2 ^ 32 ->
  exists t' cs' n',
    run false n (Context p t MSGPACK_CS_HEADER (StackElem MSGPACK_CT_ARRAY_ITEM rest :: stk) o0
      (empty (Frame false size done_ :: fs))) =
    after_value n' (Context q t' cs' stk o0 (holds (ARRAY (done_ ++ o :: l)) fs)).
Proof.
  induction l as [|o' l IH]; intros o p q done_ rest size t stk o0 fs n Hseq Hdeep Hrest Hsize Hlim;
    inversion_clear Hseq as [|? q1 ? ? ? Hp Ho Hseq'];
    apply Forall_cons in Hdeep as [Hd Hdeep]; unfold deep in Hd;
    rewrite ?zlen_cons, ?zlen_nil in Hrest; pose proof (zlen_nonneg done_); try pose proof (zlen_nonneg l);
    edestruct (Ho t (StackElem MSGPACK_CT_ARRAY_ITEM rest :: stk) o0 (Frame false size done_ :: fs) n)
      as (t1 & cs1 & n1 & ->); try (by apply room_frame; lia); try (rewrite zlen_cons; lia).
  - inversion_clear Hseq'.
    rewrite (item_last _ _ _ _ _ _ _ _ _ _ false); [|done|cbn [m_rest]; lia|done|unfold capacity; cbn; lia].
    by do 3 eexists.
  - rewrite (item_continue _ _ _ _ _ (StackElem MSGPACK_CT_ARRAY_ITEM (rest - 1)) _ _ _ _ _);
      [|cbn [m_type m_rest]; rewrite u32_pred by lia; split; [lia|done]|by eapply reads_seq_nonempty].
    cbn [is_map frame_size frame_items].
    edestruct (IH o' q1 q (done_ ++ [o]) (rest - 1) size) as (t2 & cs2 & n2 & E);
      [done|done|zlen_lia|zlen_lia|done|].
    rewrite E. rewrite <- app_assoc. by do 3 eexists.
Qed.

(** Keys and values in order. *)
Fixpoint flat (l : list (object * object)) : list object :=
  match l with
  | [] => []
  | (k, v) :: l' => k :: v :: flat l'
  end.

Lemma pairs_flat l : pairs (flat l) = l.
Proof. induction l as [|[k v] l IH]; simpl; [done|by rewrite IH]. Qed.

Lemma flat_app l l' : flat (l ++ l') = flat l ++ flat l'.
Proof. induction l as [|[k v] l IH]; simpl; congruence. Qed.

Lemma length_flat l : length (flat l) = (2 * length l)%nat.
Proof. induction l as [|[k v] l IH]; simpl; lia. Qed.

Lemma reads_map_items l : forall k v p q done_ rest size t stk o0 fs n,
  reads_seq p (flat ((k, v) :: l)) q -> Forall (deep fs) (flat ((k, v) :: l)) ->
  rest = zlen ((k, v) :: l) -> zlen done_ + 2 * rest = 2 * size -> size < 2 ^ 32 ->
  exists t' cs' n',
    run false n (Context p t MSGPACK_CS_HEADER (StackElem MSGPACK_CT_MAP_KEY rest :: stk) o0
      (empty (Frame true size done_ :: fs))) =
    after_value n' (Context q t' cs' stk o0 (holds (MAP (pairs (done_ ++ flat ((k, v) :: l)))) fs)).
Proof.
  induction l as [|[k' v'] l IH]; intros k v p q done_ rest size t stk o0 fs n Hseq Hdeep Hrest Hsize Hlim;
    inversion_clear Hseq as [|? q1 ? ? ? Hp Hk Hseq'];
    inversion_clear Hseq' as [|? q2 ? ? ? Hp1 Hv Hseq''];
    apply Forall_cons in Hdeep as [Hdk Hdeep]; apply Forall_cons in Hdeep as [Hdv Hdeep];
    unfold deep in Hdk, Hdv;
    rewrite ?zlen_cons, ?zlen_nil in Hrest; pose proof (zlen_nonneg done_); try pose proof (zlen_nonneg l);
    edestruct (Hk t (StackElem MSGPACK_CT_MAP_KEY rest :: stk) o0 (Frame true size done_ :: fs) n)
      as (t1 & cs1 & n1 & ->); try (by apply room_frame; lia); try (rewrite zlen_cons; lia);
    (rewrite (item_continue _ _ _ _ _ (StackElem MSGPACK_CT_MAP_VALUE rest) _ _ _ _ _); [|done|lia]);
    cbn [is_map frame_size frame_items];
    edestruct (Hv t1 (StackElem MSGPACK_CT_MAP_VALUE rest :: stk) o0 (Frame true size (done_ ++ [k]) :: fs) n1)
      as (t2 & cs2 & n2 & ->); try (by apply room_frame; zlen_lia); try (rewrite zlen_cons; lia).
  - inversion_clear Hseq''.
    rewrite (item_last _ _ _ _ _ _ _ _ _ _ true);
      [|done|cbn [m_rest]; lia|done|unfold capacity; cbn [is_map frame_size frame_items]; zlen_lia].
    cbn [frame_items]. rewrite <- app_assoc. by do 3 eexists.
  - rewrite (item_continue _ _ _ _ _ (StackElem MSGPACK_CT_MAP_KEY (rest - 1)) _ _ _ _ _);
      [|cbn [m_type m_rest]; rewrite u32_pred by lia; split; [lia|done]|by eapply reads_seq_nonempty].
    cbn [is_map frame_size frame_items].
    edestruct (IH k' v' q2 q ((done_ ++ [k]) ++ [v]) (rest - 1) size) as (t3 & cs3 & n3 & E);
      [done|done|zlen_lia|zlen_lia|done|].
    rewrite E. rewrite <- !app_assoc. by do 3 eexists.
Qed.

Definition aggregate (map : bool) : Z -> M (context tree) parse_return :=
  if map then start_map_aggregate else start_array_aggregate.

Definition item_type (map : bool) := if map then MSGPACK_CT_MAP_KEY else MSGPACK_CT_ARRAY_ITEM.
Definition limit_items (map : bool) := if map then limit_map lim else limit_array lim.

(** There is room for a container of [k] items, and its depth is allowed. *)
Definition opens (map : bool) (k : Z) (fs : list frame) : Prop :=
  0 <= k < 2 ^ 32 /\ k <= limit_items map /\ zlen fs + 1 <= limit_depth lim /\ room fs = true.

Lemma open_ok map k fs :
  opens map k fs ->
  (if map then start_map k else start_array k) (empty fs) = (Ok true, empty (Frame map k [] :: fs)).
Proof.
  intros (Hn & Hk & Hd & Hr). destruct map; simpl; unfold start_frame;
    replace ((0 <=? k) && (k <? 2 ^ 32)) with true by lia; rewrite sized_ok by done;
    rewrite bind_get; rewrite sized_ok by done; unfold open_frame; cbn [value frames m_limit]; by rewrite Hr.
Qed.

Lemma or_stop_ok op k p t cs stk o (v v' : tree) :
  op v = (Ok true, v') ->
  or_stop op k (Context p t cs stk o v) = k (Context p t cs stk o v').
Proof. intros E. unfold or_stop, visit, zoom, mbind, M_bind. simpl. by rewrite E. Qed.

Lemma aggregate_items map k q t cs stk o0 fs n :
  opens map k fs -> k <> 0 -> q + 1 <> len data ->
  (returns n (aggregate map k) ≫= go_on m_start data) (Context q t cs stk o0 (empty fs)) =
  run false n (Context (q + 1) t MSGPACK_CS_HEADER (StackElem (item_type map) k :: stk) o0
    (empty (Frame map k [] :: fs))).
Proof.
  intros Ho Hk Hq.
  assert (aggregate map k (Context q t cs stk o0 (empty fs)) =
    (Ok PARSE_CONTINUE, Context (q + 1) t MSGPACK_CS_HEADER (StackElem (item_type map) k :: stk) o0
      (empty (Frame map k [] :: fs)))) as E.
  { pose proof (open_ok _ _ _ Ho) as Hs. apply Z.eqb_neq in Hk.
    destruct map; cbn [aggregate]; unfold start_map_aggregate, start_array_aggregate, start_aggregate;
      rewrite bind_modify; unfold return_unless_continue, set_current;
      cbn [m_current m_trail m_cs m_stack off visitor];
      (erewrite bind_ok; [|rewrite (or_stop_ok _ _ _ _ _ _ _ _ _ Hs), Hk; reflexivity]); reflexivity. }
  unfold returns. rewrite bind_assoc, (bind_ok _ _ _ _ _ E), bind_ret. unfold go_on.
  rewrite bind_get. cbn [m_current]. by rewrite (proj2 (Z.eqb_neq _ _)).
Qed.

Lemma close_empty (map : bool) fs :
  (if map then end_map else end_array) (empty (Frame map 0 [] :: fs)) =
  (Ok true, holds (if map then MAP [] else ARRAY []) fs).
Proof. by destruct map. Qed.

Lemma aggregate_empty map q t stk o0 fs n :
  opens map 0 fs ->
  (returns n (aggregate map 0) ≫= go_on m_start data) (Context q t MSGPACK_CS_HEADER stk o0 (empty fs)) =
  after_value n (Context (q + 1) t MSGPACK_CS_HEADER stk o0 (holds (if map then MAP [] else ARRAY []) fs)).
Proof.
  intros Ho. unfold after_value. apply bind_agrees. unfold returns. apply bind_agrees.
  set (c := Context (q + 1) t MSGPACK_CS_HEADER stk o0 (holds (if map then MAP [] else ARRAY []) fs)).
  assert (aggregate map 0 (Context q t MSGPACK_CS_HEADER stk o0 (empty fs)) =
    return_unless_continue consume_stack (_ ← modify (set_cs MSGPACK_CS_HEADER); mret PARSE_CONTINUE) c) as ->.
  { pose proof (open_ok _ _ _ Ho) as Hs. pose proof (close_empty map fs) as Hc.
    destruct map; cbn [aggregate]; unfold start_map_aggregate, start_array_aggregate, start_aggregate;
      rewrite bind_modify; unfold return_unless_continue; apply bind_agrees;
      unfold set_current; cbn [m_current m_trail m_cs m_stack off visitor];
      rewrite (or_stop_ok _ _ _ _ _ _ _ _ _ Hs); cbn [Z.eqb];
      by rewrite (or_stop_ok _ _ _ _ _ _ _ _ _ Hc). }
  unfold return_unless_continue, finish_visit. apply bind_ext. intros ret c' E.
  pose proof (keeps_consume (position c) (m_stack c) c eq_refl) as Hf.
  unfold consume_stack in E. rewrite bind_get in E. rewrite E in Hf. unfold position in Hf. simpl in Hf.
  assert (m_cs c' = 0) as Hcs by congruence.
  destruct ret; [| |done|..]; unfold store_off; rewrite !bind_modify; destruct c'; simpl in Hcs;
    by rewrite Hcs.
Qed.

Definition pack_size (map : bool) (k : Z) : bytes := if map then pack_map k else pack_array k.

(** The forms of the header of a container: the size in the header, or behind it. *)
Lemma pack_size_forms (map : bool) k :
  0 <= k ->
  exists h s1, pack_size map k = h :: s1 /\
    ((h = (if map then 8 else 9) * 2 ^ 4 + k /\ k < 16 /\ s1 = []) \/
     (h = (if map then 0xde else 0xdc) /\ s1 = store 2 k /\ 16 <= k < 65536) \/
     (h = (if map then 0xdf else 0xdd) /\ s1 = store 4 k /\ 65536 <= k)).
Proof.
  intros Hk. unfold pack_size, pack_map, pack_array.
  destruct map; (destruct (Z.ltb_spec k 16); [|destruct (Z.ltb_spec k 65536)]); do 2 eexists;
    (split; [reflexivity|]); try (right; right; by split_and!); try (right; left; by split_and!);
    left; split_and!; try done; [apply (lor_low 8 4 k)|apply (lor_low 9 4 k)]; lia.
Qed.

Lemma header_container p (map : bool) k n t stk o0 fs :
  let h := (if map then 8 else 9) * 2 ^ 4 + k in
  at_ data p [h] -> 0 <= k < 16 ->
  header data n (Context p t MSGPACK_CS_HEADER stk o0 (empty fs)) =
  returns n (aggregate map k) (Context p t MSGPACK_CS_HEADER stk o0 (empty fs)).
Proof.
  intros h Hat Hk. unfold header. rewrite bind_get. cbn [m_current].
  rewrite (read_at data _ _ [h] _ _ Hat eq_refl). cbv zeta. change (load [h]) with h.
  assert (Z.land h 0x0f = k) as ->.
  { change 0x0f with (Z.ones 4). rewrite Z.land_ones by lia. unfold h.
    rewrite Z.add_comm, Z.mod_add by lia. by apply Z.mod_small. }
  assert (0x80 <= h <= 0x9f /\ if map then h <= 0x8f else 0x90 <= h) as [Hh Hm] by (unfold h; destruct map; lia).
  clearbody h. clear Hat.
  replace ((0 <=? h) && (h <=? 127)) with false by lia.
  replace ((224 <=? h) && (h <=? 255)) with false by lia.
  replace ((196 <=? h) && (h <=? 223)) with false by lia.
  replace ((160 <=? h) && (h <=? 191)) with false by lia.
  destruct map.
  - replace ((144 <=? h) && (h <=? 159)) with false by lia.
    by replace ((128 <=? h) && (h <=? 143)) with true by lia.
  - by replace ((144 <=? h) && (h <=? 159)) with true by lia.
Qed.

Lemma switch_container p (map : bool) k c :
  (m_cs c = (if map then MSGPACK_CS_MAP_16 else MSGPACK_CS_ARRAY_16) /\
    at_ data p (store 2 k) /\ 0 <= k < 2 ^ 16) \/
  (m_cs c = (if map then MSGPACK_CS_MAP_32 else MSGPACK_CS_ARRAY_32) /\
    at_ data p (store 4 k) /\ 0 <= k < 2 ^ 32) ->
  switch m_start data p c = returns (Some (m_start + p)) (aggregate map k) c.
Proof.
  intros Hc. unfold switch. rewrite bind_get. cbv zeta.
  destruct Hc as [(Hc & Hat & Hk)|(Hc & Hat & Hk)]; rewrite Hc; destruct map;
    rewrite (read_at data _ _ _ _ _ Hat (zlen_store _ _)); cbv beta;
    first [by rewrite (load_store_small 2 16)|by rewrite (load_store_small 4 32)].
Qed.

Lemma run_container p map k s t stk o0 fs n :
  at_ data p (pack_size map k ++ s) -> 0 <= k < 2 ^ 32 ->
  exists t' cs' n',
    run false n (Context p t MSGPACK_CS_HEADER stk o0 (empty fs)) =
    (returns n' (aggregate map k) ≫= go_on m_start data)
      (Context (p + zlen (pack_size map k) - 1) t' cs' stk o0 (empty fs)) /\
    (k = 0 -> cs' = MSGPACK_CS_HEADER).
Proof using data_bytes.
  intros Hat Hk. apply at_app in Hat as [Hat _].
  destruct (pack_size_forms map k ltac:(lia)) as (h & s1 & E & Hcase). rewrite E in *.
  pose proof (ready_header data p t stk o0 (empty fs) h s1 Hat) as Hr.
  destruct Hcase as [(Hh & Hk16 & ->)|Hcase].
  - exists t, MSGPACK_CS_HEADER, n. split; [|done].
    replace (p + zlen [h] - 1) with p by zlen_lia.
    apply (run_header m_start data data_bytes); [done|done|subst h; apply header_container; [done|lia]|].
    intros f n' c' Ea. pose proof (returns_next _ _ _ _ _ _ Ea) as [-> _].
    destruct map; by apply advanced_aggregate in Ea as (_ & _ & Ea).
  - assert (zlen s1 = nth (Z.to_nat (h - 0xc4)) trail 0 /\ 0xc4 <= h <= 0xdf) as [Hs Hh]
      by (destruct Hcase as [(-> & -> & _)|(-> & -> & _)]; rewrite zlen_store; destruct map; (split; [done|lia])).
    exists (zlen s1), (h - 0xc0), (Some (m_start + (p + 1))).
    split; [|intros ->; destruct Hcase as [(_ & _ & ?)|(_ & _ & ?)]; lia].
    rewrite (run_trail m_start data data_bytes n p t stk o0 _ h s1 Hh Hat Hs).
    replace (p + zlen (h :: s1) - 1) with (p + zlen s1) by zlen_lia.
    apply bind_agrees, switch_container. apply at_cons in Hat as [_ Hat].
    destruct Hcase as [(-> & -> & Hk')|(-> & -> & Hk')]; [left|right]; destruct map; split_and!; lia || done.
Qed.

Lemma reads_empty p map s :
  at_ data p (pack_size map 0 ++ s) -> 0 <= limit_items map ->
  reads p (p + zlen (pack_size map 0)) (if map then MAP [] else ARRAY []).
Proof using data_bytes.
  intros Hat Hlim t stk o0 fs n Hroom Hd.
  destruct (run_container p map 0 s t stk o0 fs n Hat ltac:(lia)) as (t' & cs' & n' & -> & Hcs).
  rewrite (Hcs eq_refl), aggregate_empty.
  - replace (p + zlen (pack_size map 0) - 1 + 1) with (p + zlen (pack_size map 0)) by lia. by do 3 eexists.
  - split; [done|]. split; [done|]. split; [destruct map; simpl in Hd; lia|done].
Qed.

Lemma foldr_max_le {A} (f : A -> Z) l x : x ∈ l -> f x <= foldr (fun o d => Z.max (f o) d) 0 l.
Proof. induction 1; simpl; lia. Qed.

Lemma foldr_max_nonneg {A} (f : A -> Z) (l : list A) : 0 <= foldr (fun o d => Z.max (f o) d) 0 l.
Proof. induction l; simpl; lia. Qed.

Lemma reads_array p l q s :
  at_ data p (pack_array (zlen l) ++ s) -> l <> [] -> zlen l < 2 ^ 32 -> zlen l <= limit_array lim ->
  reads_seq (p + zlen (pack_array (zlen l))) l q -> reads p q (ARRAY l).
Proof using data_bytes.
  intros Hat Hne Hl Hlim Hseq t stk o0 fs n Hroom Hd. pose proof (zlen_nonneg l).
  destruct l as [|o l]; [done|]. cbn [depth] in Hd.
  destruct (run_container p false (zlen (o :: l)) s t stk o0 fs n Hat ltac:(lia))
    as (t' & cs' & n' & -> & _).
  pose proof (zlen_nonneg l). assert (zlen (o :: l) <> 0) as Hz by zlen_lia.
  pose proof (foldr_max_nonneg depth (o :: l)).
  rewrite aggregate_items; [|split_and!; [lia|lia|done|lia|done]|done|].
  - eapply (reads_array_items l o _ _ []); [| |done|done|done].
    + replace (p + zlen (pack_size false (zlen (o :: l))) - 1 + 1) with
        (p + zlen (pack_array (zlen (o :: l)))) by (simpl; lia). done.
    + apply Forall_forall. intros o' Ho'. unfold deep.
      pose proof (foldr_max_le depth _ _ Ho'). lia.
  - replace (p + zlen (pack_size false (zlen (o :: l))) - 1 + 1) with
      (p + zlen (pack_array (zlen (o :: l)))) by (simpl; lia). by eapply reads_seq_nonempty.
Qed.

Lemma depth_flat l o :
  o ∈ flat l -> depth o <= foldr (fun kv d => Z.max (Z.max (depth kv.1) (depth kv.2)) d) 0 l.
Proof.
  induction l as [|[k v] l IH]; simpl; [by intros ?%elem_of_nil|].
  rewrite !elem_of_cons. intros [->|[->|Ho]]; [lia..|]. specialize (IH Ho). lia.
Qed.

Lemma reads_map p l q s :
  at_ data p (pack_map (zlen l) ++ s) -> l <> [] -> zlen l < 2 ^ 32 -> zlen l <= limit_map lim ->
  reads_seq (p + zlen (pack_map (zlen l))) (flat l) q -> reads p q (MAP l).
Proof using data_bytes.
  intros Hat Hne Hl Hlim Hseq t stk o0 fs n Hroom Hd. pose proof (zlen_nonneg l).
  destruct l as [|[k v] l]; [done|].
  destruct (run_container p true (zlen ((k, v) :: l)) s t stk o0 fs n Hat ltac:(lia))
    as (t' & cs' & n' & -> & _).
  pose proof (zlen_nonneg l). assert (zlen ((k, v) :: l) <> 0) as Hz by zlen_lia.
  pose proof (foldr_max_nonneg (fun kv => Z.max (depth kv.1) (depth kv.2)) ((k, v) :: l)).
  assert (p + zlen (pack_size true (zlen ((k, v) :: l))) - 1 + 1 =
    p + zlen (pack_map (zlen ((k, v) :: l)))) as Hp by (simpl; lia).
  cbn [depth] in Hd.
  rewrite aggregate_items; [|split_and!; [lia|lia|done|lia|done]|done|rewrite Hp; by eapply reads_seq_nonempty].
  destruct (reads_map_items l k v _ q [] (zlen ((k, v) :: l)) (zlen ((k, v) :: l)) t' stk o0 fs n' Hseq)
    as (t2 & cs2 & n2 & E); [|done|zlen_lia|done|].
  { apply Forall_forall. intros o' Ho'. unfold deep. pose proof (depth_flat _ _ Ho'). lia. }
  cbn [app] in E. rewrite pairs_flat in E. rewrite Hp. by exists t2, cs2, n2.
Qed.

(** ** Every object *)

Lemma pack_nonempty o : exists b s, pack o = b :: s.
Proof.
  destruct o; simpl; unfold pack_nil, pack_true, pack_false, pack_imp_uint64, pack_imp_int64, pack_float,
    pack_double, pack_str, pack_bin, pack_ext, pack_array, pack_map; repeat case_match; simpl; eauto.
Qed.

Lemma concat_flat l : concat (map (fun kv => pack kv.1 ++ pack kv.2) l) = concat (map pack (flat l)).
Proof. induction l as [|[k v] l IH]; simpl; [done|]. by rewrite IH, <- app_assoc. Qed.

(** An object is read wherever its bytes are. *)
Definition readable_object (o : object) : Prop :=
  forall p, at_ data p (pack o) -> reads p (p + zlen (pack o)) o.

Lemma reads_seq_concat l p :
  Forall readable_object l -> at_ data p (concat (map pack l)) ->
  reads_seq p l (p + zlen (concat (map pack l))).
Proof.
  revert p. induction l as [|o l IH]; intros p Hl Hat; simpl in *.
  - rewrite zlen_nil, Z.add_0_r. constructor.
  - apply Forall_cons in Hl as [Ho Hl]. apply at_app in Hat as [Hat Hat'].
    apply reads_seq_cons with (p + zlen (pack o)).
    + destruct (pack_nonempty o) as (b & s & E). rewrite E in Hat.
      destruct Hat as (_ & Hle & _). rewrite zlen_cons in Hle. pose proof (zlen_nonneg s). lia.
    + by apply Ho.
    + eapply eq_rect; [by apply (IH (p + zlen (pack o)))|]. rewrite zlen_app. lia.
Qed.

Lemma flat_forall (P : object -> Prop) l :
  Forall (fun kv => P kv.1 /\ P kv.2) l -> Forall P (flat l).
Proof. induction 1 as [|[k v] l [Hk Hv] _ IH]; simpl; auto. Qed.

Lemma foldr_and {A} (P : A -> Prop) l : foldr (fun o Q => P o /\ Q) True l <-> Forall P l.
Proof. induction l; simpl; rewrite ?Forall_cons, ?IHl; [by split|done]. Qed.

Lemma readable_pack o : wf o -> fits lim o -> readable_object o.
Proof using data_bytes.
  induction o as [|b|u|i|f|f|s|s|type s|l IH|l IH] using object_ind_items; intros Hwf Hfits p Hat; simpl in *.
  - by apply reads_nil.
  - replace (p + _) with (p + 1) by (by destruct b). by apply reads_boolean.
  - by apply reads_positive.
  - by apply reads_negative.
  - destruct Hwf as (x & Hx & Hq & ->). rewrite narrow_widen in * by done.
    rewrite <- (load_store_small 4 32 x) at 2 by done.
    eapply reads_end; [apply reads_float32; [exact Hat|by rewrite zlen_store]|]. unfold pack_float. zlen_lia.
  - rewrite <- (load_store_small 8 64 f) at 2 by done.
    eapply reads_end; [apply reads_float64; [exact Hat|by rewrite zlen_store]|]. unfold pack_double. zlen_lia.
  - destruct Hwf. by apply reads_str.
  - destruct Hwf. by apply reads_bin.
  - destruct Hwf as (? & ? & ?). by apply reads_ext.
  - destruct Hwf as [Hl Hwf], Hfits as [Hlim Hfits]. rewrite foldr_and in Hwf, Hfits.
    destruct l as [|o l]; [by apply (reads_empty p false [])|].
    eapply reads_array; [exact Hat|done..|]. rewrite zlen_app, Z.add_assoc.
    apply at_app in Hat as [_ Hat]. apply reads_seq_concat; [|exact Hat].
    rewrite Forall_forall in *. auto.
  - destruct Hwf as [Hl Hwf], Hfits as [Hlim Hfits]. rewrite foldr_and in Hwf, Hfits.
    rewrite concat_flat in *. destruct l as [|kv l]; [by apply (reads_empty p true [])|].
    eapply reads_map; [exact Hat|done..|]. rewrite zlen_app, Z.add_assoc.
    apply at_app in Hat as [_ Hat]. apply reads_seq_concat; [|exact Hat].
    apply flat_forall. rewrite Forall_forall in *. intros x Hx. specialize (IH x Hx). specialize (Hwf x Hx).
    specialize (Hfits x Hx). tauto.
Qed.
End objects.

Example unpack_tree_1 :
  unpack_tree default_limit (pack (ARRAY [NIL; MAP [(STR [97], NEGATIVE_INTEGER (-5))]; EXT 7 [1;2;3]]) ++ [1]) 0
  = Ok (ARRAY [NIL; MAP [(STR [97], NEGATIVE_INTEGER (-5))]; EXT 7 [1;2;3]], 12).
Proof. vm_compute. reflexivity. Qed.
