(* ===== verification/MsgRoundTrip.v ===== *)
(** * MessagePack: what was packed is read back

    The bytes of an object, wherever they are in a buffer, are read as the
    object, and the parser ends behind them. *)
From S2P Require Import Prelude MsgObject MsgParse MsgStream MsgTree.

(** ** The bytes of an object are bytes *)

Lemma lor_byte n k x : 0 <= k -> 0 <= x < 2 ^ k -> 0 <= n -> n * 2 ^ k + 2 ^ k <= 256 -> is_byte (Z.lor (n * 2 ^ k) x).
Proof. intros Hk Hx Hn H. destruct (lor_low n k x Hk Hx) as [-> _]. unfold is_byte. lia. Qed.

Lemma u8_byte x : is_byte (u8 x).
Proof. apply Z.mod_pos_bound. lia. Qed.

Lemma take8_byte x : is_byte (take8 x).
Proof. apply Z.mod_pos_bound. lia. Qed.

#[local] Hint Resolve store_bytes u8_byte take8_byte : core.

Ltac bytes_of := repeat (constructor; [unfold is_byte; lia|]); auto.

Lemma pack_array_bytes n : 0 <= n -> Forall is_byte (pack_array n).
Proof.
  intros Hn. unfold pack_array. destruct (Z.ltb_spec n 16); [|destruct (_ <? _); bytes_of].
  constructor; [|done]. apply (lor_byte 9 4); lia.
Qed.

Lemma pack_map_bytes n : 0 <= n -> Forall is_byte (pack_map n).
Proof.
  intros Hn. unfold pack_map. destruct (Z.ltb_spec n 16); [|destruct (_ <? _); bytes_of].
  constructor; [|done]. apply (lor_byte 8 4); lia.
Qed.

Lemma pack_text_bytes n : 0 <= n ->
  Forall is_byte (pack_str n) /\ Forall is_byte (pack_bin n).
Proof.
  intros Hn. unfold pack_str, pack_bin.
  split; repeat case_match; try by bytes_of.
  constructor; [|done]. apply (lor_byte 5 5); lia.
Qed.

Lemma pack_ext_bytes n type : 0 <= n -> Forall is_byte (pack_ext n type).
Proof.
  intros Hn. unfold pack_ext. repeat case_match; try by bytes_of.
  all: constructor; [unfold is_byte; lia|]; apply Forall_app; split; [done|by bytes_of].
Qed.

Lemma pack_integer_bytes z :
  (0 <= z -> Forall is_byte (pack_imp_uint64 z)) /\ Forall is_byte (pack_imp_int64 z).
Proof.
  unfold pack_imp_uint64, pack_imp_int64.
  split; [intros Hz|]; repeat case_match; by bytes_of.
Qed.

Lemma concat_bytes (l : list bytes) : Forall (Forall is_byte) l -> Forall is_byte (concat l).
Proof. induction 1; simpl; [done|]. by apply Forall_app. Qed.

Lemma pack_bytes o : wf o -> Forall is_byte (pack o).
Proof.
  induction o as [|b|u|i|f|f|s|s|type s|l IH|l IH] using object_ind_items; intros Hwf; simpl in *.
  - by bytes_of.
  - destruct b; by bytes_of.
  - apply pack_integer_bytes. lia.
  - apply pack_integer_bytes.
  - by bytes_of.
  - by bytes_of.
  - destruct Hwf. apply Forall_app. split; [|done]. apply pack_text_bytes, zlen_nonneg.
  - destruct Hwf. apply Forall_app. split; [|done]. apply pack_text_bytes, zlen_nonneg.
  - destruct Hwf as (? & ? & ?). apply Forall_app. split; [|done]. apply pack_ext_bytes, zlen_nonneg.
  - destruct Hwf as [_ Hwf]. rewrite foldr_and in Hwf. apply Forall_app.
    split; [apply pack_array_bytes, zlen_nonneg|]. apply concat_bytes, Forall_map.
    rewrite Forall_forall in *. simpl. auto.
  - destruct Hwf as [_ Hwf]. rewrite foldr_and in Hwf. apply Forall_app.
    split; [apply pack_map_bytes, zlen_nonneg|]. apply concat_bytes, Forall_map.
    rewrite Forall_forall in *. simpl. intros kv Hkv. apply Forall_app.
    specialize (IH _ Hkv). specialize (Hwf _ Hkv). tauto.
Qed.

(** ** The whole of a buffer *)

Lemma after_value_top m_start data n q t cs o0 (v : tree) :
  after_value m_start data n (Context q t cs [] o0 v) =
  (Ok PARSE_SUCCESS, Context q t MSGPACK_CS_HEADER [] q v).
Proof. reflexivity. Qed.

(** Bytes that are read as an object, with others around them. *)
Lemma parse_reads m_start lim pre b o post :
  let data := pre ++ b ++ post in
  Forall is_byte data -> 0 < zlen b -> depth o <= limit_depth lim ->
  reads m_start data lim (zlen pre) (zlen pre + zlen b) o ->
  parse_imp m_start data (zlen pre) (Tree lim None []) =
  (Ok (if post is [] then PARSE_SUCCESS else PARSE_EXTRA_BYTES, zlen pre + zlen b), Tree lim (Some o) []).
Proof.
  intros data Hdata Hpos Hd Hreads. pose proof (zlen_nonneg pre). pose proof (zlen_nonneg post).
  assert (len data = zlen pre + zlen b + zlen post) as Hlen
    by (unfold data, len; rewrite !length_app; unfold zlen; lia).
  unfold parse_imp. rewrite (proj2 (Z.leb_gt _ _)) by lia.
  rewrite execute_from by (simpl; lia). simpl off. rewrite (proj2 (Z.eqb_neq _ _)) by lia.
  destruct (Hreads 0 [] (zlen pre) [] nullptr eq_refl) as (t' & cs' & n' & E);
    [change (zlen (@nil frame)) with 0; lia|].
  unfold set_current. simpl. rewrite E, after_value_top. simpl. do 3 f_equal.
  destruct post as [|x post]; [by rewrite zlen_nil, Z.add_0_r in Hlen; rewrite Hlen, Z.ltb_irrefl|].
  rewrite (proj2 (Z.ltb_lt _ _)); [done|]. rewrite zlen_cons in Hlen. pose proof (zlen_nonneg post). lia.
Qed.

Lemma at_inside pre b post : at_ (pre ++ b ++ post) (zlen pre) b.
Proof. rewrite <- (Z.add_0_r (zlen pre)). by eapply at_skip, at_start. Qed.

(** The bytes of an object, with others around them. *)
Lemma parse_packed m_start lim pre o post :
  wf o -> fits lim o -> depth o <= limit_depth lim -> Forall is_byte pre -> Forall is_byte post ->
  parse_imp m_start (pre ++ pack o ++ post) (zlen pre) (Tree lim None []) =
  (Ok (if post is [] then PARSE_SUCCESS else PARSE_EXTRA_BYTES, zlen pre + zlen (pack o)),
   Tree lim (Some o) []).
Proof.
  intros Hwf Hfits Hd Hpre Hpost.
  assert (Forall is_byte (pre ++ pack o ++ post)) as Hdata by (rewrite !Forall_app; auto using pack_bytes).
  apply parse_reads; [done| |done|].
  - destruct (pack_nonempty o) as (b & s & ->). rewrite zlen_cons. pose proof (zlen_nonneg s). lia.
  - apply (readable_pack m_start _ lim Hdata o Hwf Hfits). apply at_inside.
Qed.

(** (roundtrip).  What the packer writes for an object - of values of the width the
    format has, within the limits of the receiver - is read as that object by the
    parser, wherever the bytes are in a buffer and whatever is around them: the
    parser ends behind the last of them, and says whether more bytes follow. *)
Theorem unpack_pack m_start lim pre o post :
  wf o -> fits lim o -> depth o <= limit_depth lim -> Forall is_byte pre -> Forall is_byte post ->
  parse_imp m_start (pre ++ pack o ++ post) (zlen pre) (Tree lim None []) =
  (Ok (if post is [] then PARSE_SUCCESS else PARSE_EXTRA_BYTES, zlen pre + zlen (pack o)),
   Tree lim (Some o) []).
Proof. apply parse_packed. Qed.

(** A message as the rpc library sends it. *)
Definition a_message : object :=
  ARRAY [POSITIVE_INTEGER 0; POSITIVE_INTEGER 300; STR [0x65; 0x78];
    ARRAY [STR []; NEGATIVE_INTEGER (-33); MAP [(BOOLEAN true, EXT 5 [1; 2; 3])]]].

Lemma unpack_pack_witness :
  wf a_message /\
  parse_imp 0 ([7] ++ pack a_message ++ [0xc0]) 1 (Tree default_limit None []) =
  (Ok (PARSE_EXTRA_BYTES, 21), Tree default_limit (Some a_message) []).
Proof.
  assert (wf a_message) as Hwf.
  { simpl. unfold is_byte. repeat split; try lia; repeat (constructor; [lia|]); constructor. }
  split; [exact Hwf|].
  apply (unpack_pack 0 default_limit [7] a_message [0xc0]); [exact Hwf| | |repeat constructor; done..].
  - simpl. unfold zlen. simpl. lia.
  - vm_compute. discriminate.
Defined.
