(* ===== verification/MsgSafety.v ===== *)
(** * MessagePack: reading bytes that nobody packed

    What the parser does with arbitrary bytes: it reads inside the buffer, calls
    its visitor in an order that makes sense, and what it makes of them is an
    object of the format. *)
From S2P Require Import Prelude MsgObject MsgParse MsgStream MsgTree MsgRoundTrip.

(** ** A run that does not crash

    [safe refused m Q s]: [m] returns with [Q], or throws an exception that is
    expected. *)
Definition safe {S A} (refused : exn -> Prop) (m : M S A) (Q : A -> S -> Prop) (s : S) : Prop :=
  match m s with
  | (Ok a, s') => Q a s'
  | (Throw e, _) => refused e
  | (Crash _, _) => False
  end.

Section safe_laws.
Context {S : Type} (refused : exn -> Prop).

Lemma safe_bind {A B} (m : M S A) (k : A -> M S B) Q s :
  safe refused m (fun a s' => safe refused (k a) Q s') s -> safe refused (m ≫= k) Q s.
Proof. unfold safe, mbind, M_bind. by destruct (m s) as [[a|e|w] s']. Qed.

Lemma safe_weaken {A} (m : M S A) (P Q : A -> S -> Prop) s :
  safe refused m P s -> (forall a s', m s = (Ok a, s') -> P a s' -> Q a s') -> safe refused m Q s.
Proof. unfold safe. destruct (m s) as [[a|e|w] s']; auto. Qed.

Lemma safe_same {A} (m1 m2 : M S A) Q s : m1 s = m2 s -> safe refused m2 Q s -> safe refused m1 Q s.
Proof. unfold safe. by intros ->. Qed.

Lemma safe_ok_inv {A} (m : M S A) Q s a s' : safe refused m Q s -> m s = (Ok a, s') -> Q a s'.
Proof. unfold safe. by intros Hs E; rewrite E in Hs. Qed.

Lemma safe_keeps {A} (P : S -> Prop) (m : M S A) Q s :
  keeps P m -> P s -> safe refused m Q s -> safe refused m (fun a s' => Q a s' /\ P s') s.
Proof. intros Hk Hs. specialize (Hk s Hs). unfold safe. by destruct (m s) as [[a|e|w] s']. Qed.

Lemma safe_ret {A} (a : A) (Q : A -> S -> Prop) s : Q a s -> safe refused (mret a) Q s.
Proof. done. Qed.

Lemma safe_get_bind {B} (k : S -> M S B) Q s : safe refused (k s) Q s -> safe refused (get ≫= k) Q s.
Proof. done. Qed.

Lemma safe_modify_bind {B} f (k : () -> M S B) Q s :
  safe refused (k ()) Q (f s) -> safe refused (modify f ≫= k) Q s.
Proof. done. Qed.

Lemma safe_raise {A} w (Q : A -> S -> Prop) s : refused (StdException w) -> safe refused (raise w) Q s.
Proof. done. Qed.
End safe_laws.

(** What the visitor throws. *)
Definition refusals : list string :=
  ["array size overflow"; "map size overflow"; "str size overflow"; "bin size overflow";
   "ext size overflow"; "depth size overflow"; "parse error"].

Definition refused (e : exn) : Prop := exists w, e = StdException w /\ w ∈ refusals.

Lemma refused_member w : w ∈ refusals -> refused (StdException w).
Proof. intros Hw. by exists w. Qed.

Ltac refusal := apply refused_member; unfold refusals; repeat constructor.

(** ** Values *)

(** A [float] that is widened is one the packer writes again. *)
Lemma widen_quiet f : 0 <= f < 2 ^ 32 -> exists g, 0 <= g < 2 ^ 32 /\ quiet g /\ widen f = widen g.
Proof.
  intros Hf. set (e := f / 2 ^ 23). set (m := f mod 2 ^ 23).
  assert (0 <= m < 2 ^ 23) as Hm by (apply Z.mod_pos_bound; lia).
  assert (f = e * 2 ^ 23 + m) as Ef by (unfold e, m; rewrite Z.mul_comm; apply Z.div_mod; lia).
  set (m' := Z.lor m (2 ^ 22)).
  assert (0 <= m' < 2 ^ 23) as Hm'.
  { split; [apply Z.lor_nonneg; lia|]. destruct (Z.eq_dec m' 0) as [->|Hz]; [lia|].
    apply Z.log2_lt_pow2; [assert (0 <= m') by (apply Z.lor_nonneg; lia); lia|].
    unfold m'. rewrite Z.log2_lor, Z.log2_pow2 by lia.
    destruct (Z.eq_dec m 0) as [->|Hz']; [simpl; lia|]. pose proof (proj1 (Z.log2_lt_pow2 m 23 ltac:(lia))). lia. }
  destruct (decide (e mod 256 = 255 /\ m <> 0)) as [[He Hz]|Hn].
  2:{ exists f. split_and!; [lia|lia| |done]. unfold quiet. fold e m. intros He. left. by destruct (decide (m = 0)) as [|Hz]; [|destruct Hn]. }
  set (g := e * 2 ^ 23 + m').
  assert (g / 2 ^ 23 = e /\ g mod 2 ^ 23 = m') as [Ge Gm].
  { unfold g. split; [rewrite Z.div_add_l, Z.div_small by lia; lia|].
    by rewrite Z.add_comm, Z.mod_add, Z.mod_small by lia. }
  assert (Z.testbit m' 22 = true) as Hbit.
  { unfold m'. rewrite Z.lor_spec, Z.pow2_bits_true by lia. apply orb_true_r. }
  exists g. split; [unfold g; lia|]. split.
  - intros _. right. rewrite <- (Z.mod_pow2_bits_low g 23) by lia. by rewrite Gm.
  - assert (f / 2 ^ 31 = g / 2 ^ 31) as Es.
    { replace (2 ^ 31) with (2 ^ 23 * 2 ^ 8) by lia. rewrite <- !Z.div_div by lia. by rewrite Ge. }
    unfold widen. rewrite Es, Ge, Gm. fold e m. rewrite He. cbn [Z.eqb Pos.eqb]. f_equal. f_equal.
    rewrite (proj2 (Z.eqb_neq m 0)) by done.
    rewrite (proj2 (Z.eqb_neq m' 0)) by (intros E; by rewrite E, Z.bits_0 in Hbit).
    unfold m'. rewrite <- !(Z.shiftl_mul_pow2 _ 29), Z.shiftl_lor by lia.
    change (Z.shiftl (2 ^ 22) 29) with (2 ^ 51). by rewrite <- Z.lor_assoc, Z.lor_diag.
Qed.

Section pairs.
Context {P : object -> Prop}.

(** The keys and values of a map, two by two. *)
Lemma pairs_length n l : length l = (2 * n)%nat -> length (pairs l) = n.
Proof.
  revert l. induction n as [|n IH]; intros [|k [|v l]] Hl; simpl in *; try lia.
  f_equal. apply IH. lia.
Qed.

Lemma pairs_forall l : Forall P l -> Forall (fun kv => P kv.1 /\ P kv.2) (pairs l).
Proof.
  revert l. fix IH 1. intros [|k [|v l]] Hl; simpl; [done..|].
  apply Forall_cons in Hl as [Hk Hl]. apply Forall_cons in Hl as [Hv Hl].
  constructor; [done|]. by apply IH.
Qed.
End pairs.

(** ** The stack of the parser and the frames of the visitor *)

Section tree.
Context (lim : unpack_limit).

Abbreviation empty fs := (Tree lim None fs).
Abbreviation holds o fs := (Tree lim (Some o) fs).
Abbreviation safe := (safe refused).

(** An object inside of [k] arrays or maps. *)
Definition good (k : Z) (o : object) : Prop := wf o /\ fits lim o /\ k + depth o <= limit_depth lim.

(** An element of the stack and the frame it counts for. *)
Definition counts (e : stack_elem) (f : frame) : Prop :=
  1 <= m_rest e <= frame_size f /\
  match m_type e with
  | MSGPACK_CT_ARRAY_ITEM => is_map f = false /\ zlen (frame_items f) = frame_size f - m_rest e
  | MSGPACK_CT_MAP_KEY => is_map f = true /\ zlen (frame_items f) = 2 * (frame_size f - m_rest e)
  | MSGPACK_CT_MAP_VALUE => is_map f = true /\ zlen (frame_items f) = 2 * (frame_size f - m_rest e) + 1
  end.

(** A frame at depth [k]. *)
Definition frame_good (k : Z) (f : frame) : Prop :=
  Forall (good k) (frame_items f) /\ frame_size f < 2 ^ 32 /\ k <= limit_depth lim /\
  frame_size f <= limit_items lim (is_map f).

Fixpoint frames_ok (stk : list stack_elem) (fs : list frame) : Prop :=
  match stk, fs with
  | [], [] => True
  | e :: stk', f :: fs' => counts e f /\ frame_good (zlen fs) f /\ frames_ok stk' fs'
  | _, _ => False
  end.

(** Between two values, and behind the object. *)
Definition going (c : context tree) : Prop :=
  exists fs, visitor c = empty fs /\ frames_ok (m_stack c) fs.

Definition complete (c : context tree) : Prop :=
  m_stack c = [] /\ exists o, visitor c = holds o [] /\ good 0 o.

Definition left_as (r : parse_return) (c : context tree) : Prop :=
  match r with
  | PARSE_CONTINUE => going c
  | PARSE_SUCCESS => complete c
  | _ => False
  end.

Lemma counts_room e f stk fs : counts e f -> frames_ok (e :: stk) (f :: fs) -> room (f :: fs) = true.
Proof.
  intros (Hr & Hc) _. unfold room, capacity.
  destruct (m_type e); destruct Hc as [-> ->]; apply Z.ltb_lt; lia.
Qed.

Lemma frames_ok_room stk fs : frames_ok stk fs -> room fs = true.
Proof. destruct stk, fs; try done. intros Hok. eapply counts_room; [apply Hok|done]. Qed.

(** A frame with all its items is an object. *)
Lemma frame_array_good k f :
  frame_good (k + 1) f -> is_map f = false -> zlen (frame_items f) = frame_size f ->
  good k (ARRAY (frame_items f)).
Proof.
  intros (Hg & Hs & Hk & Hl) Hm Hz. rewrite Hm in Hl. simpl in Hl. unfold good in *. simpl.
  rewrite !foldr_and, Hz. split_and!; [done| |done| |].
  - eapply Forall_impl; [exact Hg|]. by intros o (Ho & _).
  - eapply Forall_impl; [exact Hg|]. by intros o (_ & Ho & _).
  - clear -Hg Hk. induction Hg as [|o l (_ & _ & Ho) _ IH]; simpl; lia.
Qed.

Lemma frame_map_good k f :
  frame_good (k + 1) f -> is_map f = true -> zlen (frame_items f) = 2 * frame_size f ->
  good k (MAP (pairs (frame_items f))).
Proof.
  intros (Hg & Hs & Hk & Hl) Hm Hz. rewrite Hm in Hl. simpl in Hl.
  assert (zlen (pairs (frame_items f)) = frame_size f) as Hp.
  { unfold zlen in *. rewrite (pairs_length (Z.to_nat (frame_size f))); lia. }
  apply pairs_forall in Hg. unfold good in *. simpl. rewrite !foldr_and, Hp. split_and!; [done| |done| |].
  - eapply Forall_impl; [exact Hg|]. intros kv [Hk' Hv]. split; [apply Hk'|apply Hv].
  - eapply Forall_impl; [exact Hg|]. intros kv [Hk' Hv]. split; [apply Hk'|apply Hv].
  - clear -Hg Hk. induction Hg as [|kv l [(_ & _ & Ho) (_ & _ & Ho')] _ IH]; simpl; lia.
Qed.

(** *** The steps of the stack *)

Lemma safe_or_stop op v' k Q (c : context tree) :
  op (visitor c) = (Ok true, v') -> safe k Q (set_visitor v' c) -> safe (or_stop op k) Q c.
Proof. intros E Hk. unfold or_stop. apply safe_bind. unfold MsgSafety.safe, visit, zoom. by rewrite E. Qed.

Lemma frame_good_item k m n l o : frame_good k (Frame m n l) -> good k o -> frame_good k (Frame m n (l ++ [o])).
Proof. intros (Hg & ?) Ho. split; [|done]. apply Forall_app. split; [done|by constructor]. Qed.

Lemma close_frame_ok (m : bool) n l fs :
  zlen l = (if m then 2 * n else n) ->
  close_frame m (empty (Frame m n l :: fs)) = (Ok true, holds (if m then MAP (pairs l) else ARRAY l) fs).
Proof.
  intros Hz. unfold close_frame, capacity. cbn [value frames is_map frame_size frame_items m_limit].
  rewrite Hz, eqb_reflx. by rewrite Z.eqb_refl.
Qed.

Lemma safe_consume stk fs o (c : context tree) :
  m_stack c = stk -> visitor c = holds o fs -> frames_ok stk fs -> good (zlen fs) o ->
  safe (consume stk) left_as c.
Proof.
  revert fs o c. induction stk as [|e stk IH]; intros [|[m n l] fs] o c Hst Hv Hok Ho; try done.
  { split; [done|]. eauto. }
  destruct Hok as ((Hr & Hc) & Hf & Hok). pose proof Hf as (_ & Hn & _).
  pose proof (frame_good_item _ _ _ _ _ Hf Ho) as Hf'. cbn [frame_size] in *.
  assert (end_item (visitor c) = (Ok true, empty (Frame m n (l ++ [o]) :: fs))) as Hend by (by rewrite Hv).
  rewrite zlen_cons, Z.add_comm in Hf'.
  cbn [consume]. destruct e as [type rest]. cbn [m_type m_rest is_map frame_items] in *.
  destruct type; destruct Hc as [-> Hz]; (eapply safe_or_stop; [exact Hend|]).
  - rewrite u32_pred by lia. destruct (Z.eqb_spec (rest - 1) 0).
    + apply safe_modify_bind. eapply safe_or_stop; [apply (close_frame_ok false); zlen_lia|].
      eapply IH; [done|done|done|]. apply (frame_array_good _ (Frame false n (l ++ [o]))); [done|done|simpl; zlen_lia].
    + apply safe_modify_bind. eapply safe_or_stop; [done|]. eexists; split; [done|]. split; [|split; [|done]].
      * split; simpl; [lia|]. split; [done|zlen_lia].
      * by rewrite zlen_cons, Z.add_comm.
  - eapply safe_or_stop; [done|]. eexists; split; [done|]. split; [|split; [|done]].
    + split; simpl; [lia|]. split; [done|zlen_lia].
    + by rewrite zlen_cons, Z.add_comm.
  - rewrite u32_pred by lia. destruct (Z.eqb_spec (rest - 1) 0).
    + apply safe_modify_bind. eapply safe_or_stop; [apply (close_frame_ok true); zlen_lia|].
      eapply IH; [done|done|done|]. apply (frame_map_good _ (Frame true n (l ++ [o]))); [done|done|simpl; zlen_lia].
    + apply safe_modify_bind. eapply safe_or_stop; [done|]. eexists; split; [done|]. split; [|split; [|done]].
      * split; simpl; [lia|]. split; [done|zlen_lia].
      * by rewrite zlen_cons, Z.add_comm.
Qed.

(** *** Visits *)

Context (limit_pos : 0 <= limit_depth lim).

Lemma frames_ok_depth stk fs : frames_ok stk fs -> zlen fs <= limit_depth lim.
Proof using limit_pos. destruct stk, fs; try done. intros (_ & (_ & _ & Hk & _) & _). done. Qed.

(** An operation of the visitor that places an object, or throws. *)
Definition visits (op : M tree bool) : Prop :=
  forall fs, room fs = true -> zlen fs <= limit_depth lim ->
  safe op (fun b v => b = true /\ exists o, v = holds o fs /\ good (zlen fs) o) (empty fs).

Lemma visits_place o : wf o -> fits lim o -> depth o = 0 -> visits (place o).
Proof.
  intros Hwf Hfits Hd fs Hroom Hk. unfold MsgSafety.safe. rewrite place_ok by done.
  split; [done|]. exists o. split; [done|]. split; [done|]. split; [done|lia].
Qed.

Lemma visits_sized op k what o :
  what ∈ refusals -> (k <= op lim -> wf o /\ fits lim o /\ depth o = 0) ->
  visits (sized op k what (place o)).
Proof.
  intros Hw Ho fs Hroom Hk. unfold sized. apply safe_get_bind. cbn [m_limit].
  destruct (Z.ltb_spec (op lim) k); [by apply safe_raise, refused_member|].
  destruct (Ho ltac:(lia)) as (? & ? & ?). by apply visits_place.
Qed.

(** A value or a container ends at [q]. *)
Definition ended (q : Z) (r : parse_return) (c : context tree) : Prop :=
  left_as r c /\ (r = PARSE_CONTINUE \/ off c = q).

Lemma safe_store_off (c : context tree) (Q : () -> context tree -> Prop) :
  Q () (set_off (m_current c) c) -> safe store_off Q c.
Proof. done. Qed.

Lemma safe_consume_stack fs o (c : context tree) :
  visitor c = holds o fs -> frames_ok (m_stack c) fs -> good (zlen fs) o ->
  safe consume_stack (fun r c' => left_as r c' /\ position c' = position c) c.
Proof using limit_pos.
  intros Hv Hok Ho. unfold consume_stack. apply safe_get_bind.
  apply safe_keeps; [apply keeps_consume|done|]. by eapply safe_consume.
Qed.

Lemma left_as_set_cs r cs (c : context tree) : left_as r c -> left_as r (set_cs cs c).
Proof. by destruct r. Qed.

Lemma left_as_set_off r o (c : context tree) : left_as r c -> left_as r (set_off o c).
Proof. by destruct r. Qed.

Lemma left_as_cases r c : left_as r c -> r = PARSE_CONTINUE \/ r = PARSE_SUCCESS.
Proof. destruct r; try done; auto. Qed.

Lemma safe_after_visit op (c : context tree) :
  going c -> visits op -> safe (after_visit_proc op) (ended (m_current c + 1)) c.
Proof using limit_pos.
  intros (fs & Hv & Hok) Hop.
  specialize (Hop fs (frames_ok_room _ _ Hok) (frames_ok_depth _ _ Hok)).
  unfold after_visit_proc. apply safe_bind. unfold MsgSafety.safe in Hop |- * at 1. unfold visit, zoom.
  rewrite Hv. destruct (op (empty fs)) as [[b|e|w] v']; [|done|done].
  destruct Hop as (-> & o & -> & Ho). apply safe_modify_bind. unfold finish_visit. apply safe_bind.
  eapply safe_weaken; [by apply (safe_consume_stack fs o)|].
  intros r c1 _ [Hleft Hpos]. unfold position in Hpos. cbn in Hpos. injection Hpos as Hc _ _ _.
  apply safe_bind. destruct (left_as_cases _ _ Hleft) as [-> | ->].
  - apply safe_ret, safe_modify_bind, safe_ret. split; [done|by left].
  - apply safe_store_off, safe_modify_bind, safe_ret. split; [done|]. right. simpl. lia.
Qed.

Lemma safe_open m k fs Q :
  room fs = true -> 0 <= k < 2 ^ 32 ->
  (opens lim m k fs -> Q true (empty (Frame m k [] :: fs))) ->
  safe (if m : bool then start_map k else start_array k) Q (empty fs).
Proof.
  intros Hroom Hk HQ. unfold opens in HQ.
  destruct m; simpl; unfold start_frame, sized; replace ((0 <=? k) && (k <? 2 ^ 32)) with true by lia; apply safe_get_bind; cbn [m_limit];
    (case_match; [apply safe_raise; refusal|]); apply safe_get_bind, safe_get_bind; cbn [m_limit frames];
    (case_match; [apply safe_raise; refusal|]); unfold MsgSafety.safe, open_frame; cbn [value frames m_limit];
    rewrite Hroom; apply HQ; simpl; split_and!; lia || done.
Qed.

(** What [start_aggregate] does behind the header. *)
Definition aggregate_body (m : bool) (k : Z) : M (context tree) parse_return :=
  or_stop (if m then start_map k else start_array k)
    (if k =? 0 then or_stop (if m then end_map else end_array) consume_stack else push (item_type m) k).

Lemma aggregate_eq m k :
  aggregate m k = (_ ← modify (fun c => set_current (m_current c + 1) c);
    return_unless_continue (aggregate_body m k)
      (_ ← modify (set_cs MSGPACK_CS_HEADER); mret PARSE_CONTINUE)).
Proof. by destruct m. Qed.

Lemma safe_aggregate_body m k (c : context tree) :
  going c -> 0 <= k < 2 ^ 32 ->
  safe (aggregate_body m k) (fun r c' => left_as r c' /\ position c' = position c) c.
Proof using limit_pos.
  intros (fs & Hv & Hok) Hk. unfold aggregate_body, or_stop. apply safe_bind.
  unfold MsgSafety.safe at 1. unfold visit, zoom. rewrite Hv.
  pose proof (safe_open m k fs (fun b v => b = true /\ v = empty (Frame m k [] :: fs) /\ opens lim m k fs)
    (frames_ok_room _ _ Hok) Hk) as Ho. unfold MsgSafety.safe in Ho.
  destruct ((if m then start_map k else start_array k) (empty fs)) as [[b|e|w] v'];
    [|by apply Ho|by apply Ho]. destruct Ho as (-> & -> & _ & Hlim & Hd & _); [done|].
  destruct (Z.eqb_spec k 0) as [->|Hnz].
  - eapply safe_or_stop.
    + replace (if m then end_map else end_array) with (close_frame m) by (by destruct m).
      by apply close_frame_ok; destruct m.
    + set (c2 := set_visitor _ _). change (position c) with (position c2).
      eapply (safe_consume_stack fs); [done|done|].
      destruct m; simpl in *; split; try split; simpl; lia || done.
  - apply safe_keeps; [apply keeps_push|done|]. unfold push. apply safe_modify_bind.
    assert (frames_ok (StackElem (item_type m) k :: m_stack c) (Frame m k [] :: fs)) as Hok'.
    { split; [|split; [|done]].
      - split; [simpl; lia|]. destruct m; simpl; rewrite zlen_nil; split; (done || lia).
      - rewrite zlen_cons. split; [by constructor|]. simpl. split_and!; lia. }
    destruct m; eexists; (split; [done|exact Hok']).
Qed.

Lemma safe_aggregate m k (c : context tree) :
  going c -> 0 <= k < 2 ^ 32 -> safe (aggregate m k) (ended (m_current c + 1)) c.
Proof using limit_pos.
  intros Hg Hk. rewrite aggregate_eq. apply safe_modify_bind. set (c1 := set_current _ c).
  unfold return_unless_continue. apply safe_bind.
  eapply safe_weaken; [by apply (safe_aggregate_body m k c1)|].
  intros r c2 _ [Hleft Hpos]. unfold position in Hpos. injection Hpos as Hc _ _ _.
  destruct (left_as_cases _ _ Hleft) as [-> | ->].
  - apply safe_modify_bind, safe_ret. split; [done|by left].
  - apply safe_bind, safe_store_off, safe_ret. split; [done|]. by right.
Qed.

Lemma visits_positive z : 0 <= z < 2 ^ 64 -> visits (visit_positive_integer z).
Proof. intros Hz. by apply visits_place. Qed.

Lemma visits_negative z : - 2 ^ 63 <= z < 2 ^ 63 -> visits (visit_negative_integer z).
Proof. intros Hz. simpl. destruct (Z.leb_spec 0 z); apply visits_place; simpl; lia || done. Qed.

Lemma visits_float32 f : 0 <= f < 2 ^ 32 -> visits (visit_float32 f).
Proof. intros Hf. apply visits_place; [|done..]. simpl. by apply widen_quiet. Qed.

Lemma visits_float64 f : 0 <= f < 2 ^ 64 -> visits (visit_float64 f).
Proof. intros Hf. by apply visits_place. Qed.

Lemma visits_text acs n k s :
  Forall is_byte s -> zlen s = k -> k < 2 ^ 32 -> 0x20 <= acs <= 0x22 -> (acs = 0x22 -> 1 <= k) ->
  visits (visit_text acs n k s).
Proof.
  intros Hs <- Hk Hacs Hext. unfold visit_text.
  destruct (Z.eqb_spec acs MSGPACK_ACS_STR_VALUE); [apply visits_sized; [unfold refusals; repeat constructor|done]|].
  destruct (Z.eqb_spec acs MSGPACK_ACS_BIN_VALUE); [apply visits_sized; [unfold refusals; repeat constructor|done]|].
  simpl. destruct s as [|type d]; [rewrite zlen_nil in Hext; lia|].
  apply Forall_cons in Hs as [Ht Hd]. rewrite zlen_cons in *.
  rewrite (proj2 (Z.ltb_lt _ _)) by done.
  apply visits_sized; [unfold refusals; repeat constructor|]. intros Hl.
  split; [simpl; split_and!; [done|done|lia]|]. split; [simpl; lia|done].
Qed.

(** ** The bytes *)

Section data.
Context (m_start : Z) (data : bytes).
Hypothesis data_bytes : Forall is_byte data.

(** A round that read up to [q]. *)
Definition arrives (q : Z) (next : flow) (c : context tree) : Prop :=
  match next with
  | Return r => r = PARSE_SUCCESS /\ complete c /\ off c = q
  | Next _ _ => going c
  end.

Lemma safe_returns n m q (c : context tree) : safe m (ended q) c -> safe (returns n m) (arrives q) c.
Proof.
  intros Hm. unfold returns. apply safe_bind. eapply safe_weaken; [exact Hm|].
  intros r c' _ [Hleft Hq]. apply safe_ret.
  destruct (left_as_cases _ _ Hleft) as [-> | ->]; [done|]. by destruct Hq.
Qed.

Lemma safe_visited n op q (c : context tree) :
  going c -> visits op -> q = m_current c + 1 -> safe (returns n (after_visit_proc op)) (arrives q) c.
Proof using limit_pos. intros Hg Hop ->. by apply safe_returns, safe_after_visit. Qed.

Lemma safe_aggregated n m k q (c : context tree) :
  going c -> 0 <= k < 2 ^ 32 -> q = m_current c + 1 -> safe (returns n (aggregate m k)) (arrives q) c.
Proof using limit_pos. intros Hg Hk ->. by apply safe_returns, safe_aggregate. Qed.

Lemma safe_value n acs k q (c : context tree) :
  going c -> 0x20 <= acs <= 0x22 -> 0 <= k -> (acs = 0x22 -> 1 <= k) -> q = m_current c + 1 ->
  safe (value_state n acs (visit_text acs n 0 []) k) (arrives q) c.
Proof using limit_pos.
  intros Hg Hacs Hk Hext ->. unfold value_state. apply safe_modify_bind.
  destruct (Z.eqb_spec k 0) as [->|Hnz].
  - apply safe_visited; [done| |done]. by apply visits_text.
  - by apply safe_modify_bind, safe_ret.
Qed.

Lemma safe_read {A} p k (f : bytes -> M (context tree) A) Q c :
  0 <= p -> 0 <= k -> p + k <= len data ->
  (Forall is_byte (bytes_at data p k) -> zlen (bytes_at data p k) = k ->
   0 <= load (bytes_at data p k) < 2 ^ (8 * k) -> safe (f (bytes_at data p k)) Q c) ->
  safe (read data p k f) Q c.
Proof using data_bytes.
  intros Hp Hk Hl Hf. unfold read. rewrite (proj2 (Z.leb_le 0 p)), (proj2 (Z.leb_le _ (len data))) by done.
  simpl. apply Hf; [by apply Forall_take, Forall_drop| |by apply load_at].
  unfold zlen, bytes_at, len in *. rewrite length_take, length_drop. lia.
Qed.

(** The header, and what it says. *)
Lemma safe_header n (c : context tree) :
  going c -> 0 <= m_current c < len data -> safe (header data n) (arrives (m_current c + 1)) c.
Proof using data_bytes limit_pos.
  intros Hg Hc. unfold header. apply safe_get_bind, safe_read; [lia..|]. intros Hs Hz Hload.
  set (h := load _) in *. change (2 ^ (8 * 1)) with 256 in Hload.
  assert (forall k, 0 <= k -> 0 <= Z.land h (Z.ones k) < 2 ^ k) as Hland by (intros; by apply land_small).
  repeat (case_match; [try (apply safe_visited; [done| |done])|]).
  - apply visits_positive. lia.
  - apply visits_negative. unfold load_signed.
    pose proof (signed_range (8 * zlen (bytes_at data (m_current c) 1)) h) as Hr. rewrite Hz in Hr.
    specialize (Hr ltac:(lia)). unfold zlen in Hz. rewrite Hz. fold h. cbn in Hr. lia.
  - by do 2 apply safe_modify_bind.
  - apply (safe_value n 0x20); try done; apply (Hland 5); lia.
  - apply (safe_aggregated n false); [done| |done]. specialize (Hland 4 ltac:(lia)). change (Z.ones 4) with 15 in Hland. lia.
  - apply (safe_aggregated n true); [done| |done]. specialize (Hland 4 ltac:(lia)). change (Z.ones 4) with 15 in Hland. lia.
  - by apply visits_place.
  - by apply visits_place.
  - by apply visits_place.
  - apply safe_bind, safe_store_off, safe_get_bind, safe_bind. unfold MsgSafety.safe, visit, zoom. simpl. refusal.
Qed.

Hypothesis data_small : len data < 2 ^ 32.

Lemma signed_load p k : 0 < k <= 8 -> zlen (bytes_at data p k) = k ->
  - 2 ^ 63 <= load_signed (bytes_at data p k) < 2 ^ 63.
Proof.
  intros Hk Hz. unfold load_signed. unfold zlen in Hz. rewrite Hz.
  pose proof (signed_range (8 * k) (load (bytes_at data p k)) ltac:(lia)).
  pose proof (Z.pow_le_mono_r 2 (8 * k - 1) 63 ltac:(lia) ltac:(lia)). lia.
Qed.

Ltac state_value :=
  match goal with
  | |- context [Z.of_nat ?n + 4] =>
      let v := eval vm_compute in (Z.of_nat n + 4) in
      change (Z.of_nat n + 4) with v; cbv beta iota
  end.

Ltac switch_read := apply safe_read; [lia..|intros Hs Hz Hload].

(** The bytes behind a header or a length. *)
Lemma safe_switch p (c : context tree) :
  going c -> context_ok c -> m_cs c <> MSGPACK_CS_HEADER -> 0 <= p ->
  m_current c + 1 = p + m_trail c -> p + m_trail c <= len data ->
  safe (switch m_start data p) (arrives (p + m_trail c)) c.
Proof using data_bytes data_small limit_pos.
  intros Hg Hok Hcs Hp Hc Hl. unfold switch. apply safe_get_bind. cbv zeta.
  destruct Hok as [?|[[Hr Ht]|[Hr Ht]]]; [done| |].
  - assert (exists k, (k < 28)%nat /\ m_cs c = Z.of_nat k + 4) as (k & Hk & E)
      by (exists (Z.to_nat (m_cs c - 4)); lia).
    rewrite E in Ht |- *. replace (Z.to_nat (Z.of_nat k + 4 - 4)) with k in Ht by lia.
    do 28 (destruct k as [|k]; [cbn in Ht; rewrite Ht in *; state_value;
      switch_read; match goal with
      | |- safe (returns _ (after_visit_proc (visit_ext _ _ _))) _ _ =>
          apply safe_visited; [done| |lia]; apply (visits_text 0x22); done
      | |- safe (returns _ (after_visit_proc (visit_negative_integer _))) _ _ =>
          apply safe_visited; [done| |lia]; by apply visits_negative, signed_load
      | |- safe (returns _ (after_visit_proc (visit_positive_integer _))) _ _ =>
          apply safe_visited; [done| |lia]; apply visits_positive; lia
      | |- safe (returns _ (after_visit_proc (visit_float32 _))) _ _ =>
          apply safe_visited; [done| |lia]; apply visits_float32; lia
      | |- safe (returns _ (after_visit_proc (visit_float64 _))) _ _ =>
          apply safe_visited; [done| |lia]; apply visits_float64; lia
      | |- safe (returns _ (start_array_aggregate _)) _ _ => apply (safe_aggregated _ false); [done|lia|lia]
      | |- safe (returns _ (start_map_aggregate _)) _ _ => apply (safe_aggregated _ true); [done|lia|lia]
      | |- safe (value_state _ ?acs _ _) _ _ => apply (safe_value _ acs); lia || done
      end|]); lia.
  - assert (u32 (m_trail c) = m_trail c) as -> by (apply wrap_small; lia).
    assert (m_cs c = 0x20 \/ m_cs c = 0x21 \/ m_cs c = 0x22) as [E|[E|E]] by lia; rewrite E; switch_read.
    + apply safe_visited; [done| |lia]. apply (visits_text 0x20); lia || done.
    + apply safe_visited; [done| |lia]. apply (visits_text 0x21); lia || done.
    + apply safe_visited; [done| |lia]. apply (visits_text 0x22); lia || done.
Qed.

(** How reading from [p] ends. *)
Definition finishes (p : Z) (r : parse_return) (c : context tree) : Prop :=
  match r with
  | PARSE_SUCCESS => complete c /\ p < off c <= len data
  | PARSE_CONTINUE => going c /\ context_ok c /\ p <= off c <= len data
  | _ => False
  end.

Definition passes (p : Z) (next : flow) (c : context tree) : Prop :=
  match next with
  | Return r => finishes p r c
  | Next _ _ => going c
  end.

Lemma arrives_passes p q next c : arrives q next c -> p < q <= len data -> passes p next c.
Proof. destruct next as [r|]; [|done]. by intros (-> & Hc & <-). Qed.

Lemma safe_behind_header fixed p (c : context tree) :
  going c -> context_ok c -> m_cs c <> MSGPACK_CS_HEADER -> 0 <= m_current c < len data -> p <= m_current c ->
  safe (behind_header m_start data fixed) (passes p) c.
Proof using data_bytes data_small limit_pos.
  intros Hg Hok Hcs Hc Hp. unfold behind_header. set (q := m_current c + if fixed then 1 else 0).
  assert ((if fixed then modify (fun c => set_current (m_current c + 1) c) else mret ()) c
    = (Ok (), set_current q c)) as Hq.
  { unfold q. destruct fixed; [done|]. rewrite Z.add_0_r. by destruct c. }
  apply safe_bind. unfold MsgSafety.safe at 1. rewrite Hq. apply safe_get_bind. cbn [m_current m_trail set_current].
  assert (m_current c <= q <= len data) by (unfold q; destruct fixed; lia).
  destruct (Z.ltb_spec (len data - q) (m_trail c)) as [Hl|Hl].
  - apply safe_bind, safe_store_off, safe_ret. split; [done|]. split; [done|]. simpl. lia.
  - pose proof (trail_pos c Hok Hcs). apply safe_modify_bind. eapply safe_weaken.
    + apply safe_switch; [done|done|done|lia|simpl; lia|simpl; lia].
    + intros next c' _ Ha. apply (arrives_passes _ _ _ _ Ha). simpl. lia.
Qed.

Lemma safe_round fixed n p (c : context tree) :
  ready data fixed c -> going c -> p <= m_current c ->
  safe (round m_start data fixed n) (passes p) c.
Proof using data_bytes data_small limit_pos.
  intros (Hok & Hc & Hf) Hg Hp. unfold round. apply safe_get_bind, safe_bind.
  destruct (Z.eqb_spec (m_cs c) MSGPACK_CS_HEADER) as [Hz|Hz].
  - eapply safe_weaken; [apply safe_header; [done|lia]|]. intros [r|f n'] c1 E Ha.
    + apply safe_ret. apply (arrives_passes _ _ _ _ Ha). lia.
    + apply advanced_header in E as (_ & Hok1 & E); [|done]. apply safe_get_bind.
      destruct f; destruct E as [E1 E2].
      * rewrite orb_true_r. apply safe_behind_header; [done|done|done|lia|lia].
      * rewrite E2. by apply safe_ret.
  - apply safe_ret, safe_get_bind. apply Z.eqb_neq in Hz as Hz'. rewrite Hz'.
    by apply safe_behind_header.
Qed.

Lemma safe_run fixed n p (c : context tree) :
  ready data fixed c -> going c -> p <= m_current c -> safe (run m_start data fixed n) (finishes p) c.
Proof using data_bytes data_small limit_pos.
  remember (rounds data fixed (m_current c)) as k eqn:Ek. revert fixed n c Ek.
  induction k as [k IH] using lt_wf_ind. intros fixed n c -> Hr Hg Hp.
  eapply safe_same; [by apply run_eq|].
  eapply safe_bind, safe_weaken; [by apply (safe_round fixed n p)|].
  intros [r|f n'] c1 E Hq; [done|]. pose proof (round_ready m_start data data_bytes _ _ _ _ _ _ Hr E) as Hr1.
  apply (round_next m_start data data_bytes) in E as (Hok & Hc & _ & _ & Hlt); [|done].
  unfold go_on. apply safe_get_bind. destruct (Z.eqb_spec (m_current c1) (len data)) as [He|He].
  - apply safe_bind, safe_store_off, safe_ret. split; [done|]. split; [done|]. simpl. destruct Hr. lia.
  - eapply IH; [exact Hlt|done|by apply Hr1|done|lia].
Qed.

(** The parser, between two objects or in the middle of one. *)
Lemma safe_execute (c : context tree) :
  going c -> context_ok c -> 0 <= off c <= len data -> safe (execute m_start data) (finishes (off c)) c.
Proof using data_bytes data_small limit_pos.
  intros Hg Hok Ho. unfold MsgSafety.safe. rewrite (execute_from m_start data c Ho).
  destruct (Z.eqb_spec (off c) (len data)) as [He|He].
  - split; [done|]. split; [done|]. simpl. lia.
  - apply (safe_run false nullptr (off c)); [|done|simpl; lia]. split_and!; [done|simpl; lia|simpl; lia|done].
Qed.

(** The whole of a buffer. *)
Lemma safe_parse_imp start :
  0 <= start <= len data ->
  match parse_imp m_start data start (empty []) with
  | (Ok (r, q), v) =>
      (r = if q <? len data then PARSE_EXTRA_BYTES else PARSE_SUCCESS) /\ start < q <= len data /\
      exists o, v = holds o [] /\ good 0 o
  | (Throw e, _) => refused e \/ e = StdException "insufficient bytes"
  | (Crash _, _) => False
  end.
Proof using data_bytes data_small limit_pos.
  intros Hs. unfold parse_imp. destruct (Z.leb_spec (len data) start) as [|Hl]; [by right|].
  pose proof (safe_execute (Context start 0 MSGPACK_CS_HEADER [] start (empty []))) as He.
  specialize (He ltac:(by exists []) ltac:(by left) ltac:(simpl; lia)).
  unfold MsgSafety.safe in He. destruct (execute _ _ _) as [[[]|e|w] c]; try done; [| |by left].
  - destruct He as ((_ & o & -> & Ho) & Hoff). simpl in Hoff. eauto.
  - destruct He as ((fs & -> & _) & _). by right.
Qed.
End data.
End tree.

(** C31 (safety).  Bytes that nobody packed, less than 2^32 of them.  Wherever
    reading starts in a buffer, the parser never reads outside of it, never calls the
    visitor where the call makes no sense, and ends: it throws one of the exceptions of
    the library - a size or depth over the limits, a header that is none, or too few
    bytes - or it has read, from one byte at least, an object that is the same when it
    is packed and read again within the same limits.

    With 2^32 bytes and more there can be an extension of 2^32 - 1 bytes behind its
    header; the count of its bytes with the type, 2^32, does not fit the visitor's
    argument, and the theorem does not hold. *)
Theorem unpack_any lim data start :
  0 <= limit_depth lim -> Forall is_byte data -> len data < 2 ^ 32 -> 0 <= start <= len data ->
  (exists e, unpack_tree lim data start = Throw e /\
    (refused e \/ e = StdException "insufficient bytes")) \/
  exists o q, unpack_tree lim data start = Ok (o, q) /\ start < q <= len data /\
    unpack_tree lim (pack o) 0 = Ok (o, zlen (pack o)).
Proof.
  intros Hlim Hdata Hsmall Hs. unfold unpack_tree at 1 2.
  pose proof (safe_parse_imp lim Hlim 0 data Hdata Hsmall start Hs) as Hp.
  destruct (parse_imp 0 data start _) as [[[r q]|e|w] v]; [|left; eauto|done].
  destruct Hp as (_ & Hq & o & -> & Hwf & Hfits & Hd). right. exists o, q. split; [done|]. split; [done|].
  unfold unpack_tree. pose proof (parse_packed 0 lim [] o [] Hwf Hfits Hd) as Hr.
  change (zlen (@nil Z)) with 0 in Hr. simpl app in Hr. rewrite app_nil_r in Hr. by rewrite Hr.
Qed.

(** An array of two, the first of them a positive integer that is longer than it
    needs to be. *)
Lemma unpack_any_witness :
  unpack_tree default_limit [0x92; 0xcd; 0x00; 0x05; 0xa0] 0 = Ok (ARRAY [POSITIVE_INTEGER 5; STR []], 5) /\
  ((exists e, unpack_tree default_limit [0x92; 0xcd; 0x00; 0x05; 0xa0] 0 = Throw e /\
     (refused e \/ e = StdException "insufficient bytes")) \/
   exists o q, unpack_tree default_limit [0x92; 0xcd; 0x00; 0x05; 0xa0] 0 = Ok (o, q) /\ 0 < q <= 5 /\
     unpack_tree default_limit (pack o) 0 = Ok (o, zlen (pack o))).
Proof.
  split; [reflexivity|].
  apply (unpack_any default_limit [0x92; 0xcd; 0x00; 0x05; 0xa0] 0); [done| |done|done].
  repeat constructor; done.
Defined.
