(* ===== verification/MsgVisitor.v ===== *)
(** * MessagePack: the objects of a zone

    Include/rpc/msgpack/v2/create_object_visitor.hpp and [unpack_imp] of
    v2/unpack.hpp: the visitor of the parser that builds an object.  The objects
    of an array are a block of a zone, which is allocated when the array starts
    and filled by a pointer that runs over it; a text is a block too, or a
    pointer into the buffer that is parsed.  The visitor implements that of
    MsgTree.v: what its cells stand for is the tree. *)
From S2P Require Import Prelude MsgObject MsgParse MsgStream MsgTree MsgRoundTrip MsgSafety.

(** ** Memory *)

(** The memory of the buffers; nothing else is read through an address. *)
Definition memory : Type := Z -> option Z.

Definition mem_at (m : memory) (a : Z) (s : bytes) : Prop :=
  forall i b, s !! i = Some b -> m (a + Z.of_nat i) = Some b.

(** The [k] bytes at an address. *)
Definition mem_read (m : memory) (a : Z) (k : nat) : option bytes :=
  mapM (fun i => m (a + Z.of_nat i)) (seq 0 k).

(** [ptr] of a text: into the buffer, or into the zone. *)
Inductive text_ptr :=
| Referenced (p : pointer)
| Copied (chars : nat).

(** The [type] and [via] of an [object]; the arrays of a zone are numbered. *)
Inductive cell :=
| c_uninitialized
| c_nil
| c_boolean (b : bool)
| c_positive_integer (u64 : Z)
| c_negative_integer (i64 : Z)
| c_float32 (f64 : Z)
| c_float64 (f64 : Z)
| c_str (ptr : text_ptr) (size : Z)
| c_bin (ptr : text_ptr) (size : Z)
| c_ext (ptr : text_ptr) (size : Z)
| c_array (ptr : option nat) (size : Z)
| c_map (ptr : option nat) (size : Z).

(** A zone: the blocks of objects and of bytes that were allocated from it, which
    the zone keeps until it is deleted. *)
Record zone := Zone { arrays : list (list cell); chars : list bytes }.

(** An [object*]: [&m_obj], a null pointer, or an element of a block. *)
Inductive object_ptr :=
| Obj
| Null
| Item (block : nat) (index : nat).

Inductive object_type := type_STR | type_BIN | type_EXT.

(** [create_object_visitor]; the stack from the back on.  [m_user_data] belongs
    to the function. *)
Record create_object_visitor := CreateObjectVisitor {
  m_func : option (object_type -> Z -> bool);
  limits : unpack_limit;
  m_obj : cell;
  m_objects : list object_ptr;
  m_zone : zone;
  m_referenced : bool;
}.

Abbreviation MV := (M create_object_visitor).

Definition set_obj (c : cell) (v : create_object_visitor) : create_object_visitor :=
  CreateObjectVisitor (m_func v) (limits v) c (m_objects v) (m_zone v) (m_referenced v).
Definition set_objects (s : list object_ptr) (v : create_object_visitor) : create_object_visitor :=
  CreateObjectVisitor (m_func v) (limits v) (m_obj v) s (m_zone v) (m_referenced v).
Definition set_zone (z : zone) (v : create_object_visitor) : create_object_visitor :=
  CreateObjectVisitor (m_func v) (limits v) (m_obj v) (m_objects v) z (m_referenced v).
Definition set_referenced (b : bool) (v : create_object_visitor) : create_object_visitor :=
  CreateObjectVisitor (m_func v) (limits v) (m_obj v) (m_objects v) (m_zone v) b.

(** What an [object*] points to. *)
Definition cell_at (v : create_object_visitor) (p : object_ptr) : option cell :=
  match p with
  | Obj => Some (m_obj v)
  | Null => None
  | Item b i => arrays (m_zone v) !! b ≫= fun cells => cells !! i
  end.

(** [*p = c;] *)
Definition put_cell (p : object_ptr) (c : cell) (v : create_object_visitor) : create_object_visitor :=
  match p with
  | Obj => set_obj c v
  | Null => v
  | Item b i => set_zone (Zone (alter (insert i c) b (arrays (m_zone v))) (chars (m_zone v))) v
  end.

Definition write_cell (p : object_ptr) (c : cell) : MV unit := fun v =>
  match cell_at v p with
  | Some _ => (Ok (), put_cell p c v)
  | None => (Crash "write through an invalid pointer", v)
  end.

(** [m_stack.back()] *)
Definition back : MV object_ptr := fun v =>
  match m_objects v with
  | p :: _ => (Ok p, v)
  | [] => (Crash "back of an empty vector", v)
  end.

(** [obj = m_stack.back(); obj->type = ...; obj->via = ...;] *)
Definition fill (c : cell) : MV bool := obj ← back; _ ← write_cell obj c; mret true.

(** [zone().allocate_align(size)] for bytes, with the [memcpy] into them. *)
Definition copy_text (s : bytes) : MV text_ptr := fun v =>
  (Ok (Copied (length (chars (m_zone v)))),
   set_zone (Zone (arrays (m_zone v)) (chars (m_zone v) ++ [s])) v).

(** [m_zone->allocate_align(size)] for [n] objects. *)
Definition allocate_objects (n : Z) : MV nat := fun v =>
  (Ok (length (arrays (m_zone v))),
   set_zone (Zone (arrays (m_zone v) ++ [replicate (Z.to_nat n) c_uninitialized]) (chars (m_zone v))) v).

(** [visit_str], [visit_bin] and [visit_ext]. *)
Definition visit_chars (type : object_type) (op : unpack_limit -> Z) (what : string)
    (text : text_ptr -> Z -> cell) (p : pointer) (size : Z) (s : bytes) : MV bool :=
  v ← get;
  if op (limits v) <? size then raise what else
  obj ← back;
  ptr ← (if match m_func v with Some f => f type size | None => false end
         then _ ← modify (set_referenced true); mret (Referenced p)
         else copy_text s);
  _ ← write_cell obj (text ptr size);
  mret true.

(** [start_array] and [start_map], for items of [k] bytes and [m] objects. *)
Definition start_items (op : unpack_limit -> Z) (what : string) (k m : Z)
    (container : option nat -> Z -> cell) (n : Z) : MV bool :=
  v ← get;
  if op (limits v) <? n then raise what else
  if limit_depth (limits v) <? zlen (m_objects v) then raise "depth size overflow" else
  obj ← back;
  ptr ← (if n =? 0 then mret None
         else
           let size := u64 (n * k) in
           if negb (size / k =? n) then raise what else b ← allocate_objects (n * m); mret (Some b));
  _ ← write_cell obj (container ptr n);
  _ ← modify (fun v => set_objects (match ptr with Some b => Item b 0 | None => Null end :: m_objects v) v);
  mret true.

(** [++m_stack.back();] *)
Definition next_item : MV bool := fun v =>
  match m_objects v with
  | Item b i :: ps => (Ok true, set_objects (Item b (S i) :: ps) v)
  | _ => (Crash "not in an array", v)
  end.

(** [m_stack.pop_back();] *)
Definition pop_back : MV bool := fun v =>
  match m_objects v with
  | _ :: ps => (Ok true, set_objects ps v)
  | [] => (Crash "pop_back of an empty vector", v)
  end.

#[export] Instance object_visitor : Visitor create_object_visitor := {|
  init := fun v => set_objects [Obj] (set_obj c_nil v);
  visit_nil := fill c_nil;
  visit_boolean := fun b => fill (c_boolean b);
  visit_positive_integer := fun z => fill (c_positive_integer z);
  visit_negative_integer := fun z =>
    fill (if 0 <=? z then c_positive_integer z else c_negative_integer z);
  visit_float32 := fun f => fill (c_float32 (widen f));
  visit_float64 := fun f => fill (c_float64 f);
  visit_str := visit_chars type_STR limit_str "str size overflow" c_str;
  visit_bin := visit_chars type_BIN limit_bin "bin size overflow" c_bin;
  visit_ext := visit_chars type_EXT limit_ext "ext size overflow" (fun p size => c_ext p (u32 (size - 1)));
  start_array := start_items limit_array "array size overflow" sizeof_object 1 c_array;
  start_array_item := mret true;
  end_array_item := next_item;
  end_array := pop_back;
  start_map := start_items limit_map "map size overflow" sizeof_object_kv 2 c_map;
  start_map_key := mret true;
  end_map_key := next_item;
  start_map_value := mret true;
  end_map_value := next_item;
  end_map := pop_back;
  parse_error := fun _ _ => raise "parse error";
  insufficient_bytes := fun _ _ => raise "insufficient bytes";
|}.

(** A new visitor with a zone. *)
Definition new_visitor (f : option (object_type -> Z -> bool)) (limit : unpack_limit) (z : zone) :
    create_object_visitor :=
  CreateObjectVisitor f limit c_nil [Obj] z false.

(** [unpack_imp]: the result of the parser, the object and whether it points into
    the buffer, with the zone. *)
Definition unpack_imp (m_start : Z) (data : bytes) (off : Z) (result_zone : zone)
    (f : option (object_type -> Z -> bool)) (limit : unpack_limit) :
    outcome (parse_return * Z) * create_object_visitor :=
  parse_imp m_start data off (new_visitor f limit result_zone).

(** ** What cells stand for *)

Section load.
Context (m : memory) (z : zone).

Definition load_text (p : text_ptr) (size : Z) : option bytes :=
  match p with
  | Referenced (Some a) => mem_read m a (Z.to_nat size)
  | Referenced None => if size =? 0 then Some [] else None
  | Copied k => chars z !! k ≫= fun s => if zlen s =? size then Some s else None
  end.

(** The object of a cell; the fuel counts the blocks that are nested. *)
Fixpoint load_object (fuel : nat) (c : cell) : option object :=
  match fuel with
  | O => None
  | S fuel =>
      let items p n :=
        p ≫= fun b => arrays z !! b ≫= fun cells =>
        if n <=? zlen cells then mapM (load_object fuel) (take (Z.to_nat n) cells) else None in
      match c with
      | c_uninitialized => None
      | c_nil => Some NIL
      | c_boolean b => Some (BOOLEAN b)
      | c_positive_integer u => Some (POSITIVE_INTEGER u)
      | c_negative_integer i => Some (NEGATIVE_INTEGER i)
      | c_float32 f => Some (FLOAT32 f)
      | c_float64 f => Some (FLOAT64 f)
      | c_str p size => STR <$> load_text p size
      | c_bin p size => BIN <$> load_text p size
      | c_ext p size =>
          load_text p (size + 1) ≫= fun s => match s with type :: d => Some (EXT type d) | [] => None end
      | c_array p size => if size =? 0 then Some (ARRAY []) else ARRAY <$> items p size
      | c_map p size => if size =? 0 then Some (MAP []) else (fun l => MAP (pairs l)) <$> items p (2 * size)
      end
  end.
End load.

(** ** Cells and objects

    A block holds objects whose own blocks were allocated behind it, and in front
    of the next block that is still open. *)

(** The address of a text holds it. *)
Definition readable (m : memory) (n : pointer) (s : bytes) : Prop :=
  s = [] \/ exists a, n = Some a /\ mem_at m a s.

Section all2.
Context {A B : Type} (P : A -> B -> Prop).

Fixpoint all2 (cells : list A) (l : list B) {struct l} : Prop :=
  match l, cells with
  | [], [] => True
  | o :: l', c :: cells' => P c o /\ all2 cells' l'
  | _, _ => False
  end.

Fixpoint all2_pairs (cells : list A) (l : list (B * B)) {struct l} : Prop :=
  match l, cells with
  | [], [] => True
  | kv :: l', ck :: cv :: cells' => (P ck kv.1 /\ P cv kv.2) /\ all2_pairs cells' l'
  | _, _ => False
  end.

Lemma all2_forall2 cells l : all2 cells l <-> Forall2 P cells l.
Proof.
  revert cells. induction l as [|o l IH]; intros [|c cells]; simpl; split; intros Hl; try done;
    inversion Hl; subst; constructor; try done; by apply IH.
Qed.
End all2.

Lemma all2_pairs_flat (P : cell -> object -> Prop) cells l :
  all2_pairs P cells l <-> Forall2 P cells (flat l).
Proof.
  revert cells. induction l as [|[k v] l IH]; intros [|ck [|cv cells]]; simpl; split; intros Hl;
    try done; try (by inversion Hl).
  - inversion Hl as [|? ? ? ? _ Hl']. by inversion Hl'.
  - destruct Hl as [[??] Hl]. constructor; [done|]. constructor; [done|]. by apply IH.
  - inversion Hl as [|? ? ? ? Hk Hl']; inversion Hl' as [|? ? ? ? Hv Hl'']; subst.
    split; [done|]. by apply IH.
Qed.

(** [c] stands for [o] with the arrays from [lo] to [hi]. *)
Fixpoint denotes (m : memory) (z : zone) (lo hi : nat) (c : cell) (o : object) : Prop :=
  match o, c with
  | NIL, c_nil => True
  | BOOLEAN b, c_boolean b' => b' = b
  | POSITIVE_INTEGER u, c_positive_integer u' => u' = u
  | NEGATIVE_INTEGER i, c_negative_integer i' => i' = i
  | FLOAT32 f, c_float32 f' => f' = f
  | FLOAT64 f, c_float64 f' => f' = f
  | STR s, c_str p size => size = zlen s /\ load_text m z p (zlen s) = Some s
  | BIN s, c_bin p size => size = zlen s /\ load_text m z p (zlen s) = Some s
  | EXT t d, c_ext p size => size = zlen d /\ load_text m z p (zlen (t :: d)) = Some (t :: d)
  | ARRAY l, c_array p size =>
      size = zlen l /\
      (size = 0 \/ exists b cells, p = Some b /\ (lo <= b < hi)%nat /\ arrays z !! b = Some cells /\
         all2 (denotes m z (S b) hi) cells l)
  | MAP l, c_map p size =>
      size = zlen l /\
      (size = 0 \/ exists b cells, p = Some b /\ (lo <= b < hi)%nat /\ arrays z !! b = Some cells /\
         all2_pairs (denotes m z (S b) hi) cells l)
  | _, _ => False
  end.

Lemma load_text_mono m z z' p k s :
  chars z `prefix_of` chars z' -> load_text m z p k = Some s -> load_text m z' p k = Some s.
Proof.
  intros Hz. destruct p as [[a|]|j]; simpl; [done..|].
  destruct (chars z !! j) as [t|] eqn:E; [|done]. by rewrite (prefix_lookup_Some _ _ _ _ E Hz).
Qed.

(** What a cell stands for depends on the arrays of its interval only. *)
Definition kept (m : memory) (z z' : zone) (hi hi' : nat) (o : object) : Prop :=
  forall lo lo' c, (lo' <= lo)%nat -> (hi <= hi')%nat ->
  (forall b, (lo <= b < hi)%nat -> arrays z' !! b = arrays z !! b) ->
  denotes m z lo hi c o -> denotes m z' lo' hi' c o.

Lemma kept_items m z z' hi hi' b cells l :
  Forall (kept m z z' hi hi') l -> (hi <= hi')%nat ->
  (forall b', (b < b' < hi)%nat -> arrays z' !! b' = arrays z !! b') ->
  Forall2 (denotes m z (S b) hi) cells l -> Forall2 (denotes m z' (S b) hi') cells l.
Proof.
  intros Hk Hhi Hb Hl. induction Hl; constructor; apply Forall_cons in Hk as [Hk' Hk]; [|auto].
  eapply Hk'; [| | |done]; [lia|lia|]. intros b' Hb'. apply Hb. lia.
Qed.

Lemma denotes_kept m z z' hi hi' o : chars z `prefix_of` chars z' -> kept m z z' hi hi' o.
Proof.
  intros Hz. induction o as [| | | | | | | | |l IH|l IH] using object_ind_items; intros lo lo' c Hlo Hhi Hb;
    destruct c; simpl; try done.
  1-3: intros [-> Ht]; split; [done|by eapply load_text_mono].
  - intros [-> [Hs|(b & cells & -> & Hr & Hc & Hl)]]; (split; [done|]); [by left|right].
    exists b, cells. split; [done|]. split; [lia|]. split; [by rewrite Hb|].
    rewrite all2_forall2 in *. eapply kept_items; [done|done| |done]. intros b' Hb'. apply Hb. lia.
  - intros [-> [Hs|(b & cells & -> & Hr & Hc & Hl)]]; (split; [done|]); [by left|right].
    exists b, cells. split; [done|]. split; [lia|]. split; [by rewrite Hb|].
    rewrite all2_pairs_flat in *. eapply kept_items; [by apply flat_forall|done| |done].
    intros b' Hb'. apply Hb. lia.
Qed.

(** The object of a cell can be loaded. *)
Definition loads (m : memory) (z : zone) (hi : nat) (o : object) : Prop :=
  forall lo c fuel, (hi - lo < fuel)%nat -> denotes m z lo hi c o -> load_object m z fuel c = Some o.

Lemma loads_items m z hi b cells l fuel :
  Forall (loads m z hi) l -> (hi - S b < fuel)%nat ->
  Forall2 (denotes m z (S b) hi) cells l -> mapM (load_object m z fuel) cells = Some l.
Proof.
  intros Hl Hf Hc. apply mapM_Some. induction Hc; constructor; apply Forall_cons in Hl as [Ho Hl]; [|auto].
  by eapply Ho.
Qed.

Lemma denotes_loads m z hi o : loads m z hi o.
Proof.
  induction o as [| | | | | | | | |l IH|l IH] using object_ind_items;
    intros lo c [|fuel] Hf; try lia; destruct c; try done; cbn [denotes load_object]; try (by intros ->).
  - by intros [-> ->].
  - by intros [-> ->].
  - intros [-> Ht]. rewrite zlen_cons, Z.add_comm in Ht. by rewrite Ht.
  - intros [-> [Hs|(b & cells & -> & Hr & Hc & Hl)]].
    + rewrite Hs. destruct l; [done|rewrite zlen_cons in Hs; pose proof (zlen_nonneg l); lia].
    + rewrite all2_forall2 in Hl. pose proof (Forall2_length _ _ _ Hl) as Hlen.
      destruct (Z.eqb_spec (zlen l) 0) as [Hs|_].
      { destruct l; [done|rewrite zlen_cons in Hs; pose proof (zlen_nonneg l); lia]. }
      simpl. rewrite Hc. simpl. unfold zlen. rewrite Hlen, Z.leb_refl, Nat2Z.id, <- Hlen, firstn_all.
      rewrite (loads_items m z hi b cells _ fuel IH ltac:(lia) Hl). done.
  - intros [-> [Hs|(b & cells & -> & Hr & Hc & Hl)]].
    + rewrite Hs. destruct l; [done|rewrite zlen_cons in Hs; pose proof (zlen_nonneg l); lia].
    + rewrite all2_pairs_flat in Hl. pose proof (Forall2_length _ _ _ Hl) as Hlen.
      rewrite length_flat in Hlen.
      destruct (Z.eqb_spec (zlen l) 0) as [Hs|_].
      { destruct l; [done|rewrite zlen_cons in Hs; pose proof (zlen_nonneg l); lia]. }
      simpl. rewrite Hc. simpl. unfold zlen.
      replace (Z.of_nat (length cells)) with (2 * Z.of_nat (length l)) by lia.
      rewrite Z.leb_refl. replace (Z.to_nat (2 * Z.of_nat (length l))) with (length cells) by lia.
      rewrite firstn_all. apply flat_forall in IH.
      rewrite (loads_items m z hi b cells _ fuel IH ltac:(lia) Hl). simpl. by rewrite pairs_flat.
Qed.

(** ** The visitor and the tree *)

Section refine.
Context (m : memory).

(** The cell of an array or map that is open. *)
Definition container (f : frame) (p : option nat) : cell :=
  if is_map f then c_map p (frame_size f) else c_array p (frame_size f).

(** A frame whose items fill block [b] below [hi], and its parent cell. *)
Definition filling (v : create_object_visitor) (hi b : nat) (q : object_ptr) (f : frame) : Prop :=
  0 < frame_size f /\ (b < hi)%nat /\ cell_at v q = Some (container f (Some b)) /\
  exists cells, arrays (m_zone v) !! b = Some cells /\ zlen cells = capacity f /\
    Forall2 (denotes m (m_zone v) (S b) hi) (take (length (frame_items f)) cells) (frame_items f).

(** The pointers of the stack and the frames. *)
Fixpoint related (v : create_object_visitor) (hi : nat) (ps : list object_ptr) (fs : list frame) : Prop :=
  match ps, fs with
  | [p], [] => p = Obj
  | p :: (q :: _) as ps', f :: fs' =>
      match p with
      | Null =>
          frame_size f = 0 /\ frame_items f = [] /\ cell_at v q = Some (container f None) /\ related v hi ps' fs'
      | Item b i => i = length (frame_items f) /\ filling v hi b q f /\ related v b ps' fs'
      | Obj => False
      end
  | _, _ => False
  end.

(** The first block that what is put at a pointer may use. *)
Definition lowest (p : object_ptr) : nat := match p with Item b _ => S b | _ => O end.

Definition blocks (v : create_object_visitor) : nat := length (arrays (m_zone v)).

(** The cell at the back of the stack holds the object that was read last. *)
Definition placed (v : create_object_visitor) (o : option object) : Prop :=
  match o, m_objects v with
  | None, _ => True
  | Some o, p :: _ => exists c, cell_at v p = Some c /\ denotes m (m_zone v) (lowest p) (blocks v) c o
  | _, _ => False
  end.

Definition builds (v : create_object_visitor) (t : tree) : Prop :=
  limits v = m_limit t /\ related v (blocks v) (m_objects v) (frames t) /\ placed v (value t).

Lemma related_nonempty v hi ps fs : related v hi ps fs -> exists p ps', ps = p :: ps'.
Proof. destruct ps, fs; simpl; try done; eauto. Qed.

Lemma related_length v hi ps fs : related v hi ps fs -> zlen ps = zlen fs + 1.
Proof.
  revert hi fs. induction ps as [|p ps IH]; intros hi [|f fs] Hr; try done.
  - by destruct ps.
  - rewrite !zlen_cons. destruct ps as [|q ps]; [done|]. destruct p as [| |b i]; [done| |];
      simpl in Hr; [destruct Hr as (_ & _ & _ & Hr)|destruct Hr as (_ & _ & Hr)];
      apply IH in Hr; lia.
Qed.

Lemma related_lowest v hi p ps fs : related v hi (p :: ps) fs -> (lowest p <= hi)%nat.
Proof.
  destruct p as [| |b i]; simpl; [lia..|]. destruct ps, fs; try done. intros (_ & (_ & Hb & _) & _). lia.
Qed.

(** The blocks from [hi] on do not matter, and neither do more texts. *)
Lemma cell_at_frame v v' hi p :
  (lowest p <= hi)%nat -> m_obj v' = m_obj v ->
  (forall b, (b < hi)%nat -> arrays (m_zone v') !! b = arrays (m_zone v) !! b) ->
  cell_at v' p = cell_at v p.
Proof. intros Hp Ho Hb. destruct p; simpl in *; [by rewrite Ho|done|]. by rewrite Hb by lia. Qed.

Lemma related_mono v v' hi hi' ps fs :
  chars (m_zone v) `prefix_of` chars (m_zone v') -> m_obj v' = m_obj v ->
  (forall b, (b < hi)%nat -> arrays (m_zone v') !! b = arrays (m_zone v) !! b) -> (hi <= hi')%nat ->
  related v hi ps fs -> related v' hi' ps fs.
Proof.
  intros Hc Ho. revert hi hi' fs. induction ps as [|p ps IH]; intros hi hi' [|f fs] Hb Hhi Hr; try done.
  destruct ps as [|q ps]; [done|]. destruct p as [| |b i]; [done| |].
  - destruct Hr as (? & ? & Hq & Hr). pose proof (related_lowest _ _ _ _ _ Hr).
    split; [done|]. split; [done|]. split; [|by apply (IH hi)].
    by rewrite (cell_at_frame v v' hi).
  - destruct Hr as (Hi & (Hs & Hbh & Hq & cells & Hl & Hz & Hf) & Hr).
    pose proof (related_lowest _ _ _ _ _ Hr).
    split; [done|]. split; [|apply (IH b b); [|done|exact Hr]; intros; apply Hb; lia].
    split; [done|]. split; [lia|]. split; [by rewrite (cell_at_frame v v' hi) by (done || lia)|].
    exists cells. split; [by rewrite Hb by lia|]. split; [done|].
    eapply Forall2_impl; [exact Hf|]. intros c o. apply denotes_kept; [done|lia|done|].
    intros b' Hb'. apply Hb. lia.
Qed.

(** *** Writing at the back of the stack *)

Lemma put_cell_fields p c v :
  limits (put_cell p c v) = limits v /\ m_objects (put_cell p c v) = m_objects v /\
  m_func (put_cell p c v) = m_func v /\ chars (m_zone (put_cell p c v)) = chars (m_zone v) /\
  blocks (put_cell p c v) = blocks v.
Proof. destruct p; simpl; split_and!; try done. unfold blocks. simpl. by rewrite length_alter. Qed.

Lemma cell_at_put p c c0 v : cell_at v p = Some c0 -> cell_at (put_cell p c v) p = Some c.
Proof.
  destruct p as [| |b i]; simpl; [done|done|]. intros E. rewrite list_lookup_alter.
  destruct (arrays (m_zone v) !! b) as [cells|]; [|done]. simpl in *.
  rewrite decide_True by done. simpl. apply list_lookup_insert_eq. by eapply lookup_lt_Some.
Qed.

(** Only the block that is written changes. *)
Lemma put_cell_other b i c v b' :
  b <> b' -> arrays (m_zone (put_cell (Item b i) c v)) !! b' = arrays (m_zone v) !! b'.
Proof. intros Hb. simpl. by rewrite list_lookup_alter_ne. Qed.

Lemma related_put v hi p ps fs c :
  related v hi (p :: ps) fs -> related (put_cell p c v) hi (p :: ps) fs.
Proof.
  destruct fs as [|f fs]; [by destruct ps|]. destruct ps as [|q ps]; [done|].
  destruct p as [| |b i]; [done..|]. intros (-> & (Hs & Hb & Hq & cells & Hc & Hz & Hf) & Hr).
  pose proof (related_lowest _ _ _ _ _ Hr) as Hlow.
  set (v' := put_cell _ c v).
  assert (forall b', (b' < b)%nat -> arrays (m_zone v') !! b' = arrays (m_zone v) !! b') as Hbelow
    by (intros b' Hb'; apply put_cell_other; lia).
  split; [done|]. split; [|by apply (related_mono v v' b b)].
  split; [done|]. split; [done|]. split; [by rewrite (cell_at_frame v v' b)|].
  exists (<[length (frame_items f):=c]> cells). split; [simpl; by rewrite list_lookup_alter, decide_True, Hc by done|].
  split; [by unfold zlen; rewrite length_insert|]. rewrite take_insert_ge by done.
  eapply Forall2_impl; [exact Hf|]. intros c' o. apply denotes_kept; [done|done|done|].
  intros b' Hb'. apply put_cell_other. lia.
Qed.

(** There is a cell where there is room. *)
Lemma back_cell v hi ps fs :
  related v hi ps fs -> room fs = true -> exists p ps' c0, ps = p :: ps' /\ cell_at v p = Some c0.
Proof.
  destruct fs as [|f fs]; [destruct ps as [|p [|q ps]]; try done; intros ->; simpl; eauto|].
  destruct ps as [|p [|q ps]]; [done..|]. unfold room, capacity. destruct p as [| |b i]; [done| |].
  - intros (-> & -> & _). by destruct (is_map f).
  - intros (-> & (_ & _ & _ & cells & Hc & Hz & _) & _) Hroom%Z.ltb_lt. unfold capacity, zlen in *.
    destruct (cells !! length (frame_items f)) as [c0|] eqn:E; [|apply lookup_ge_None in E; lia].
    exists (Item b (length (frame_items f))), (q :: ps), c0. split; [done|]. simpl. by rewrite Hc.
Qed.

(** An object is put at the back of the stack. *)
Lemma builds_put v t p ps c o :
  builds v t -> m_objects v = p :: ps -> is_Some (cell_at v p) ->
  denotes m (m_zone (put_cell p c v)) (lowest p) (blocks v) c o ->
  builds (put_cell p c v) (Tree (m_limit t) (Some o) (frames t)).
Proof.
  intros (Hl & Hr & _) Ho [c0 Hc] Hd. destruct (put_cell_fields p c v) as (El & Es & _ & _ & Eb).
  split; [by rewrite El|]. split.
  - rewrite Es, Eb, Ho. apply related_put. by rewrite <- Ho.
  - unfold placed. simpl. rewrite Es, Ho, Eb. exists c. split; [by eapply cell_at_put|done].
Qed.

(** *** The operations *)

Abbreviation vsim := (MsgStream.vsim builds).

Lemma builds_room v t :
  builds v t -> value t = None -> room (frames t) = true ->
  exists p ps c0, m_objects v = p :: ps /\ cell_at v p = Some c0.
Proof. intros (_ & Hr & _) _ Hroom. by eapply back_cell. Qed.

(** Values without a text. *)
Lemma sim_fill c o : (forall z lo hi, denotes m z lo hi c o) -> vsim (fill c) (place o).
Proof.
  intros Hd v t Hb. unfold place. destruct (value t) eqn:Ev; [done|]. destruct (room (frames t)) eqn:Hroom; [|done].
  destruct (builds_room v t Hb Ev Hroom) as (p & ps & c0 & Ho & Hc).
  exists (put_cell p c v). split; [|by eapply builds_put].
  unfold fill, back, write_cell, mbind, M_bind. by rewrite Ho, Hc.
Qed.

(** More texts. *)
Lemma builds_more v t z r :
  builds v t -> arrays z = arrays (m_zone v) -> chars (m_zone v) `prefix_of` chars z ->
  builds (set_referenced r (set_zone z v)) t.
Proof.
  intros (Hl & Hr & Hp) Ha Hc. set (v' := set_referenced r (set_zone z v)).
  assert (forall p, cell_at v' p = cell_at v p) as Hcell by (intros []; simpl; by rewrite ?Ha).
  assert (blocks v' = blocks v) as Hbl by (unfold blocks; simpl; by rewrite Ha).
  split; [done|]. split.
  - rewrite Hbl. simpl. eapply related_mono; [exact Hc|done| |done|exact Hr]. intros b _. simpl. by rewrite Ha.
  - unfold placed in *. destruct (value t) as [o|]; [|done]. simpl. destruct (m_objects v) as [|p ps]; [done|].
    destruct Hp as (c & E & Hd). exists c. rewrite Hcell, Hbl. split; [done|].
    eapply denotes_kept; [exact Hc|done|done| |exact Hd]. intros b _. simpl. by rewrite Ha.
Qed.

Lemma mem_read_at m' a s : mem_at m' a s -> mem_read m' a (length s) = Some s.
Proof.
  intros Hm. unfold mem_read. apply mapM_Some. apply Forall2_same_length_lookup_2.
  - by rewrite length_seq.
  - intros i x y Hx Hy. apply lookup_seq in Hx as [-> Hi]. simpl. by apply Hm.
Qed.

(** What a text that was copied, or can be referenced, stands for. *)
Lemma load_referenced m' z n s : readable m' n s -> load_text m' z (Referenced n) (zlen s) = Some s.
Proof.
  unfold zlen. intros [->|(a & -> & Ha)]; simpl; [|rewrite Nat2Z.id; by apply mem_read_at].
  by destruct n.
Qed.

Lemma load_copied m' z s :
  load_text m' (Zone (arrays z) (chars z ++ [s])) (Copied (length (chars z))) (zlen s) = Some s.
Proof. simpl. rewrite lookup_app_r, Nat.sub_diag by done. simpl. by rewrite Z.eqb_refl. Qed.

(** Only the zone and the flag change before the cell is written. *)
Lemma cell_at_more z r v p : arrays z = arrays (m_zone v) -> cell_at (set_referenced r (set_zone z v)) p = cell_at v p.
Proof. intros Ha. destruct p; simpl; by rewrite ?Ha. Qed.

Lemma run_chars type op what text n s v p ps c0 :
  (op (limits v) <? zlen s) = false -> m_objects v = p :: ps -> cell_at v p = Some c0 ->
  exists z r ptr,
    visit_chars type op what text n (zlen s) s v =
      (Ok true, put_cell p (text ptr (zlen s)) (set_referenced r (set_zone z v))) /\
    arrays z = arrays (m_zone v) /\ chars (m_zone v) `prefix_of` chars z /\
    (forall m', readable m' n s \/ r = false -> load_text m' z ptr (zlen s) = Some s) /\
    (r = false -> m_referenced v = false).
Proof.
  intros Hlim Ho Hc. unfold visit_chars. rewrite bind_get, Hlim.
  rewrite (bind_ok back _ v p v) by (unfold back; by rewrite Ho).
  destruct (match m_func v with Some f => f type (zlen s) | None => false end).
  - exists (m_zone v), true, (Referenced n).
    split_and!; [|done|done|intros m' [?|?]; [by apply load_referenced|done]|done].
    pose proof (cell_at_more (m_zone v) true v p eq_refl) as E. rewrite Hc in E.
    replace (set_referenced true (set_zone (m_zone v) v)) with (set_referenced true v) in * by (by destruct v).
    unfold mbind, M_bind. simpl. unfold write_cell. by rewrite E.
  - set (z := Zone (arrays (m_zone v)) (chars (m_zone v) ++ [s])).
    exists z, (m_referenced v), (Copied (length (chars (m_zone v)))).
    split_and!; [|done|by eexists|intros; apply load_copied|done].
    pose proof (cell_at_more z (m_referenced v) v p eq_refl) as E. rewrite Hc in E.
    replace (set_referenced (m_referenced v) (set_zone z v)) with (set_zone z v) in * by (by destruct v).
    unfold mbind, M_bind, copy_text. fold z. unfold write_cell. by rewrite E.
Qed.

Lemma builds_chars v t text s o p ps c0 z r ptr :
  builds v t -> arrays z = arrays (m_zone v) -> chars (m_zone v) `prefix_of` chars z ->
  load_text m z ptr (zlen s) = Some s -> m_objects v = p :: ps -> cell_at v p = Some c0 ->
  (forall z lo hi p, load_text m z p (zlen s) = Some s -> denotes m z lo hi (text p (zlen s)) o) ->
  builds (put_cell p (text ptr (zlen s)) (set_referenced r (set_zone z v)))
    (Tree (m_limit t) (Some o) (frames t)).
Proof.
  intros Hb Ha Hch Hload Ho Hc Hd.
  eapply builds_put; [by apply builds_more|done|by rewrite cell_at_more, Hc|].
  apply Hd. eapply load_text_mono; [|exact Hload].
  destruct (put_cell_fields p (text ptr (zlen s)) (set_referenced r (set_zone z v))) as (_ & _ & _ & E & _).
  by rewrite E.
Qed.

(** *** Arrays and maps *)

(** A new block for a frame, and its container at the back of the stack. *)
Definition opened (map : bool) (n : Z) (v : create_object_visitor) : create_object_visitor :=
  let v1 := set_zone (Zone (arrays (m_zone v) ++ [replicate (Z.to_nat (if map then n * 2 else n * 1)) c_uninitialized])
                           (chars (m_zone v))) v in
  if n =? 0 then v else v1.

Lemma opened_below map n v b : (b < blocks v)%nat -> arrays (m_zone (opened map n v)) !! b = arrays (m_zone v) !! b.
Proof. intros Hb. unfold opened. destruct (n =? 0); [done|]. simpl. by rewrite lookup_app_l. Qed.

Lemma opened_fields map n v :
  limits (opened map n v) = limits v /\ m_objects (opened map n v) = m_objects v /\
  m_obj (opened map n v) = m_obj v /\ chars (m_zone (opened map n v)) = chars (m_zone v).
Proof. unfold opened. by destruct (n =? 0). Qed.

(** The pointer that is pushed, and the stack of frames. *)
Lemma related_opened (map : bool) n v p ps fs :
  0 <= n -> related v (blocks v) (p :: ps) fs -> is_Some (cell_at v p) ->
  let ptr := if n =? 0 then None else Some (blocks v) in
  let v' := put_cell p (if map then c_map ptr n else c_array ptr n) (opened map n v) in
  let item := match ptr with Some b => Item b 0 | None => Null end in
  cell_at (opened map n v) p = cell_at v p /\
  related v' (blocks v') (item :: p :: ps) (Frame map n [] :: fs).
Proof.
  intros Hn Hr [c0 Hc] ptr v' item. pose proof (related_lowest _ _ _ _ _ Hr) as Hlow.
  destruct (opened_fields map n v) as (_ & _ & Eo & Ech).
  assert (cell_at (opened map n v) p = cell_at v p) as Hcell
    by (apply (cell_at_frame _ _ (blocks v)); [done|done|intros; by apply opened_below]).
  assert (related (opened map n v) (blocks v) (p :: ps) fs) as Hr1.
  { apply (related_mono v (opened map n v) (blocks v) (blocks v)); [by rewrite Ech|done| |done|exact Hr].
    intros. by apply opened_below. }
  assert (blocks v' = blocks (opened map n v)) as Hbl by apply put_cell_fields.
  assert (cell_at v' p = Some (container (Frame map n []) ptr)) as Hcont.
  { unfold v'. erewrite cell_at_put; [by destruct map|]. by rewrite Hcell. }
  split; [done|]. rewrite Hbl. unfold opened, item, ptr in *. destruct (Z.eqb_spec n 0) as [->|Hnz].
  - split_and!; try done. by apply related_put.
  - split; [done|]. split; [|by apply related_put]. split; [simpl; lia|].
    split; [unfold blocks; simpl; rewrite length_app; simpl; lia|]. split; [done|].
    exists (replicate (Z.to_nat (if map then n * 2 else n * 1)) c_uninitialized).
    split; [|split; [|by constructor]].
    + destruct p as [| |b i]; simpl; try (by rewrite lookup_app_r, Nat.sub_diag).
      rewrite list_lookup_alter_ne by (simpl in Hlow; lia). by rewrite lookup_app_r, Nat.sub_diag.
    + unfold zlen, capacity. rewrite length_replicate. destruct map; simpl; lia.
Qed.

(** The stack of pointers is not what cells stand for. *)
Lemma related_objects v hi ps fs l : related v hi ps fs -> related (set_objects l v) hi ps fs.
Proof. by apply related_mono. Qed.

Lemma builds_push v t item p ps f :
  related v (blocks v) (item :: p :: ps) (f :: frames t) ->
  limits v = m_limit t /\ m_objects v = p :: ps -> 
  builds (set_objects (item :: m_objects v) v) (Tree (m_limit t) None (f :: frames t)).
Proof. intros Hr (Hl & Ho). split; [done|]. split; [|done]. rewrite Ho. by apply related_objects. Qed.

Lemma sim_start (map : bool) op what k n :
  k = (if map then sizeof_object_kv else sizeof_object) ->
  vsim (start_items op what k (if map then 2 else 1) (if map then c_map else c_array) n)
    (start_frame map op n what).
Proof.
  intros Hk v t Hb. pose proof Hb as (Hl & Hr & Hp). unfold start_frame.
  destruct (Z.leb_spec 0 n); [|done]. destruct (Z.ltb_spec n (2 ^ 32)); [|done]. simpl.
  unfold sized, start_items. rewrite !bind_get, <- Hl.
  destruct (_ <? n); [by exists v|]. rewrite !bind_get, (related_length _ _ _ _ Hr), <- Hl.
  destruct (_ <? _); [by exists v|]. unfold open_frame.
  destruct (value t) eqn:Ev; [done|]. destruct (room (frames t)) eqn:Hroom; [|done].
  destruct (builds_room v t Hb Ev Hroom) as (p & ps & c0 & Ho & Hc). rewrite Ho in Hr.
  destruct (related_opened map n v p ps (frames t)) as [Hcell Hr']; [done|done|by rewrite Hc|].
  rewrite (bind_ok back _ v p v) by (unfold back; by rewrite Ho).
  set (ptr := if n =? 0 then None else Some (blocks v)) in *.
  assert ((if n =? 0 then mret None
    else let size := u64 (n * k) in if negb (size / k =? n) then raise what
         else b ← allocate_objects (n * (if map then 2 else 1)); mret (Some b)) v
    = (Ok ptr, opened map n v)) as Ha.
  { unfold ptr, opened. destruct (n =? 0); [done|]. cbv zeta.
    assert (u64 (n * k) / k = n) as ->.
    { assert (u64 (n * k) = n * k) as ->
        by (apply wrap_small; subst k; unfold sizeof_object, sizeof_object_kv; destruct map; lia).
      apply Z.div_mul. subst k. by destruct map. }
    rewrite Z.eqb_refl. by destruct map. }
  rewrite (bind_ok _ _ _ _ _ Ha). unfold mbind at 1, M_bind at 1. unfold write_cell. rewrite Hcell, Hc.
  eexists. split; [done|].
  replace ((if map then c_map else c_array) ptr n) with (if map then c_map ptr n else c_array ptr n) by (by destruct map).
  apply (builds_push _ t _ p ps); [exact Hr'|].
  destruct (put_cell_fields p (if map then c_map ptr n else c_array ptr n) (opened map n v)) as (E & E' & _).
  destruct (opened_fields map n v) as (E1 & E1' & _). by rewrite E, E', E1, E1', Ho, Hl.
Qed.

Lemma sim_next : vsim next_item end_item.
Proof.
  intros v [lim [o|] [|f fs]] Hb; try done. destruct Hb as (Hl & Hr & Hp). simpl in Hl, Hr, Hp.
  unfold end_item, next_item. cbn [value frames m_limit]. unfold placed in Hp.
  destruct (m_objects v) as [|p ps] eqn:Ho; [done|]. destruct Hp as (c & Hc & Hd).
  destruct ps as [|q ps]; [done|]. destruct p as [| |b i]; [done..|].
  destruct Hr as (-> & (Hs & Hbh & Hq & cells & Hcells & Hz & Hf) & Hr). simpl in Hc. rewrite Hcells in Hc.
  eexists. split; [done|]. split; [done|]. split; [|done].
  cbn [m_objects set_objects frames]. change (blocks (set_objects _ v)) with (blocks v).
  apply related_objects. split; [cbn; rewrite length_app; simpl; lia|]. split; [|done].
  split; [done|]. split; [done|]. split; [done|]. exists cells. split; [done|]. split; [done|].
  cbn [frame_items]. rewrite length_app, Nat.add_1_r. erewrite take_S_r by (exact Hc).
  apply Forall2_app; [done|]. by constructor.
Qed.

Lemma flat_pairs n l : length l = (2 * n)%nat -> flat (pairs l) = l.
Proof.
  revert l. induction n as [|n IH]; intros [|k [|v l]] Hl; simpl in *; try lia; [done|].
  rewrite IH; [done|lia].
Qed.

(** The container of a frame that is complete. *)
Lemma container_denotes v b f lo :
  forall cells, arrays (m_zone v) !! b = Some cells -> zlen cells = capacity f ->
  zlen (frame_items f) = capacity f -> (lo <= b < blocks v)%nat -> 0 <= frame_size f ->
  Forall2 (denotes m (m_zone v) (S b) (blocks v)) cells (frame_items f) ->
  denotes m (m_zone v) lo (blocks v) (container f (Some b))
    (if is_map f then MAP (pairs (frame_items f)) else ARRAY (frame_items f)).
Proof.
  intros cells Hc Hz Hi Hb Hn Hf. unfold container, capacity in *. destruct (is_map f); simpl.
  - assert (length (frame_items f) = (2 * Z.to_nat (frame_size f))%nat) as Hlen by (unfold zlen in Hi; lia).
    split; [unfold zlen; rewrite (pairs_length _ _ Hlen); lia|]. right. exists b, cells.
    split_and!; [done|lia|lia|done|]. rewrite all2_pairs_flat. by rewrite (flat_pairs _ _ Hlen).
  - split; [done|]. right. exists b, cells. split_and!; [done|lia|lia|done|]. by rewrite all2_forall2.
Qed.

Lemma sim_close map : vsim pop_back (close_frame map).
Proof.
  intros v [lim [o|] [|f fs]] Hb; try done. destruct Hb as (Hl & Hr & _). simpl in Hl, Hr.
  unfold close_frame, pop_back. cbn [value frames m_limit].
  destruct (eqb (is_map f) map) eqn:Hm; [|done]. apply eqb_prop in Hm. subst map.
  destruct (Z.eqb_spec (zlen (frame_items f)) (capacity f)) as [Hfull|]; [|done]. simpl.
  destruct (m_objects v) as [|p [|q ps]] eqn:Ho; [done..|].
  eexists. split; [done|]. destruct p as [| |b i]; [done| |].
  - destruct Hr as (Hs & Hi & Hq & Hr). split; [done|]. split; [by apply related_objects|].
    unfold placed. cbn [value m_objects set_objects]. exists (container f None). split; [by destruct q|].
    unfold container. rewrite Hi. by destruct (is_map f); simpl; rewrite Hs; (split; [done|]); left.
  - destruct Hr as (-> & (Hs & Hbh & Hq & cells & Hc & Hz & Hf) & Hr).
    pose proof (related_lowest _ _ _ _ _ Hr) as Hlow.
    split; [done|]. split.
    + apply related_objects. cbn [frames m_objects set_objects]. change (blocks (set_objects _ v)) with (blocks v).
      apply (related_mono v v b (blocks v)); [done|done|done|lia|done].
    + unfold placed. cbn [value m_objects set_objects]. exists (container f (Some b)). split; [by destruct q|].
      eapply (container_denotes v b f (lowest q)); [exact Hc|done|done|lia|lia|].
      assert (length (frame_items f) = length cells) as Hlen by (unfold zlen in *; lia).
      by rewrite Hlen, firstn_all in Hf.
Qed.

End refine.

(** ** The flag

    [referenced] says whether the object may point into the buffer that is parsed,
    [current]; some memory is held for it anyway.  What is built does not depend
    on anything else. *)
Definition agree (P : Z -> Prop) (m m' : memory) : Prop := forall a, P a -> m' a = m a.

Section flag.
Context (m : memory) (held current : Z -> Prop).

Definition region (v : create_object_visitor) (a : Z) : Prop :=
  held a \/ (m_referenced v = true /\ current a).

Definition flagged (v : create_object_visitor) (t : tree) : Prop :=
  forall m', agree (region v) m m' -> builds m' v t.

(** A text of the buffer that is parsed. *)
Definition readable_in (n : pointer) (s : bytes) : Prop :=
  s = [] \/ exists a, n = Some a /\ mem_at m a s /\ forall i, (i < length s)%nat -> current (a + Z.of_nat i).

Lemma readable_agree n s m' : readable_in n s -> agree current m m' -> readable m' n s.
Proof.
  intros [->|(a & -> & Ha & Hc)] Hm; [by left|right]. exists a. split; [done|]. intros i b Hi.
  rewrite Hm; [by apply Ha|]. apply Hc. by eapply lookup_lt_Some.
Qed.

Lemma flagged_builds v t : flagged v t -> builds m v t.
Proof. intros Hf. apply Hf. by intros a _. Qed.
End flag.

(** The flag is left alone. *)
Definition unflagged {A} (op : MV A) : Prop := forall b, keeps (fun v => m_referenced v = b) op.

Lemma unflagged_write p c : unflagged (write_cell p c).
Proof. intros b v Hv. unfold write_cell. destruct (cell_at v p); [|done]. by destruct p. Qed.

Lemma unflagged_back : unflagged back.
Proof. intros b v Hv. unfold back. by destruct (m_objects v). Qed.

Lemma unflagged_fill c : unflagged (fill c).
Proof.
  intros b. apply keeps_bind; [apply unflagged_back|intros p].
  apply keeps_bind; [apply unflagged_write|intros _; apply keeps_ret].
Qed.

Lemma unflagged_start op what k j container n : unflagged (start_items op what k j container n).
Proof.
  intros b. unfold start_items. apply keeps_bind_get. intros v Hv.
  destruct (_ <? _); [done|]. destruct (_ <? _); [done|].
  refine (keeps_bind (fun v => m_referenced v = b) _ _ (unflagged_back b) _ v Hv). intros p. apply keeps_bind.
  - destruct (n =? 0); [apply keeps_ret|]. cbv zeta. destruct (negb _); [apply keeps_raise|].
    apply keeps_bind; [by intros ? ?|intros a; apply keeps_ret].
  - intros a. apply keeps_bind; [apply unflagged_write|intros _].
    apply keeps_bind; [by apply keeps_modify|intros _; apply keeps_ret].
Qed.

Section flag_sim.
Context (m : memory) (held current : Z -> Prop).
Abbreviation flagged := (flagged m held current).
Abbreviation readable_in := (readable_in m current).

Lemma flag_sim {A} (op1 : MV A) (op2 : M tree A) :
  (forall m, vsim (builds m) op1 op2) -> unflagged op1 -> vsim flagged op1 op2.
Proof.
  intros Hop Hflag v t Hm. pose proof (Hop m v t (flagged_builds _ _ _ _ _ Hm)) as Hsim.
  specialize (Hflag _ v eq_refl).
  destruct (op2 t) as [[a|e|w] t'] eqn:E2; [| |done]; destruct Hsim as (v' & E & _);
    rewrite E in Hflag; simpl in Hflag; exists v'; (split; [done|]); intros m' Hr;
    unfold region in Hr; rewrite Hflag in Hr;
    pose proof (Hop m' v t (Hm m' Hr)) as Hsim; rewrite E2, E in Hsim;
    by destruct Hsim as (v'' & [= <-] & Hb'').
Qed.

Lemma flag_chars type op what text n s o :
  readable_in n s ->
  (forall m z lo hi p, load_text m z p (zlen s) = Some s -> denotes m z lo hi (text p (zlen s)) o) ->
  vsim flagged (visit_chars type op what text n (zlen s) s) (sized op (zlen s) what (place o)).
Proof.
  intros Hn Hd v t Hm. pose proof (flagged_builds _ _ _ _ _ Hm) as Hb. pose proof Hb as (Hl & _).
  unfold sized. rewrite bind_get, <- Hl. destruct (_ <? _) eqn:Hlim.
  { exists v. split; [|done]. unfold visit_chars. by rewrite bind_get, Hlim. }
  unfold place. destruct (value t) eqn:Ev; [done|]. destruct (room (frames t)) eqn:Hroom; [|done].
  destruct (builds_room m v t Hb Ev Hroom) as (p & ps & c0 & Ho & Hc).
  destruct (run_chars type op what text n s v p ps c0 Hlim Ho Hc)
    as (z & r & ptr & -> & Ha & Hch & Hload & Hr).
  eexists. split; [done|]. intros m' Hf.
  assert (m_referenced (put_cell p (text ptr (zlen s)) (set_referenced r (set_zone z v))) = r) as Er by (by destruct p).
  unfold region in Hf. rewrite Er in Hf.
  apply (builds_chars m' v t text s o p ps c0 z r ptr); auto.
  - apply Hm. intros a [Hh|[Hv Hcur]]; apply Hf; [by left|]. destruct r; [by right|by rewrite Hr in Hv].
  - apply Hload. destruct r; [left|by right]. eapply readable_agree; [exact Hn|]. intros a Hcur. apply Hf. by right.
Qed.

Lemma flag_start (map : bool) op what k n :
  k = (if map then sizeof_object_kv else sizeof_object) ->
  vsim flagged (start_items op what k (if map then 2 else 1) (if map then c_map else c_array) n)
    (start_frame map op n what).
Proof. intros Hk. apply flag_sim; [intros; by apply sim_start|apply unflagged_start]. Qed.

Lemma flag_ext n n2 s :
  readable_in n s -> vsim flagged (visit_ext n (zlen s) s) (visit_ext n2 (zlen s) s).
Proof.
  intros Hn. simpl. destruct (Z.ltb_spec (zlen s) (2 ^ 32)) as [Hz|]; [|done]. destruct s as [|type d].
  - intros v t Hm. pose proof (flagged_builds _ _ _ _ _ Hm) as (Hl & _). unfold sized. rewrite bind_get, <- Hl.
    destruct (_ <? _) eqn:E; [|done]. exists v. split; [|done]. unfold visit_chars. by rewrite bind_get, E.
  - apply (flag_chars type_EXT limit_ext _ (fun p size => c_ext p (u32 (size - 1)))); [done|].
    intros m' z lo hi p Hp. split; [|done]. rewrite zlen_cons in *. pose proof (zlen_nonneg d).
    replace (1 + zlen d - 1) with (zlen d) by lia. apply wrap_small. lia.
Qed.

Lemma flag_next : vsim flagged next_item end_item.
Proof.
  apply flag_sim; [intros; apply sim_next|]. intros b v Hv. unfold next_item.
  by destruct (m_objects v) as [|[] ?].
Qed.

Lemma flag_close map : vsim flagged pop_back (close_frame map).
Proof.
  apply flag_sim; [intros; apply sim_close|]. intros b v Hv. unfold pop_back. by destruct (m_objects v).
Qed.

#[export] Instance object_visitor_builds : Simulation flagged readable_in.
Proof.
  split; intros; try (apply flag_sim; [|apply unflagged_fill]; intros); try (by apply sim_fill);
    try (by intros v t Hb; exists v); try apply flag_next; try apply flag_close.
  - intros m' Hf. destruct (H m' Hf) as (Hl & _). split; [exact Hl|]. by split.
  - simpl. destruct (0 <=? z); by apply sim_fill.
  - by apply flag_chars.
  - by apply flag_chars.
  - by apply flag_ext.
  - by apply (flag_start false).
  - by apply (flag_start true).
Qed.
End flag_sim.

(** ** Unpacking a buffer *)

(** A new visitor is one of an object that is to be read. *)
Lemma new_visitor_builds m held current f limit z :
  flagged m held current (new_visitor f limit z) (Tree limit None []).
Proof. by intros m' _. Qed.

Lemma readable_nil m current n : readable_in m current n [].
Proof. by left. Qed.

Lemma readable_buffer m (current : Z -> Prop) a data p k :
  mem_at m a data -> 0 <= p -> p + k <= len data ->
  (forall q, p <= q < p + k -> current (a + q)) ->
  readable_in m current (Some (a + p)) (bytes_at data p k).
Proof.
  intros Hm Hp Hl Hc. right. exists (a + p). split; [done|]. split.
  - intros i b Hi. unfold bytes_at in Hi.
    apply lookup_take_Some in Hi as [Hi _]. rewrite lookup_drop in Hi. apply Hm in Hi.
    replace (a + p + Z.of_nat i) with (a + Z.of_nat (Z.to_nat p + i)) by lia. done.
  - intros i Hi. replace (a + p + Z.of_nat i) with (a + (p + Z.of_nat i)) by lia. apply Hc.
    unfold bytes_at in Hi. rewrite length_take in Hi. lia.
Qed.

(** What the cell of the whole object stands for. *)
Lemma builds_object m v t o :
  builds m v t -> value t = Some o -> frames t = [] ->
  load_object m (m_zone v) (S (blocks v)) (m_obj v) = Some o.
Proof.
  intros (_ & Hr & Hp) Ho Hf. rewrite Ho in Hp. rewrite Hf in Hr. unfold placed in Hp.
  destruct (m_objects v) as [|p [|q ps]]; [done| |destruct p; done]. simpl in Hr. subst p.
  destruct Hp as (c & [= <-] & Hd). eapply denotes_loads; [|exact Hd]. lia.
Qed.

(** C32 (refinement).  [unpack], on the pointers and blocks of its zone.  From bytes that
    are anything, wherever the buffer is, it throws what the specification throws, or
    leaves in the cell of the object what the bytes stand for, and its offset; it
    never writes or reads through a pointer that is not valid.  And when it says that
    the object does not reference the buffer, the buffer may change or be freed: the
    object is the same in any other memory. *)
Theorem unpack_builds m m_start data start z f limit :
  Forall is_byte data -> len data < 2 ^ 32 -> 0 <= start <= len data -> 0 <= limit_depth limit ->
  mem_at m m_start data ->
  let '(r, v) := unpack_imp m_start data start z f limit in
  match r with
  | Ok (_, q) =>
      exists o, unpack_tree limit data start = Ok (o, q) /\
        load_object m (m_zone v) (S (blocks v)) (m_obj v) = Some o /\
        (m_referenced v = false -> forall m', load_object m' (m_zone v) (S (blocks v)) (m_obj v) = Some o)
  | Throw e => unpack_tree limit data start = Throw e
  | Crash _ => False
  end.
Proof.
  intros Hdata Hsmall Hs Hlim Hm. unfold unpack_imp, unpack_tree.
  pose proof (safe_parse_imp limit Hlim 0 data Hdata Hsmall start Hs) as Hsafe.
  set (nothing := fun _ : Z => False). set (anything := fun _ : Z => True).
  assert (forall p k, 0 <= p -> p + k <= len data ->
    readable_in m anything (Some (m_start + p)) (bytes_at data p k)) as Hread by (intros; by apply readable_buffer).
  pose proof (sim_parse_imp (flagged m nothing anything) (readable_in m anything) (readable_nil m anything)
    0 m_start 0 data start eq_refl Hread _ _ (new_visitor_builds m nothing anything f limit z)) as Hsim.
  destruct (parse_imp 0 data start _) as [[[r q]|e|w] t]; [| |done].
  - destruct Hsafe as (_ & _ & o & -> & _). destruct Hsim as (v & -> & Hf).
    exists o. split; [done|]. split; [eapply builds_object; [by eapply flagged_builds|done|done]|].
    intros Hr m'. eapply builds_object; [apply Hf|done|done]. intros a [[]|[? _]]. congruence.
  - by destruct Hsim as (v & -> & _).
Qed.

(** A map with an array and two texts, one of which is copied and the other one left
    in the buffer at address 1000. *)
Definition a_buffer : bytes := pack (MAP [(STR [97; 98], ARRAY [BIN [1; 2]; NIL; NEGATIVE_INTEGER (-7)])]).

Definition buffer_at (a : Z) (s : bytes) : memory := fun x => if x <? a then None else s !! Z.to_nat (x - a).

Lemma buffer_at_mem a s : mem_at (buffer_at a s) a s.
Proof.
  intros i b Hi. unfold buffer_at. rewrite (proj2 (Z.ltb_ge _ _)) by lia.
  by replace (Z.to_nat (a + Z.of_nat i - a)) with i by lia.
Qed.

Definition only_bin (type : object_type) (size : Z) : bool := match type with type_BIN => true | _ => false end.

Lemma unpack_builds_witness :
  (let '(r, v) := unpack_imp 1000 a_buffer 0 (Zone [] []) (Some only_bin) default_limit in
   r = Ok (PARSE_SUCCESS, 11) /\ m_referenced v = true /\ chars (m_zone v) = [[97; 98]]) /\
  (let '(r, v) := unpack_imp 1000 a_buffer 0 (Zone [] []) (Some only_bin) default_limit in
   match r with
   | Ok (_, q) =>
       exists o, unpack_tree default_limit a_buffer 0 = Ok (o, q) /\
         load_object (buffer_at 1000 a_buffer) (m_zone v) (S (blocks v)) (m_obj v) = Some o /\
         (m_referenced v = false ->
          forall m', load_object m' (m_zone v) (S (blocks v)) (m_obj v) = Some o)
   | Throw e => unpack_tree default_limit a_buffer 0 = Throw e
   | Crash _ => False
   end).
Proof.
  split; [vm_compute; repeat split|].
  apply (unpack_builds (buffer_at 1000 a_buffer) 1000 a_buffer 0 (Zone [] []) (Some only_bin) default_limit);
    [|vm_compute; done|vm_compute; done|vm_compute; done|apply buffer_at_mem].
  repeat constructor; vm_compute; done.
Defined.
