(* ===== verification/MsgSession.v ===== *)
(** * MessagePack: the objects of a stream

    What an unpacker promises, without its buffers: the bytes that are waiting,
    the object that is being read, and [pull], which is [next].  However the
    bytes of a stream are cut into pieces, and whenever [next] is called, the
    objects that come are those of the whole stream.  MsgUnpackerRefines.v shows that
    the unpacker keeps the promise. *)
From S2P Require Import Prelude MsgObject MsgParse MsgStream MsgTree MsgRoundTrip MsgSafety.

(** The bytes that are waiting, with the state of the parser in front of them. *)
Record stream := Stream { s_context : context tree; s_bytes : bytes }.

(** Between two objects. *)
Definition fresh (lim : unpack_limit) : context tree :=
  Context 0 0 MSGPACK_CS_HEADER [] 0 (Tree lim None []).

(** The bytes that were read are forgotten. *)
Definition rebase (c : context tree) : context tree := set_off 0 (set_current 0 c).

Definition new_stream (lim : unpack_limit) : stream := Stream (fresh lim) [].

Definition feed (b : bytes) (s : stream) : stream := Stream (s_context s) (s_bytes s ++ b).

(** The next object, when it is complete. *)
Definition pull : M stream (option object) := fun s =>
  match execute 0 (s_bytes s) (s_context s) with
  | (Ok PARSE_SUCCESS, c) =>
      (Ok (value (visitor c)), Stream (fresh (m_limit (visitor c))) (drop (Z.to_nat (off c)) (s_bytes s)))
  | (Ok PARSE_CONTINUE, c) => (Ok None, Stream (rebase c) (drop (Z.to_nat (off c)) (s_bytes s)))
  | (Ok _, _) => (Crash "no such result", s)
  | (Throw e, _) => (Throw e, s)
  | (Crash w, _) => (Crash w, s)
  end.

(** The objects at the start of some bytes, one behind the other, and the rest. *)
Inductive objects_of (lim : unpack_limit) : bytes -> list object -> bytes -> Prop :=
| objects_nil w : objects_of lim w [] w
| objects_cons w o q os rest :
    unpack_tree lim w 0 = Ok (o, q) -> objects_of lim (drop (Z.to_nat q) w) os rest ->
    objects_of lim w (o :: os) rest.

Section stream.
Context (lim : unpack_limit) (limit_pos : 0 <= limit_depth lim).

(** *** Reading an object in pieces *)

Lemma execute_current {V} `{Visitor V} m_start data (c : context V) :
  off c <= len data -> execute m_start data (set_current (off c) c) = execute m_start data c.
Proof.
  intros Hc. unfold execute. rewrite !bind_get, (proj2 (Z.ltb_ge _ _)) by done.
  cbn [off set_current]. rewrite (proj2 (Z.ltb_ge _ _)) by done. by destruct c.
Qed.

(** Bytes in front make no difference. *)
Lemma execute_rebase (c : context tree) pre y :
  Forall is_byte y -> off c = zlen pre ->
  match execute 0 y (rebase c) with
  | (Ok r, c') =>
      exists c1, execute 0 (pre ++ y) c = (Ok r, c1) /\ rebase c1 = rebase c' /\ off c1 = off c' + zlen pre
  | (Throw e, _) => exists c1, execute 0 (pre ++ y) c = (Throw e, c1)
  | (Crash _, _) => True
  end.
Proof.
  intros Hy Ho. set (c0 := set_current (off c) c).
  rewrite <- (execute_current 0 (pre ++ y) c); [fold c0|unfold len, zlen in *; rewrite length_app; lia].
  pose proof (sim_execute (V1:=tree) (V2:=tree) eq (fun _ _ => True) (fun _ => I) (zlen pre) 0 0 (pre ++ y) y pre
    eq_refl eq_refl (fun _ _ _ _ => I) c0 (rebase c)) as Hsim.
  assert (same eq (zlen pre) c0 (rebase c)) as Hsame by (split_and!; try done; simpl; lia).
  specialize (Hsim Hsame ltac:(simpl; lia)). unfold result in Hsim.
  destruct (execute 0 y (rebase c)) as [[r|e|w] c']; [| |done].
  - destruct Hsim as (r' & c1 & -> & -> & (H1 & H2 & H3 & H4 & H5) & H6). specialize (H6 I).
    exists c1. split_and!; [done| |done]. destruct c1, c'; unfold rebase; simpl in *. by subst.
  - destruct Hsim as (c1 & -> & _). by exists c1.
Qed.

(** [x] came since the last object: what is left of it waits, behind the state the
    parser is in. *)
Definition reading (x : bytes) (s : stream) : Prop :=
  exists x0 z c0, x = x0 ++ z /\ execute 0 x0 (fresh lim) = (Ok PARSE_CONTINUE, c0) /\
  s = Stream (rebase c0) (drop (Z.to_nat (off c0)) x0 ++ z).

Lemma reading_start x : reading x (Stream (fresh lim) x).
Proof. by exists [], x, (fresh lim). Qed.

Lemma reading_feed x s b : reading x s -> reading (x ++ b) (feed b s).
Proof.
  intros (x0 & z & c0 & -> & E & ->). exists x0, (z ++ b), c0. split; [by rewrite app_assoc|].
  split; [done|]. unfold feed. simpl. by rewrite app_assoc.
Qed.

Lemma going_fresh : going lim (fresh lim).
Proof. by exists []. Qed.

Lemma safe_fresh x :
  Forall is_byte x -> len x < 2 ^ 32 ->
  safe refused (execute 0 x) (finishes lim x 0) (fresh lim).
Proof using limit_pos.
  intros Hx Hl. apply (safe_execute lim limit_pos 0 x Hx Hl (fresh lim));
    [apply going_fresh|by left|unfold len; simpl; lia].
Qed.

(** What [unpack] makes of bytes, by the run of the parser. *)
Lemma unpack_tree_execute x o c :
  execute 0 x (fresh lim) = (Ok PARSE_SUCCESS, c) -> value (visitor c) = Some o -> 0 < len x ->
  unpack_tree lim x 0 = Ok (o, off c).
Proof.
  intros E Ho Hx. unfold unpack_tree, parse_imp. rewrite (proj2 (Z.leb_gt _ _)) by done.
  unfold fresh in E. rewrite E. destruct (visitor c) as [l v fs]. simpl in Ho. by rewrite Ho.
Qed.

Lemma unpack_tree_inv x o q :
  unpack_tree lim x 0 = Ok (o, q) -> Forall is_byte x -> len x < 2 ^ 32 ->
  exists c, execute 0 x (fresh lim) = (Ok PARSE_SUCCESS, c) /\ visitor c = Tree lim (Some o) [] /\
    off c = q /\ 0 < q <= len x.
Proof using limit_pos.
  intros E Hx Hl. pose proof (safe_fresh x Hx Hl) as Hs. unfold safe in Hs. unfold unpack_tree, parse_imp in E.
  destruct (len x <=? 0); [done|]. fold (fresh lim) in E.
  destruct (execute 0 x (fresh lim)) as [[[]|e|w] c]; try done.
  destruct Hs as ((_ & o' & Hv & _) & Hoff). exists c. rewrite Hv in *. simpl in *.
  by destruct (off c <? len x); simplify_eq.
Qed.

(** More bytes do not change the object in front. *)
Lemma unpack_tree_more x b o q :
  unpack_tree lim x 0 = Ok (o, q) -> Forall is_byte (x ++ b) -> len (x ++ b) < 2 ^ 32 ->
  unpack_tree lim (x ++ b) 0 = Ok (o, q).
Proof using limit_pos.
  intros E Hxb Hl. pose proof Hxb as [Hx Hb]%Forall_app.
  assert (len x <= len (x ++ b)) as Hle by (unfold len; rewrite length_app; lia).
  destruct (unpack_tree_inv x o q E Hx ltac:(lia)) as (c & Hc & Hv & <- & Hq).
  pose proof (execute_resumed 0 x b Hx Hb (fresh lim) ltac:(by left) ltac:(unfold len; simpl; lia)) as Hr.
  rewrite Hc in Hr. simpl in Hr. apply unpack_tree_execute; [done|by rewrite Hv|lia].
Qed.

(** The run on what is left ends like the run on all bytes of the object. *)
Lemma execute_pieces x0 z c0 :
  Forall is_byte (x0 ++ z) -> len (x0 ++ z) < 2 ^ 32 -> execute 0 x0 (fresh lim) = (Ok PARSE_CONTINUE, c0) ->
  let y := drop (Z.to_nat (off c0)) x0 ++ z in
  match execute 0 (x0 ++ z) (fresh lim) with
  | (Ok r, c) =>
      exists c', execute 0 y (rebase c0) = (Ok r, c') /\ rebase c = rebase c' /\
        drop (Z.to_nat (off c)) (x0 ++ z) = drop (Z.to_nat (off c')) y
  | (Throw e, _) => exists c', execute 0 y (rebase c0) = (Throw e, c')
  | (Crash _, _) => False
  end.
Proof using limit_pos.
  intros Hx Hl E0 y. pose proof Hx as [Hx0 Hz]%Forall_app.
  assert (len (x0 ++ z) = len x0 + len z) as Elen by (unfold len; rewrite length_app; lia).
  assert (0 <= len z) by (unfold len; lia).
  pose proof (safe_fresh x0 Hx0 ltac:(lia)) as H0. unfold safe in H0. rewrite E0 in H0.
  destruct H0 as (Hg & Hok & Ho). set (pre := take (Z.to_nat (off c0)) x0).
  assert (x0 ++ z = pre ++ y) as Exy by (unfold y, pre; by rewrite app_assoc, take_drop).
  assert (zlen pre = off c0) as Ek by (unfold zlen, pre; rewrite length_take; unfold len in Ho; lia).
  assert (Forall is_byte y) as Hy by (rewrite Exy in Hx; by apply Forall_app in Hx as [_ Hx]).
  assert (len y <= len (x0 ++ z)) as Hly by (rewrite Exy; unfold len; rewrite length_app; lia).
  pose proof (execute_rebase c0 pre y Hy (eq_sym Ek)) as Hre. rewrite <- Exy in Hre.
  pose proof (safe_execute lim limit_pos 0 y Hy ltac:(lia) (rebase c0) Hg Hok ltac:(unfold len; simpl; lia)) as Hsy.
  pose proof (safe_fresh (x0 ++ z) Hx Hl) as Hs.
  pose proof (execute_resumed 0 x0 z Hx0 Hz (fresh lim) ltac:(by left) ltac:(unfold len; simpl; lia)) as Hres.
  rewrite E0 in Hres. destruct Hres as [_ Hres]. unfold safe in Hs, Hsy.
  destruct (execute 0 (x0 ++ z) (fresh lim)) as [[r|e|w] c] eqn:E; [| |done]; simpl in Hres;
    destruct (execute 0 y (rebase c0)) as [[r'|e'|w'] c'] eqn:Ey; try done.
  - assert (0 <= off c') as Hc' by (destruct r'; simpl in Hsy; lia || done).
    destruct Hre as (c1 & Ec1 & Hrb & Hoff). rewrite Hres in Ec1. injection Ec1 as <- <-.
    exists c'. split; [done|]. split; [done|]. rewrite Exy, Hoff, drop_app_ge by (unfold zlen; lia).
    f_equal. unfold zlen. lia.
  - destruct Hre as (c1 & Ec1). by rewrite Hres in Ec1.
  - destruct Hre as (c1 & Ec1 & _). destruct Hres as (c2 & Ec2 & _). by rewrite Ec2 in Ec1.
  - destruct Hre as (c1 & Ec1). destruct Hres as (c2 & Ec2 & _). rewrite Ec2 in Ec1. injection Ec1 as <- _. by exists c'.
Qed.

(** [pull], by the bytes that came since the last object. *)
Lemma reading_pull x s :
  Forall is_byte x -> len x < 2 ^ 32 -> reading x s ->
  match pull s with
  | (Ok None, s') => reading x s' /\ fst (execute 0 x (fresh lim)) = Ok PARSE_CONTINUE
  | (Ok (Some o), s') => exists q, unpack_tree lim x 0 = Ok (o, q) /\ reading (drop (Z.to_nat q) x) s'
  | (Throw e, _) => refused e /\ fst (execute 0 x (fresh lim)) = Throw e
  | (Crash _, _) => False
  end.
Proof using limit_pos.
  intros Hx Hl (x0 & z & c0 & -> & E0 & ->). pose proof (execute_pieces x0 z c0 Hx Hl E0) as Hp.
  pose proof (safe_fresh (x0 ++ z) Hx Hl) as Hs. unfold safe in Hs. unfold pull. cbn [s_bytes s_context].
  destruct (execute 0 (x0 ++ z) (fresh lim)) as [[r|e|w] c] eqn:E; [| |done].
  - destruct Hp as (c' & -> & Hrb & Hdrop). assert (visitor c' = visitor c) as Hv by (by destruct c, c'; injection Hrb).
    destruct r; try done.
    + destruct Hs as ((_ & o & Ho & _) & Hq). rewrite Hv, Ho. simpl. exists (off c).
      split; [|rewrite <- Hdrop; apply reading_start].
      apply unpack_tree_execute; [done|by rewrite Ho|lia].
    + split; [|done]. exists (x0 ++ z), [], c. split; [by rewrite app_nil_r|]. split; [done|].
      by rewrite app_nil_r, Hdrop, Hrb.
  - by destruct Hp as (c' & ->).
Qed.

(** *** Sessions *)

(** Bytes come, or [next] is called. *)
Inductive event :=
| Feed (b : bytes)
| Pull.

Fixpoint fed (l : list event) : bytes :=
  match l with
  | [] => []
  | Feed b :: l => b ++ fed l
  | Pull :: l => fed l
  end.

(** The objects that come, one behind the other. *)
Fixpoint session (l : list event) : M stream (list object) :=
  match l with
  | [] => mret []
  | Feed b :: l => _ ← modify (feed b); session l
  | Pull :: l =>
      o ← pull;
      os ← session l;
      mret (match o with Some o => o :: os | None => os end)
  end.

Lemma objects_of_more w os x b :
  objects_of lim w os x -> Forall is_byte (w ++ b) -> len (w ++ b) < 2 ^ 32 ->
  objects_of lim (w ++ b) os (x ++ b).
Proof using limit_pos.
  induction 1 as [w|w o q os x Hu _ IH]; intros Hw Hl; [constructor|].
  pose proof Hw as [Hw1 _]%Forall_app.
  assert (len w <= len (w ++ b)) as Hle by (unfold len; rewrite length_app; lia).
  destruct (unpack_tree_inv w o q Hu Hw1 ltac:(lia)) as (_ & _ & _ & _ & Hq).
  eapply objects_cons; [by apply unpack_tree_more|].
  rewrite drop_app_le by (unfold len in Hq; lia). apply IH.
  - rewrite <- drop_app_le by (unfold len in Hq; lia). by apply Forall_drop.
  - unfold len in *. rewrite length_app, length_drop in *. lia.
Qed.

Lemma objects_of_snoc w os x o q :
  objects_of lim w os x -> unpack_tree lim x 0 = Ok (o, q) ->
  objects_of lim w (os ++ [o]) (drop (Z.to_nat q) x).
Proof.
  induction 1 as [w|w o1 q1 os x Hu _ IH]; intros Ho; [|by econstructor; [|apply IH]].
  eapply objects_cons; [done|constructor].
Qed.

Lemma objects_of_suffix w os x :
  objects_of lim w os x -> exists w1, w = w1 ++ x.
Proof.
  induction 1 as [w|w o q os x _ _ [w1 E]]; [by exists []|].
  exists (take (Z.to_nat q) w ++ w1). by rewrite <- app_assoc, <- E, take_drop.
Qed.

(** What is left, of bytes. *)
Lemma objects_of_rest w os x :
  objects_of lim w os x -> Forall is_byte w -> Forall is_byte x /\ len x <= len w.
Proof.
  intros Ho Hw. destruct (objects_of_suffix w os x Ho) as [w1 ->].
  apply Forall_app in Hw as [_ Hw]. split; [done|]. unfold len. rewrite length_app. lia.
Qed.

Lemma session_objects l : forall w os0 x s,
  Forall is_byte (w ++ fed l) -> len (w ++ fed l) < 2 ^ 32 ->
  objects_of lim w os0 x -> reading x s ->
  match session l s with
  | (Ok os, s') =>
      exists x', objects_of lim (w ++ fed l) (os0 ++ os) x' /\ reading x' s'
  | (Throw e, _) =>
      refused e /\ exists w1 os x', w1 `prefix_of` w ++ fed l /\ objects_of lim w1 (os0 ++ os) x' /\
        fst (execute 0 x' (fresh lim)) = Throw e
  | (Crash _, _) => False
  end.
Proof using limit_pos.
  induction l as [|[b|] l IH]; intros w os0 x s Hw Hl Ho Hr.
  - simpl. exists x. by rewrite !app_nil_r.
  - simpl in *. rewrite bind_modify. rewrite app_assoc in Hw, Hl |- *.
    apply (IH (w ++ b) os0 (x ++ b)); [done|done| |by apply reading_feed].
    apply Forall_app in Hw as [Hw _].
    apply objects_of_more; [done|done|]. unfold len in *. rewrite length_app in Hl. lia.
  - cbn [session fed] in *. pose proof Hw as [Hw1 _]%Forall_app.
    destruct (objects_of_rest w os0 x Ho Hw1) as [Hx Hlx].
    assert (len w <= len (w ++ fed l)) as Hle by (unfold len; rewrite length_app; lia).
    pose proof (reading_pull x s Hx ltac:(lia) Hr) as Hp. unfold mbind at 1, M_bind at 1.
    destruct (pull s) as [[[o|]|e|w'] s']; [| | |done].
    + destruct Hp as (q & Hu & Hr').
      specialize (IH w (os0 ++ [o]) _ s' Hw Hl (objects_of_snoc _ _ _ _ _ Ho Hu) Hr').
      unfold mbind, M_bind. destruct (session l s') as [[os|e|w'] s'']; [| |done].
      * by rewrite <- app_assoc in IH.
      * destruct IH as (He & w1 & os & x' & H1 & H2 & H3). split; [done|].
        exists w1, (o :: os), x'. by rewrite <- app_assoc in H2.
    + destruct Hp as [Hr' _]. specialize (IH w os0 x s' Hw Hl Ho Hr'). unfold mbind, M_bind.
      by destruct (session l s') as [[os|e|w'] s''].
    + destruct Hp as [He Hx']. split; [done|]. exists w, [], x. rewrite app_nil_r.
      split; [by eexists|done].
Qed.

(** *** Packed objects *)

(** An object the receiver takes. *)
Definition accepted (o : object) : Prop := wf o /\ fits lim o /\ depth o <= limit_depth lim.

Lemma unpack_packed o w :
  accepted o -> Forall is_byte w -> unpack_tree lim (pack o ++ w) 0 = Ok (o, zlen (pack o)).
Proof.
  intros (Hwf & Hfits & Hd) Hw.
  pose proof (parse_packed 0 lim [] o w Hwf Hfits Hd ltac:(constructor) Hw) as Hp.
  change (zlen (@nil Z)) with 0 in Hp. simpl app in Hp. unfold unpack_tree. by rewrite Hp.
Qed.

(** A part of an object is none, and is no error. *)
Lemma part_incomplete o part more :
  accepted o -> pack o = part ++ more -> more <> [] -> len (pack o) < 2 ^ 32 ->
  fst (execute 0 part (fresh lim)) = Ok PARSE_CONTINUE /\ forall o' q, unpack_tree lim part 0 <> Ok (o', q).
Proof using limit_pos.
  intros Ho E Hne Hl. assert (Forall is_byte (pack o)) as Hb by (apply pack_bytes, Ho).
  rewrite E in Hb, Hl. pose proof Hb as [Hp Hm]%Forall_app.
  pose proof (unpack_packed o [] Ho ltac:(constructor)) as Hu. rewrite app_nil_r, E in Hu.
  destruct (unpack_tree_inv _ _ _ Hu Hb Hl) as (c & Hc & Hv & Hq & _).
  assert (len part < len (part ++ more)) as Hlt
    by (unfold len; rewrite length_app; destruct more; [done|simpl; lia]).
  pose proof (execute_resumed 0 part more Hp Hm (fresh lim) ltac:(by left) ltac:(unfold len; simpl; lia)) as Hr.
  rewrite Hc in Hr. assert (forall o' q, unpack_tree lim part 0 <> Ok (o', q)) as Hno.
  { intros o' q Hu'. destruct (unpack_tree_inv _ _ _ Hu' Hp ltac:(lia)) as (c' & Hc' & Hv' & Hq' & Hle).
    rewrite Hc' in Hr. simpl in Hr. injection Hr as <-. unfold len, zlen in *. lia. }
  split; [|done]. pose proof (safe_fresh part Hp ltac:(lia)) as Hs. unfold safe in Hs.
  destruct (execute 0 part (fresh lim)) as [[[]|e|w'] c']; try done.
  exfalso. destruct Hs as ((_ & o' & Hv' & _) & Hoff). simpl in Hr. injection Hr as ->.
  unfold len, zlen in *. lia.
Qed.

(** What starts an object is no error. *)
Lemma packed_no_throw x t o w e :
  accepted o -> x ++ t = pack o ++ w -> Forall is_byte (x ++ t) -> len (x ++ t) < 2 ^ 32 ->
  fst (execute 0 x (fresh lim)) <> Throw e.
Proof using limit_pos.
  intros Ho E Hb Hl Ht. pose proof Hb as [Hx Hbt]%Forall_app.
  pose proof Hb as Hb'. rewrite E in Hb'. apply Forall_app in Hb' as [_ Hw].
  pose proof (unpack_packed o w Ho Hw) as Hu. rewrite <- E in Hu.
  destruct (unpack_tree_inv _ _ _ Hu Hb Hl) as (c & Hc & _).
  pose proof (execute_resumed 0 x t Hx Hbt (fresh lim) ltac:(by left) ltac:(unfold len; simpl; lia)) as Hr.
  destruct (execute 0 x (fresh lim)) as [r c']. simpl in Ht. subst r. simpl in Hr. by rewrite Hc in Hr.
Qed.

Lemma packed_bytes objs : Forall accepted objs -> Forall is_byte (concat (map pack objs)).
Proof.
  intros Ho. apply concat_bytes, Forall_map. eapply Forall_impl; [exact Ho|]. intros o (Hwf & _).
  by apply pack_bytes.
Qed.

(** The objects of packed bytes. *)
Lemma objects_of_packed part objs : forall os x,
  Forall accepted objs -> Forall is_byte part ->
  (forall o' q, unpack_tree lim part 0 <> Ok (o', q)) ->
  objects_of lim (concat (map pack objs) ++ part) os x ->
  exists objs', objs = os ++ objs' /\ x = concat (map pack objs') ++ part.
Proof.
  induction objs as [|o objs IH]; intros os x Ho Hp Hno H; simpl in *.
  - inversion H; subst; [by exists []|]. by destruct (Hno o q).
  - apply Forall_cons in Ho as [Ho Hos]. rewrite <- app_assoc in H.
    inversion H as [|? o1 q1 os1 ? Hu Hrest]; subst; [exists (o :: objs); split; [done|]; simpl; by rewrite <- app_assoc|].
    rewrite unpack_packed in Hu; [|done|apply Forall_app; by split; [apply packed_bytes|]].
    injection Hu as <- <-.
    replace (Z.to_nat (zlen (pack o))) with (length (pack o)) in Hrest by (unfold zlen; lia).
    rewrite drop_app_length in Hrest. destruct (IH os1 x Hos Hp Hno Hrest) as (objs' & -> & ->). by exists objs'.
Qed.

(** [pull], where packed objects and a part of another one wait. *)
Lemma pull_packed objs o part more s :
  let x := concat (map pack objs) ++ part in
  Forall accepted objs -> accepted o -> pack o = part ++ more -> more <> [] ->
  Forall is_byte x -> len x < 2 ^ 32 -> len (pack o) < 2 ^ 32 -> reading x s ->
  match fst (pull s) with Ok None => objs = [] | Ok (Some _) => True | _ => False end.
Proof using limit_pos.
  intros x Hobjs Ho E Hne Hx Hl Hlo Hr. pose proof (reading_pull x s Hx ltac:(lia) Hr) as Hp.
  destruct objs as [|o1 objs]; unfold x in *; simpl in *.
  - destruct (pull s) as [[[o1|]|e|w] s']; simpl; try done. destruct Hp as [_ Ht].
    destruct (part_incomplete o part more Ho E Hne Hlo) as [Hc _]. by rewrite Hc in Ht.
  - apply Forall_cons in Hobjs as [Ho1 _]. rewrite <- app_assoc in Hp, Hx, Hl. pose proof Hx as [_ Hx2]%Forall_app.
    destruct (unpack_tree_inv _ _ _ (unpack_packed o1 _ Ho1 Hx2) Hx Hl) as (c & Hc & _). rewrite Hc in Hp.
    destruct (pull s) as [[[o2|]|e|w] s']; simpl in *; try done; by destruct Hp.
Qed.

(** No part of them is an error. *)
Lemma packed_part_no_throw objs o part more os x b e :
  Forall accepted objs -> accepted o -> pack o = part ++ more -> more <> [] ->
  Forall is_byte (x ++ b) -> Forall is_byte more -> len ((x ++ b) ++ more) < 2 ^ 32 ->
  objs = os ++ (drop (length os) objs) -> x ++ b = concat (map pack (drop (length os) objs)) ++ part ->
  fst (execute 0 x (fresh lim)) <> Throw e.
Proof using limit_pos.
  intros Hobjs Ho Epart Hne Hxb Hm Hl Eos E. rewrite Eos in Hobjs. apply Forall_app in Hobjs as [_ Hobjs].
  destruct (drop (length os) objs) as [|o1 objs']; simpl in E.
  - apply (packed_no_throw x (b ++ more) o [] e Ho); rewrite ?app_assoc; [| |done].
    + by rewrite E, app_nil_r.
    + by apply Forall_app.
  - apply Forall_cons in Hobjs as [Ho1 _]. rewrite <- app_assoc in E.
    apply (packed_no_throw x b o1 _ e Ho1 E Hxb). unfold len in *. rewrite length_app in Hl. lia.
Qed.
End stream.

(** Objects in a stream.  Some objects are packed one behind the other,
    with a part of another one behind them; the bytes come in pieces that are cut
    anywhere, and [next] is called anywhere in between.  No call throws; the objects
    that come are the first ones of the stream, in order and each once; and when
    [next] says that there is none, all of those that are complete have come. *)
Lemma stream_objects lim l objs o part more :
  0 <= limit_depth lim -> Forall (accepted lim) objs -> accepted lim o ->
  pack o = part ++ more -> more <> [] ->
  fed l = concat (map pack objs) ++ part -> len (fed l ++ more) < 2 ^ 32 ->
  exists os s, session l (new_stream lim) = (Ok os, s) /\ os `prefix_of` objs /\
    match fst (pull s) with Ok None => os = objs | Ok (Some _) => True | _ => False end.
Proof.
  intros Hlim Hobjs Ho Epart Hmore Efed Hl.
  assert (Forall is_byte (pack o)) as Hpack by (apply pack_bytes, Ho).
  assert (len (pack o) <= len (fed l ++ more)) as Hlp
    by (rewrite Efed, Epart; unfold len; rewrite !length_app; lia).
  destruct (part_incomplete lim Hlim o part more Ho Epart Hmore ltac:(lia)) as [_ Hno].
  pose proof Hpack as Hpm. rewrite Epart in Hpm. apply Forall_app in Hpm as [Hpart Hbm].
  assert (Forall is_byte (fed l)) as Hfed by (rewrite Efed; apply Forall_app; split; [by eapply packed_bytes|done]).
  assert (len (fed l) < 2 ^ 32) as Hlf by (unfold len in *; rewrite length_app in Hl; lia).
  pose proof (session_objects lim Hlim l [] [] [] (new_stream lim) Hfed Hlf
    (objects_nil _ _) (reading_start lim [])) as Hs. simpl in Hs.
  destruct (session l (new_stream lim)) as [[os|e|w] s]; [| |done].
  - destruct Hs as (x & Hof & Hr). destruct (objects_of_rest _ _ _ _ Hof Hfed) as [Hx Hlx]. rewrite Efed in Hof.
    destruct (objects_of_packed lim part objs os x Hobjs Hpart Hno Hof) as (objs' & -> & ->).
    exists os, s. split; [done|]. split; [by eexists|]. apply Forall_app in Hobjs as [_ Hobjs].
    pose proof (pull_packed lim Hlim objs' o part more s Hobjs Ho Epart Hmore Hx ltac:(lia) ltac:(lia) Hr) as Hp.
    destruct (fst (pull s)) as [[o1|]|e|w]; try done. by rewrite Hp, app_nil_r.
  - exfalso. destruct Hs as (_ & w1 & os & x & [b Eb] & Hof & Ht).
    pose proof (objects_of_more lim Hlim _ _ _ b Hof ltac:(by rewrite <- Eb) ltac:(by rewrite <- Eb)) as Hof'.
    rewrite <- Eb in Hof'. destruct (objects_of_rest _ _ _ _ Hof' Hfed) as [Hxb Hlxb]. rewrite Efed in Hof'.
    destruct (objects_of_packed lim part objs os _ Hobjs Hpart Hno Hof') as (objs' & -> & E).
    assert (len (x ++ b) + len more < 2 ^ 32) by (unfold len in *; rewrite length_app in Hl; lia).
    by apply (packed_part_no_throw lim Hlim (os ++ objs') o part more os x b e Hobjs Ho Epart Hmore Hxb Hbm
      ltac:(unfold len in *; rewrite length_app; lia)
      ltac:(by rewrite drop_app_length) ltac:(by rewrite drop_app_length)).
Qed.
