(* ===== verification/MsgUnpacker.v ===== *)
(** * MessagePack: the buffer of an unpacker

    Include/rpc/msgpack/v2/parse.hpp ([parser]) and v2/unpack.hpp ([unpacker]),
    with the counts of v1/unpack.hpp: bytes come in any pieces into a buffer
    that grows, is rewound or is replaced, and [next] gives the objects that are
    complete.  An object may point into the buffers it was read from; a buffer
    counts the zones of such objects, and is freed when the unpacker and all
    of them have left it.  Allocations succeed. *)
From S2P Require Import Prelude MsgObject MsgParse MsgStream MsgTree MsgRoundTrip MsgSafety MsgVisitor.

(** ** Buffers *)

(** [sizeof(_msgpack_atomic_counter_t)]. *)
Definition COUNTER_SIZE : Z := 4.

(** A buffer of [malloc]: its count, what was written behind the count, and its
    size with the count. *)
Record buffer := Buffer { count : Z; contents : bytes; size : Z }.

(** An object that [next] gave to the caller: the cell of the object, the zone
    it lives in and the buffers whose counts the finalizers of the zone lower. *)
Record object_handle := ObjectHandle { handle_obj : cell; handle_zone : zone; handle_buffers : list nat }.

(** The buffers of the process, and the members of [parser] and [unpacker];
    [m_context] has those of [context] and [create_object_visitor], and
    [m_finalizers] are the buffers of the finalizers of [m_z], the last one
    first. *)
Record unpacker := Unpacker {
  buffers : gmap nat buffer;
  next_buffer : nat;
  m_buffer : nat;
  m_used : Z;
  m_free : Z;
  m_off : Z;
  m_parsed : Z;
  m_initial_buffer_size : Z;
  m_context : context create_object_visitor;
  m_finalizers : list nat;
}.

Abbreviation MU := (M unpacker).

Definition set_buffers (h : gmap nat buffer) (u : unpacker) : unpacker :=
  Unpacker h (next_buffer u) (m_buffer u) (m_used u) (m_free u) (m_off u) (m_parsed u)
    (m_initial_buffer_size u) (m_context u) (m_finalizers u).
Definition set_fill (b : nat) (used free off : Z) (u : unpacker) : unpacker :=
  Unpacker (buffers u) (next_buffer u) b used free off (m_parsed u)
    (m_initial_buffer_size u) (m_context u) (m_finalizers u).
Definition set_parsed (off parsed : Z) (u : unpacker) : unpacker :=
  Unpacker (buffers u) (next_buffer u) (m_buffer u) (m_used u) (m_free u) off parsed
    (m_initial_buffer_size u) (m_context u) (m_finalizers u).
Definition set_context (c : context create_object_visitor) (u : unpacker) : unpacker :=
  Unpacker (buffers u) (next_buffer u) (m_buffer u) (m_used u) (m_free u) (m_off u) (m_parsed u)
    (m_initial_buffer_size u) c (m_finalizers u).
Definition set_finalizers (l : list nat) (u : unpacker) : unpacker :=
  Unpacker (buffers u) (next_buffer u) (m_buffer u) (m_used u) (m_free u) (m_off u) (m_parsed u)
    (m_initial_buffer_size u) (m_context u) l.

Definition update_visitor (f : create_object_visitor -> create_object_visitor) : MU unit :=
  modify (fun u => set_context (set_visitor (f (visitor (m_context u))) (m_context u)) u).

(** [referenced()]. *)
Definition referenced (u : unpacker) : bool := m_referenced (visitor (m_context u)).

(** An address: a buffer and an offset of 64 bits in it. *)
Definition base (b : nat) : Z := Z.of_nat b * 2 ^ 64.

(** [malloc(n)], with [init_count]. *)
Definition malloc (n : Z) : MU nat := fun u =>
  let b := next_buffer u in
  (Ok b, Unpacker (<[b:=Buffer 1 [] n]> (buffers u)) (S b) (m_buffer u) (m_used u) (m_free u) (m_off u)
    (m_parsed u) (m_initial_buffer_size u) (m_context u) (m_finalizers u)).

(** A buffer that was not freed. *)
Definition the_buffer (b : nat) : MU buffer := fun u =>
  match buffers u !! b with
  | Some x => (Ok x, u)
  | None => (Crash "a buffer that was freed", u)
  end.

Definition put_buffer (b : nat) (x : buffer) : MU unit :=
  modify (fun u => set_buffers (<[b:=x]> (buffers u)) u).

(** [realloc(b, n)]: a new buffer with the contents of [b], which is freed. *)
Definition realloc (b : nat) (n : Z) : MU nat :=
  x ← the_buffer b;
  b' ← malloc n;
  _ ← modify (fun u => set_buffers (delete b (buffers u)) u);
  _ ← put_buffer b' (Buffer (count x) (take (Z.to_nat (n - COUNTER_SIZE)) (contents x)) n);
  mret b'.

(** [init_count], [get_count], [incr_count] and [decr_count]; a count is an
    [unsigned int]. *)
Definition get_count (b : nat) : MU Z := x ← the_buffer b; mret (count x).

Definition incr_count (b : nat) : MU unit :=
  x ← the_buffer b; put_buffer b (Buffer (u32 (count x + 1)) (contents x) (size x)).

Definition decr_count (b : nat) : MU unit :=
  x ← the_buffer b;
  let n := u32 (count x - 1) in
  if n =? 0 then modify (fun u => set_buffers (delete b (buffers u)) u)
  else put_buffer b (Buffer n (contents x) (size x)).

(** [std::memcpy(b + off, s, |s|)]; every byte up to [off] was written before. *)
Definition write_buffer (b : nat) (off : Z) (s : bytes) : MU unit :=
  x ← the_buffer b;
  if (COUNTER_SIZE <=? off) && (off + zlen s <=? size x) && (off - COUNTER_SIZE <=? zlen (contents x)) then
    let k := Z.to_nat (off - COUNTER_SIZE) in
    put_buffer b (Buffer (count x) (take k (contents x) ++ s ++ drop (k + length s) (contents x)) (size x))
  else crash "write outside of the buffer".

(** The bytes of a buffer up to [used]: the count, and what was written. *)
Definition buffer_bytes (x : buffer) (used : Z) : bytes :=
  rev (store 4 (count x)) ++ take (Z.to_nat (used - COUNTER_SIZE)) (contents x).

Definition read_buffer (b : nat) (used : Z) : MU bytes :=
  x ← the_buffer b;
  if used - COUNTER_SIZE <=? zlen (contents x) then mret (buffer_bytes x used)
  else crash "read of bytes that were not written".

(** ** The operations of [parser] *)

(** The hook, [zone_push_finalizer]. *)
Definition push_finalizer (b : nat) : MU unit :=
  modify (fun u => set_finalizers (b :: m_finalizers u) u).

(** The part of [expand_buffer] for a buffer that has not been parsed. *)
Definition grow_buffer (n : Z) : MU unit :=
  u ← get;
  let next_size := double_size 64 (u64 (u64 (m_used u + m_free u) * 2)) (u64 (n + m_used u)) in
  tmp ← realloc (m_buffer u) next_size;
  modify (set_fill tmp (m_used u) (u64 (next_size - m_used u)) (m_off u)).

(** The part for one that has: what is left goes to a new buffer. *)
Definition replace_buffer (n : Z) : MU unit :=
  u ← get;
  let not_parsed := u64 (m_used u - m_off u) in
  let next_size :=
    double_size 64 (m_initial_buffer_size u) (u64 (n + not_parsed + COUNTER_SIZE)) in
  tmp ← malloc next_size;
  s ← read_buffer (m_buffer u) (m_used u);
  _ ← write_buffer tmp COUNTER_SIZE (drop (Z.to_nat (m_off u)) s);
  _ ← (if referenced u then _ ← push_finalizer (m_buffer u); update_visitor (set_referenced false)
       else decr_count (m_buffer u));
  modify (set_fill tmp (u64 (not_parsed + COUNTER_SIZE))
    (u64 (next_size - u64 (not_parsed + COUNTER_SIZE))) COUNTER_SIZE).

(** [expand_buffer]. *)
Definition expand_buffer (n : Z) : MU unit :=
  u ← get;
  c ← get_count (m_buffer u);
  rewound ← (if (m_used u =? m_off u) && (c =? 1) && negb (referenced u) then
               _ ← modify (set_fill (m_buffer u) COUNTER_SIZE (u64 (m_free u + (m_used u - COUNTER_SIZE))) COUNTER_SIZE);
               u ← get; mret (n <=? m_free u)
             else mret false);
  if rewound : bool then mret ()
  else u ← get; if m_off u =? COUNTER_SIZE then grow_buffer n else replace_buffer n.

(** [reserve_buffer]. *)
Definition reserve_buffer (n : Z) : MU unit :=
  u ← get; if n <=? m_free u then mret () else expand_buffer n.

(** What the caller does between: [memcpy(buffer(), s, |s|)] and
    [buffer_consumed(|s|)]. *)
Definition buffer_consumed (n : Z) : MU unit :=
  modify (fun u => set_fill (m_buffer u) (u64 (m_used u + n)) (u64 (m_free u - n)) (m_off u) u).

Definition receive (s : bytes) : MU unit :=
  u ← get; _ ← write_buffer (m_buffer u) (m_used u) s; buffer_consumed (zlen s).

(** [execute_imp]; an exception that leaves [execute] leaves [m_parsed] as it was. *)
Definition execute_imp : MU parse_return := fun u =>
  match read_buffer (m_buffer u) (m_used u) u with
  | (Ok data, _) =>
      let '(r, c) := execute (base (m_buffer u)) data (set_off (m_off u) (m_context u)) in
      let parsed :=
        match r with
        | Ok _ => if m_off u <? off c then m_parsed u + (off c - m_off u) else m_parsed u
        | _ => m_parsed u
        end in
      (r, set_parsed (off c) parsed (set_context c u))
  | (Throw e, _) => (Throw e, u)
  | (Crash w, _) => (Crash w, u)
  end.

(** [unpacker::flush_zone]. *)
Definition flush_zone : MU unit :=
  u ← get;
  if referenced u then
    _ ← push_finalizer (m_buffer u);
    _ ← update_visitor (set_referenced false);
    incr_count (m_buffer u)
  else mret ().

(** [release_zone]: the zone and its finalizers, with new ones in their place. *)
Definition release_zone : MU (zone * list nat) :=
  _ ← flush_zone;
  u ← get;
  _ ← update_visitor (set_zone (Zone [] []));
  _ ← modify (set_finalizers []);
  mret (m_zone (visitor (m_context u)), m_finalizers u).

(** [parser::reset]. *)
Definition reset : MU unit :=
  modify (fun u => set_parsed (m_off u) 0 (set_context (context_init (m_context u)) u)).

(** [unpacker::next], with an empty handle: the object that is complete. *)
Definition next : MU (option (object_handle * bool)) :=
  ret ← execute_imp;
  match ret with
  | PARSE_SUCCESS =>
      u ← get;
      z ← release_zone;
      u' ← get;
      _ ← reset;
      mret (Some (ObjectHandle (m_obj (visitor (m_context u'))) z.1 z.2, referenced u))
  | _ => mret None
  end.

(** What is left of the buffer, for a caller that goes on with it. *)
Definition nonparsed_size (u : unpacker) : Z := u64 (m_used u - m_off u).
Definition message_size (u : unpacker) : Z := u64 (m_parsed u - m_off u + m_used u).

Definition skip_nonparsed_buffer (n : Z) : MU unit :=
  modify (fun u => set_fill (m_buffer u) (m_used u) (m_free u) (u64 (m_off u + n)) u).

Definition remove_nonparsed_buffer : MU unit :=
  modify (fun u => set_fill (m_buffer u) (m_off u) (m_free u) (m_off u) u).

(** The end of a zone: its finalizers run, the last one first. *)
Fixpoint run_finalizers (l : list nat) : MU unit :=
  match l with
  | [] => mret ()
  | b :: l => _ ← decr_count b; run_finalizers l
  end.

(** [~object_handle] and [~unpacker]. *)
Definition destroy_handle (h : object_handle) : MU unit := run_finalizers (handle_buffers h).

Definition destroy : MU unit :=
  u ← get; _ ← run_finalizers (m_finalizers u); decr_count (m_buffer u).

(** The constructor. *)
Definition new_unpacker (f : option (object_type -> Z -> bool)) (initial_buffer_size : Z)
    (limit : unpack_limit) : unpacker :=
  let n := Z.max initial_buffer_size COUNTER_SIZE in
  Unpacker {[ 0%nat := Buffer 1 [] n ]} 1 0 COUNTER_SIZE (n - COUNTER_SIZE) COUNTER_SIZE 0 n
    (Context 0 0 MSGPACK_CS_HEADER [] 0 (new_visitor f limit (Zone [] []))) [].

(** Pieces of two strings and a number, with texts left in the buffer. *)
Example unpacker_1 :
  let u := new_unpacker (Some (fun _ _ => true)) 6 default_limit in
  let run :=
    _ ← reserve_buffer 3; _ ← receive [0xa3; 97; 98]; a ← next;
    _ ← reserve_buffer 5; _ ← receive [99; 0xa1; 100; 7; 0x91]; b ← next; c ← next; d ← next; e ← next;
    mret (a, [b; c; d; e]) in
  match run u with
  | (Ok (None, [Some (b, true); Some (c, true); Some (d, false); None]), u') =>
      handle_buffers b = [1%nat] /\ handle_buffers c = [1%nat] /\ m_used u' = m_off u' /\ m_off u' = 12
  | _ => False
  end.
Proof. vm_compute. repeat split. Qed.
