(* ===== verification/MsgUnpackerRefines.v ===== *)
(** * MessagePack: the unpacker keeps its promise

    The unpacker of MsgUnpacker.v, with its buffers, counts and pointers, gives the
    objects of the stream of MsgSession.v; every object it has given stays what it is
    until its handle is destroyed, whatever happens to the unpacker; and the buffers
    are freed with the last of the handles. *)
From S2P Require Import Prelude MsgObject MsgParse MsgStream MsgTree MsgRoundTrip MsgSafety MsgVisitor MsgSession MsgUnpacker.

(** ** Where nothing is consumed, nothing is done *)

Section idle.
Context {V : Type} `{Visitor V} (m_start : Z) (data : bytes).
Hypothesis data_bytes : Forall is_byte data.

(** A length that was found is no visit. *)
Definition quiet_length (m : M (context V) flow) : Prop :=
  forall c n c', m c = (Ok (Next true n), c') -> visitor c' = visitor c.

Lemma quiet_returns n m : quiet_length (returns n m).
Proof. intros c n' c' [E _]%returns_next. done. Qed.

Lemma quiet_value_state n value op k : quiet_length (value_state n value op k).
Proof.
  intros c n' c' E. unfold value_state in E. rewrite bind_modify in E.
  destruct (k =? 0); [by apply quiet_returns in E|]. rewrite bind_modify in E. by injection E as _ <-.
Qed.

Lemma quiet_read p k f : (forall s, quiet_length (f s)) -> quiet_length (read data p k f).
Proof. intros Hf c n c' (_ & _ & E)%read_ok_inv. by eapply Hf. Qed.

Lemma quiet_error {A} (m : M (context V) A) r : quiet_length (m ≫= fun _ => mret (Return r)).
Proof. intros c n c' E. by apply bind_ok_inv in E as (? & ? & _ & E). Qed.

Lemma quiet_get (k : context V -> M (context V) flow) : (forall c, quiet_length (k c)) -> quiet_length (get ≫= k).
Proof. intros Hk c n c' E. rewrite bind_get in E. by eapply Hk. Qed.

Lemma quiet_header n : quiet_length (header data n).
Proof.
  apply quiet_get. intros c. apply quiet_read. intros s. cbv zeta.
  repeat case_match; try apply quiet_returns; try apply quiet_value_state.
  - intros c1 n' c' E. rewrite !bind_modify in E. by injection E as _ <-.
  - intros c1 n' c' E. unfold store_off in E. rewrite bind_modify in E. by apply quiet_error in E.
Qed.

Lemma quiet_switch p : quiet_length (switch m_start data p).
Proof.
  apply quiet_get. intros c. cbv zeta.
  repeat case_match; try (apply quiet_read; intros s); try apply quiet_returns; try apply quiet_value_state.
  all: intros c1 n' c' E; unfold store_off in E; rewrite bind_modify in E; by apply quiet_error in E.
Qed.

(** At [p], where the visitor was [v], or behind it. *)
Definition since (p : Z) (v : V) (q : Z) (c : context V) : Prop := p <= q /\ (q = p -> visitor c = v).

Lemma behind_header_since p v fixed c r c' :
  context_ok c -> m_cs c <> MSGPACK_CS_HEADER -> since p v (m_current c) c ->
  behind_header m_start data fixed c = (Ok r, c') ->
  (r = Return PARSE_CONTINUE -> since p v (off c') c') /\
  (forall f n, r = Next f n -> since p v (m_current c') c').
Proof using data_bytes.
  intros Hok Hcs [Hp Hv] E. pose proof (trail_pos c Hok Hcs) as Ht. split.
  - intros ->. unfold behind_header in E. set (q := m_current c + if fixed then 1 else 0).
    assert ((if fixed then modify (fun c => set_current (m_current c + 1) c) else mret ()) c
      = (Ok (), set_current q c)) as Hq.
    { unfold q. destruct fixed; [done|]. rewrite Z.add_0_r. by destruct c. }
    rewrite (bind_ok _ _ _ _ _ Hq), bind_get in E. cbn [m_current m_trail set_current] in E.
    destruct (len data - q <? m_trail c).
    + unfold store_off in E. rewrite bind_modify in E. injection E as <-. unfold since. simpl.
      split; [unfold q; destruct fixed; lia|]. intros Eq. apply Hv. unfold q in Eq. destruct fixed; lia.
    + rewrite bind_modify in E. by apply decides_switch in E.
  - intros f n ->. pose proof E as E'. apply (behind_header_next m_start data data_bytes) in E as [[_ E] _]; [|done..].
    cbn [m_current set_current m_cs] in E. split; [destruct f; destruct E; destruct fixed; lia|].
    intros Eq. destruct f; [|destruct E; destruct fixed; lia].
    assert (m_current c = p) as Hc by (destruct E; destruct fixed; lia). rewrite <- (Hv Hc).
    unfold behind_header in E'. apply bind_ok_inv in E' as ([] & c1 & E1 & E'). rewrite bind_get in E'.
    assert (visitor c1 = visitor c) as <- by (destruct fixed; by injection E1 as <-).
    destruct (_ <? _); [by apply bind_ok_inv in E' as (? & ? & _ & ?)|].
    rewrite bind_modify in E'. by apply quiet_switch in E'.
Qed.

Lemma round_since p v fixed n c r c' :
  ready data fixed c -> since p v (m_current c) c ->
  round m_start data fixed n c = (Ok r, c') ->
  (r = Return PARSE_CONTINUE -> since p v (off c') c') /\
  (forall f n, r = Next f n -> since p v (m_current c') c').
Proof using data_bytes.
  intros (Hok & Hc & Hf) [Hp Hv] E. unfold round in E. rewrite bind_get in E.
  destruct (Z.eqb_spec (m_cs c) 0) as [Hz|Hz].
  - apply bind_ok_inv in E as (nx & c1 & E1 & E). destruct nx as [r1|f1 n1].
    + injection E as <- <-. split; [|done]. intros [= ->]. by apply decides_header in E1.
    + rewrite bind_get in E. pose proof E1 as E1'. apply advanced_header in E1 as (_ & Hok1 & E1); [|done].
      destruct f1; destruct E1 as [Ec Ecs].
      * rewrite orb_true_r in E. eapply behind_header_since; [exact Hok1|exact Ecs| |exact E].
        split; [lia|]. intros Eq. rewrite (quiet_header _ _ _ _ E1'). apply Hv. lia.
      * rewrite Ecs in E. simpl in E. injection E as <- <-. split; [done|]. intros f n' _. split; [lia|lia].
  - rewrite bind_ret, bind_get in E. apply Z.eqb_neq in Hz as Hz'. rewrite Hz' in E.
    eapply behind_header_since; [exact Hok|exact Hz|by split|exact E].
Qed.

Lemma run_since p v fixed n c c' :
  ready data fixed c -> since p v (m_current c) c ->
  run m_start data fixed n c = (Ok PARSE_CONTINUE, c') -> since p v (off c') c'.
Proof using data_bytes.
  remember (rounds data fixed (m_current c)) as k eqn:Ek. revert fixed n c Ek.
  induction k as [k IH] using lt_wf_ind. intros fixed n c -> Hr Hs E.
  rewrite (run_eq m_start data data_bytes) in E by done. apply bind_ok_inv in E as (r & c1 & E1 & E).
  pose proof (round_since p v fixed n c r c1 Hr Hs E1) as [Hret Hnext].
  destruct r as [r|f n'].
  - injection E as -> <-. by apply Hret.
  - pose proof (round_ready m_start data data_bytes _ _ _ _ _ _ Hr E1) as Hr1.
    apply (round_next m_start data data_bytes) in E1 as (_ & _ & _ & _ & Hlt); [|done].
    specialize (Hnext f n' eq_refl). unfold go_on in E. rewrite bind_get in E.
    destruct (Z.eqb_spec (m_current c1) (len data)) as [He|He].
    + unfold store_off in E. rewrite bind_modify in E. injection E as <-. exact Hnext.
    + eapply IH; [exact Hlt|done|by apply Hr1|done|exact E].
Qed.

(** A call that consumes nothing leaves the visitor as it was. *)
Lemma execute_idle c c' :
  context_ok c -> 0 <= off c <= len data -> execute m_start data c = (Ok PARSE_CONTINUE, c') ->
  off c' = off c -> visitor c' = visitor c.
Proof using data_bytes.
  intros Hok Ho E Heq. rewrite (execute_from m_start data c Ho) in E.
  destruct (Z.eqb_spec (off c) (len data)) as [He|He]; [by injection E as <-|].
  eapply (run_since (off c) (visitor c)); [| |exact E|done].
  - split_and!; [done|simpl; lia|simpl; lia|done].
  - by split.
Qed.
End idle.

(** ** Addresses that are held *)

(** What an address of a buffer holds. *)
Definition mem (u : unpacker) : memory := fun a =>
  let o := a mod 2 ^ 64 in
  if COUNTER_SIZE <=? o then
    buffers u !! Z.to_nat (a / 2 ^ 64) ≫= fun x => contents x !! Z.to_nat (o - COUNTER_SIZE)
  else None.

Lemma mem_base u b o :
  COUNTER_SIZE <= o < 2 ^ 64 ->
  mem u (base b + o) = buffers u !! b ≫= fun x => contents x !! Z.to_nat (o - COUNTER_SIZE).
Proof.
  intros Ho. unfold mem, base, COUNTER_SIZE in *. rewrite (Z.add_comm (_ * _)), Z.mod_add, Z.div_add by lia.
  rewrite Z.mod_small, Z.div_small by lia. rewrite (proj2 (Z.leb_le _ _)) by lia.
  by rewrite Z.add_0_l, Nat2Z.id.
Qed.

Lemma base_inj b o b' o' :
  0 <= o < 2 ^ 64 -> 0 <= o' < 2 ^ 64 -> base b + o = base b' + o' -> b = b' /\ o = o'.
Proof. unfold base. intros Ho Ho' E. lia. Qed.

(** The addresses in the buffers of [l]; of the buffer that is filled, up to where
    it is. *)
Definition live (u : unpacker) (l : list nat) (a : Z) : Prop :=
  exists b o, a = base b + o /\ b ∈ l /\ COUNTER_SIZE <= o < 2 ^ 64 /\ (b = m_buffer u -> o < m_used u).

(** What is in the buffers of [l] stays what and where it is. *)
Definition stays (l : list nat) (u u' : unpacker) : Prop :=
  forall a, live u l a -> live u' l a /\ mem u' a = mem u a.

Lemma stays_refl l u : stays l u u.
Proof. by intros a Ha. Qed.

Lemma stays_trans l u1 u2 u3 : stays l u1 u2 -> stays l u2 u3 -> stays l u1 u3.
Proof.
  intros H12 H23 a Ha. destruct (H12 a Ha) as [Ha2 <-]. destruct (H23 a Ha2) as [Ha3 <-]. done.
Qed.

(** A buffer but for its count. *)
Definition shape (x : buffer) : bytes * Z := (contents x, size x).

Lemma shape_lookup (h h' : gmap nat buffer) b x :
  shape <$> h' !! b = shape <$> h !! b -> h !! b = Some x ->
  exists n, h' !! b = Some (Buffer n (contents x) (size x)).
Proof.
  intros E Hx. rewrite Hx in E. destruct (h' !! b) as [[n c z]|]; [|done].
  exists n. unfold shape in E. simpl in E. by simplify_eq.
Qed.

(** Buffers that are the same, and no less of the one that is filled. *)
Lemma stays_same l u u' :
  (forall b, b ∈ l -> shape <$> buffers u' !! b = shape <$> buffers u !! b) ->
  (forall b, b ∈ l -> b = m_buffer u' -> b = m_buffer u /\ m_used u <= m_used u') -> stays l u u'.
Proof.
  intros Hb Hm a (b & o & -> & Hin & Ho & Hu). split.
  - exists b, o. split_and!; try done; try lia. intros E. destruct (Hm b Hin E) as [E' Hle]. specialize (Hu E'). lia.
  - rewrite !mem_base by done. specialize (Hb b Hin). unfold shape in Hb.
    destruct (buffers u' !! b) as [x'|], (buffers u !! b) as [x|]; simpl in *; try done. by injection Hb as -> _.
Qed.

(** An object that was given: it depends on what its buffers hold. *)
Definition handle_ok (u : unpacker) (h : object_handle) (o : object) : Prop :=
  forall m', agree (live u (handle_buffers h)) (mem u) m' ->
  load_object m' (handle_zone h) (S (length (arrays (handle_zone h)))) (handle_obj h) = Some o.

Lemma handle_ok_stays u u' h o : stays (handle_buffers h) u u' -> handle_ok u h o -> handle_ok u' h o.
Proof.
  intros Hs Hh m' Hm. apply Hh. intros a Ha. destruct (Hs a Ha) as [Ha' <-]. by apply Hm.
Qed.

(** ** Counts *)

Definition occ (b : nat) (l : list nat) : Z := Z.of_nat (count_occ Nat.eq_dec l b).

Lemma occ_app b l1 l2 : occ b (l1 ++ l2) = occ b l1 + occ b l2.
Proof. unfold occ. rewrite count_occ_app. lia. Qed.

Lemma occ_cons b a l : occ b (a :: l) = (if decide (a = b) then 1 else 0) + occ b l.
Proof. unfold occ. simpl. destruct (Nat.eq_dec a b), (decide (a = b)); try done. lia. Qed.

Lemma occ_nonneg b l : 0 <= occ b l.
Proof. unfold occ. lia. Qed.

Lemma occ_le b l : occ b l <= zlen l.
Proof. unfold occ, zlen. pose proof (count_occ_bound Nat.eq_dec b l). lia. Qed.

Lemma occ_pos b l : 0 < occ b l <-> b ∈ l.
Proof. unfold occ. rewrite list_elem_of_In, (count_occ_In Nat.eq_dec). lia. Qed.

Lemma occ_perm b l1 l2 : Permutation l1 l2 -> occ b l1 = occ b l2.
Proof. intros Hp. unfold occ. f_equal. by apply Permutation_count_occ. Qed.

(** The unpacker and the zones that count in buffers: each of the members of
    [refs], once. *)
Definition counted (u : unpacker) (refs : list nat) : Prop :=
  forall b,
    (match buffers u !! b with
     | Some x => count x = occ b refs /\ 0 < occ b refs
     | None => occ b refs = 0
     end) /\ ((next_buffer u <= b)%nat -> buffers u !! b = None).

Lemma counted_perm u l1 l2 : Permutation l1 l2 -> counted u l1 -> counted u l2.
Proof. intros Hp Hc b. rewrite <- (occ_perm b l1 l2 Hp). apply Hc. Qed.

Lemma counted_live u refs b : counted u refs -> b ∈ refs -> exists x, buffers u !! b = Some x /\ count x = occ b refs.
Proof.
  intros Hc Hb%occ_pos. destruct (Hc b) as [Hx _]. destruct (buffers u !! b) as [x|]; [|lia]. exists x. tauto.
Qed.

Lemma counted_new u refs b : counted u refs -> b ∈ refs -> (b < next_buffer u)%nat.
Proof.
  intros Hc Hb. destruct (counted_live u refs b Hc Hb) as (x & Hx & _). destruct (Hc b) as [_ Hn].
  destruct (Nat.lt_ge_cases b (next_buffer u)) as [|Hge]; [done|]. by rewrite (Hn Hge) in Hx.
Qed.

(** One of the references is given up. *)
Lemma decr_count_ok u b refs :
  counted u (b :: refs) -> zlen (b :: refs) < 2 ^ 32 ->
  exists h', decr_count b u = (Ok (), set_buffers h' u) /\ counted (set_buffers h' u) refs /\
    forall b', b' ∈ refs -> shape <$> h' !! b' = shape <$> buffers u !! b'.
Proof.
  intros Hc Hl. destruct (counted_live u (b :: refs) b Hc ltac:(left)) as (x & Hx & Hn).
  pose proof (occ_le b (b :: refs)). rewrite occ_cons, decide_True in * by done.
  pose proof (occ_nonneg b refs). unfold decr_count.
  rewrite (bind_ok _ _ _ x u) by (unfold the_buffer; by rewrite Hx).
  assert (u32 (count x - 1) = count x - 1) as -> by (apply wrap_small; lia).
  assert (forall h', (forall b', b' <> b -> h' !! b' = buffers u !! b') ->
    match h' !! b with Some y => count y = occ b refs /\ 0 < occ b refs | None => occ b refs = 0 end ->
    counted (set_buffers h' u) refs) as Hcount.
  { intros h' Hother Hb b'. destruct (Hc b') as [Hb' Hnew]. simpl. destruct (decide (b' = b)) as [->|Hne].
    - split; [done|]. intros Hge. by rewrite (Hnew Hge) in Hx.
    - rewrite (Hother b' Hne). rewrite occ_cons, decide_False in Hb' by done. by destruct (buffers u !! b'). }
  destruct (Z.eqb_spec (count x - 1) 0) as [Hz|Hz]; eexists; (split; [done|]); split.
  - apply Hcount; [intros b' Hne; by rewrite lookup_delete_ne|]. rewrite lookup_delete_eq. lia.
  - intros b' Hin%occ_pos. destruct (decide (b' = b)) as [->|Hne]; [lia|by rewrite lookup_delete_ne].
  - apply Hcount; [intros b' Hne; by rewrite lookup_insert_ne|]. rewrite lookup_insert_eq. simpl. lia.
  - intros b' _. destruct (decide (b' = b)) as [->|Hne]; [by rewrite lookup_insert_eq, Hx|].
    by rewrite lookup_insert_ne.
Qed.

(** ** The unpacker serves a stream *)

Section serves.
Context (lim : unpack_limit) (limit_pos : 0 <= limit_depth lim).

(** Who counts: the unpacker, the zone of the object that is read, and the zones of
    the objects that were given. *)
Definition refs (u : unpacker) (hs : list (object_handle * object)) : list nat :=
  m_buffer u :: m_finalizers u ++ concat (map (fun h => handle_buffers h.1) hs).

(** What waits in the buffer. *)
Definition waiting (u : unpacker) (x : buffer) : bytes :=
  drop (Z.to_nat (m_off u - COUNTER_SIZE)) (take (Z.to_nat (m_used u - COUNTER_SIZE)) (contents x)).

(** The buffer that is filled. *)
Definition buffer_ok (u : unpacker) (x : buffer) : Prop :=
  size x = m_used u + m_free u /\ Forall is_byte (contents x) /\
  m_used u - COUNTER_SIZE <= zlen (contents x) <= size x - COUNTER_SIZE /\
  COUNTER_SIZE <= m_off u <= m_used u /\ 0 <= m_free u /\ m_used u + m_free u < 2 ^ 48 /\
  COUNTER_SIZE <= m_initial_buffer_size u < 2 ^ 40.

(** The state of the parser, but for the visitor. *)
Definition same_state (c1 : context create_object_visitor) (c2 : context tree) : Prop :=
  m_trail c1 = m_trail c2 /\ m_cs c1 = m_cs c2 /\ MsgParse.m_stack c1 = MsgParse.m_stack c2 /\
  off c2 = 0 /\ m_current c2 = 0 /\ context_ok c2 /\ going lim c2.

Definition points (u : unpacker) (v : create_object_visitor) (t : tree) : Prop :=
  flagged (mem u) (live u (m_finalizers u)) (live u [m_buffer u]) v t.

Record serves (u : unpacker) (hs : list (object_handle * object)) (s : stream) : Prop := Serves {
  serves_buffer : exists x, buffers u !! m_buffer u = Some x /\ buffer_ok u x /\ s_bytes s = waiting u x;
  serves_context : same_state (m_context u) (s_context s);
  serves_visitor : points u (visitor (m_context u)) (visitor (s_context s));
  serves_counted : counted u (refs u hs);
  serves_handles : Forall (fun h => handle_ok u h.1 h.2) hs;
  serves_start : m_off u = COUNTER_SIZE -> referenced u = false /\ occ (m_buffer u) (refs u hs) = 1;
}.

Lemma handle_refs u hs h o b : (h, o) ∈ hs -> b ∈ handle_buffers h -> b ∈ refs u hs.
Proof.
  intros Hh Hb. unfold refs. right. apply elem_of_app. right. apply list_elem_of_In, in_concat.
  exists (handle_buffers h). split; [|by apply list_elem_of_In].
  apply in_map_iff. exists (h, o). split; [done|by apply list_elem_of_In].
Qed.

(** Objects that were given do not notice what leaves their buffers alone. *)
Lemma handles_stay u u' hs :
  (forall b, b ∈ concat (map (fun h => handle_buffers h.1) hs) -> stays [b] u u') ->
  Forall (fun h => handle_ok u h.1 h.2) hs -> Forall (fun h => handle_ok u' h.1 h.2) hs.
Proof.
  intros Hs Hh. rewrite Forall_forall in Hh |- *. intros [h o] Hin. eapply handle_ok_stays; [|by apply (Hh (h, o))].
  simpl. intros a (b & k & -> & Hb & Hk).
  assert (b ∈ concat (map (fun h => handle_buffers h.1) hs)) as Hb'.
  { apply list_elem_of_In, in_concat. exists (handle_buffers h). split; [|by apply list_elem_of_In].
    apply in_map_iff. exists (h, o). split; [done|by apply list_elem_of_In]. }
  destruct (Hs b Hb' (base b + k)) as [(b1 & k1 & E & Hin1 & Hk1) Hmem].
  - exists b, k. split; [done|]. split; [by left|done].
  - split; [|done]. exists b1, k1. apply list_elem_of_singleton in Hin1 as ->. done.
Qed.

(** Nor does the object that is read. *)
Lemma points_stay u u' v t :
  (forall b, b ∈ m_finalizers u -> stays [b] u u') -> m_finalizers u' = m_finalizers u ->
  (m_referenced v = true -> stays [m_buffer u] u u' /\ m_buffer u' = m_buffer u) ->
  points u v t -> points u' v t.
Proof.
  intros Hf Ef Hc Hp m' Hm. apply Hp. intros a [(b & k & -> & Hb & Hk)|[Hr Ha]].
  - destruct (Hf b Hb (base b + k)) as [(b1 & k1 & E & Hin1 & Hk1) <-].
    + exists b, k. split; [done|]. split; [by left|done].
    + apply Hm. left. exists b1, k1. apply list_elem_of_singleton in Hin1 as ->. split; [done|]. by rewrite Ef.
  - destruct (Hc Hr) as [Hs E]. destruct (Hs a Ha) as [Ha' <-]. apply Hm. right. by rewrite E.
Qed.

(** *** Bytes come *)

Lemma stays_write l u u' x x' :
  m_buffer u' = m_buffer u -> m_used u <= m_used u' ->
  buffers u !! m_buffer u = Some x -> buffers u' = <[m_buffer u:=x']> (buffers u) ->
  (forall i, (i < Z.to_nat (m_used u - COUNTER_SIZE))%nat -> contents x' !! i = contents x !! i) ->
  stays l u u'.
Proof.
  intros Em Hu Hx Eb Hi a (b & o & -> & Hin & Ho & Hlt). split.
  - exists b, o. split; [done|]. split; [done|]. split; [done|]. intros E. rewrite Em in E. specialize (Hlt E). lia.
  - rewrite !mem_base, Eb by done. destruct (decide (b = m_buffer u)) as [->|Hne].
    + rewrite lookup_insert_eq, Hx. simpl. apply Hi. specialize (Hlt eq_refl). unfold COUNTER_SIZE in *. lia.
    + by rewrite lookup_insert_ne.
Qed.

Lemma receive_serves u hs s b :
  serves u hs s -> Forall is_byte b -> zlen b <= m_free u ->
  exists u', receive b u = (Ok (), u') /\ serves u' hs (feed b s) /\ m_free u' = m_free u - zlen b /\
    refs u' hs = refs u hs.
Proof.
  intros [(x & Hx & (Hsz & Hby & Hlen & Hoff & Hfree & Hbig & Hini) & Es) Hctx Hvis Hcnt Hhs Hst] Hb Hl.
  set (k := Z.to_nat (m_used u - COUNTER_SIZE)). pose proof (zlen_nonneg b).
  set (x' := Buffer (count x) (take k (contents x) ++ b ++ drop (k + length b) (contents x)) (size x)).
  set (u' := set_fill (m_buffer u) (m_used u + zlen b) (m_free u - zlen b) (m_off u)
    (set_buffers (<[m_buffer u:=x']> (buffers u)) u)).
  assert (length (take k (contents x)) = k) as Hk
    by (rewrite length_take; unfold k, zlen, COUNTER_SIZE in *; lia).
  assert (forall l, stays l u u') as Hstay.
  { intros l. apply (stays_write l u u' x x'); [done|simpl; lia|done|done|]. intros i Hi. fold k in Hi. simpl.
    rewrite lookup_app_l by lia. by rewrite lookup_take_lt by lia. }
  exists u'. split; [|split; [|done]].
  - unfold receive. rewrite bind_get. unfold write_buffer.
    unfold mbind, M_bind, the_buffer. rewrite Hx, Hsz.
    replace (COUNTER_SIZE <=? m_used u) with true by lia.
    replace (m_used u + zlen b <=? m_used u + m_free u) with true by lia.
    replace (m_used u - COUNTER_SIZE <=? zlen (contents x)) with true by lia. simpl. fold k. rewrite <- Hsz. fold x'.
    unfold buffer_consumed, modify. simpl. unfold u'. do 2 f_equal;
      apply wrap_small; unfold COUNTER_SIZE in *; lia.
  - split.
    + exists x'. split; [simpl; by rewrite lookup_insert_eq|]. split.
      * unfold buffer_ok. simpl. split_and!; try lia.
        -- apply Forall_app. split; [by apply Forall_take|]. apply Forall_app. split; [done|by apply Forall_drop].
        -- unfold zlen. rewrite !length_app, Hk. unfold zlen, k, COUNTER_SIZE in *. lia.
        -- unfold zlen. rewrite !length_app, length_drop, Hk. unfold zlen, k, COUNTER_SIZE in *. lia.
      * unfold waiting, feed. simpl. rewrite Es. unfold waiting.
        replace (Z.to_nat (m_used u + zlen b - COUNTER_SIZE)) with (k + length b)%nat
          by (unfold k, zlen, COUNTER_SIZE in *; lia).
        rewrite app_assoc, take_app_le by (rewrite length_app; lia).
        rewrite (take_ge (_ ++ b)) by (rewrite length_app; lia).
        fold k. rewrite drop_app_le by (rewrite Hk; unfold k, COUNTER_SIZE in *; lia). done.
    + exact Hctx.
    + apply (points_stay u); [by intros|done|by intros|exact Hvis].
    + intros b'. destruct (Hcnt b') as [Hc Hn]. simpl.
      destruct (decide (b' = m_buffer u)) as [->|Hne].
      * rewrite lookup_insert_eq. rewrite Hx in Hc. split; [exact Hc|]. intros Hge. by rewrite (Hn Hge) in Hx.
      * by rewrite lookup_insert_ne.
    + eapply handles_stay; [by intros|exact Hhs].
    + exact Hst.
Qed.

(** *** Room is made *)

Lemma double_size_bounds fuel start n :
  1 <= start < 2 ^ 47 -> n < 2 ^ 46 -> n <= start * 2 ^ Z.of_nat fuel ->
  n <= double_size fuel start n < 2 ^ 47 /\ start <= double_size fuel start n.
Proof.
  revert start. induction fuel as [|fuel IH]; intros start Hs Hn Hf.
  - simpl. lia.
  - cbn [double_size]. rewrite Nat2Z.inj_succ, Z.pow_succ_r in Hf by lia.
    destruct (Z.ltb_spec start n); [|lia].
    assert (u64 (start * 2) = start * 2) as -> by (apply wrap_small; lia).
    destruct (Z.leb_spec (start * 2) start); [lia|]. specialize (IH (start * 2)). lia.
Qed.

Lemma refs_old u hs b :
  counted u (refs u hs) -> b ∈ refs u hs -> b <> next_buffer u.
Proof. intros Hc Hb ->. pose proof (counted_new u _ _ Hc Hb). lia. Qed.

Lemma set_referenced_same v : m_referenced v = false -> set_referenced false v = v.
Proof. destruct v. simpl. by intros ->. Qed.

(** A buffer is given up: whoever counts in it, or points into it, still does. *)
Lemma serves_fresh u u' hs s x y :
  serves u hs s -> buffers u !! m_buffer u = Some x ->
  m_buffer u' = next_buffer u -> buffers u' !! m_buffer u' = Some y -> buffer_ok u' y ->
  waiting u' y = waiting u x ->
  m_finalizers u' = (if referenced u then m_buffer u :: m_finalizers u else m_finalizers u) ->
  m_context u' = set_visitor (set_referenced false (visitor (m_context u))) (m_context u) ->
  counted u' (refs u' hs) ->
  (forall b, b ∈ refs u' hs -> b <> m_buffer u' -> shape <$> buffers u' !! b = shape <$> buffers u !! b) ->
  serves u' hs s.
Proof.
  intros [(x0 & Hx0 & Hok & Es) Hctx Hvis Hcnt Hhs Hst] Hx Em Hy Hoky Ew Ef Ec Hcnt' Hshape.
  rewrite Hx in Hx0. injection Hx0 as <-.
  assert (forall b, b ∈ m_finalizers u' ++ concat (map (fun h => handle_buffers h.1) hs) ->
    b ∈ refs u hs /\ b <> m_buffer u') as Hold.
  { intros b Hb. assert (b ∈ refs u hs) as Hin; [|split; [done|rewrite Em; by eapply refs_old]].
    rewrite Ef in Hb. unfold refs. destruct (referenced u); [|by right]. by rewrite <- app_comm_cons in Hb. }
  assert (forall b, b ∈ m_finalizers u' ++ concat (map (fun h => handle_buffers h.1) hs) -> stays [b] u u') as Hstay.
  { intros b Hb. destruct (Hold b Hb) as [Hin Hne].
    apply stays_same; intros b' ->%list_elem_of_singleton; [|done]. apply Hshape; [by right|done]. }
  split.
  - exists y. rewrite Ew. done.
  - rewrite Ec. exact Hctx.
  - rewrite Ec. cbn [visitor set_visitor]. set (v := visitor (m_context u)) in *. intros m' Hm.
    replace (set_referenced false v) with (set_referenced false (set_zone (m_zone v) v)) by (by destruct v).
    apply builds_more; [|done|done]. apply Hvis.
    assert (forall b, b ∈ m_finalizers u' -> agree (live u [b]) (mem u) m') as Hag.
    { intros b Hb a Ha. destruct (Hstay b ltac:(apply elem_of_app; by left) a Ha) as [Ha' <-].
      apply Hm. left. destruct Ha' as (b1 & o & -> & ->%list_elem_of_singleton & Hk). by exists b, o. }
    intros a [(b & o & -> & Hb & Hk)|[Hr Ha]].
    + apply (Hag b); [|exists b, o; split; [done|]; split; [by left|done]].
      rewrite Ef. destruct (referenced u); [by right|done].
    + apply (Hag (m_buffer u)); [|done]. unfold referenced in Ef. fold v in Ef. rewrite Ef, Hr. by left.
  - done.
  - eapply handles_stay; [|exact Hhs]. intros b Hb. apply Hstay, elem_of_app. by right.
  - intros _. split; [unfold referenced; by rewrite Ec|]. unfold refs. rewrite occ_cons, decide_True by done.
    enough (occ (m_buffer u') (m_finalizers u' ++ concat (map (fun h => handle_buffers h.1) hs)) = 0) by lia.
    pose proof (occ_nonneg (m_buffer u') (m_finalizers u' ++ concat (map (fun h => handle_buffers h.1) hs))).
    destruct (Z.eq_dec (occ (m_buffer u') (m_finalizers u' ++ concat (map (fun h => handle_buffers h.1) hs))) 0)
      as [|Hn]; [done|].
    destruct (Hold (m_buffer u')) as [_ Hne]; [apply occ_pos; lia|done].
Qed.

(** [m_buffer] is nowhere else. *)
Lemma only_once u hs : occ (m_buffer u) (refs u hs) = 1 ->
  forall b, b ∈ m_finalizers u ++ concat (map (fun h => handle_buffers h.1) hs) -> b <> m_buffer u.
Proof. unfold refs. rewrite occ_cons, decide_True by done. intros Ho b Hb%occ_pos ->. lia. Qed.

(** The rewound buffer. *)
Lemma rewind_serves u hs s :
  serves u hs s -> m_used u = m_off u -> occ (m_buffer u) (refs u hs) = 1 -> referenced u = false ->
  serves (set_fill (m_buffer u) COUNTER_SIZE (m_free u + (m_used u - COUNTER_SIZE)) COUNTER_SIZE u) hs s.
Proof.
  intros [(x & Hx & (Hsz & Hby & Hlen & Hoff & Hfree & Hbig & Hini) & Es) Hctx Hvis Hcnt Hhs Hst] Eu Ho Hr.
  pose proof (only_once u hs Ho) as Hne. set (u' := set_fill _ _ _ _ u).
  assert (forall b, b <> m_buffer u -> stays [b] u u') as Hstay.
  { intros b Hb. apply stays_same; intros b' ->%list_elem_of_singleton; [done|]. by intros ->. }
  split.
  - exists x. split; [done|]. split; [unfold buffer_ok, COUNTER_SIZE in *; simpl; split_and!; lia || done|].
    rewrite Es. unfold waiting. simpl. rewrite Eu. apply drop_ge. rewrite length_take. lia.
  - exact Hctx.
  - apply (points_stay u); [|done| |exact Hvis].
    + intros b Hb. apply Hstay, Hne, elem_of_app. by left.
    + intros Hv. unfold referenced in Hr. simpl in Hv. congruence.
  - exact Hcnt.
  - eapply handles_stay; [|exact Hhs]. intros b Hb. apply Hstay, Hne, elem_of_app. by right.
  - by intros _.
Qed.

Lemma waiting_length u x : buffer_ok u x -> zlen (waiting u x) = m_used u - m_off u.
Proof.
  intros (_ & _ & Hlen & Hoff & _). unfold waiting, zlen in *. rewrite length_drop, length_take.
  unfold COUNTER_SIZE in *. lia.
Qed.

(** A new reference, in a new buffer. *)
Lemma counted_fresh u u' l y :
  counted u l -> (forall b, b ∈ l -> (b < next_buffer u)%nat) ->
  buffers u' = <[next_buffer u := y]> (buffers u) -> next_buffer u' = S (next_buffer u) -> count y = 1 ->
  counted u' (next_buffer u :: l).
Proof.
  intros Hc Hl Eb En Hy b. rewrite Eb, En, occ_cons. destruct (Hc b) as [Hb Hn].
  destruct (decide (next_buffer u = b)) as [<-|Hne].
  - rewrite lookup_insert_eq. assert (occ (next_buffer u) l = 0) as ->.
    { pose proof (occ_nonneg (next_buffer u) l). destruct (Z.eq_dec (occ (next_buffer u) l) 0) as [|H0]; [done|].
      assert (next_buffer u ∈ l) as Hin by (apply occ_pos; lia). specialize (Hl _ Hin). lia. }
    split; [lia|]. lia.
  - rewrite lookup_insert_ne by done. split; [by destruct (buffers u !! b)|]. intros. apply Hn. lia.
Qed.

Lemma grow_serves u hs s n :
  serves u hs s -> m_off u = COUNTER_SIZE -> 0 <= n < 2 ^ 32 -> m_free u < n -> zlen (s_bytes s) < 2 ^ 32 ->
  exists u', grow_buffer n u = (Ok (), u') /\ serves u' hs s /\ n <= m_free u' /\
    zlen (refs u' hs) = zlen (refs u hs).
Proof.
  intros Hserves Eoff Hn Hfree Hsmall. pose proof Hserves as [(x & Hx & Hok & Es) _ _ Hcnt _ Hst].
  destruct (Hst Eoff) as [Hr Hocc]. pose proof (only_once u hs Hocc) as Hne.
  pose proof (waiting_length u x Hok) as Hw. rewrite <- Es in Hw.
  pose proof Hok as (Hsz & Hby & Hlen & Hoff & Hfr & Hbig & Hini). unfold COUNTER_SIZE in *.
  set (size' := double_size 64 (u64 (u64 (m_used u + m_free u) * 2)) (u64 (n + m_used u))).
  assert (n + m_used u <= size' < 2 ^ 47) as Hsize.
  { unfold size'. assert (u64 (m_used u + m_free u) = m_used u + m_free u) as -> by (apply wrap_small; lia).
    assert (u64 ((m_used u + m_free u) * 2) = (m_used u + m_free u) * 2) as -> by (apply wrap_small; lia).
    assert (u64 (n + m_used u) = n + m_used u) as -> by (apply wrap_small; lia).
    pose proof (double_size_bounds 64 ((m_used u + m_free u) * 2) (n + m_used u)). lia. }
  set (y := Buffer (count x) (take (Z.to_nat (size' - 4)) (contents x)) size').
  set (buffers' := <[next_buffer u := y]> (delete (m_buffer u) (<[next_buffer u := Buffer 1 [] size']> (buffers u)))).
  set (u' := Unpacker buffers' (S (next_buffer u)) (next_buffer u) (m_used u) (size' - m_used u) (m_off u)
    (m_parsed u) (m_initial_buffer_size u) (m_context u) (m_finalizers u)).
  assert (m_buffer u ∈ refs u hs) as Hin by left.
  pose proof (refs_old u hs _ Hcnt Hin) as Hneb.
  exists u'. split; [|split; [|split; [simpl; lia|done]]].
  - unfold grow_buffer. rewrite bind_get. cbv zeta. fold size'. unfold realloc, the_buffer, malloc, mbind, M_bind.
    rewrite Hx. assert (u64 (size' - m_used u) = size' - m_used u) as Ew by (apply wrap_small; lia).
    unfold put_buffer, modify, mret, M_ret, u', buffers', y, COUNTER_SIZE. simpl. by rewrite Ew.
  - apply (serves_fresh u u' hs s x y Hserves Hx); unfold buffers'.
    + done.
    + simpl. unfold buffers'. by rewrite lookup_insert_eq.
    + unfold buffer_ok, COUNTER_SIZE. simpl. split_and!; try lia; [by apply Forall_take| |]; unfold zlen in *;
        rewrite length_take; lia.
    + unfold waiting. simpl. by rewrite take_take, Nat.min_l by (unfold COUNTER_SIZE; lia).
    + by rewrite Hr.
    + simpl. unfold referenced in Hr. rewrite set_referenced_same by done. by destruct (m_context u).
    + assert (count x = 1) as Hcx by (destruct (Hcnt (m_buffer u)) as [Hc _]; rewrite Hx in Hc; lia).
      intros b. destruct (Hcnt b) as [Hb Hnew]. unfold refs in Hb, Hocc |- *. simpl. unfold buffers'.
      rewrite occ_cons in Hb, Hocc |- *. rewrite decide_True in Hocc by done.
      destruct (decide (next_buffer u = b)) as [<-|Hnb].
      * rewrite lookup_insert_eq. rewrite Hnew, decide_False in Hb by done. simpl. lia.
      * rewrite lookup_insert_ne by done. destruct (decide (m_buffer u = b)) as [<-|Hmb].
        -- rewrite lookup_delete_eq. split; [lia|done].
        -- rewrite lookup_delete_ne, lookup_insert_ne by done.
           split; [by destruct (buffers u !! b)|]. intros. apply Hnew. lia.
    + intros b Hb Hnb. simpl in Hnb |- *. unfold buffers'. rewrite lookup_insert_ne by done.
      unfold refs in Hb. apply elem_of_cons in Hb as [->|Hb]; [done|]. specialize (Hne b Hb).
      by rewrite lookup_delete_ne, lookup_insert_ne by done.
Qed.

(** The first half of [replace_buffer]: the new buffer has what was waiting. *)
Definition with_copy (u : unpacker) (w : bytes) (n : Z) : unpacker :=
  Unpacker (<[next_buffer u := Buffer 1 w n]> (buffers u)) (S (next_buffer u)) (m_buffer u) (m_used u)
    (m_free u) (m_off u) (m_parsed u) (m_initial_buffer_size u) (m_context u) (m_finalizers u).

Lemma buffer_bytes_waiting u x :
  buffer_ok u x -> drop (Z.to_nat (m_off u)) (buffer_bytes x (m_used u)) = waiting u x.
Proof.
  intros (_ & _ & _ & Hoff & _). unfold buffer_bytes, waiting, COUNTER_SIZE in *.
  rewrite drop_app_ge by (rewrite length_rev, length_store; lia). rewrite length_rev, length_store.
  f_equal. lia.
Qed.

Lemma copy_waiting u x n {A} (k : bytes -> MU A) :
  buffers u !! m_buffer u = Some x -> buffer_ok u x -> m_buffer u <> next_buffer u ->
  COUNTER_SIZE + zlen (waiting u x) <= n ->
  (tmp ← malloc n; s ← read_buffer (m_buffer u) (m_used u);
   _ ← write_buffer tmp COUNTER_SIZE (drop (Z.to_nat (m_off u)) s); k s) u =
  k (buffer_bytes x (m_used u)) (with_copy u (waiting u x) n).
Proof.
  intros Hx Hok Hne Hn. pose proof Hok as (_ & _ & Hlen & _).
  unfold malloc, read_buffer, write_buffer, the_buffer, mbind, M_bind. simpl.
  rewrite lookup_insert_ne, Hx by done. replace (m_used u - COUNTER_SIZE <=? zlen (contents x)) with true by lia.
  simpl. rewrite lookup_insert_eq, (buffer_bytes_waiting u x Hok). simpl.
  replace (COUNTER_SIZE + zlen (waiting u x) <=? n) with true by lia. simpl.
  unfold put_buffer, modify, with_copy, set_buffers. simpl.
  by rewrite drop_nil, app_nil_r, insert_insert_eq.
Qed.

(** The second half: who leaves the old buffer, and what is filled from now on. *)
Section replace.
Context (u : unpacker) (hs : list (object_handle * object)) (s : stream) (x : buffer) (n : Z).
Hypothesis u_serves : serves u hs s.
Hypothesis x_lookup : buffers u !! m_buffer u = Some x.
Hypothesis x_ok : buffer_ok u x.
Hypothesis room_there : COUNTER_SIZE + zlen (waiting u x) <= n < 2 ^ 47.

Let u1 := with_copy u (waiting u x) n.
Let y := Buffer 1 (waiting u x) n.
Let fill := set_fill (next_buffer u) (zlen (waiting u x) + COUNTER_SIZE)
  (n - (zlen (waiting u x) + COUNTER_SIZE)) COUNTER_SIZE.

Lemma fill_ok v :
  m_initial_buffer_size v = m_initial_buffer_size u ->
  buffer_ok (fill v) y /\ waiting (fill v) y = waiting u x.
Proof using x_ok room_there.
  intros E. pose proof x_ok as (_ & Hby & _ & Hoff & _ & _ & Hini). pose proof (zlen_nonneg (waiting u x)).
  assert (COUNTER_SIZE = 4) as Hcs by done. split.
  - unfold buffer_ok, fill. cbn [m_used m_free m_off m_initial_buffer_size set_fill size contents y].
    split_and!; try lia. by apply Forall_drop, Forall_take.
  - unfold waiting at 1, fill. cbn [m_used m_off set_fill contents y].
    rewrite Z.sub_diag, drop_0. apply take_ge. unfold zlen. lia.
Qed.

Lemma copy_counted : counted u1 (next_buffer u :: refs u hs).
Proof using u_serves.
  destruct u_serves as [_ _ _ Hcnt _ _]. eapply counted_fresh; [exact Hcnt| |done..].
  intros b Hb. by eapply counted_new.
Qed.

(** The old buffer is left to the zone of the object that is read. *)
Lemma replaced_referenced :
  referenced u = true ->
  serves (fill (set_context (set_visitor (set_referenced false (visitor (m_context u))) (m_context u))
    (set_finalizers (m_buffer u :: m_finalizers u) u1))) hs s.
Proof using u_serves x_lookup x_ok room_there.
  intros Hr. set (u' := fill _). destruct (fill_ok (set_context (set_visitor (set_referenced false
    (visitor (m_context u))) (m_context u)) (set_finalizers (m_buffer u :: m_finalizers u) u1)) eq_refl)
    as [Hoky Hwy].
  apply (serves_fresh u u' hs s x y u_serves x_lookup); [done| |done|done| |done|exact copy_counted|].
  - exact (lookup_insert_eq _ _ _).
  - by rewrite Hr.
  - intros b _ Hne. change (m_buffer u') with (next_buffer u) in Hne.
    change (buffers u') with (<[next_buffer u := y]> (buffers u)). by rewrite lookup_insert_ne.
Qed.

(** The unpacker gives the old buffer up. *)
Lemma replaced_unreferenced :
  referenced u = false -> zlen (refs u hs) + 1 < 2 ^ 32 ->
  exists h', decr_count (m_buffer u) u1 = (Ok (), set_buffers h' u1) /\
    serves (fill (set_buffers h' u1)) hs s.
Proof using u_serves x_lookup x_ok room_there.
  intros Hr Hrefs. pose proof copy_counted as Hcnt1.
  destruct (decr_count_ok u1 (m_buffer u) (next_buffer u :: m_finalizers u ++
      concat (map (fun h => handle_buffers h.1) hs))) as (h' & Ed & Hcnt2 & Hshape).
  { eapply counted_perm; [|exact Hcnt1]. unfold refs. apply Permutation_swap. }
  { unfold refs in Hrefs. rewrite !zlen_cons in *. lia. }
  exists h'. split; [exact Ed|]. set (u' := fill _).
  assert (h' !! next_buffer u = Some y) as Hy'.
  { pose proof (Hshape (next_buffer u) ltac:(left)) as Hsh.
    change (buffers u1) with (<[next_buffer u := y]> (buffers u)) in Hsh. rewrite lookup_insert_eq in Hsh.
    destruct (shape_lookup {[ next_buffer u := y ]} h' (next_buffer u) y) as [c E];
      [by rewrite lookup_singleton_eq|apply lookup_singleton_eq|]. rewrite E. unfold y. do 2 f_equal.
    destruct (Hcnt2 (next_buffer u)) as [Hc2 _]. change (buffers (set_buffers h' u1)) with h' in Hc2.
    rewrite E in Hc2. destruct (Hcnt1 (next_buffer u)) as [Hc1 _].
    change (buffers u1) with (<[next_buffer u := y]> (buffers u)) in Hc1. rewrite lookup_insert_eq in Hc1.
    unfold refs in Hc1. rewrite !occ_cons, decide_True in Hc1 by done. rewrite occ_cons, decide_True in Hc2 by done.
    pose proof (occ_nonneg (next_buffer u) (m_finalizers u ++ concat (map (fun h => handle_buffers h.1) hs))).
    change (count y) with 1 in Hc1. simpl in Hc2. case_decide; lia. }
  destruct (fill_ok (set_buffers h' u1) eq_refl) as [Hoky Hwy].
  apply (serves_fresh u u' hs s x y u_serves x_lookup); [done|exact Hy'|done|done|by rewrite Hr| |exact Hcnt2|].
  - change (m_context u') with (m_context u). unfold referenced in Hr.
    rewrite set_referenced_same by done. by destruct (m_context u).
  - intros b Hb Hne. change (m_buffer u') with (next_buffer u) in Hne. change (buffers u') with h'.
    rewrite Hshape by exact Hb. change (buffers u1) with (<[next_buffer u := y]> (buffers u)).
    by rewrite lookup_insert_ne.
Qed.
End replace.

Lemma replace_serves u hs s n :
  serves u hs s -> 0 <= n < 2 ^ 32 -> zlen (s_bytes s) < 2 ^ 32 -> zlen (refs u hs) + 1 < 2 ^ 32 ->
  exists u', replace_buffer n u = (Ok (), u') /\ serves u' hs s /\ n <= m_free u' /\
    zlen (refs u' hs) <= zlen (refs u hs) + 1.
Proof.
  intros Hserves Hn Hsmall Hrefs. pose proof Hserves as [(x & Hx & Hok & Es) _ _ Hcnt _ _].
  pose proof (waiting_length u x Hok) as Hw. pose proof (zlen_nonneg (waiting u x)).
  pose proof Hok as (_ & _ & _ & Hoff & _ & _ & Hini). assert (COUNTER_SIZE = 4) as Hcs by done.
  rewrite Es in Hsmall.
  assert (u64 (m_used u - m_off u) = zlen (waiting u x)) as Enp by (rewrite Hw; apply wrap_small; lia).
  set (size' := double_size 64 (m_initial_buffer_size u) (u64 (n + u64 (m_used u - m_off u) + COUNTER_SIZE))).
  assert (n + zlen (waiting u x) + COUNTER_SIZE <= size' < 2 ^ 47) as Hsize.
  { unfold size'. rewrite Enp.
    assert (u64 (n + zlen (waiting u x) + COUNTER_SIZE) = n + zlen (waiting u x) + COUNTER_SIZE) as ->
      by (apply wrap_small; lia).
    pose proof (double_size_bounds 64 (m_initial_buffer_size u) (n + zlen (waiting u x) + COUNTER_SIZE)). lia. }
  assert (m_buffer u <> next_buffer u) as Hneb by (eapply refs_old; [exact Hcnt|left]).
  set (fill := set_fill (next_buffer u) (zlen (waiting u x) + COUNTER_SIZE)
    (size' - (zlen (waiting u x) + COUNTER_SIZE)) COUNTER_SIZE).
  assert (replace_buffer n u =
    (_ ← (if referenced u then _ ← push_finalizer (m_buffer u); update_visitor (set_referenced false)
          else decr_count (m_buffer u)); modify fill) (with_copy u (waiting u x) size')) as ->.
  { unfold replace_buffer. rewrite bind_get. cbv zeta. fold size'. rewrite Enp.
    assert (u64 (zlen (waiting u x) + COUNTER_SIZE) = zlen (waiting u x) + COUNTER_SIZE) as ->
      by (apply wrap_small; lia).
    assert (u64 (size' - (zlen (waiting u x) + COUNTER_SIZE)) = size' - (zlen (waiting u x) + COUNTER_SIZE)) as ->
      by (apply wrap_small; lia).
    apply (copy_waiting u x size' (fun _ => _ ← (if referenced u then
        _ ← push_finalizer (m_buffer u); update_visitor (set_referenced false)
      else decr_count (m_buffer u)); modify fill) Hx Hok Hneb). lia. }
  assert (COUNTER_SIZE + zlen (waiting u x) <= size' < 2 ^ 47) as Hroom by lia.
  destruct (referenced u) eqn:Hr.
  - exists (fill (set_context (set_visitor (set_referenced false (visitor (m_context u))) (m_context u))
      (set_finalizers (m_buffer u :: m_finalizers u) (with_copy u (waiting u x) size')))).
    split; [reflexivity|]. split; [by apply replaced_referenced|].
    change (n <= size' - (zlen (waiting u x) + COUNTER_SIZE) /\
      zlen (next_buffer u :: refs u hs) <= zlen (refs u hs) + 1). rewrite zlen_cons. lia.
  - destruct (replaced_unreferenced u hs s x size' Hserves Hx Hok Hroom Hr Hrefs) as (h' & Ed & Hs).
    eexists. split; [by rewrite (bind_ok _ _ _ _ _ Ed)|]. split; [exact Hs|].
    change (n <= size' - (zlen (waiting u x) + COUNTER_SIZE) /\
      zlen (refs u hs) <= zlen (refs u hs) + 1). lia.
Qed.

Lemma reserve_serves u hs s n :
  serves u hs s -> 0 <= n < 2 ^ 32 -> zlen (s_bytes s) < 2 ^ 32 -> zlen (refs u hs) + 1 < 2 ^ 32 ->
  exists u', reserve_buffer n u = (Ok (), u') /\ serves u' hs s /\ n <= m_free u' /\
    zlen (refs u' hs) <= zlen (refs u hs) + 1.
Proof.
  intros Hserves Hn Hsmall Hrefs. unfold reserve_buffer. rewrite bind_get.
  destruct (Z.leb_spec n (m_free u)) as [|Hfree]; [exists u; split_and!; done || lia|].
  pose proof Hserves as [(x & Hx & Hok & Es) _ _ Hcnt _ Hst].
  destruct (counted_live u _ (m_buffer u) Hcnt ltac:(left)) as (x0 & Hx0 & Hcount).
  rewrite Hx in Hx0. injection Hx0 as <-.
  pose proof Hok as (Hsz & _ & _ & Hoff & Hfr & Hbig & _). assert (COUNTER_SIZE = 4) as Hcs by done.
  unfold expand_buffer. rewrite bind_get.
  rewrite (bind_ok (get_count (m_buffer u)) _ u (count x) u)
    by (unfold get_count, the_buffer, mbind, M_bind; by rewrite Hx).
  destruct ((m_used u =? m_off u) && (count x =? 1) && negb (referenced u)) eqn:Hrw.
  - apply andb_prop in Hrw as [[Hu%Z.eqb_eq H1%Z.eqb_eq]%andb_prop Hr%negb_true_iff].
    assert (u64 (m_free u + (m_used u - COUNTER_SIZE)) = m_free u + (m_used u - COUNTER_SIZE)) as ->
      by (apply wrap_small; lia).
    rewrite bind_assoc, bind_modify. rewrite bind_assoc, bind_get, bind_ret.
    pose proof (rewind_serves u hs s Hserves Hu ltac:(congruence) Hr) as Hs1. set (u1 := set_fill _ _ _ _ u) in *.
    destruct (Z.leb_spec n (m_free u1)) as [|Hfree1]; [exists u1; split_and!; try done|].
    + change (refs u1 hs) with (refs u hs). lia.
    + rewrite bind_get. change (m_off u1) with COUNTER_SIZE. rewrite Z.eqb_refl.
      destruct (grow_serves u1 hs s n Hs1 eq_refl Hn Hfree1 Hsmall) as (u' & E & Hs & Hle & Href).
      exists u'. split_and!; try done. rewrite Href. change (refs u1 hs) with (refs u hs). lia.
  - rewrite bind_ret, bind_get. destruct (Z.eqb_spec (m_off u) COUNTER_SIZE) as [Eoff|_].
    + destruct (grow_serves u hs s n Hserves Eoff Hn Hfree Hsmall) as (u' & E & Hs & Hle & Href).
      exists u'. split_and!; try done. rewrite Href. lia.
    + by apply replace_serves.
Qed.

(** *** The next object *)

Section parse.
Context (u : unpacker) (hs : list (object_handle * object)) (s : stream) (x : buffer).
Hypothesis u_serves : serves u hs s.
Hypothesis x_lookup : buffers u !! m_buffer u = Some x.
Hypothesis x_ok : buffer_ok u x.
Hypothesis s_waiting : s_bytes s = waiting u x.

Let data := buffer_bytes x (m_used u).

Lemma data_length : len data = m_used u.
Proof using x_ok.
  pose proof x_ok as (_ & _ & Hlen & Hoff & _). unfold data, buffer_bytes, len, zlen, COUNTER_SIZE in *.
  rewrite length_app, length_rev, length_store, length_take. lia.
Qed.

Lemma data_is_bytes : Forall is_byte data.
Proof using x_ok.
  pose proof x_ok as (_ & Hby & _). apply Forall_app. split; [apply Forall_rev, store_bytes|by apply Forall_take].
Qed.

Lemma data_split : data = take (Z.to_nat (m_off u)) data ++ s_bytes s.
Proof using x_ok s_waiting. rewrite s_waiting, <- (buffer_bytes_waiting u x x_ok). symmetry. apply take_drop. Qed.

Lemma data_skipped : m_off u = zlen (take (Z.to_nat (m_off u)) data).
Proof using x_ok.
  pose proof data_length as Hl. pose proof x_ok as (_ & _ & _ & Hoff & _).
  unfold zlen, len, COUNTER_SIZE in *. rewrite length_take. lia.
Qed.

Lemma data_readable p k :
  m_off u <= p -> p + k <= len data ->
  readable_in (mem u) (live u [m_buffer u]) (Some (base (m_buffer u) + p)) (bytes_at data p k).
Proof using x_lookup x_ok.
  intros Hp Hl. rewrite data_length in Hl. pose proof x_ok as (_ & _ & _ & Hoff & Hfr & Hbig & _).
  assert (COUNTER_SIZE = 4) as Hcs by done.
  assert (forall i, (i < length (bytes_at data p k))%nat -> Z.of_nat i < k) as Hi
    by (intros i Hi; unfold bytes_at in Hi; rewrite length_take in Hi; lia).
  right. eexists. split; [done|]. split.
  - intros i b Hb. pose proof (Hi i (lookup_lt_Some _ _ _ Hb)). rewrite <- Z.add_assoc.
    rewrite mem_base by lia. rewrite x_lookup. simpl.
    unfold bytes_at in Hb. apply lookup_take_Some in Hb as [Hb _]. rewrite lookup_drop in Hb.
    unfold data, buffer_bytes in Hb. rewrite lookup_app_r in Hb by (rewrite length_rev, length_store; lia).
    rewrite length_rev, length_store in Hb. apply lookup_take_Some in Hb as [Hb _]. rewrite <- Hb. f_equal. lia.
  - intros i Hlt. specialize (Hi i Hlt). exists (m_buffer u), (p + Z.of_nat i).
    split; [lia|]. split; [by left|]. split; [lia|]. intros _. lia.
Qed.

(** The state of the unpacker behind a run of the parser. *)
Definition parsed_to (c : context create_object_visitor) : unpacker :=
  set_parsed (off c) (if m_off u <? off c then m_parsed u + (off c - m_off u) else m_parsed u) (set_context c u).

Lemma execute_imp_sim :
  match execute 0 (s_bytes s) (s_context s) with
  | (Ok r, c2) =>
      exists c1, execute_imp u = (Ok r, parsed_to c1) /\ points u (visitor c1) (visitor c2) /\
        m_trail c1 = m_trail c2 /\ m_cs c1 = m_cs c2 /\ MsgParse.m_stack c1 = MsgParse.m_stack c2 /\
        off c1 = off c2 + m_off u /\
        (r = PARSE_CONTINUE -> off c2 = 0 -> visitor c1 = visitor (m_context u))
  | (Throw e, _) => exists u', execute_imp u = (Throw e, u')
  | (Crash _, _) => True
  end.
Proof using u_serves x_lookup x_ok s_waiting.
  destruct u_serves as [_ (Ht & Hcs & Hstk & Ho & Hcur & Hok & _) Hvis _ _ _].
  pose proof x_ok as (_ & _ & Hlen & Hoff & _). pose proof data_length as Hl. assert (COUNTER_SIZE = 4) by done.
  set (c0 := set_off (m_off u) (m_context u)).
  assert (execute_imp u = let '(r, c) := execute (base (m_buffer u)) data c0 in
    (r, match r with Ok _ => parsed_to c | _ => set_parsed (off c) (m_parsed u) (set_context c u) end)) as ->.
  { assert (read_buffer (m_buffer u) (m_used u) u = (Ok data, u)) as Hread.
    { unfold read_buffer, the_buffer, mbind, M_bind. rewrite x_lookup.
      by replace (m_used u - COUNTER_SIZE <=? zlen (contents x)) with true by lia. }
    unfold execute_imp. rewrite Hread. fold c0.
    by destruct (execute (base (m_buffer u)) data c0) as [[] c]. }
  rewrite <- (execute_current (base (m_buffer u)) data c0) by (simpl; lia).
  pose proof (sim_execute (points u) (readable_in (mem u) (live u [m_buffer u])) (readable_nil _ _) (m_off u)
    (base (m_buffer u)) 0 data (s_bytes s) _ data_split data_skipped data_readable
    (set_current (off c0) c0) (s_context s)) as Hsim.
  assert (same (points u) (m_off u) (set_current (off c0) c0) (s_context s)) as Hsame
    by (split_and!; try done; simpl; lia).
  specialize (Hsim Hsame ltac:(simpl; lia)). unfold result in Hsim.
  destruct (execute 0 (s_bytes s) (s_context s)) as [[r|e|w] c2]; [| |done].
  - destruct Hsim as (r' & c1 & E & -> & (_ & H2 & H3 & H4 & H5) & H6). specialize (H6 I). rewrite E.
    exists c1. split_and!; try done. intros -> H0. rewrite execute_current in E by (simpl; lia).
    apply (execute_idle (base (m_buffer u)) data data_is_bytes c0 c1); [|change (off c0) with (m_off u); lia|exact E|change (off c0) with (m_off u); lia].
    unfold context_ok in *. simpl. by rewrite Ht, Hcs.
  - destruct Hsim as (c1 & -> & _). by eexists.
Qed.
End parse.

(** What is left behind a run. *)
Lemma waiting_parsed u x k p :
  buffer_ok u x -> 0 <= k <= zlen (waiting u x) ->
  let u' := set_parsed (k + m_off u) p u in
  buffer_ok u' x /\ waiting u' x = drop (Z.to_nat k) (waiting u x).
Proof.
  intros Hok Hk u'. pose proof (waiting_length u x Hok) as Hw.
  pose proof Hok as (? & ? & ? & ? & ? & ? & ?). split.
  - unfold buffer_ok. simpl. split_and!; lia || done.
  - unfold waiting. simpl. rewrite drop_drop. f_equal. lia.
Qed.

Lemma waiting_is_bytes u x : buffer_ok u x -> Forall is_byte (waiting u x).
Proof. intros (_ & Hby & _). by apply Forall_drop, Forall_take. Qed.

(** No object is complete. *)
Lemma next_none u hs s s' :
  serves u hs s -> zlen (s_bytes s) < 2 ^ 32 -> pull s = (Ok None, s') ->
  exists u', next u = (Ok None, u') /\ serves u' hs s' /\ refs u' hs = refs u hs.
Proof using limit_pos.
  intros Hs Hsmall E. pose proof Hs as [(x & Hx & Hok & Es) Hctx Hvis Hcnt Hhs Hst].
  pose proof (execute_imp_sim u hs s x Hs Hx Hok Es) as Hsim. unfold pull in E.
  pose proof (waiting_is_bytes u x Hok) as Hby. rewrite <- Es in Hby.
  destruct Hctx as (_ & _ & _ & Ho & _ & Hcok & Hg).
  pose proof (safe_execute lim limit_pos 0 (s_bytes s) Hby Hsmall (s_context s) Hg Hcok
    ltac:(unfold len; rewrite Ho; lia)) as Hsafe. unfold safe in Hsafe.
  destruct (execute 0 (s_bytes s) (s_context s)) as [[[]|e|w] c2]; try done.
  { destruct Hsafe as ((_ & o & Hv & _) & _). by rewrite Hv in E. }
  injection E as <-. destruct Hsafe as (Hg2 & Hcok2 & Hoff2). rewrite Ho in Hoff2.
  destruct Hsim as (c1 & E1 & Hp & Ht & Hcs & Hstk & Hoff & Hidle).
  change (len (s_bytes s)) with (zlen (s_bytes s)) in Hoff2. rewrite Es in Hoff2.
  destruct (waiting_parsed u x (off c2) (if m_off u <? off c1 then m_parsed u + (off c1 - m_off u) else m_parsed u)
    Hok Hoff2) as [Hok' Ew]. rewrite <- Hoff in Hok', Ew.
  exists (parsed_to u c1). split; [unfold next, mbind, M_bind; by rewrite E1|]. split; [|done]. split.
  - exists x. split; [done|]. split; [exact Hok'|]. simpl. rewrite Es. symmetry. exact Ew.
  - by split_and!.
  - exact Hp.
  - exact Hcnt.
  - exact Hhs.
  - pose proof Hok as (_ & _ & _ & Hrange & _). intros E4. change (m_off (parsed_to u c1)) with (off c1) in E4.
    destruct (Hst ltac:(lia)) as [Hr Hocc]. split; [|exact Hocc].
    unfold referenced in *. cbn. by rewrite (Hidle eq_refl ltac:(lia)).
Qed.

(** *** An object is given *)

Lemma incr_count_ok u b l :
  counted u l -> b ∈ l -> zlen l + 1 < 2 ^ 32 ->
  exists h', incr_count b u = (Ok (), set_buffers h' u) /\ counted (set_buffers h' u) (b :: l) /\
    forall b', shape <$> h' !! b' = shape <$> buffers u !! b'.
Proof.
  intros Hc Hin Hl. destruct (counted_live u l b Hc Hin) as (x & Hx & Hn).
  pose proof (occ_le b l). pose proof (occ_nonneg b l). unfold incr_count.
  rewrite (bind_ok _ _ _ x u) by (unfold the_buffer; by rewrite Hx).
  assert (u32 (count x + 1) = count x + 1) as -> by (apply wrap_small; lia).
  eexists. split; [done|]. split.
  - intros b'. destruct (Hc b') as [Hb' Hnew]. simpl. rewrite occ_cons. destruct (decide (b = b')) as [<-|Hne].
    + rewrite lookup_insert_eq. simpl. split; [lia|]. intros Hge. by rewrite (Hnew Hge) in Hx.
    + rewrite lookup_insert_ne by done. split; [by destruct (buffers u !! b')|done].
  - intros b'. destruct (decide (b' = b)) as [->|Hne]; [by rewrite lookup_insert_eq, Hx|].
    by rewrite lookup_insert_ne.
Qed.

(** The buffers that the zone of the object counts in, when it is given. *)
Definition flushed (u : unpacker) : list nat :=
  if referenced u then m_buffer u :: m_finalizers u else m_finalizers u.

Definition unreferenced (u : unpacker) : context create_object_visitor :=
  set_visitor (set_referenced false (visitor (m_context u))) (m_context u).

Lemma flush_zone_ok u rest :
  counted u (m_buffer u :: m_finalizers u ++ rest) -> zlen (m_buffer u :: m_finalizers u ++ rest) + 1 < 2 ^ 32 ->
  exists h', flush_zone u = (Ok (), set_buffers h' (set_context (unreferenced u) (set_finalizers (flushed u) u))) /\
    counted (set_buffers h' u) (m_buffer u :: flushed u ++ rest) /\
    forall b, shape <$> h' !! b = shape <$> buffers u !! b.
Proof.
  intros Hc Hl. unfold flush_zone, flushed. rewrite bind_get. destruct (referenced u) eqn:Hr.
  - set (u1 := set_context (unreferenced u) (set_finalizers (m_buffer u :: m_finalizers u) u)).
    destruct (incr_count_ok u1 (m_buffer u) _ Hc ltac:(left) Hl) as (h' & E & Hc' & Hs).
    exists h'. split; [exact E|]. split; [exact Hc'|exact Hs].
  - exists (buffers u). split; [|by destruct u].
    unfold unreferenced. rewrite set_referenced_same by exact Hr. by destruct u as [? ? ? ? ? ? ? ? [] ?].
Qed.

(** The state behind [next], when it gives an object. *)
Definition given (u : unpacker) (h' : gmap nat buffer) : unpacker :=
  set_parsed (m_off u) 0 (set_context (context_init (set_visitor (set_zone (Zone [] [])
    (visitor (unreferenced u))) (unreferenced u)))
    (set_finalizers [] (set_buffers h' u))).

Definition given_handle (u : unpacker) : object_handle :=
  ObjectHandle (m_obj (visitor (m_context u))) (m_zone (visitor (m_context u))) (flushed u).

Lemma next_run u u1 h' :
  execute_imp u = (Ok PARSE_SUCCESS, u1) ->
  flush_zone u1 = (Ok (), set_buffers h' (set_context (unreferenced u1) (set_finalizers (flushed u1) u1))) ->
  next u = (Ok (Some (given_handle u1, referenced u1)), given u1 h').
Proof.
  intros E1 E2. unfold next. rewrite (bind_ok _ _ _ _ _ E1), bind_get. unfold release_zone.
  rewrite bind_assoc, (bind_ok _ _ _ _ _ E2). reflexivity.
Qed.

(** What the object that was read depends on. *)
Lemma given_handle_ok u h' o :
  points u (visitor (m_context u)) (Tree lim (Some o) []) ->
  (forall b, shape <$> h' !! b = shape <$> buffers u !! b) ->
  handle_ok (given u h') (given_handle u) o.
Proof.
  intros Hp Hshape m' Hm. unfold given_handle. cbn [handle_zone handle_obj].
  apply (builds_object m' (visitor (m_context u)) (Tree lim (Some o) [])); [|done|done]. apply Hp.
  assert (stays (flushed u) u (given u h')) as Hs by (by apply stays_same).
  assert (forall b a, b ∈ flushed u -> live u [b] a -> m' a = mem u a) as Hb.
  { intros b a Hin (b1 & k & -> & ->%list_elem_of_singleton & Hk).
    destruct (Hs (base b + k)) as [Ha <-]; [by exists b, k|]. by apply Hm. }
  unfold flushed, referenced in Hb. intros a [(b & k & -> & Hin & Hk)|[Hr Ha]].
  - apply (Hb b); [destruct (m_referenced _); [by right|done]|]. exists b, k. split; [done|]. split; [by left|done].
  - rewrite Hr in Hb. apply (Hb (m_buffer u)); [by left|done].
Qed.

Lemma given_serves u hs s c1 x o k h' :
  let u1 := parsed_to u c1 in
  serves u hs s -> buffers u !! m_buffer u = Some x -> buffer_ok u x -> s_bytes s = waiting u x ->
  points u (visitor c1) (Tree lim (Some o) []) -> off c1 = k + m_off u -> 0 < k <= zlen (waiting u x) ->
  counted (set_buffers h' u1) (m_buffer u :: flushed u1 ++ concat (map (fun h => handle_buffers h.1) hs)) ->
  (forall b, shape <$> h' !! b = shape <$> buffers u1 !! b) ->
  serves (given u1 h') ((given_handle u1, o) :: hs) (Stream (fresh lim) (drop (Z.to_nat k) (s_bytes s))).
Proof.
  intros u1 [_ _ _ _ Hhs _] Hx Hok Es Hp Hoff Hk Hcnt Hshape.
  destruct (waiting_parsed u x k 0 Hok ltac:(lia)) as [Hok' Ew]. rewrite <- Hoff in Hok', Ew.
  destruct (shape_lookup (buffers u) h' (m_buffer u) x (Hshape _) Hx) as [n Hn].
  pose proof Hok as (_ & _ & _ & Hrange & _). split.
  - exists (Buffer n (contents x) (size x)). split; [exact Hn|]. split; [exact Hok'|].
    rewrite Es. symmetry. exact Ew.
  - split_and!; try done; [by left|by exists []].
  - intros m' _. split; [|done]. destruct (flagged_builds _ _ _ _ _ Hp) as (Hl & _). exact Hl.
  - exact Hcnt.
  - constructor; [by apply given_handle_ok|].
    eapply handles_stay; [|exact Hhs]. intros b _. by apply stays_same.
  - intros E. change (m_off (given u1 h')) with (off c1) in E. lia.
Qed.

Lemma next_some u hs s s' o :
  serves u hs s -> zlen (s_bytes s) < 2 ^ 32 -> zlen (refs u hs) + 1 < 2 ^ 32 -> pull s = (Ok (Some o), s') ->
  exists u' h r, next u = (Ok (Some (h, r)), u') /\ serves u' ((h, o) :: hs) s' /\
    zlen (refs u' ((h, o) :: hs)) <= zlen (refs u hs) + 1.
Proof using limit_pos.
  intros Hs Hsmall Hrefs E. pose proof Hs as [(x & Hx & Hok & Es) Hctx Hvis Hcnt Hhs Hst].
  pose proof (execute_imp_sim u hs s x Hs Hx Hok Es) as Hsim. unfold pull in E.
  pose proof (waiting_is_bytes u x Hok) as Hby. rewrite <- Es in Hby.
  destruct Hctx as (_ & _ & _ & Ho & _ & Hcok & Hg).
  pose proof (safe_execute lim limit_pos 0 (s_bytes s) Hby Hsmall (s_context s) Hg Hcok
    ltac:(unfold len; rewrite Ho; lia)) as Hsafe. unfold safe in Hsafe.
  destruct (execute 0 (s_bytes s) (s_context s)) as [[[]|e|w] c2]; try done.
  destruct Hsafe as ((_ & o' & Hv & _) & Hoff2). rewrite Hv in E. injection E as -> <-. rewrite Ho in Hoff2.
  destruct Hsim as (c1 & E1 & Hp & _ & _ & _ & Hoff & _). rewrite Hv in Hp.
  destruct (flush_zone_ok (parsed_to u c1) (concat (map (fun h => handle_buffers h.1) hs)) Hcnt Hrefs)
    as (h' & Ef & Hcnt' & Hshape).
  exists (given (parsed_to u c1) h'), (given_handle (parsed_to u c1)), (referenced (parsed_to u c1)).
  split; [by apply next_run|]. split.
  - apply (given_serves u hs s c1 x o (off c2) h'); try done. rewrite <- Es. exact Hoff2.
  - unfold refs. cbn [map concat fst given_handle handle_buffers]. unfold flushed.
    change (m_finalizers (given _ _)) with (@nil nat). rewrite !zlen_cons, !zlen_app. 
    destruct (referenced (parsed_to u c1)); rewrite ?zlen_cons, ?zlen_nil;
      change (m_finalizers (parsed_to u c1)) with (m_finalizers u); lia.
Qed.

(** The visitor throws. *)
Lemma next_throw u hs s s' e :
  serves u hs s -> pull s = (Throw e, s') -> exists u', next u = (Throw e, u').
Proof.
  intros Hs E. pose proof Hs as [(x & Hx & Hok & Es) _ _ _ _ _].
  pose proof (execute_imp_sim u hs s x Hs Hx Hok Es) as Hsim. unfold pull in E.
  destruct (execute 0 (s_bytes s) (s_context s)) as [[[]|e'|w] c2]; try done.
  injection E as -> <-. destruct Hsim as [u' E']. exists u'. unfold next, mbind, M_bind. by rewrite E'.
Qed.

(** *** Handles are destroyed *)

Lemma run_finalizers_ok l : forall u rest,
  counted u (l ++ rest) -> zlen (l ++ rest) < 2 ^ 32 ->
  exists h', run_finalizers l u = (Ok (), set_buffers h' u) /\ counted (set_buffers h' u) rest /\
    forall b, b ∈ rest -> shape <$> h' !! b = shape <$> buffers u !! b.
Proof.
  induction l as [|b l IH]; intros u rest Hc Hl.
  - exists (buffers u). by destruct u.
  - destruct (decr_count_ok u b (l ++ rest) Hc Hl) as (h1 & E1 & Hc1 & Hs1).
    rewrite <- app_comm_cons, zlen_cons in Hl.
    destruct (IH (set_buffers h1 u) rest Hc1 ltac:(lia)) as (h2 & E2 & Hc2 & Hs2).
    exists h2. split; [simpl; by rewrite (bind_ok _ _ _ _ _ E1)|]. split; [exact Hc2|].
    intros b' Hin. rewrite Hs2 by done. apply Hs1, elem_of_app. by right.
Qed.

(** A change that leaves alone what is counted. *)
Lemma serves_set_buffers u hs hs' s h' :
  serves u hs s -> counted (set_buffers h' u) (refs u hs') -> (forall ho, ho ∈ hs' -> ho ∈ hs) ->
  occ (m_buffer u) (refs u hs') <= occ (m_buffer u) (refs u hs) ->
  (forall b, b ∈ refs u hs' -> shape <$> h' !! b = shape <$> buffers u !! b) -> serves (set_buffers h' u) hs' s.
Proof.
  intros [(x & Hx & Hok & Es) Hctx Hvis Hcnt Hhs Hst] Hcnt' Hsub Hocc Hshape. set (u' := set_buffers h' u).
  assert (forall b, b ∈ refs u hs' -> stays [b] u u') as Hstay
    by (intros b Hb; apply stays_same; intros b' ->%list_elem_of_singleton; [by apply Hshape|done]).
  destruct (shape_lookup (buffers u) h' (m_buffer u) x (Hshape _ ltac:(left)) Hx) as [n Hn]. split.
  - exists (Buffer n (contents x) (size x)). done.
  - exact Hctx.
  - apply (points_stay u); [|done| |exact Hvis].
    + intros b Hb. apply Hstay. unfold refs. right. apply elem_of_app. by left.
    + intros _. split; [apply Hstay; left|done].
  - exact Hcnt'.
  - eapply handles_stay.
    + intros b Hb. apply Hstay. unfold refs. right. apply elem_of_app. by right.
    + rewrite Forall_forall in Hhs |- *. auto.
  - intros E. destruct (Hst E) as [Hr Ho]. split; [exact Hr|]. change (refs u' hs') with (refs u hs').
    change (m_buffer u') with (m_buffer u).
    assert (0 < occ (m_buffer u) (refs u hs')) by (apply occ_pos; left). lia.
Qed.

Lemma concat_middle {A} (f : A -> list nat) l1 a l2 :
  Permutation (concat (map f (l1 ++ a :: l2))) (f a ++ concat (map f (l1 ++ l2))).
Proof. rewrite !map_app, !concat_app. simpl. by rewrite Permutation_app_swap_app. Qed.

Lemma refs_middle u l1 h o l2 :
  Permutation (refs u (l1 ++ (h, o) :: l2)) (handle_buffers h ++ refs u (l1 ++ l2)).
Proof.
  unfold refs. rewrite (concat_middle (fun h => handle_buffers h.1) l1 (h, o) l2). simpl.
  rewrite (Permutation_app_swap_app (m_finalizers u)). by rewrite Permutation_middle.
Qed.

Lemma destroy_serves u l1 h o l2 s :
  serves u (l1 ++ (h, o) :: l2) s -> zlen (refs u (l1 ++ (h, o) :: l2)) < 2 ^ 32 ->
  exists u', destroy_handle h u = (Ok (), u') /\ serves u' (l1 ++ l2) s /\
    zlen (refs u' (l1 ++ l2)) <= zlen (refs u (l1 ++ (h, o) :: l2)).
Proof.
  intros Hs Hl. pose proof (refs_middle u l1 h o l2) as Hp.
  pose proof (serves_counted _ _ _ Hs) as Hc. apply (counted_perm _ _ _ Hp) in Hc.
  assert (zlen (refs u (l1 ++ (h, o) :: l2)) = zlen (handle_buffers h) + zlen (refs u (l1 ++ l2))) as Hz
    by (unfold zlen; rewrite (Permutation_length Hp), length_app; lia).
  pose proof (zlen_nonneg (handle_buffers h)).
  destruct (run_finalizers_ok (handle_buffers h) u (refs u (l1 ++ l2)) Hc) as (h' & E & Hc' & Hshape).
  { rewrite zlen_app. lia. }
  exists (set_buffers h' u). split; [exact E|]. split; [|change (refs (set_buffers h' u)) with (refs u); lia].
  eapply serves_set_buffers; [exact Hs|exact Hc'| | |exact Hshape].
  - intros ho. rewrite !elem_of_app, elem_of_cons. tauto.
  - rewrite (occ_perm _ _ _ Hp), occ_app. pose proof (occ_nonneg (m_buffer u) (handle_buffers h)). lia.
Qed.

(** The last ones leave nothing behind. *)
Lemma destroy_leaves_nothing u s :
  serves u [] s -> zlen (refs u []) < 2 ^ 32 -> exists u', destroy u = (Ok (), u') /\ buffers u' = ∅.
Proof.
  intros Hs Hl. pose proof (serves_counted _ _ _ Hs) as Hc. unfold refs in Hc, Hl. simpl in Hc, Hl.
  rewrite app_nil_r in Hc, Hl. unfold destroy. rewrite bind_get.
  destruct (run_finalizers_ok (m_finalizers u) u [m_buffer u]) as (h1 & E1 & Hc1 & _).
  { eapply counted_perm; [|exact Hc]. apply (Permutation_app_comm [m_buffer u]). }
  { rewrite zlen_app. rewrite zlen_cons in Hl. change (zlen [m_buffer u]) with 1. lia. }
  rewrite (bind_ok _ _ _ _ _ E1).
  destruct (decr_count_ok (set_buffers h1 u) (m_buffer u) [] Hc1) as (h2 & E2 & Hc2 & _); [done|].
  exists (set_buffers h2 u). split; [exact E2|]. apply map_eq. intros b. rewrite lookup_empty. change (h2 !! b = None).
  destruct (Hc2 b) as [Hb _]. simpl in Hb. destruct (h2 !! b) as [y|]; [|done].
  unfold occ in Hb. simpl in Hb. lia.
Qed.
End serves.
