(* ===== verification/MsgClient.v ===== *)
(** * MessagePack: a caller of the unpacker

    What a caller does with an unpacker: it reserves room, copies what it has
    received and says so, asks for objects, and destroys their handles when it
    likes.  Whatever it does, it gets the objects of the stream, and those it
    keeps stay as they are. *)
From S2P Require Import Prelude MsgObject MsgParse MsgStream MsgTree MsgRoundTrip MsgSafety MsgVisitor MsgSession MsgUnpacker MsgUnpackerRefines.

Inductive call :=
(** [reserve_buffer(n)] *)
| Reserve (n : Z)
(** [reserve_buffer(|b|)], the copy of [b] to [buffer()], [buffer_consumed(|b|)] *)
| Receive (b : bytes)
(** [next(result)] *)
| Next
(** the end of the handle of that number *)
| Destroy (i : nat).

(** The unpacker, and the handles the caller has, with the objects it saw in
    them when it got them. *)
Record client := Client { its_unpacker : unpacker; its_handles : list (object_handle * object) }.

Definition set_unpacker (u : unpacker) (c : client) : client := Client u (its_handles c).

(** The object a caller sees in a handle. *)
Definition object_of (u : unpacker) (h : object_handle) : option object :=
  load_object (mem u) (handle_zone h) (S (length (arrays (handle_zone h)))) (handle_obj h).

Definition on_unpacker {A} (m : MU A) : M client A := zoom its_unpacker set_unpacker m.

(** A call, with the object that came. *)
Definition do_call (l : call) : M client (option object) :=
  match l with
  | Reserve n => _ ← on_unpacker (reserve_buffer n); mret None
  | Receive b => _ ← on_unpacker (_ ← reserve_buffer (zlen b); receive b); mret None
  | Next =>
      r ← on_unpacker next;
      match r with
      | None => mret None
      | Some (h, _) =>
          c ← get;
          match object_of (its_unpacker c) h with
          | Some o => _ ← modify (fun c => Client (its_unpacker c) ((h, o) :: its_handles c)); mret (Some o)
          | None => crash "not an object"
          end
      end
  | Destroy i =>
      c ← get;
      match its_handles c !! i with
      | Some (h, _) =>
          _ ← on_unpacker (destroy_handle h);
          _ ← modify (fun c => Client (its_unpacker c) (delete i (its_handles c)));
          mret None
      | None => mret None
      end
  end.

Fixpoint do_calls (l : list call) : M client (list object) :=
  match l with
  | [] => mret []
  | a :: l =>
      o ← do_call a;
      os ← do_calls l;
      mret (match o with Some o => o :: os | None => os end)
  end.

Definition new_client (f : option (object_type -> Z -> bool)) (initial_buffer_size : Z)
    (lim : unpack_limit) : client := Client (new_unpacker f initial_buffer_size lim) [].

(** What the stream sees of the calls. *)
Definition event_of (a : call) : list event :=
  match a with
  | Receive b => [Feed b]
  | Next => [Pull]
  | _ => []
  end.

Definition events_of (l : list call) : list event := concat (map event_of l).

(** Bytes, and sizes of requests below 4 GiB. *)
Definition call_ok (a : call) : Prop :=
  match a with
  | Reserve n => 0 <= n < 2 ^ 32
  | Receive b => Forall is_byte b
  | _ => True
  end.

(** The end of the caller: its handles, and the unpacker. *)
Fixpoint destroy_handles (hs : list (object_handle * object)) : MU unit :=
  match hs with
  | [] => mret ()
  | h :: hs => _ ← destroy_handle h.1; destroy_handles hs
  end.

Definition quit : M client unit :=
  c ← get; on_unpacker (_ ← destroy_handles (its_handles c); destroy).

Section client.
Context (lim : unpack_limit) (limit_pos : 0 <= limit_depth lim).

Definition client_serves (c : client) (s : stream) : Prop :=
  serves lim (its_unpacker c) (its_handles c) s.

Definition count_refs (c : client) : Z := zlen (refs (its_unpacker c) (its_handles c)).

Lemma new_client_serves f n :
  n < 2 ^ 40 -> client_serves (new_client f n lim) (new_stream lim) /\ count_refs (new_client f n lim) = 1.
Proof.
  intros Hn. split; [|done]. set (k := Z.max n COUNTER_SIZE). assert (COUNTER_SIZE = 4) as Hcs by done. split.
  - exists (Buffer 1 [] k). split; [apply lookup_singleton_eq|]. split; [|done].
    unfold buffer_ok. simpl. fold k. change (zlen (@nil Z)) with 0. split_and!; try lia. constructor.
  - split_and!; try done; [by left|by exists []].
  - apply new_visitor_builds.
  - intros b. simpl. destruct (decide (b = 0%nat)) as [->|Hne].
    + split; [by rewrite lookup_singleton_eq|]. lia.
    + rewrite lookup_singleton_ne by done. split; [|done]. unfold refs. simpl.
      by rewrite occ_cons, decide_False by congruence.
  - constructor.
  - done.
Qed.

(** The handles hold what the caller saw. *)
Lemma serves_objects c s :
  client_serves c s -> Forall (fun h => object_of (its_unpacker c) h.1 = Some h.2) (its_handles c).
Proof.
  intros Hs. eapply Forall_impl; [apply (serves_handles _ _ _ _ Hs)|]. intros [h o] Hh. apply Hh.
  by intros a _.
Qed.

(** One call, and what the stream does for it. *)
Definition stream_call (a : call) : M stream (option object) :=
  match a with
  | Receive b => _ ← modify (feed b); mret None
  | Next => pull
  | _ => mret None
  end.

Lemma on_unpacker_ok {A} (m : MU A) c r u' :
  m (its_unpacker c) = (r, u') -> on_unpacker m c = (r, set_unpacker u' c).
Proof. unfold on_unpacker, zoom. by intros ->. Qed.

Lemma do_receive_serves b c s :
  client_serves c s -> Forall is_byte b -> zlen (s_bytes s) + zlen b < 2 ^ 32 -> count_refs c + 1 < 2 ^ 32 ->
  exists c', do_call (Receive b) c = (Ok None, c') /\ client_serves c' (feed b s) /\ count_refs c' <= count_refs c + 1.
Proof.
  intros Hs Hb Hl Href. pose proof (zlen_nonneg b). pose proof (zlen_nonneg (s_bytes s)).
  destruct (reserve_serves lim _ _ _ (zlen b) Hs ltac:(lia) ltac:(lia) Href) as (u1 & E1 & Hs1 & Hroom & Href1).
  destruct (receive_serves lim _ _ _ b Hs1 Hb Hroom) as (u2 & E2 & Hs2 & _ & Href2).
  exists (set_unpacker u2 c). split.
  - unfold do_call. rewrite (bind_ok _ _ _ () (set_unpacker u2 c)); [done|]. apply on_unpacker_ok.
    by rewrite (bind_ok _ _ _ _ _ E1).
  - split; [exact Hs2|]. unfold count_refs. simpl. rewrite Href2. exact Href1.
Qed.

Lemma do_next_serves c s :
  client_serves c s -> zlen (s_bytes s) < 2 ^ 32 -> count_refs c + 1 < 2 ^ 32 ->
  match pull s with
  | (Ok o, s') => exists c', do_call Next c = (Ok o, c') /\ client_serves c' s' /\ count_refs c' <= count_refs c + 1
  | (Throw e, _) => exists c', do_call Next c = (Throw e, c')
  | (Crash _, _) => True
  end.
Proof using limit_pos.
  intros Hs Hl Href. destruct (pull s) as [[[o|]|e|w] s'] eqn:E; [| | |done].
  - destruct (next_some lim limit_pos _ _ _ _ _ Hs Hl Href E) as (u' & h & r & E' & Hs' & Href').
    exists (Client u' ((h, o) :: its_handles c)). split; [|split; [exact Hs'|exact Href']].
    unfold do_call. rewrite (bind_ok _ _ _ _ _ (on_unpacker_ok _ _ _ _ E')), bind_get.
    change (its_unpacker (set_unpacker u' c)) with u'.
    pose proof (serves_objects (Client u' ((h, o) :: its_handles c)) s' Hs') as Ho.
    apply Forall_cons in Ho as [Ho _]. simpl in Ho. by rewrite Ho.
  - destruct (next_none lim limit_pos _ _ _ _ Hs Hl E) as (u' & E' & Hs' & Href').
    exists (set_unpacker u' c). split; [|split; [exact Hs'|unfold count_refs; simpl; rewrite Href'; lia]].
    unfold do_call. by rewrite (bind_ok _ _ _ _ _ (on_unpacker_ok _ _ _ _ E')).
  - destruct (next_throw lim _ _ _ _ _ Hs E) as (u' & E'). exists (set_unpacker u' c).
    unfold do_call. by rewrite (bind_throw _ _ _ _ _ (on_unpacker_ok _ _ _ _ E')).
Qed.

Lemma do_destroy_serves i c s :
  client_serves c s -> count_refs c < 2 ^ 32 ->
  exists c', do_call (Destroy i) c = (Ok None, c') /\ client_serves c' s /\ count_refs c' <= count_refs c.
Proof.
  intros Hs Href. unfold do_call. rewrite bind_get. destruct (its_handles c !! i) as [[h o]|] eqn:E; [|exists c; by split_and!].
  pose proof (take_drop_middle _ _ _ E) as Emid. unfold client_serves, count_refs in *. rewrite <- Emid in Hs, Href.
  destruct (destroy_serves lim _ _ _ _ _ _ Hs Href) as (u' & E' & Hs' & Href').
  exists (Client u' (delete i (its_handles c))). rewrite (bind_ok _ _ _ _ _ (on_unpacker_ok _ _ _ _ E')).
  split; [done|]. simpl. rewrite delete_take_drop. split; [exact Hs'|]. rewrite <- Emid at 3. exact Href'.
Qed.

Lemma do_reserve_serves n c s :
  client_serves c s -> 0 <= n < 2 ^ 32 -> zlen (s_bytes s) < 2 ^ 32 -> count_refs c + 1 < 2 ^ 32 ->
  exists c', do_call (Reserve n) c = (Ok None, c') /\ client_serves c' s /\ count_refs c' <= count_refs c + 1.
Proof.
  intros Hs Hn Hl Href.
  destruct (reserve_serves lim _ _ _ n Hs Hn Hl Href) as (u1 & E1 & Hs1 & _ & Href1).
  exists (set_unpacker u1 c). split; [|split; [exact Hs1|exact Href1]].
  unfold do_call. by rewrite (bind_ok _ _ _ _ _ (on_unpacker_ok _ _ _ _ E1)).
Qed.

(** *** All calls *)

(** [pull] only takes bytes away. *)
Lemma pull_bytes s : zlen (s_bytes (snd (pull s))) <= zlen (s_bytes s).
Proof.
  assert (forall k, zlen (drop k (s_bytes s)) <= zlen (s_bytes s)) as Hd
    by (intros k; unfold zlen; rewrite length_drop; lia).
  unfold pull. destruct (execute 0 (s_bytes s) (s_context s)) as [[[]|e|w] c]; simpl; apply Hd || lia.
Qed.

Lemma session_bytes l : forall s, zlen (s_bytes (snd (session l s))) <= zlen (s_bytes s) + zlen (fed l).
Proof.
  induction l as [|[b|] l IH]; intros s; cbn [session fed].
  - change (zlen (@nil Z)) with 0. simpl. lia.
  - rewrite bind_modify, zlen_app. specialize (IH (feed b s)). simpl in IH. rewrite zlen_app in IH. lia.
  - pose proof (pull_bytes s) as Hp. pose proof (zlen_nonneg (fed l)). unfold mbind, M_bind.
    destruct (pull s) as [[o|e|w] s1]; simpl in *; try lia.
    specialize (IH s1). destruct (session l s1) as [[os|e|w] s2]; simpl in *; lia.
Qed.

Lemma session_call a l s :
  session (event_of a ++ l) s =
  (o ← stream_call a; os ← session l; mret (match o with Some o => o :: os | None => os end)) s.
Proof.
  destruct a; try done; unfold modify, mret, M_ret; simpl; unfold mbind, M_bind, mret, M_ret; simpl;
    match goal with |- _ = match ?t with _ => _ end => by destruct t as [[]] end.
Qed.

(** A call does what the stream does. *)
Lemma do_call_serves a c s :
  client_serves c s -> call_ok a -> zlen (s_bytes s) + zlen (fed (event_of a)) < 2 ^ 32 -> count_refs c + 1 < 2 ^ 32 ->
  match stream_call a s with
  | (Ok o, s') =>
      (exists c', do_call a c = (Ok o, c') /\ client_serves c' s' /\ count_refs c' <= count_refs c + 1) /\
      zlen (s_bytes s') <= zlen (s_bytes s) + zlen (fed (event_of a))
  | (Throw e, _) => exists c', do_call a c = (Throw e, c')
  | (Crash _, _) => True
  end.
Proof using limit_pos.
  intros Hs Ha Hby Href. destruct a as [n|b| |i]; simpl in *.
  - change (zlen (@nil Z)) with 0 in *. split; [|lia]. apply do_reserve_serves; done || lia.
  - rewrite app_nil_r in *. split; [|unfold zlen; rewrite length_app; lia]. by apply do_receive_serves.
  - change (zlen (@nil Z)) with 0 in *. pose proof (do_next_serves c s Hs ltac:(lia) Href) as H.
    pose proof (pull_bytes s) as Hp. destruct (pull s) as [[]]; try done. split; [done|]. simpl in Hp. lia.
  - change (zlen (@nil Z)) with 0 in *. split; [|lia].
    destruct (do_destroy_serves i c s Hs ltac:(lia)) as (c' & E & Hs' & Hr). exists c'. split_and!; done || lia.
Qed.

Lemma fed_app l1 l2 : fed (l1 ++ l2) = fed l1 ++ fed l2.
Proof. induction l1 as [|[b|] l1 IH]; simpl; [done| |done]. by rewrite IH, app_assoc. Qed.

Lemma fed_bytes l : Forall call_ok l -> Forall is_byte (fed (events_of l)).
Proof.
  induction 1 as [|a l Ha _ IH]; [constructor|]. change (events_of (a :: l)) with (event_of a ++ events_of l).
  rewrite fed_app. apply Forall_app. split; [|done]. destruct a; simpl; try constructor.
  by rewrite app_nil_r.
Qed.

Lemma do_calls_serve l : forall c s,
  client_serves c s -> Forall call_ok l ->
  zlen (s_bytes s) + zlen (fed (events_of l)) < 2 ^ 32 -> count_refs c + zlen l < 2 ^ 32 ->
  match session (events_of l) s with
  | (Ok os, s') =>
      exists c', do_calls l c = (Ok os, c') /\ client_serves c' s' /\ count_refs c' <= count_refs c + zlen l
  | (Throw e, _) => exists c', do_calls l c = (Throw e, c')
  | (Crash _, _) => True
  end.
Proof using limit_pos.
  induction l as [|a l IH]; intros c s Hs Hl Hby Href; [exists c; split_and!; try done; unfold zlen; lia|].
  apply Forall_cons in Hl as [Ha Hl]. change (events_of (a :: l)) with (event_of a ++ events_of l) in *.
  rewrite session_call, zlen_cons, fed_app, zlen_app in *. pose proof (zlen_nonneg l).
  pose proof (zlen_nonneg (fed (events_of l))).
  pose proof (do_call_serves a c s Hs Ha ltac:(lia) ltac:(lia)) as Hcall. cbn [do_calls].
  destruct (stream_call a s) as [[o|e|w] s1] eqn:Es.
  - destruct Hcall as [(c1 & Ec & Hs1 & Hr1) Hb1]. rewrite (bind_ok _ _ _ _ _ Es), (bind_ok _ _ _ _ _ Ec).
    specialize (IH c1 s1 Hs1 Hl ltac:(lia) ltac:(lia)).
    destruct (session (events_of l) s1) as [[os|e|w] s2] eqn:E2; [| |by unfold mbind, M_bind; rewrite E2].
    + destruct IH as (c2 & Ec2 & Hs2 & Hr2). rewrite (bind_ok _ _ _ _ _ E2), (bind_ok _ _ _ _ _ Ec2).
      exists c2. split_and!; [done|done|lia].
    + destruct IH as (c2 & Ec2). rewrite (bind_throw _ _ _ _ _ E2), (bind_throw _ _ _ _ _ Ec2). by exists c2.
  - destruct Hcall as (c1 & Ec). rewrite (bind_throw _ _ _ _ _ Es), (bind_throw _ _ _ _ _ Ec). by exists c1.
  - unfold mbind at 1, M_bind at 1. by rewrite Es.
Qed.

(** *** The end *)

Lemma destroy_handles_serve hs : forall u s,
  serves lim u hs s -> zlen (refs u hs) < 2 ^ 32 ->
  exists u', destroy_handles hs u = (Ok (), u') /\ serves lim u' [] s /\ zlen (refs u' []) < 2 ^ 32.
Proof.
  induction hs as [|[h o] hs IH]; intros u s Hs Hr; [by exists u|].
  destruct (destroy_serves lim u [] h o hs s Hs Hr) as (u1 & E & Hs1 & Hr1). simpl in Hs1, Hr1.
  destruct (IH u1 s Hs1 ltac:(lia)) as (u2 & E2 & Hs2 & Hr2). exists u2. split; [|done].
  simpl. by rewrite (bind_ok _ _ _ _ _ E).
Qed.

Lemma quit_serves c s :
  client_serves c s -> count_refs c < 2 ^ 32 -> exists c', quit c = (Ok (), c') /\ buffers (its_unpacker c') = ∅.
Proof.
  intros Hs Hr. destruct (destroy_handles_serve _ _ _ Hs Hr) as (u1 & E1 & Hs1 & Hr1).
  destruct (destroy_leaves_nothing lim u1 s Hs1 Hr1) as (u2 & E2 & Hb). exists (set_unpacker u2 c). split; [|done].
  unfold quit. rewrite bind_get. apply on_unpacker_ok. by rewrite (bind_ok _ _ _ _ _ E1).
Qed.
End client.

(** C30 (refinement).  The unpacker is a stream.  Whatever calls are made, with bytes that
    come in any pieces, less than 4 GiB of them, and handles that are kept or destroyed
    in any order: the unpacker gives the objects of the stream, or throws what the
    stream throws; it does not read or write outside of a buffer, nor use one that was
    freed; each object that was kept is what it was when it came, though the buffer
    was rewound, moved or replaced since; and when the handles and the unpacker are
    gone, so are all the buffers. *)
Theorem unpacker_refines f n lim l :
  0 <= limit_depth lim -> n < 2 ^ 40 -> Forall call_ok l ->
  zlen (fed (events_of l)) < 2 ^ 32 -> zlen l + 1 < 2 ^ 32 ->
  match session (events_of l) (new_stream lim), do_calls l (new_client f n lim) with
  | (Ok os, _), (Ok os', c) =>
      os' = os /\ Forall (fun h => object_of (its_unpacker c) h.1 = Some h.2) (its_handles c) /\
      exists c', quit c = (Ok (), c') /\ buffers (its_unpacker c') = ∅
  | (Throw e, _), (Throw e', _) => e' = e /\ refused e
  | _, _ => False
  end.
Proof.
  intros Hlim Hn Hl Hf Hz. destruct (new_client_serves lim f n Hn) as [Hs Hr].
  pose proof (do_calls_serve lim Hlim l _ _ Hs Hl Hf ltac:(lia)) as Hd.
  pose proof (session_objects lim Hlim (events_of l) [] [] [] (new_stream lim) (fed_bytes l Hl) Hf
    (objects_nil _ _) (reading_start lim [])) as Hso.
  destruct (session (events_of l) (new_stream lim)) as [[os|e|w] s]; [| |done].
  - destruct Hd as (c & -> & Hs' & Hr'). split; [done|]. split; [by eapply serves_objects|].
    eapply quit_serves; [done|]. lia.
  - destruct Hd as (c & ->). split; [done|]. apply Hso.
Qed.

Definition some_calls : list call :=
  [Receive [0xa3; 97; 98]; Next; Receive [99; 0x92; 1; 0xa1]; Next; Next; Receive [100; 7; 0x93]; Reserve 40;
   Next; Destroy 1; Next; Next].

Lemma unpacker_refines_witness :
  exists c, do_calls some_calls (new_client (Some (fun _ _ => true)) 8 default_limit)
    = (Ok [STR [97; 98; 99]; ARRAY [POSITIVE_INTEGER 1; STR [100]]; POSITIVE_INTEGER 7], c) /\
    map snd (its_handles c) = [POSITIVE_INTEGER 7; ARRAY [POSITIVE_INTEGER 1; STR [100]]] /\
    Forall (fun h => object_of (its_unpacker c) h.1 = Some h.2) (its_handles c).
Proof.
  assert (Forall call_ok some_calls) as Hok.
  { unfold some_calls. repeat (constructor; simpl; try lia; try done). all: unfold is_byte; lia. }
  pose proof (unpacker_refines (Some (fun _ _ => true)) 8 default_limit some_calls
    ltac:(vm_compute; discriminate) ltac:(lia) Hok ltac:(vm_compute; reflexivity) ltac:(vm_compute; reflexivity)) as H.
  assert (fst (session (events_of some_calls) (new_stream default_limit))
    = Ok [STR [97; 98; 99]; ARRAY [POSITIVE_INTEGER 1; STR [100]]; POSITIVE_INTEGER 7]) as E
    by (vm_compute; reflexivity).
  assert (map snd (its_handles (snd (do_calls some_calls (new_client (Some (fun _ _ => true)) 8 default_limit))))
    = [POSITIVE_INTEGER 7; ARRAY [POSITIVE_INTEGER 1; STR [100]]]) as Eh by (vm_compute; reflexivity).
  destruct (session (events_of some_calls) (new_stream default_limit)) as [[os|e|w] s]; simpl in E; try discriminate E.
  injection E as ->.
  destruct (do_calls some_calls (new_client (Some (fun _ _ => true)) 8 default_limit)) as [[os'|e|w] c]; try done.
  destruct H as (-> & Hh & _). exists c. split; [done|]. split; [exact Eh|exact Hh].
Defined.

(** Objects that arrive.  Some objects were packed one behind the other,
    with a part of another one behind them, and arrive in pieces that are cut anywhere,
    between any other calls.  No call throws; the objects that came are the first ones
    that were packed, in order and each once; and when [next] then says that there is
    none, all of those that are complete have come. *)
Lemma unpacker_objects f n lim l objs o part more :
  0 <= limit_depth lim -> n < 2 ^ 40 -> Forall call_ok l -> zlen l + 2 < 2 ^ 32 ->
  Forall (accepted lim) objs -> accepted lim o -> pack o = part ++ more -> more <> [] ->
  fed (events_of l) = concat (map pack objs) ++ part -> zlen (fed (events_of l) ++ more) < 2 ^ 32 ->
  exists os c, do_calls l (new_client f n lim) = (Ok os, c) /\ os `prefix_of` objs /\
    match fst (do_call Next c) with Ok None => os = objs | Ok (Some _) => True | _ => False end.
Proof.
  intros Hlim Hn Hl Hz Hobjs Ho Epart Hmore Efed Hlen.
  destruct (stream_objects lim (events_of l) objs o part more Hlim Hobjs Ho Epart Hmore Efed Hlen)
    as (os & s & Es & Hpre & Hpull).
  destruct (new_client_serves lim f n Hn) as [Hs Hr]. rewrite zlen_app in Hlen. pose proof (zlen_nonneg more).
  pose proof (session_bytes (events_of l) (new_stream lim)) as Hbs. rewrite Es in Hbs. simpl in Hbs.
  change (zlen (@nil Z)) with 0 in Hbs.
  pose proof (do_calls_serve lim Hlim l _ _ Hs Hl ltac:(simpl; change (zlen (@nil Z)) with 0; lia) ltac:(lia)) as Hd.
  rewrite Es in Hd. destruct Hd as (c & -> & Hs' & Hr'). exists os, c. split; [done|]. split; [done|].
  pose proof (do_next_serves lim Hlim c s Hs' ltac:(lia) ltac:(lia)) as Hnext.
  destruct (pull s) as [[[o1|]|e|w] s']; simpl in Hpull; try done; by destruct Hnext as (c' & -> & _).
Qed.
