(* ===== verification/MsgAdaptor.v ===== *)
(** * MessagePack: the adaptors of C++ types

    Include/rpc/msgpack/v1/adaptor: how a value of a C++ type becomes an object
    ([object_with_zone]), how it is packed without one ([pack]), and how it is
    made from an object ([convert]): int.hpp, bool.hpp, float.hpp, nil.hpp,
    string.hpp, vector_char.hpp, ext.hpp, vector.hpp, pair.hpp, cpp11/tuple.hpp,
    check_container_size.hpp, and the packer's operations on the integer types of
    the language (v1/pack.hpp).  A class says what the adaptors of a type promise
    each other; each type is an instance. *)
From S2P Require Import Prelude MsgObject MsgParse MsgStream MsgTree MsgRoundTrip.

#[export] Instance outcome_ret : MRet outcome := fun A => Ok.
#[export] Instance outcome_bind : MBind outcome := fun A B f m =>
  match m with Ok a => f a | Throw e => Throw e | Crash w => Crash w end.

(** [clmdep_msgpack::type_error], a [std::bad_cast]. *)
Definition type_error : exn := StdException "bad cast".

(** [checked_get_container_size], for a [std::size_t] of 64 bits. *)
Definition checked_get_container_size (size : Z) : outcome Z :=
  if 0xffffffff <? size then Throw (StdException "container size overflow") else Ok size.

(** The adaptors of a type.  [convert] is given the value it assigns to. *)
Class Adaptor (T : Type) := {
  (** [T()] *)
  initial : T;
  convert : object -> T -> outcome T;
  object_of_value : T -> outcome object;
  pack_value : T -> outcome bytes;
}.

(** ** The types *)

(** An integer type: whether it is signed, and its width. *)
Record integer (sg : bool) (w : Z) := Integer { int_value : Z }.
Arguments Integer {sg w} int_value.
Arguments int_value {sg w} i.

Abbreviation int := (integer true 32).
Abbreviation int8_t := (integer true 8).
Abbreviation uint8_t := (integer false 8).
Abbreviation uint32_t := (integer false 32).

Record nil_t := Nil {}.
(** [float] and [double], by their bits. *)
Record float32 := Float { float_bits : Z }.
Record float64 := Double { double_bits : Z }.
(** [std::string] and [std::vector<char>]. *)
Record std_string := StdString { string_chars : bytes }.
Record vector_char := VectorChar { vector_chars : bytes }.
(** [type::ext]: the byte of the type and the data. *)
Record ext := Ext { ext_type : Z; ext_data : bytes }.
(** [std::tuple<A, B, C>] is [tuple (A * (B * (C * unit)))]. *)
Record tuple (A : Type) := Tuple { elements : A }.
Arguments Tuple {A} elements.
Arguments elements {A} t.

(** ** Integers *)

Definition int_min (sg : bool) (w : Z) : Z := if sg then - 2 ^ (w - 1) else 0.
Definition int_max (sg : bool) (w : Z) : Z := if sg then 2 ^ (w - 1) - 1 else 2 ^ w - 1.

(** [static_cast<T>]. *)
Definition cast_int (sg : bool) (w z : Z) : Z := if sg then signed w z else z mod 2 ^ w.

(** [convert_integer], of a signed and of an unsigned type. *)
Definition convert_integer (sg : bool) (w : Z) (o : object) : outcome (integer sg w) :=
  match o with
  | POSITIVE_INTEGER u =>
      if u64 (int_max sg w) <? u then Throw type_error else Ok (Integer (cast_int sg w u))
  | NEGATIVE_INTEGER i =>
      if sg then if i <? int_min sg w then Throw type_error else Ok (Integer (cast_int sg w i))
      else Throw type_error
  | _ => Throw type_error
  end.

(** [object<T>] of an integer type. *)
Definition object_of_int (z : Z) : object :=
  if z <? 0 then NEGATIVE_INTEGER z else POSITIVE_INTEGER z.

(** [pack_char], [pack_signed_char], [pack_short], [pack_int], [pack_long], [pack_long_long]
    and those of the unsigned types: the operation for the width the type has. *)
Definition pack_integer (sg : bool) (w z : Z) : bytes :=
  if sg then
    if w =? 8 then pack_imp_int8 z
    else if w =? 16 then pack_imp_int16 z
    else if w =? 32 then pack_imp_int32 z
    else pack_imp_int64 z
  else
    if w =? 8 then pack_imp_uint8 z
    else if w =? 16 then pack_imp_uint16 z
    else if w =? 32 then pack_imp_uint32 z
    else pack_imp_uint64 z.

#[export] Instance integer_adaptor sg w : Adaptor (integer sg w) := {|
  initial := Integer 0;
  convert o _ := convert_integer sg w o;
  object_of_value v := Ok (object_of_int (int_value v));
  pack_value v := Ok (pack_integer sg w (int_value v));
|}.

(** ** Other types without parts *)

#[export] Instance bool_adaptor : Adaptor bool := {|
  initial := false;
  convert o _ := match o with BOOLEAN b => Ok b | _ => Throw type_error end;
  object_of_value v := Ok (BOOLEAN v);
  pack_value v := Ok (if v then pack_true else pack_false);
|}.

#[export] Instance nil_adaptor : Adaptor nil_t := {|
  initial := Nil;
  convert o v := match o with NIL => Ok v | _ => Throw type_error end;
  object_of_value v := Ok NIL;
  pack_value v := Ok pack_nil;
|}.

(** An unsigned integer as a float with [m] bits behind the point and the exponent
    bias [bias]. *)
Definition float_of_nat (m bias u : Z) : Z :=
  if u =? 0 then 0
  else
    let k := Z.log2 u in
    if k <=? m then (k + bias) * 2 ^ m + (u * 2 ^ (m - k) - 2 ^ m)
    else (k + bias - 1) * 2 ^ m + round_shift u (k - m).

(** [static_cast<float>] and [static_cast<double>] of an integer. *)
Definition float_of_int (z : Z) : Z :=
  if z <? 0 then 2 ^ 31 + float_of_nat 23 127 (- z) else float_of_nat 23 127 z.
Definition double_of_int (z : Z) : Z :=
  if z <? 0 then 2 ^ 63 + float_of_nat 52 1023 (- z) else float_of_nat 52 1023 z.

Example float_of_int_1 :
  float_of_int 1 = 0x3f800000 /\ float_of_int (-3) = 0xc0400000 /\ float_of_int 0x1ffffff = 0x4c000000 /\
  double_of_int (-1) = 0xbff0000000000000 /\ double_of_int (2 ^ 63) = 0x43e0000000000000.
Proof. done. Qed.

#[export] Instance float_adaptor : Adaptor float32 := {|
  initial := Float 0;
  convert o _ :=
    match o with
    | FLOAT32 f | FLOAT64 f => Ok (Float (narrow f))
    | POSITIVE_INTEGER z | NEGATIVE_INTEGER z => Ok (Float (float_of_int z))
    | _ => Throw type_error
    end;
  object_of_value v := Ok (FLOAT32 (widen (float_bits v)));
  pack_value v := Ok (pack_float (float_bits v));
|}.

#[export] Instance double_adaptor : Adaptor float64 := {|
  initial := Double 0;
  convert o _ :=
    match o with
    | FLOAT32 f | FLOAT64 f => Ok (Double f)
    | POSITIVE_INTEGER z | NEGATIVE_INTEGER z => Ok (Double (double_of_int z))
    | _ => Throw type_error
    end;
  object_of_value v := Ok (FLOAT64 (double_bits v));
  pack_value v := Ok (pack_double (double_bits v));
|}.

#[export] Instance string_adaptor : Adaptor std_string := {|
  initial := StdString [];
  convert o _ := match o with BIN s | STR s => Ok (StdString s) | _ => Throw type_error end;
  object_of_value v := _ ← checked_get_container_size (zlen (string_chars v)); Ok (STR (string_chars v));
  pack_value v :=
    size ← checked_get_container_size (zlen (string_chars v)); Ok (pack_str size ++ string_chars v);
|}.

#[export] Instance vector_char_adaptor : Adaptor vector_char := {|
  initial := VectorChar [];
  convert o _ := match o with BIN s | STR s => Ok (VectorChar s) | _ => Throw type_error end;
  object_of_value v := _ ← checked_get_container_size (zlen (vector_chars v)); Ok (BIN (vector_chars v));
  pack_value v :=
    size ← checked_get_container_size (zlen (vector_chars v)); Ok (pack_bin size ++ vector_chars v);
|}.

(** [type::ext]; [check_container_size_for_ext] never fails on a 64-bit machine. *)
#[export] Instance ext_adaptor : Adaptor ext := {|
  initial := Ext 0 [];
  convert o _ := match o with EXT t d => Ok (Ext t d) | _ => Throw type_error end;
  object_of_value v := Ok (EXT (ext_type v) (ext_data v));
  pack_value v := Ok (pack_ext (zlen (ext_data v)) (signed 8 (ext_type v)) ++ ext_data v);
|}.

(** An object is taken as it is. *)
#[export] Instance object_adaptor : Adaptor object := {|
  initial := NIL;
  convert o _ := Ok o;
  object_of_value v := Ok v;
  pack_value v := Ok (pack v);
|}.

(** ** Vectors *)

Section vector.
Context {T : Type} `{Adaptor T}.

(** The loops over the elements. *)
Fixpoint convert_items (items : list object) (v : list T) : outcome (list T) :=
  match items with
  | [] => Ok []
  | o :: items =>
      x ← convert o (match v with x :: _ => x | [] => initial end);
      l ← convert_items items (tail v);
      Ok (x :: l)
  end.

Fixpoint objects_of_items (v : list T) : outcome (list object) :=
  match v with
  | [] => Ok []
  | x :: v => o ← object_of_value x; l ← objects_of_items v; Ok (o :: l)
  end.

Fixpoint pack_items (v : list T) : outcome bytes :=
  match v with
  | [] => Ok []
  | x :: v => b ← pack_value x; l ← pack_items v; Ok (b ++ l)
  end.

#[export] Instance vector_adaptor : Adaptor (list T) := {|
  initial := [];
  convert o v := match o with ARRAY items => convert_items items v | _ => Throw type_error end;
  object_of_value v :=
    match v with
    | [] => Ok (ARRAY [])
    | _ => _ ← checked_get_container_size (zlen v); items ← objects_of_items v; Ok (ARRAY items)
    end;
  pack_value v :=
    size ← checked_get_container_size (zlen v); b ← pack_items v; Ok (pack_array size ++ b);
|}.
End vector.

(** ** Pairs and tuples *)

#[export] Instance pair_adaptor {A B} `{Adaptor A} `{Adaptor B} : Adaptor (A * B) := {|
  initial := (initial, initial);
  convert o v :=
    match o with
    | ARRAY [a; b] => x ← convert a v.1; y ← convert b v.2; Ok (x, y)
    | _ => Throw type_error
    end;
  object_of_value v := a ← object_of_value v.1; b ← object_of_value v.2; Ok (ARRAY [a; b]);
  pack_value v := a ← pack_value v.1; b ← pack_value v.2; Ok (pack_array 2 ++ a ++ b);
|}.

(** [StdTupleConverter], [StdTupleToObjectWithZone] and [StdTuplePacker]: the elements in
    order.  An element without an object keeps its value, and objects behind the last
    element are left alone. *)
Class Elements (A : Type) := {
  elements_size : Z;
  elements_initial : A;
  convert_elements : list object -> A -> outcome A;
  objects_of_elements : A -> outcome (list object);
  pack_elements : A -> outcome bytes;
}.

#[export] Instance no_elements : Elements unit := {|
  elements_size := 0;
  elements_initial := ();
  convert_elements _ v := Ok v;
  objects_of_elements _ := Ok [];
  pack_elements _ := Ok [];
|}.

#[export] Instance more_elements {A B} `{Adaptor A} `{Elements B} : Elements (A * B) := {|
  elements_size := 1 + elements_size (A := B);
  elements_initial := (initial, elements_initial);
  convert_elements items v :=
    match items with
    | o :: items => x ← convert o v.1; r ← convert_elements items v.2; Ok (x, r)
    | [] => r ← convert_elements [] v.2; Ok (v.1, r)
    end;
  objects_of_elements v := o ← object_of_value v.1; l ← objects_of_elements v.2; Ok (o :: l);
  pack_elements v := b ← pack_value v.1; l ← pack_elements v.2; Ok (b ++ l);
|}.

#[export] Instance tuple_adaptor {A} `{Elements A} : Adaptor (tuple A) := {|
  initial := Tuple elements_initial;
  convert o v :=
    match o with
    | ARRAY items => l ← convert_elements items (elements v); Ok (Tuple l)
    | _ => Throw type_error
    end;
  object_of_value v := l ← objects_of_elements (elements v); Ok (ARRAY l);
  pack_value v :=
    size ← checked_get_container_size (elements_size (A := A));
    l ← pack_elements (elements v);
    Ok (pack_array size ++ l);
|}.

(** [o.as<T>()], of a type without an [as] of its own. *)
Definition as_ {T} `{Adaptor T} (o : object) : outcome T := convert o initial.

(** ** What the adaptors promise

    A value the format can hold becomes a well-formed object, packing it writes the
    bytes of that object, and converting the object gives the value again, whatever
    was there before. *)
Class AdaptorLaws (T : Type) `{Adaptor T} := {
  valid : T -> Prop;
  adaptor_object v :
    valid v -> exists o, object_of_value v = Ok o /\ pack_value v = Ok (pack o) /\ wf o /\
      forall v0, convert o v0 = Ok v;
}.

(** Widths of the integer types. *)
Definition width (w : Z) : Prop := w = 8 \/ w = 16 \/ w = 32 \/ w = 64.

Definition in_range (sg : bool) (w z : Z) : Prop := int_min sg w <= z <= int_max sg w.

#[export] Instance in_range_dec sg w z : Decision (in_range sg w z).
Proof. unfold in_range. apply _. Defined.

Ltac split_ltb :=
  repeat match goal with |- context [?a <? ?b] => destruct (Z.ltb_spec a b) end; try lia; try reflexivity.

(** Every type packs an integer as the object of the integer is packed: in as few
    bytes as there are. *)
Lemma pack_integer_object sg w z :
  width w -> in_range sg w z -> pack_integer sg w z = pack (object_of_int z).
Proof.
  intros Hw Hz. unfold in_range, int_min, int_max in Hz. unfold object_of_int.
  assert (forall d, 0 <= d -> pack_imp_int64 d = pack_imp_uint64 d) as H64
    by (intros d Hd; unfold pack_imp_int64, pack_imp_uint64; split_ltb).
  destruct Hw as [-> | [-> | [-> | ->]]]; destruct sg; cbn [pack_integer Z.eqb Pos.eqb];
    simpl in Hz; destruct (Z.ltb_spec z 0); try lia; cbn [pack]; try done; try (rewrite <- H64 by lia; try done);
    unfold pack_imp_int8, pack_imp_int16, pack_imp_int32, pack_imp_int64, pack_imp_uint8, pack_imp_uint16,
      pack_imp_uint32, pack_imp_uint64; split_ltb.
Qed.

(** A conversion gives the integer of the object where the type holds it, and throws
    where it does not. *)
Lemma convert_integer_object sg w z :
  width w -> - 2 ^ 63 <= z < 2 ^ 64 ->
  convert_integer sg w (object_of_int z) =
  if decide (in_range sg w z) then Ok (Integer z) else Throw type_error.
Proof.
  intros Hw Hz.
  assert (0 < w) as Hpos by (destruct Hw as [-> | [-> | [-> | ->]]]; lia).
  assert (u64 (int_max sg w) = int_max sg w) as Emax.
  { apply wrap_small. destruct Hw as [-> | [-> | [-> | ->]]], sg; simpl; lia. }
  assert (in_range sg w z -> cast_int sg w z = z) as Ecast.
  { unfold in_range, cast_int. destruct sg; simpl; intros Hr; [|apply Z.mod_small; lia].
    rewrite <- (signed_small w z) at 2 by lia. unfold signed. by rewrite Z.mod_mod by lia. }
  assert (0 <= int_max sg w) as Hmax
    by (destruct Hw as [-> | [-> | [-> | ->]]], sg; simpl; lia).
  assert (int_min sg w <= 0) as Hmin
    by (destruct Hw as [-> | [-> | [-> | ->]]], sg; simpl; lia).
  unfold object_of_int. destruct (Z.ltb_spec z 0) as [Hneg|Hneg]; cbn [convert_integer].
  - destruct sg; [|by rewrite decide_False by (unfold in_range; simpl; lia)].
    destruct (Z.ltb_spec z (int_min true w)); [by rewrite decide_False by (unfold in_range; lia)|].
    assert (in_range true w z) as Hr by (unfold in_range; lia). rewrite decide_True by done. by rewrite Ecast.
  - rewrite Emax. destruct (Z.ltb_spec (int_max sg w) z); [by rewrite decide_False by (unfold in_range; lia)|].
    assert (in_range sg w z) as Hr by (unfold in_range; lia). rewrite decide_True by done. by rewrite Ecast.
Qed.

Lemma wf_object_of_int z : - 2 ^ 63 <= z < 2 ^ 64 -> wf (object_of_int z).
Proof. intros Hz. unfold object_of_int. destruct (Z.ltb_spec z 0); simpl; lia. Qed.

Lemma in_range_64 sg w z : width w -> in_range sg w z -> - 2 ^ 63 <= z < 2 ^ 64.
Proof. intros [-> | [-> | [-> | ->]]]; unfold in_range; destruct sg; simpl; lia. Qed.

#[export] Program Instance integer_laws sg w (Hw : width w) : AdaptorLaws (integer sg w) := {|
  valid v := in_range sg w (int_value v);
|}.
Next Obligation.
  intros sg w Hw [z] Hz. simpl in Hz. pose proof (in_range_64 sg w z Hw Hz) as H64. exists (object_of_int z).
  split; [done|]. split; [cbn; by rewrite pack_integer_object|]. split; [by apply wf_object_of_int|].
  intros v0. cbn. by rewrite convert_integer_object, decide_True.
Qed.

Lemma width_8 : width 8. Proof. by left. Qed.
Lemma width_16 : width 16. Proof. right; by left. Qed.
Lemma width_32 : width 32. Proof. right; right; by left. Qed.
Lemma width_64 : width 64. Proof. by right; right; right. Qed.
#[export] Hint Resolve width_8 width_16 width_32 width_64 : typeclass_instances.

#[export] Program Instance bool_laws : AdaptorLaws bool := {| valid _ := True |}.
Next Obligation. intros v _. exists (BOOLEAN v). by destruct v. Qed.

#[export] Program Instance nil_laws : AdaptorLaws nil_t := {| valid _ := True |}.
Next Obligation. intros [] _. exists NIL. split_and!; try done. by intros []. Qed.

#[export] Program Instance float_laws : AdaptorLaws float32 := {|
  valid v := 0 <= float_bits v < 2 ^ 32 /\ quiet (float_bits v)
|}.
Next Obligation.
  intros [f] [Hf Hq]. simpl in *. exists (FLOAT32 (widen f)). cbn. rewrite narrow_widen by done.
  split_and!; try done. by exists f.
Qed.

#[export] Program Instance double_laws : AdaptorLaws float64 := {| valid v := 0 <= double_bits v < 2 ^ 64 |}.
Next Obligation. intros [f] Hf. exists (FLOAT64 f). by split_and!. Qed.

Lemma container_size n : n < 2 ^ 32 -> checked_get_container_size n = Ok n.
Proof. intros Hn. unfold checked_get_container_size. by rewrite (proj2 (Z.ltb_ge _ _)) by lia. Qed.

#[export] Program Instance string_laws : AdaptorLaws std_string := {|
  valid v := Forall is_byte (string_chars v) /\ zlen (string_chars v) < 2 ^ 32
|}.
Next Obligation. intros [s] [Hs Hl]. simpl in *. exists (STR s). cbn. by rewrite container_size. Qed.

Lemma string_object s : zlen s < 2 ^ 32 -> object_of_value (StdString s) = Ok (STR s).
Proof. intros Hs. cbn. by rewrite container_size. Qed.

#[export] Program Instance vector_char_laws : AdaptorLaws vector_char := {|
  valid v := Forall is_byte (vector_chars v) /\ zlen (vector_chars v) < 2 ^ 32
|}.
Next Obligation. intros [s] [Hs Hl]. simpl in *. exists (BIN s). cbn. by rewrite container_size. Qed.

#[export] Program Instance ext_laws : AdaptorLaws ext := {|
  valid v := is_byte (ext_type v) /\ Forall is_byte (ext_data v) /\ zlen (ext_data v) < 2 ^ 32 - 1
|}.
Next Obligation. intros [t d] Hv. simpl in Hv. by exists (EXT t d). Qed.

#[export] Program Instance object_laws : AdaptorLaws object := {| valid := wf |}.
Next Obligation. intros o Ho. by exists o. Qed.

Lemma wf_array l : zlen l < 2 ^ 32 -> Forall wf l -> wf (ARRAY l).
Proof. intros Hl Hw. simpl. split; [done|]. by rewrite foldr_and. Qed.

Section vector_laws.
Context {T : Type} `{AdaptorLaws T}.

(** Each object gives its element. *)
Definition converts (o : object) (x : T) : Prop := forall x0, convert o x0 = Ok x.

Lemma items_made (v : list T) :
  Forall valid v -> exists l, objects_of_items v = Ok l /\ pack_items v = Ok (concat (map pack l)) /\
    zlen l = zlen v /\ Forall wf l /\ Forall2 converts l v.
Proof.
  induction 1 as [|x v Hx _ (l & E1 & E2 & El & Hl & Ec)]; [by exists []|].
  destruct (adaptor_object x Hx) as (o & Eo & Ep & Ho & Ev). exists (o :: l). simpl.
  rewrite Eo, E1, Ep, E2. split_and!; try done.
  - by rewrite !zlen_cons, El.
  - by constructor.
  - by constructor.
Qed.

Lemma convert_items_each l v : Forall2 converts l v -> forall v0, convert_items l v0 = Ok v.
Proof.
  induction 1 as [|o x l v Hx _ IH]; intros v0; simpl; [done|]. rewrite (Hx _). simpl. by rewrite IH.
Qed.

(** The object of a vector, which containers with the same loops share. *)
Lemma vector_made (v : list T) :
  Forall valid v -> zlen v < 2 ^ 32 ->
  exists l, object_of_value v = Ok (ARRAY l) /\ pack_value v = Ok (pack (ARRAY l)) /\ wf (ARRAY l) /\
    zlen l = zlen v /\ Forall2 converts l v.
Proof.
  intros Hv Hl. destruct (items_made v Hv) as (l & E1 & E2 & El & Hw & Ec). exists l. split_and!; [| | |done|done].
  - destruct v as [|x v]; [by injection E1 as <-|]. cbn -[objects_of_items]. by rewrite container_size, E1.
  - cbn. rewrite container_size by done. cbn. by rewrite E2, El.
  - apply wf_array; [lia|done].
Qed.

#[export] Program Instance vector_laws : AdaptorLaws (list T) := {|
  valid v := Forall valid v /\ zlen v < 2 ^ 32
|}.
Next Obligation.
  intros v [Hv Hl]. destruct (vector_made v Hv Hl) as (l & E1 & E2 & Hw & _ & Ec). exists (ARRAY l).
  split; [done|]. split; [done|]. split; [done|]. intros v0. by apply convert_items_each.
Qed.
End vector_laws.

#[export] Program Instance pair_laws {A B} `{AdaptorLaws A} `{AdaptorLaws B} : AdaptorLaws (A * B) := {|
  valid v := valid v.1 /\ valid v.2
|}.
Next Obligation.
  intros A B ???? [x y] [Hx Hy]. simpl in *.
  destruct (adaptor_object x Hx) as (a & Ea & Epa & Ha & Eca).
  destruct (adaptor_object y Hy) as (b & Eb & Epb & Hb & Ecb). exists (ARRAY [a; b]). cbn.
  rewrite Ea, Eb, Epa, Epb. cbn. rewrite app_nil_r. split_and!; try done.
  intros [x0 y0]. simpl. by rewrite Eca, Ecb.
Qed.

Class ElementsLaws (A : Type) `{Elements A} := {
  elements_valid : A -> Prop;
  elements_made v :
    elements_valid v -> exists l, objects_of_elements v = Ok l /\ pack_elements v = Ok (concat (map pack l)) /\
      zlen l = elements_size (A := A) /\ Forall wf l /\ forall v0, convert_elements l v0 = Ok v;
}.

#[export] Program Instance no_elements_laws : ElementsLaws unit := {| elements_valid _ := True |}.
Next Obligation. intros [] _. exists []. split_and!; try done. by intros []. Qed.

#[export] Program Instance more_elements_laws {A B} `{AdaptorLaws A} `{ElementsLaws B} : ElementsLaws (A * B) := {|
  elements_valid v := valid v.1 /\ elements_valid v.2
|}.
Next Obligation.
  intros A B ???? [x r] [Hx Hr]. simpl in *.
  destruct (adaptor_object x Hx) as (o & Eo & Ep & Ho & Ev).
  destruct (elements_made r Hr) as (l & E1 & E2 & El & Hl & Ec). exists (o :: l). cbn.
  rewrite Eo, E1, Ep, E2. split_and!; try done.
  - by rewrite zlen_cons, El.
  - by constructor.
  - intros [x0 r0]. simpl. rewrite Ev. simpl. by rewrite Ec.
Qed.

#[export] Program Instance tuple_laws {A} `{ElementsLaws A} : AdaptorLaws (tuple A) := {|
  valid v := elements_valid (elements v) /\ elements_size (A := A) < 2 ^ 32
|}.
Next Obligation.
  intros A ?? [v] [Hv Hs]. simpl in *. destruct (elements_made v Hv) as (l & E1 & E2 & El & Hl & Ec).
  assert (wf (ARRAY l)) as Hwf by (apply wf_array; [by rewrite El|done]).
  exists (ARRAY l). cbn -[wf]. rewrite E1, container_size by done. cbn -[wf]. rewrite E2, <- El.
  split; [done|]. split; [done|]. split; [exact Hwf|]. intros [v0]. simpl. by rewrite Ec.
Qed.

(** C37 (error).  Integers between types.  An integer that was packed as one type and is read
    as another is given where the other type holds it, and throws the error of types
    where it does not; and the bytes do not depend on the type it was packed as. *)
Theorem integer_crosses sg w sg' w' z (v0 : integer sg' w') :
  width w -> width w' -> in_range sg w z ->
  exists b o, pack_value (Integer z : integer sg w) = Ok b /\
    parse_imp 0 b 0 (Tree default_limit None []) = (Ok (PARSE_SUCCESS, zlen b), Tree default_limit (Some o) []) /\
    convert o v0 = (if decide (in_range sg' w' z) then Ok (Integer z) else Throw type_error) /\
    (in_range sg' w' z -> pack_value (Integer z : integer sg' w') = Ok b).
Proof.
  intros Hw Hw' Hz. pose proof (in_range_64 sg w z Hw Hz) as H64.
  exists (pack (object_of_int z)), (object_of_int z).
  split; [cbn; by rewrite pack_integer_object|]. split; [|split].
  - pose proof (parse_packed 0 default_limit [] (object_of_int z) [] (wf_object_of_int z H64)) as Hp.
    rewrite app_nil_r in Hp. apply Hp; try constructor; unfold object_of_int; by destruct (z <? 0).
  - by apply convert_integer_object.
  - intros Hz'. cbn. by rewrite pack_integer_object.
Qed.

(** The number of a call, packed as an [int] and read as a [uint32_t]. *)
Lemma integer_crosses_witness :
  exists b o, pack_value (Integer (-1) : int) = Ok b /\
    parse_imp 0 b 0 (Tree default_limit None []) = (Ok (PARSE_SUCCESS, zlen b), Tree default_limit (Some o) []) /\
    convert o (Integer 0 : uint32_t) = Throw type_error /\
    (in_range false 32 (-1) -> pack_value (Integer (-1) : uint32_t) = Ok b).
Proof.
  apply (integer_crosses true 32 false 32 (-1) (Integer 0)); [apply width_32|apply width_32|].
  unfold in_range. simpl. lia.
Defined.
