(* ===== verification/MsgContainers.v ===== *)
(** * MessagePack: containers

    More adaptors of Include/rpc/msgpack/v1/adaptor: list.hpp, deque.hpp,
    cpp11/forward_list.hpp, cpp11/array.hpp, map.hpp, set.hpp, cpp11/unique_ptr.hpp,
    cpp11/shared_ptr.hpp and fixint.hpp with the packer's operations of a fixed width.
    Each container keeps the promise of MsgAdaptor.v, so what is packed of containers
    in containers is read back; an array that is made by [as] of too few objects reads
    behind them. *)
From Stdlib Require Import Sorted.
From S2P Require Import Prelude MsgObject MsgParse MsgStream MsgTree MsgRoundTrip MsgAdaptor.

(** ** Lists and deques

    Their loops are those of a vector. *)
Record std_list (T : Type) := StdList { list_items : list T }.
Record deque (T : Type) := Deque { deque_items : list T }.
Record forward_list (T : Type) := ForwardList { forward_items : list T }.
Arguments StdList {T}. Arguments list_items {T}.
Arguments Deque {T}. Arguments deque_items {T}.
Arguments ForwardList {T}. Arguments forward_items {T}.

(** The adaptors of a type that holds what a vector holds. *)
Definition sequence_adaptor {T W} `{Adaptor T} (make : list T -> W) (items : W -> list T) : Adaptor W := {|
  initial := make [];
  convert o v := l ← convert o (items v); Ok (make l);
  object_of_value v := object_of_value (items v);
  pack_value v := pack_value (items v);
|}.

#[export] Instance list_adaptor {T} `{Adaptor T} : Adaptor (std_list T) := sequence_adaptor StdList list_items.
#[export] Instance deque_adaptor {T} `{Adaptor T} : Adaptor (deque T) := sequence_adaptor Deque deque_items.
#[export] Instance forward_list_adaptor {T} `{Adaptor T} : Adaptor (forward_list T) :=
  sequence_adaptor ForwardList forward_items.

(** ** Arrays *)

(** [std::array<T, N>], which has N places. *)
Record std_array (T : Type) (n : Z) := StdArray { array_items : list T }.
Arguments StdArray {T n}. Arguments array_items {T n}.

#[export] Instance array_adaptor {T n} `{Adaptor T} : Adaptor (std_array T n) := {|
  initial := StdArray (replicate (Z.to_nat n) initial);
  convert o v :=
    match o with
    | ARRAY items =>
        if n <? zlen items then Throw type_error
        else
          l ← convert_items items (take (length items) (array_items v));
          Ok (StdArray (l ++ take (Z.to_nat n - length items) (drop (length items) (array_items v))))
    | _ => Throw type_error
    end;
  object_of_value v := object_of_value (array_items v);
  pack_value v := pack_value (array_items v);
|}.

(** [detail::array::as_impl], for a type with an [as] of its own: the objects at [k]
    places from [i] on, whatever the size of the array is. *)
Fixpoint array_as_items {T} (as_value : object -> outcome T) (items : list object) (i k : nat) : outcome (list T) :=
  match k with
  | O => Ok []
  | S k =>
      match items !! i with
      | None => Crash "read behind the objects of an array"
      | Some o => x ← as_value o; l ← array_as_items as_value items (S i) k; Ok (x :: l)
      end
  end.

(** [as<std::array<T, N>>]. *)
Definition array_as {T} (as_value : object -> outcome T) (n : Z) (o : object) : outcome (std_array T n) :=
  match o with
  | ARRAY items =>
      if n <? zlen items then Throw type_error
      else l ← array_as_items as_value items 0 (Z.to_nat n); Ok (StdArray l)
  | _ => Throw type_error
  end.

(** ** Tuples by [as]

    [StdTupleAs], for tuples with an element whose type has an [as] of its own: each
    element is taken from its place before the end of the array, in 64 bits. *)
Class As (T : Type) := as_value : object -> outcome T.

Class ElementsAs (A : Type) := { as_size : Z; elements_as : list object -> outcome A }.

#[export] Instance no_elements_as : ElementsAs unit := {| as_size := 0; elements_as _ := Ok () |}.

#[export] Instance more_elements_as {A B} `{As A} `{ElementsAs B} : ElementsAs (A * B) := {|
  as_size := 1 + as_size (A := B);
  elements_as items :=
    match items !! Z.to_nat (u64 (u64 (zlen items - as_size (A := B)) - 1)) with
    | None => Crash "read outside of an array"
    | Some o => x ← as_value o; r ← elements_as items; Ok (x, r)
    end;
|}.

(** [as<std::tuple<Args...>>]. *)
Definition tuple_as {A} `{ElementsAs A} (o : object) : outcome (tuple A) :=
  match o with ARRAY items => l ← elements_as items; Ok (Tuple l) | _ => Throw type_error end.

(** ** Maps *)

(** [Compare]. *)
Class Less (K : Type) := less : K -> K -> bool.

(** [std::map] and [std::multimap], by what an iteration gives. *)
Record std_map (K V : Type) := StdMap { map_items : list (K * V) }.
Record std_multimap (K V : Type) := StdMultimap { multimap_items : list (K * V) }.
Arguments StdMap {K V}. Arguments map_items {K V}.
Arguments StdMultimap {K V}. Arguments multimap_items {K V}.

(** [insert] of a container that keeps equivalent elements: behind them. *)
Fixpoint multi_insert {X} (before : X -> X -> bool) (x : X) (l : list X) : list X :=
  match l with
  | [] => [x]
  | y :: l' => if before x y then x :: l else y :: multi_insert before x l'
  end.

Section map.
Context {K V : Type} `{Adaptor K} `{Adaptor V} `{Less K}.

(** What [tmp[key]] refers to, and an assignment to it. *)
Fixpoint map_find (k : K) (l : list (K * V)) : option V :=
  match l with
  | [] => None
  | (k', x) :: l' => if less k k' then None else if less k' k then map_find k l' else Some x
  end.

Fixpoint map_set (k : K) (x : V) (l : list (K * V)) : list (K * V) :=
  match l with
  | [] => [(k, x)]
  | (k', y) :: l' =>
      if less k k' then (k, x) :: l else if less k' k then (k', y) :: map_set k x l' else (k', x) :: l'
  end.

Definition pair_less (a b : K * V) : bool := less a.1 b.1.

(** The loops of [convert]. *)
Fixpoint convert_map (items : list (object * object)) (tmp : list (K * V)) : outcome (list (K * V)) :=
  match items with
  | [] => Ok tmp
  | (ok, ov) :: items =>
      key ← convert ok initial;
      x ← convert ov (default initial (map_find key tmp));
      convert_map items (map_set key x tmp)
  end.

Fixpoint convert_multimap (items : list (object * object)) (tmp : list (K * V)) : outcome (list (K * V)) :=
  match items with
  | [] => Ok tmp
  | (ok, ov) :: items =>
      key ← convert ok initial;
      x ← convert ov initial;
      convert_multimap items (multi_insert pair_less (key, x) tmp)
  end.

(** Those of [object_with_zone] and [pack]. *)
Fixpoint objects_of_pairs (l : list (K * V)) : outcome (list (object * object)) :=
  match l with
  | [] => Ok []
  | (k, x) :: l => ok ← object_of_value k; ov ← object_of_value x; r ← objects_of_pairs l; Ok ((ok, ov) :: r)
  end.

Fixpoint pack_pairs (l : list (K * V)) : outcome bytes :=
  match l with
  | [] => Ok []
  | (k, x) :: l => bk ← pack_value k; bv ← pack_value x; r ← pack_pairs l; Ok (bk ++ bv ++ r)
  end.

Definition object_of_pairs (l : list (K * V)) : outcome object :=
  match l with
  | [] => Ok (MAP [])
  | _ => _ ← checked_get_container_size (zlen l); r ← objects_of_pairs l; Ok (MAP r)
  end.

Definition pack_map_of (l : list (K * V)) : outcome bytes :=
  size ← checked_get_container_size (zlen l); b ← pack_pairs l; Ok (pack_map size ++ b).

#[export] Instance map_adaptor : Adaptor (std_map K V) := {|
  initial := StdMap [];
  convert o _ := match o with MAP items => l ← convert_map items []; Ok (StdMap l) | _ => Throw type_error end;
  object_of_value v := object_of_pairs (map_items v);
  pack_value v := pack_map_of (map_items v);
|}.

#[export] Instance multimap_adaptor : Adaptor (std_multimap K V) := {|
  initial := StdMultimap [];
  convert o _ :=
    match o with MAP items => l ← convert_multimap items []; Ok (StdMultimap l) | _ => Throw type_error end;
  object_of_value v := object_of_pairs (multimap_items v);
  pack_value v := pack_map_of (multimap_items v);
|}.
End map.

(** ** Sets *)

(** [std::set] and [std::multiset]. *)
Record std_set (T : Type) := StdSet { set_items : list T }.
Record std_multiset (T : Type) := StdMultiset { multiset_items : list T }.
Arguments StdSet {T}. Arguments set_items {T}.
Arguments StdMultiset {T}. Arguments multiset_items {T}.

Section set.
Context {T : Type} `{Adaptor T} `{Less T}.

(** [std::set::insert], which keeps an equivalent element. *)
Fixpoint set_insert (x : T) (l : list T) : list T :=
  match l with
  | [] => [x]
  | y :: l' => if less x y then x :: l else if less y x then y :: set_insert x l' else l
  end.

(** The loops of [convert], of what is left of the objects, the last one first. *)
Fixpoint convert_set (insert : T -> list T -> list T) (newest : list object) (tmp : list T) : outcome (list T) :=
  match newest with
  | [] => Ok tmp
  | o :: newest => x ← as_ o; convert_set insert newest (insert x tmp)
  end.

#[export] Instance set_adaptor : Adaptor (std_set T) := {|
  initial := StdSet [];
  convert o _ :=
    match o with
    | ARRAY items => l ← convert_set set_insert (reverse items) []; Ok (StdSet l)
    | _ => Throw type_error
    end;
  object_of_value v := object_of_value (set_items v);
  pack_value v := pack_value (set_items v);
|}.

#[export] Instance multiset_adaptor : Adaptor (std_multiset T) := {|
  initial := StdMultiset [];
  convert o _ :=
    match o with
    | ARRAY items => l ← convert_set (multi_insert less) (reverse items) []; Ok (StdMultiset l)
    | _ => Throw type_error
    end;
  object_of_value v := object_of_value (multiset_items v);
  pack_value v := pack_value (multiset_items v);
|}.
End set.

(** ** Pointers *)

(** [std::unique_ptr] and [std::shared_ptr], by what they point to. *)
Record unique_ptr (T : Type) := UniquePtr { unique_target : option T }.
Record shared_ptr (T : Type) := SharedPtr { shared_target : option T }.
Arguments UniquePtr {T}. Arguments unique_target {T}.
Arguments SharedPtr {T}. Arguments shared_target {T}.

Section pointer.
Context {T : Type} `{Adaptor T}.

Definition convert_pointer (o : object) : outcome (option T) :=
  match o with NIL => Ok None | _ => x ← convert o initial; Ok (Some x) end.

Definition object_of_pointer (v : option T) : outcome object :=
  match v with Some x => object_of_value x | None => Ok NIL end.

Definition pack_pointer (v : option T) : outcome bytes :=
  match v with Some x => pack_value x | None => Ok pack_nil end.

#[export] Instance unique_ptr_adaptor : Adaptor (unique_ptr T) := {|
  initial := UniquePtr None;
  convert o _ := v ← convert_pointer o; Ok (UniquePtr v);
  object_of_value v := object_of_pointer (unique_target v);
  pack_value v := pack_pointer (unique_target v);
|}.

#[export] Instance shared_ptr_adaptor : Adaptor (shared_ptr T) := {|
  initial := SharedPtr None;
  convert o _ := v ← convert_pointer o; Ok (SharedPtr v);
  object_of_value v := object_of_pointer (shared_target v);
  pack_value v := pack_pointer (shared_target v);
|}.
End pointer.

(** ** Integers of a fixed width *)

(** [pack_fix_uint8], ..., [pack_fix_int64]. *)
Definition pack_fix_uint8 (d : Z) : bytes := [0xcc; take8 d].
Definition pack_fix_uint16 (d : Z) : bytes := 0xcd :: store 2 d.
Definition pack_fix_uint32 (d : Z) : bytes := 0xce :: store 4 d.
Definition pack_fix_uint64 (d : Z) : bytes := 0xcf :: store 8 d.
Definition pack_fix_int8 (d : Z) : bytes := [0xd0; take8 d].
Definition pack_fix_int16 (d : Z) : bytes := 0xd1 :: store 2 d.
Definition pack_fix_int32 (d : Z) : bytes := 0xd2 :: store 4 d.
Definition pack_fix_int64 (d : Z) : bytes := 0xd3 :: store 8 d.

(** [type::fix_int]. *)
Record fix_int (sg : bool) (w : Z) := FixInt { fix_value : Z }.
Arguments FixInt {sg w}. Arguments fix_value {sg w}.

(** [pack<fix_int8>], ... *)
Definition pack_fix (sg : bool) (w z : Z) : bytes :=
  if sg then
    if w =? 8 then pack_fix_int8 z
    else if w =? 16 then pack_fix_int16 z
    else if w =? 32 then pack_fix_int32 z
    else pack_fix_int64 z
  else
    if w =? 8 then pack_fix_uint8 z
    else if w =? 16 then pack_fix_uint16 z
    else if w =? 32 then pack_fix_uint32 z
    else pack_fix_uint64 z.

#[export] Instance fix_int_adaptor sg w : Adaptor (fix_int sg w) := {|
  initial := FixInt 0;
  convert o _ := i ← convert_integer sg w o; Ok (FixInt (int_value i));
  object_of_value v := Ok (object_of_int (fix_value v));
  pack_value v := Ok (pack_fix sg w (fix_value v));
|}.

(** ** Raw bytes of version 4 *)

(** [pack_v4raw]; [pack_v4raw_body] appends the bytes. *)
Definition pack_v4raw (l : Z) : bytes :=
  if l <? 32 then [take8 (u8 (Z.lor 0xa0 l))]
  else if l <? 65536 then 0xda :: store 2 (u16 l)
  else 0xdb :: store 4 (u32 l).

(** [type::v4raw_ref], by the bytes it refers to, and its comparisons. *)
Record v4raw_ref := V4raw { raw_bytes : bytes }.

(** The sign of [std::memcmp] of as many bytes as both have. *)
Fixpoint memcmp_sign (x y : bytes) : Z :=
  match x, y with
  | a :: x', b :: y' => if a <? b then -1 else if b <? a then 1 else memcmp_sign x' y'
  | _, _ => 0
  end.

Definition raw_eq (x y : v4raw_ref) : bool :=
  (zlen (raw_bytes x) =? zlen (raw_bytes y)) && (memcmp_sign (raw_bytes x) (raw_bytes y) =? 0).

Definition raw_lt (x y : v4raw_ref) : bool :=
  if zlen (raw_bytes x) =? zlen (raw_bytes y) then memcmp_sign (raw_bytes x) (raw_bytes y) <? 0
  else zlen (raw_bytes x) <? zlen (raw_bytes y).

Definition raw_gt (x y : v4raw_ref) : bool :=
  if zlen (raw_bytes x) =? zlen (raw_bytes y) then 0 <? memcmp_sign (raw_bytes x) (raw_bytes y)
  else zlen (raw_bytes y) <? zlen (raw_bytes x).

#[export] Instance v4raw_adaptor : Adaptor v4raw_ref := {|
  initial := V4raw [];
  convert o _ := match o with STR s => Ok (V4raw s) | _ => Throw type_error end;
  object_of_value v := Ok (STR (raw_bytes v));
  pack_value v := Ok (pack_v4raw (zlen (raw_bytes v)) ++ raw_bytes v);
|}.

(** ** The promises *)

Section sequence_laws.
Context {T : Type} `{AdaptorLaws T}.

Program Definition sequence_laws {W} (make : list T -> W) (items : W -> list T)
    (Hmake : forall v, make (items v) = v) :
    @AdaptorLaws W (sequence_adaptor make items) :=
  Build_AdaptorLaws W (sequence_adaptor make items) (fun v => valid (items v)) _.
Next Obligation.
  intros W make items Hmake v Hv. destruct (adaptor_object (items v) Hv) as (o & Eo & Ep & Hw & Ec).
  exists o. split; [exact Eo|]. split; [exact Ep|]. split; [done|]. intros v0.
  change (convert o v0) with (l ← convert o (items v0); Ok (make l)). rewrite Ec. cbn. by rewrite Hmake.
Qed.

#[export] Instance list_laws : AdaptorLaws (std_list T).
Proof. apply (sequence_laws StdList list_items). by intros []. Defined.

#[export] Instance deque_laws : AdaptorLaws (deque T).
Proof. apply (sequence_laws Deque deque_items). by intros []. Defined.

#[export] Instance forward_list_laws : AdaptorLaws (forward_list T).
Proof. apply (sequence_laws ForwardList forward_items). by intros []. Defined.

(** An array of the size its type has. *)
#[export] Program Instance array_laws {n} : AdaptorLaws (std_array T n) := {|
  valid v := Forall valid (array_items v) /\ zlen (array_items v) = n /\ n < 2 ^ 32
|}.
Next Obligation.
  intros n [v] (Hv & Hn & Hl). simpl in *. destruct (vector_made v Hv) as (l & E1 & E2 & Hw & El & Ec); [lia|].
  exists (ARRAY l). split; [done|]. split; [done|]. split; [done|]. intros [v0]. cbn.
  rewrite El, Hn, Z.ltb_irrefl, (convert_items_each _ _ Ec). cbn.
  replace (Z.to_nat n - length l)%nat with 0%nat by (unfold zlen in *; lia). by rewrite app_nil_r.
Qed.
End sequence_laws.

(** ** Orders *)

(** [Compare] is a strict order. *)
Class LessLaws (K : Type) `{Less K} := {
  less_irrefl k : less k k = false;
  less_trans k1 k2 k3 : less k1 k2 = true -> less k2 k3 = true -> less k1 k3 = true;
}.

(** Elements that neither order puts first are the same. *)
Class LessTotal (K : Type) `{Less K} := less_total k1 k2 : less k1 k2 = false -> less k2 k1 = false -> k1 = k2.

Lemma less_asym {K} `{LessLaws K} k1 k2 : less k1 k2 = true -> less k2 k1 = false.
Proof.
  intros H12. destruct (less k2 k1) eqn:H21; [|done].
  by rewrite <- (less_irrefl k1), (less_trans k1 k2 k1 H12 H21).
Qed.

(** [x] goes behind all elements. *)
Lemma multi_insert_end {X} (before : X -> X -> bool) x l :
  Forall (fun y => before x y = false) l -> multi_insert before x l = l ++ [x].
Proof. induction 1 as [|y l Hy _ IH]; [done|]. simpl. by rewrite Hy, IH. Qed.

Section map_laws.
Context {K V : Type} `{AdaptorLaws K} `{AdaptorLaws V} `{LessLaws K}.

Lemma map_end k (x : V) l :
  Forall (fun y : K * V => less y.1 k = true) l -> map_find k l = None /\ map_set k x l = l ++ [(k, x)].
Proof.
  induction 1 as [|[k' y] l Hy _ [IH1 IH2]]; [done|]. simpl in *. by rewrite (less_asym k' k), Hy, IH1, IH2.
Qed.

Definition pair_valid (a : K * V) : Prop := valid a.1 /\ valid a.2.

(** The objects of the pairs. *)
Lemma pairs_made (l : list (K * V)) :
  Forall pair_valid l -> exists r, objects_of_pairs l = Ok r /\
    pack_pairs l = Ok (concat (map (fun kv => pack kv.1 ++ pack kv.2) r)) /\
    zlen r = zlen l /\ Forall (fun kv => wf kv.1 /\ wf kv.2) r /\
    Forall2 (fun kv a => (forall k0, convert kv.1 k0 = Ok a.1) /\ (forall x0, convert kv.2 x0 = Ok a.2)) r l.
Proof.
  induction 1 as [|[k x] l [Hk Hx] _ (r & E1 & E2 & El & Hr & Hc)]; [by exists []|]. simpl in Hk, Hx.
  destruct (adaptor_object k Hk) as (ok & Eok & Epk & Hwk & Eck).
  destruct (adaptor_object x Hx) as (ov & Eov & Epv & Hwv & Ecv). exists ((ok, ov) :: r). simpl.
  rewrite Eok, Eov, Epk, Epv, E1, E2. split_and!; [done|cbn; by rewrite <- app_assoc|by rewrite !zlen_cons, El|by constructor|].
  by constructor.
Qed.

Lemma convert_map_sorted r l : forall tmp,
  Forall2 (fun kv a => (forall k0 : K, convert kv.1 k0 = Ok a.1) /\ (forall x0 : V, convert kv.2 x0 = Ok a.2)) r l ->
  StronglySorted (fun a b : K * V => less a.1 b.1 = true) (tmp ++ l) -> convert_map r tmp = Ok (tmp ++ l).
Proof.
  intros tmp Hc. revert tmp. induction Hc as [|[ok ov] [k x] r l [Hk Hx] _ IH]; intros tmp Hs; simpl in *.
  - by rewrite app_nil_r.
  - rewrite Hk. cbn. rewrite Hx. cbn. assert (Forall (fun y : K * V => less y.1 k = true) tmp) as Hend.
    { clear -Hs. induction tmp as [|a tmp IH]; [done|]. apply StronglySorted_inv in Hs as [Hs Ha].
      constructor; [|by apply IH]. rewrite Forall_forall in Ha. apply (Ha (k, x)).
      apply elem_of_app. right. apply list_elem_of_here. }
    destruct (map_end k x tmp Hend) as [_ ->]. rewrite IH; rewrite <- app_assoc; done.
Qed.

Lemma convert_multimap_sorted r l : forall tmp,
  Forall2 (fun kv a => (forall k0 : K, convert kv.1 k0 = Ok a.1) /\ (forall x0 : V, convert kv.2 x0 = Ok a.2)) r l ->
  StronglySorted (fun a b : K * V => less b.1 a.1 = false) (tmp ++ l) -> convert_multimap r tmp = Ok (tmp ++ l).
Proof.
  intros tmp Hc. revert tmp. induction Hc as [|[ok ov] [k x] r l [Hk Hx] _ IH]; intros tmp Hs; simpl in *.
  - by rewrite app_nil_r.
  - rewrite Hk. cbn. rewrite Hx. cbn. rewrite multi_insert_end.
    + rewrite IH; rewrite <- app_assoc; done.
    + clear -Hs. induction tmp as [|a tmp IH]; [done|]. apply StronglySorted_inv in Hs as [Hs Ha].
      constructor; [|by apply IH]. rewrite Forall_forall in Ha. apply (Ha (k, x)).
      apply elem_of_app. right. apply list_elem_of_here.
Qed.

Lemma wf_map r : zlen r < 2 ^ 32 -> Forall (fun kv => wf kv.1 /\ wf kv.2) r -> wf (MAP r).
Proof. intros Hl Hr. simpl. split; [done|]. by rewrite foldr_and. Qed.

(** What both kinds of map share. *)
Lemma object_of_pairs_made (l : list (K * V)) :
  Forall pair_valid l -> zlen l < 2 ^ 32 ->
  exists r, object_of_pairs l = Ok (MAP r) /\ pack_map_of l = Ok (pack (MAP r)) /\ wf (MAP r) /\
    Forall2 (fun kv a => (forall k0, convert kv.1 k0 = Ok a.1) /\ (forall x0, convert kv.2 x0 = Ok a.2)) r l.
Proof.
  intros Hv Hl. destruct (pairs_made l Hv) as (r & E1 & E2 & El & Hr & Hc). exists r. split_and!; [| |apply wf_map; [lia|done]|done].
  - destruct l as [|a l]; [by injection E1 as <-|]. unfold object_of_pairs. rewrite container_size by done.
    cbn -[objects_of_pairs]. by rewrite E1.
  - unfold pack_map_of. rewrite container_size by done. cbn -[pack_pairs]. by rewrite E2, El.
Qed.

#[export] Program Instance map_laws : AdaptorLaws (std_map K V) := {|
  valid v := StronglySorted (fun a b => less a.1 b.1 = true) (map_items v) /\ Forall pair_valid (map_items v) /\
    zlen (map_items v) < 2 ^ 32
|}.
Next Obligation.
  intros [l] (Hs & Hv & Hl). simpl in *. destruct (object_of_pairs_made l Hv Hl) as (r & E1 & E2 & Hw & Hc).
  exists (MAP r). split; [done|]. split; [done|]. split; [done|]. intros _. simpl. by rewrite (convert_map_sorted r l []).
Qed.

#[export] Program Instance multimap_laws : AdaptorLaws (std_multimap K V) := {|
  valid v := StronglySorted (fun a b => less b.1 a.1 = false) (multimap_items v) /\
    Forall pair_valid (multimap_items v) /\ zlen (multimap_items v) < 2 ^ 32
|}.
Next Obligation.
  intros [l] (Hs & Hv & Hl). simpl in *. destruct (object_of_pairs_made l Hv Hl) as (r & E1 & E2 & Hw & Hc).
  exists (MAP r). split; [done|]. split; [done|]. split; [done|]. intros _. simpl. by rewrite (convert_multimap_sorted r l []).
Qed.
End map_laws.

Section set_laws.
Context {T : Type} `{AdaptorLaws T} `{LessLaws T}.

Lemma convert_set_app (insert : T -> list T -> list T) l1 l2 tmp :
  convert_set insert (l1 ++ l2) tmp = (t ← convert_set insert l1 tmp; convert_set insert l2 t).
Proof. revert tmp. induction l1 as [|o l1 IH]; intros tmp; [done|]. simpl. destruct (as_ o); simpl; [apply IH|done..]. Qed.

(** The last object first: each element goes before those that are there. *)
Lemma convert_set_sorted (insert : T -> list T -> list T) (before : T -> T -> Prop) r l :
  (forall x l, Forall (before x) l -> insert x l = x :: l) -> Forall2 converts r l -> StronglySorted before l ->
  convert_set insert (reverse r) [] = Ok l.
Proof.
  intros Hins Hc. induction Hc as [|o x r l Hx _ IH]; intros Hs; [done|].
  apply StronglySorted_inv in Hs as [Hs Hb]. rewrite reverse_cons, convert_set_app, IH by done.
  cbn. unfold as_. by rewrite Hx, <- (Hins x l Hb).
Qed.

Lemma set_insert_front x l : Forall (fun y => less x y = true) l -> set_insert x l = x :: l.
Proof. destruct 1 as [|y l Hy _]; [done|]. simpl. by rewrite Hy. Qed.

Lemma multi_insert_front `{!LessTotal T} x l :
  Forall (fun y => less y x = false) l -> multi_insert less x l = x :: l.
Proof.
  induction 1 as [|y l Hy _ IH]; [done|]. simpl. destruct (less x y) eqn:E; [done|].
  rewrite IH. by rewrite (less_total x y).
Qed.

#[export] Program Instance set_laws : AdaptorLaws (std_set T) := {|
  valid v := StronglySorted (fun a b => less a b = true) (set_items v) /\ Forall valid (set_items v) /\
    zlen (set_items v) < 2 ^ 32
|}.
Next Obligation.
  intros [l] (Hs & Hv & Hl). simpl in *. destruct (vector_made l Hv Hl) as (r & E1 & E2 & Hw & _ & Hc).
  exists (ARRAY r). split; [done|]. split; [done|]. split; [done|]. intros _. simpl.
  by rewrite (convert_set_sorted _ _ r l set_insert_front Hc Hs).
Qed.

#[export] Program Instance multiset_laws `{!LessTotal T} : AdaptorLaws (std_multiset T) := {|
  valid v := StronglySorted (fun a b => less b a = false) (multiset_items v) /\ Forall valid (multiset_items v) /\
    zlen (multiset_items v) < 2 ^ 32
|}.
Next Obligation.
  intros ? [l] (Hs & Hv & Hl). simpl in *. destruct (vector_made l Hv Hl) as (r & E1 & E2 & Hw & _ & Hc).
  exists (ARRAY r). split; [done|]. split; [done|]. split; [done|]. intros _. simpl.
  by rewrite (convert_set_sorted _ _ r l multi_insert_front Hc Hs).
Qed.
End set_laws.

Section pointer_laws.
Context {T : Type} `{AdaptorLaws T}.

(** A target whose object is nil cannot be told from none. *)
Definition target_valid (v : option T) : Prop :=
  match v with Some x => valid x /\ object_of_value x <> Ok NIL | None => True end.

Lemma pointer_made (v : option T) :
  target_valid v -> exists o, object_of_pointer v = Ok o /\ pack_pointer v = Ok (pack o) /\ wf o /\ convert_pointer o = Ok v.
Proof.
  destruct v as [x|]; [|intros _; by exists NIL]. intros [Hx Hn]. destruct (adaptor_object x Hx) as (o & Eo & Ep & Hw & Ec).
  exists o. split_and!; try done. unfold convert_pointer. destruct o; try done; by rewrite Ec.
Qed.

#[export] Program Instance unique_ptr_laws : AdaptorLaws (unique_ptr T) := {| valid v := target_valid (unique_target v) |}.
Next Obligation.
  intros [v] Hv. destruct (pointer_made v Hv) as (o & E1 & E2 & Hw & Ec). exists o.
  split; [done|]. split; [done|]. split; [done|]. intros ?. simpl. by rewrite Ec.
Qed.

#[export] Program Instance shared_ptr_laws : AdaptorLaws (shared_ptr T) := {| valid v := target_valid (shared_target v) |}.
Next Obligation.
  intros [v] Hv. destruct (pointer_made v Hv) as (o & E1 & E2 & Hw & Ec). exists o.
  split; [done|]. split; [done|]. split; [done|]. intros ?. simpl. by rewrite Ec.
Qed.
End pointer_laws.

(** ** Integers of a fixed width are read back *)

Lemma pack_fix_forms sg w z :
  width w -> exists h n, pack_fix sg w z = h :: store n z /\ 8 * Z.of_nat n = w /\ is_byte h /\
    ((sg = false /\ ((h = 0xcc /\ Z.of_nat n = 1) \/ (h = 0xcd /\ Z.of_nat n = 2) \/ (h = 0xce /\ Z.of_nat n = 4) \/
        (h = 0xcf /\ Z.of_nat n = 8))) \/
     (sg = true /\ ((h = 0xd0 /\ Z.of_nat n = 1) \/ (h = 0xd1 /\ Z.of_nat n = 2) \/ (h = 0xd2 /\ Z.of_nat n = 4) \/
        (h = 0xd3 /\ Z.of_nat n = 8)))).
Proof.
  unfold is_byte. intros [->|[->|[->| ->]]]; destruct sg; cbn -[store Z.of_nat].
  - exists 0xd0, 1%nat. rewrite store_1. repeat split; auto; lia.
  - exists 0xcc, 1%nat. rewrite store_1. repeat split; auto; lia.
  - exists 0xd1, 2%nat. repeat split; auto; lia.
  - exists 0xcd, 2%nat. repeat split; auto; lia.
  - exists 0xd2, 4%nat. repeat split; auto 6; lia.
  - exists 0xce, 4%nat. repeat split; auto 6; lia.
  - exists 0xd3, 8%nat. repeat split; auto 6; lia.
  - exists 0xcf, 8%nat. repeat split; auto 6; lia.
Qed.

(** An integer of a fixed width takes a byte more than its width, is read as the object
    of the integer, and is converted to the type again. *)
Lemma fix_int_read m_start lim pre sg w z post (v0 : fix_int sg w) :
  width w -> in_range sg w z -> 0 <= limit_depth lim -> Forall is_byte pre -> Forall is_byte post ->
  parse_imp m_start (pre ++ pack_fix sg w z ++ post) (zlen pre) (Tree lim None []) =
  (Ok (if post is [] then PARSE_SUCCESS else PARSE_EXTRA_BYTES, zlen pre + (w / 8 + 1)), Tree lim (Some (object_of_int z)) []) /\
  convert (object_of_int z) v0 = Ok (FixInt z).
Proof.
  intros Hw Hz Hd Hpre Hpost. destruct (pack_fix_forms sg w z Hw) as (h & n & E & Hn & Hh & Hforms). rewrite E.
  assert (zlen (h :: store n z) = w / 8 + 1) as Elen.
  { rewrite zlen_cons, zlen_store, <- Hn, (Z.mul_comm 8), Z.div_mul by lia. lia. }
  split; [|cbn; rewrite convert_integer_object, decide_True by (done || by eapply in_range_64); done].
  assert (Forall is_byte (pre ++ (h :: store n z) ++ post)) as Hdata.
  { rewrite !Forall_app, Forall_cons. split_and!; try done. apply store_bytes. }
  rewrite <- Elen. apply parse_reads; [done|pose proof (zlen_nonneg (store n z)); rewrite zlen_cons; lia|by unfold object_of_int; destruct (z <? 0)|].
  pose proof (at_inside pre (h :: store n z) post) as Hat.
  assert (- 2 ^ (8 * Z.of_nat n - 1) <= z < 2 ^ (8 * Z.of_nat n)) as Hr.
  { unfold in_range, int_min, int_max in Hz. rewrite Hn. destruct Hw as [->|[->|[->| ->]]], sg; lia. }
  destruct Hforms as [[-> Hf]|[-> Hf]].
  - assert (object_of_int z = POSITIVE_INTEGER (load (store n z))) as ->.
    { rewrite (load_store_small n w) by (unfold in_range, int_min, int_max in Hz; lia).
      unfold object_of_int. unfold in_range, int_min in Hz. by rewrite (proj2 (Z.ltb_ge z 0)) by lia. }
    eapply reads_end; [eapply reads_uint; [done|exact Hat|rewrite zlen_store; tauto]|rewrite zlen_cons; lia].
  - assert (load_signed (store n z) = z) as El.
    { apply (load_signed_small n (w - 1)); [lia|unfold width in Hw; lia|unfold in_range, int_min, int_max in Hz; lia]. }
    assert (object_of_int z = if 0 <=? load_signed (store n z) then POSITIVE_INTEGER (load_signed (store n z))
      else NEGATIVE_INTEGER (load_signed (store n z))) as ->.
    { rewrite El. unfold object_of_int. destruct (Z.ltb_spec z 0), (Z.leb_spec 0 z); done || lia. }
    eapply reads_end; [eapply reads_int; [done|exact Hat|rewrite zlen_store; tauto]|rewrite zlen_cons; lia].
Qed.

(** ** Raw bytes are read back, and are ordered *)

Lemma pack_v4raw_forms l :
  0 <= l < 2 ^ 32 ->
  (l < 32 /\ pack_v4raw l = [Z.lor 0xa0 l] /\ is_byte (Z.lor 0xa0 l)) \/
  (l < 2 ^ 16 /\ pack_v4raw l = 0xda :: store 2 l) \/ pack_v4raw l = 0xdb :: store 4 l.
Proof.
  intros Hl. unfold pack_v4raw. destruct (Z.ltb_spec l 32); [|destruct (Z.ltb_spec l 65536)].
  - left. assert (is_byte (Z.lor 0xa0 l)) as Hb by (apply (lor_byte 5 5 l); lia). split; [done|]. split; [|done].
    unfold is_byte in Hb. unfold take8, wrap. by rewrite (Z.mod_small (Z.lor 0xa0 l)), Z.mod_small by lia.
  - right. left. by rewrite wrap_small by lia.
  - right. right. by rewrite wrap_small by lia.
Qed.

Lemma v4raw_read m_start lim pre d post (v0 : v4raw_ref) :
  Forall is_byte d -> zlen d < 2 ^ 32 -> zlen d <= limit_str lim -> 0 <= limit_depth lim ->
  Forall is_byte pre -> Forall is_byte post ->
  exists b, pack_value (V4raw d) = Ok b /\
  parse_imp m_start (pre ++ b ++ post) (zlen pre) (Tree lim None []) =
  (Ok (if post is [] then PARSE_SUCCESS else PARSE_EXTRA_BYTES, zlen pre + zlen b), Tree lim (Some (STR d)) []) /\
  convert (STR d) v0 = Ok (V4raw d).
Proof.
  intros Hd Hl Hlim Hdep Hpre Hpost. exists (pack_v4raw (zlen d) ++ d). split; [done|]. split; [|done].
  pose proof (zlen_nonneg d) as H0. destruct (pack_v4raw_forms (zlen d) ltac:(lia)) as [(Hs & -> & Hb)|[[Hs ->]| ->]].
  - pose proof (at_inside pre ([Z.lor 0xa0 (zlen d)] ++ d) post) as Hat.
    assert (Forall is_byte (pre ++ ([Z.lor 0xa0 (zlen d)] ++ d) ++ post)) as Hdata by (rewrite !Forall_app, Forall_cons; done).
    apply parse_reads; [done|cbn [app]; rewrite zlen_cons; lia|done|].
    eapply reads_end; [by eapply reads_fixstr|cbn [app]; rewrite zlen_cons; lia].
  - pose proof (at_inside pre ((0xda :: store 2 (zlen d)) ++ d) post) as Hat.
    assert (Forall is_byte (pre ++ ((0xda :: store 2 (zlen d)) ++ d) ++ post)) as Hdata
      by (rewrite !Forall_app, Forall_cons; split_and!; done || apply store_bytes).
    apply parse_reads; [done|cbn [app]; rewrite zlen_cons, zlen_app, zlen_store; lia|done|].
    eapply reads_end; [eapply (reads_length_str _ _ _ Hdata _ 0xda (store 2 (zlen d)));
      [exact Hat|rewrite zlen_store; auto|by apply (load_store_small 2 16)|done..]|cbn [app]; rewrite zlen_cons, zlen_app; lia].
  - pose proof (at_inside pre ((0xdb :: store 4 (zlen d)) ++ d) post) as Hat.
    assert (Forall is_byte (pre ++ ((0xdb :: store 4 (zlen d)) ++ d) ++ post)) as Hdata
      by (rewrite !Forall_app, Forall_cons; split_and!; done || apply store_bytes).
    apply parse_reads; [done|cbn [app]; rewrite zlen_cons, zlen_app, zlen_store; lia|done|].
    eapply reads_end; [eapply (reads_length_str _ _ _ Hdata _ 0xdb (store 4 (zlen d)));
      [exact Hat|rewrite zlen_store; auto|by apply (load_store_small 4 32)|done..]|cbn [app]; rewrite zlen_cons, zlen_app; lia].
Qed.

Lemma memcmp_sign_range x y : memcmp_sign x y = -1 \/ memcmp_sign x y = 0 \/ memcmp_sign x y = 1.
Proof. revert y. induction x as [|a x IH]; intros [|b y]; simpl; auto. repeat case_match; auto. Qed.

Lemma memcmp_sign_flip x y : memcmp_sign y x = - memcmp_sign x y.
Proof.
  revert y. induction x as [|a x IH]; intros [|b y]; simpl; try done. rewrite IH.
  destruct (Z.ltb_spec a b), (Z.ltb_spec b a); lia.
Qed.

(** Texts of the same length, side by side. *)
Lemma same_length_ind (P : bytes -> bytes -> Prop) :
  P [] [] -> (forall a b x y, zlen x = zlen y -> P x y -> P (a :: x) (b :: y)) -> forall x y, zlen x = zlen y -> P x y.
Proof.
  intros H0 HS x. induction x as [|a x IH]; intros [|b y] Hl; rewrite ?zlen_cons, ?zlen_nil in Hl; try done.
  - pose proof (zlen_nonneg y). lia.
  - pose proof (zlen_nonneg x). lia.
  - assert (zlen x = zlen y) by lia. by apply HS; [|apply IH].
Qed.

Lemma memcmp_sign_zero x y : zlen x = zlen y -> memcmp_sign x y = 0 -> x = y.
Proof.
  intros Hl. pattern x, y. apply same_length_ind; [done|clear x y Hl|done]. intros a b x y _ IH. simpl.
  destruct (Z.ltb_spec a b), (Z.ltb_spec b a); try done. intros E. rewrite (IH E). f_equal. lia.
Qed.

Lemma memcmp_sign_trans x y z :
  zlen x = zlen y -> memcmp_sign x y < 0 -> memcmp_sign y z < 0 -> zlen y = zlen z -> memcmp_sign x z < 0.
Proof.
  intros Hl. revert z. pattern x, y. apply same_length_ind; [done|clear x y Hl|done]. intros a b x y _ IH [|c z].
  - simpl. lia.
  - rewrite !zlen_cons. simpl.
    destruct (Z.ltb_spec a b), (Z.ltb_spec b c), (Z.ltb_spec b a), (Z.ltb_spec c b), (Z.ltb_spec a c), (Z.ltb_spec c a); try lia.
    intros Hxy Hyz Hl. apply IH; lia.
Qed.

(** The comparisons are a total order, so the type can be a key. *)
#[export] Instance raw_less : Less v4raw_ref := raw_lt.

#[export] Instance raw_less_laws : LessLaws v4raw_ref.
Proof.
  split.
  - intros [x]. unfold less, raw_less, raw_lt. rewrite Z.eqb_refl. simpl. pose proof (memcmp_sign_flip x x). lia.
  - intros [x] [y] [z]. unfold less, raw_less, raw_lt. simpl. intros H1 H2.
    destruct (Z.eqb_spec (zlen x) (zlen y)), (Z.eqb_spec (zlen y) (zlen z)), (Z.eqb_spec (zlen x) (zlen z)); try lia.
    rewrite Z.ltb_lt in *. by apply (memcmp_sign_trans x y z).
Qed.

#[export] Instance raw_less_total : LessTotal v4raw_ref.
Proof.
  intros [x] [y]. unfold less, raw_less, raw_lt. simpl. rewrite (memcmp_sign_flip x y).
  destruct (Z.eqb_spec (zlen x) (zlen y)) as [E|], (Z.eqb_spec (zlen y) (zlen x)); try lia.
  rewrite !Z.ltb_ge. intros H1 H2. f_equal. apply memcmp_sign_zero; lia.
Qed.

Lemma raw_compare x y : raw_gt x y = raw_lt y x /\ (raw_eq x y = true <-> x = y).
Proof.
  destruct x as [x], y as [y]. unfold raw_gt, raw_lt, raw_eq. simpl. rewrite (memcmp_sign_flip x y), (Z.eqb_sym (zlen y)).
  split; [destruct (_ =? _); [|done]; lia|]. rewrite andb_true_iff, !Z.eqb_eq. split.
  - intros [Hl E]. f_equal. by apply memcmp_sign_zero.
  - intros [= ->]. split; [done|]. pose proof (memcmp_sign_flip y y). lia.
Qed.

(** [as] of an array with fewer objects than the type has places reads behind them,
    where [convert] leaves the other places as they are. *)
Lemma array_as_short {T} (as_value : object -> outcome T) n items :
  Forall (fun o => exists x, as_value o = Ok x) items -> zlen items < n ->
  array_as as_value n (ARRAY items) = Crash "read behind the objects of an array".
Proof.
  intros Hi Hn. unfold array_as. rewrite (proj2 (Z.ltb_ge _ _)) by lia.
  assert (forall k i, (length items < i + k)%nat -> (i <= length items)%nat ->
    array_as_items as_value items i k = Crash "read behind the objects of an array") as Hk.
  { induction k as [|k IH]; intros i H1 H2; [lia|]. simpl. destruct (items !! i) as [o|] eqn:E; [|done].
    rewrite Forall_lookup in Hi. destruct (Hi i o E) as [x ->]. simpl.
    rewrite IH; [done|lia|]. apply lookup_lt_Some in E. lia. }
  by rewrite Hk by (unfold zlen in Hn; lia).
Qed.

(** [as] of a tuple reads the objects at the end of the array, where [convert] reads
    those at its beginning; of too few objects it reads outside. *)
Class ElementsAsLaws (A : Type) `{ElementsAs A} := {
  as_size_small : 0 <= as_size (A := A) < 2 ^ 31;
  elements_as_last pre items :
    zlen (pre ++ items) < 2 ^ 32 -> as_size (A := A) <= zlen items -> elements_as (pre ++ items) = elements_as items;
}.

#[export] Instance no_elements_as_laws : ElementsAsLaws unit.
Proof. split; [done|]. done. Qed.

Lemma more_elements_as_laws {A B} `{As A} `{ElementsAsLaws B} :
  1 + as_size (A := B) < 2 ^ 31 -> ElementsAsLaws (A * B).
Proof.
  intros Hs. pose proof (as_size_small (A := B)) as Hb. split; [cbn -[Z.pow]; lia|]. intros pre items Hl Hn. cbn [as_size more_elements_as] in Hn.
  rewrite zlen_app in Hl. pose proof (zlen_nonneg pre). cbn [elements_as more_elements_as].
  rewrite zlen_app, (wrap_small 64 (zlen pre + zlen items - as_size)), (wrap_small 64 (zlen items - as_size)), !wrap_small by lia.
  rewrite lookup_app_r by (unfold zlen in *; lia).
  replace (Z.to_nat (zlen pre + zlen items - as_size - 1) - length pre)%nat with (Z.to_nat (zlen items - as_size - 1))
    by (unfold zlen in *; lia).
  destruct (items !! _) as [o|]; [|done]. destruct (as_value o); [|done..]. simpl.
  by rewrite elements_as_last by (rewrite ?zlen_app; lia).
Qed.

Lemma tuple_as_short {A B} `{As A} `{ElementsAs B} items :
  zlen items < 1 + as_size (A := B) < 2 ^ 31 ->
  (tuple_as (ARRAY items) : outcome (tuple (A * B))) = Crash "read outside of an array".
Proof.
  intros Hn. pose proof (zlen_nonneg items). unfold tuple_as. cbn [elements_as more_elements_as].
  rewrite lookup_ge_None_2; [done|]. enough (zlen items <= u64 (u64 (zlen items - as_size (A := B)) - 1)) by (unfold zlen in *; lia).
  destruct (Z.eq_dec (zlen items) (as_size (A := B))) as [->|Hne].
  - rewrite Z.sub_diag. change (u64 (u64 0 - 1)) with (2 ^ 64 - 1). lia.
  - assert (u64 (zlen items - as_size (A := B)) = zlen items - as_size (A := B) + 2 ^ 64) as ->.
    { unfold wrap. rewrite <- (Z.mod_add _ 1), Z.mod_small by lia. lia. }
    rewrite wrap_small by lia. lia.
Qed.

(** ** Examples *)

#[local] Instance int_less : Less int := fun a b => int_value a <? int_value b.

(** Only the first part of a pair is compared. *)
#[local] Instance first_less : Less (int * int) := fun a b => int_value a.1 <? int_value b.1.

Definition some_ints (l : list Z) : list int := map Integer l.

(** The elements that a multiset takes for equal come back in the opposite order. *)
Example multiset_turns_equal :
  (o ← object_of_value (StdMultiset [(Integer 1, Integer 5); (Integer 1, Integer 6); (Integer 2, Integer 7)] : std_multiset (int * int));
   convert o initial) =
  Ok (StdMultiset [(Integer 1, Integer 6); (Integer 1, Integer 5); (Integer 2, Integer 7)] : std_multiset (int * int)).
Proof. reflexivity. Qed.

(** A map takes the last value of a key, whatever the order of the keys, and an element
    that cannot be converted leaves nothing. *)
Example map_takes_last :
  convert (MAP [(POSITIVE_INTEGER 3, STR [97]); (POSITIVE_INTEGER 1, STR [98]); (POSITIVE_INTEGER 3, STR [99])]) initial =
    Ok (StdMap [(Integer 1, StdString [98]); (Integer 3, StdString [99])] : std_map int std_string) /\
  convert (MAP [(POSITIVE_INTEGER 3, NIL)]) (initial : std_map int std_string) = Throw type_error.
Proof. split; reflexivity. Qed.

(** An array that is too long is refused, and one that is too short keeps the rest. *)
Example array_sizes :
  convert (ARRAY [POSITIVE_INTEGER 1]) (StdArray (some_ints [7; 8]) : std_array int 2) = Ok (StdArray (some_ints [1; 8])) /\
  convert (ARRAY [NIL; NIL; NIL]) (StdArray (some_ints [7; 8]) : std_array int 2) = Throw type_error.
Proof. split; reflexivity. Qed.

#[local] Instance as_int : As int := fun o => convert o initial.

Example tuple_as_convert :
  (tuple_as (ARRAY [POSITIVE_INTEGER 1; POSITIVE_INTEGER 2; POSITIVE_INTEGER 3]) : outcome (tuple (int * (int * unit)))) =
    Ok (Tuple (Integer 2, (Integer 3, ()))) /\
  convert (ARRAY [POSITIVE_INTEGER 1; POSITIVE_INTEGER 2; POSITIVE_INTEGER 3]) (initial : tuple (int * (int * unit))) =
    Ok (Tuple (Integer 1, (Integer 2, ()))).
Proof. split; reflexivity. Qed.
