(* ===== verification/MsgTypes.v ===== *)
(** * MessagePack: the types that are built of one another

    The adaptors of MsgAdaptor.v and MsgContainers.v compose: C++ picks those of a
    type by its parts.  Here the types are codes, [adaptor_of] is what the compiler
    picks, and [laws_of] shows by recursion on the type that the adaptors keep
    their promise; so what is packed is read back, for every type there is a code
    of. *)
From S2P Require Import Prelude MsgObject MsgParse MsgStream MsgTree MsgRoundTrip MsgAdaptor MsgContainers.

(** ** Codes *)

Inductive int_width := W8 | W16 | W32 | W64.

Definition bits (w : int_width) : Z := match w with W8 => 8 | W16 => 16 | W32 => 32 | W64 => 64 end.

(** Types with an order, [std::less], for the keys of maps and sets. *)
Inductive key_type := KInt (sg : bool) (w : int_width) | KString.

Inductive cpp_type :=
| TInt (sg : bool) (w : int_width)
| TBool
| TNil
| TFloat
| TDouble
| TString
| TVectorChar
| TExt
| TObject
| TVector (t : cpp_type)
| TList (t : cpp_type)
| TDeque (t : cpp_type)
| TForwardList (t : cpp_type)
| TArray (t : cpp_type) (n : Z)
| TPair (a b : cpp_type)
| TTuple (l : cpp_elements)
| TMap (k : key_type) (t : cpp_type)
| TMultimap (k : key_type) (t : cpp_type)
| TSet (k : key_type)
| TMultiset (k : key_type)
| TUniquePtr (t : cpp_type)
| TSharedPtr (t : cpp_type)
with cpp_elements := ENone | EMore (t : cpp_type) (l : cpp_elements).

(** ** The types, and the adaptors the compiler picks *)

Definition key_of (k : key_type) : Type :=
  match k with KInt sg w => integer sg (bits w) | KString => std_string end.

Fixpoint type_of (t : cpp_type) : Type :=
  match t with
  | TInt sg w => integer sg (bits w)
  | TBool => bool
  | TNil => nil_t
  | TFloat => float32
  | TDouble => float64
  | TString => std_string
  | TVectorChar => vector_char
  | TExt => ext
  | TObject => object
  | TVector t => list (type_of t)
  | TList t => std_list (type_of t)
  | TDeque t => deque (type_of t)
  | TForwardList t => forward_list (type_of t)
  | TArray t n => std_array (type_of t) n
  | TPair a b => (type_of a * type_of b)%type
  | TTuple l => tuple (elements_of l)
  | TMap k t => std_map (key_of k) (type_of t)
  | TMultimap k t => std_multimap (key_of k) (type_of t)
  | TSet k => std_set (key_of k)
  | TMultiset k => std_multiset (key_of k)
  | TUniquePtr t => unique_ptr (type_of t)
  | TSharedPtr t => shared_ptr (type_of t)
  end
with elements_of (l : cpp_elements) : Type :=
  match l with ENone => unit | EMore t l => (type_of t * elements_of l)%type end.

(** [std::vector] and [std::array] of [unsigned char], and [std::vector<bool>],
    have adaptors of their own: [TVector] and [TArray] are not for these. *)
Definition own_adaptor (vector : bool) (t : cpp_type) : bool :=
  match t with TInt false W8 => true | TBool => vector | _ => false end.

Fixpoint generic (t : cpp_type) : bool :=
  match t with
  | TVector t => negb (own_adaptor true t) && generic t
  | TArray t _ => negb (own_adaptor false t) && generic t
  | TList t | TDeque t | TForwardList t | TMap _ t | TMultimap _ t | TUniquePtr t | TSharedPtr t => generic t
  | TPair a b => generic a && generic b
  | TTuple l => generic_elements l
  | _ => true
  end
with generic_elements (l : cpp_elements) : bool :=
  match l with ENone => true | EMore t l => generic t && generic_elements l end.

#[export] Instance key_adaptor k : Adaptor (key_of k) :=
  match k with KInt sg w => integer_adaptor sg (bits w) | KString => string_adaptor end.

(** [operator<] of integers, and of strings: [char_traits<char>] compares bytes. *)
Fixpoint string_less (x y : bytes) : bool :=
  match x, y with
  | _, [] => false
  | [], _ :: _ => true
  | a :: x', b :: y' => if a <? b then true else if b <? a then false else string_less x' y'
  end.

Definition key_less (k : key_type) : Less (key_of k) :=
  match k with
  | KInt sg w => fun x y => int_value x <? int_value y
  | KString => fun x y => string_less (string_chars x) (string_chars y)
  end.
#[export] Existing Instance key_less.

Fixpoint adaptor_of (t : cpp_type) : Adaptor (type_of t) :=
  match t with
  | TInt sg w => integer_adaptor sg (bits w)
  | TBool => bool_adaptor
  | TNil => nil_adaptor
  | TFloat => float_adaptor
  | TDouble => double_adaptor
  | TString => string_adaptor
  | TVectorChar => vector_char_adaptor
  | TExt => ext_adaptor
  | TObject => object_adaptor
  | TVector t => @vector_adaptor _ (adaptor_of t)
  | TList t => @list_adaptor _ (adaptor_of t)
  | TDeque t => @deque_adaptor _ (adaptor_of t)
  | TForwardList t => @forward_list_adaptor _ (adaptor_of t)
  | TArray t n => @array_adaptor _ n (adaptor_of t)
  | TPair a b => @pair_adaptor _ _ (adaptor_of a) (adaptor_of b)
  | TTuple l => @tuple_adaptor _ (adaptor_of_elements l)
  | TMap k t => @map_adaptor _ _ _ (adaptor_of t) _
  | TMultimap k t => @multimap_adaptor _ _ _ (adaptor_of t) _
  | TSet k => @set_adaptor _ _ _
  | TMultiset k => @multiset_adaptor _ _ _
  | TUniquePtr t => @unique_ptr_adaptor _ (adaptor_of t)
  | TSharedPtr t => @shared_ptr_adaptor _ (adaptor_of t)
  end
with adaptor_of_elements (l : cpp_elements) : Elements (elements_of l) :=
  match l with
  | ENone => no_elements
  | EMore t l => @more_elements _ _ (adaptor_of t) (adaptor_of_elements l)
  end.
#[export] Existing Instances adaptor_of adaptor_of_elements.

(** ** The promise, by recursion on the type *)

Lemma width_bits w : width (bits w).
Proof. destruct w; auto with typeclass_instances. Qed.

Lemma string_less_irrefl x : string_less x x = false.
Proof. induction x as [|a x IH]; simpl; [done|]. by rewrite Z.ltb_irrefl. Qed.

Lemma string_less_trans x y z : string_less x y = true -> string_less y z = true -> string_less x z = true.
Proof.
  revert y z. induction x as [|a x IH]; intros [|b y] [|c z]; simpl; try done.
  destruct (Z.ltb_spec a b), (Z.ltb_spec b a), (Z.ltb_spec b c), (Z.ltb_spec c b),
    (Z.ltb_spec a c), (Z.ltb_spec c a); try done; try lia. apply IH.
Qed.

Lemma string_less_total x y : string_less x y = false -> string_less y x = false -> x = y.
Proof.
  revert y. induction x as [|a x IH]; intros [|b y]; simpl; try done.
  destruct (Z.ltb_spec a b), (Z.ltb_spec b a); try done; try lia. intros H1 H2.
  rewrite (IH y H1 H2). f_equal. lia.
Qed.

#[export] Instance key_less_laws k : LessLaws (key_of k).
Proof.
  destruct k as [sg w|]; split; unfold less; simpl.
  - intros x. apply Z.ltb_irrefl.
  - intros x y z. rewrite !Z.ltb_lt. lia.
  - intros x. apply string_less_irrefl.
  - intros x y z. apply string_less_trans.
Qed.

#[export] Instance key_less_total k : LessTotal (key_of k).
Proof.
  destruct k as [sg w|]; unfold LessTotal, less; simpl.
  - intros [x] [y]. simpl. rewrite !Z.ltb_ge. intros H1 H2. f_equal. lia.
  - intros [x] [y] H1 H2. f_equal. by apply string_less_total.
Qed.

Definition key_laws (k : key_type) : AdaptorLaws (key_of k) :=
  match k with KInt sg w => integer_laws sg (bits w) (width_bits w) | KString => string_laws end.
#[export] Existing Instance key_laws.

Fixpoint laws_of (t : cpp_type) : AdaptorLaws (type_of t) :=
  match t return @AdaptorLaws (type_of t) (adaptor_of t) with
  | TInt sg w => integer_laws sg (bits w) (width_bits w)
  | TBool => bool_laws
  | TNil => nil_laws
  | TFloat => float_laws
  | TDouble => double_laws
  | TString => string_laws
  | TVectorChar => vector_char_laws
  | TExt => ext_laws
  | TObject => object_laws
  | TVector t => @vector_laws _ (adaptor_of t) (laws_of t)
  | TList t => @list_laws _ (adaptor_of t) (laws_of t)
  | TDeque t => @deque_laws _ (adaptor_of t) (laws_of t)
  | TForwardList t => @forward_list_laws _ (adaptor_of t) (laws_of t)
  | TArray t n => @array_laws _ (adaptor_of t) (laws_of t) n
  | TPair a b => @pair_laws _ _ (adaptor_of a) (laws_of a) (adaptor_of b) (laws_of b)
  | TTuple l => @tuple_laws _ (adaptor_of_elements l) (laws_of_elements l)
  | TMap k t => @map_laws _ _ _ (key_laws k) (adaptor_of t) (laws_of t) _ (key_less_laws k)
  | TMultimap k t => @multimap_laws _ _ _ (key_laws k) (adaptor_of t) (laws_of t) _
  | TSet k => @set_laws _ _ (key_laws k) _
  | TMultiset k => @multiset_laws _ _ (key_laws k) _ (key_less_total k)
  | TUniquePtr t => @unique_ptr_laws _ (adaptor_of t) (laws_of t)
  | TSharedPtr t => @shared_ptr_laws _ (adaptor_of t) (laws_of t)
  end
with laws_of_elements (l : cpp_elements) : ElementsLaws (elements_of l) :=
  match l return @ElementsLaws (elements_of l) (adaptor_of_elements l) with
  | ENone => no_elements_laws
  | EMore t l => @more_elements_laws _ _ (adaptor_of t) (laws_of t) (adaptor_of_elements l) (laws_of_elements l)
  end.
#[export] Existing Instances laws_of laws_of_elements.

(** ** The properties *)

(** C36 (roundtrip).  Values of C++ types: integers of all widths, [bool],
    [nil_t], floats, [std::string], [std::vector<char>], [ext], objects, and the
    vectors, lists, deques, arrays, pairs, tuples, maps, multimaps, sets, multisets
    and pointers that are built of them, but for the element types vectors and
    arrays have adaptors of their own for.  A value the format can hold has an
    object; what [pack] writes for the value the parser reads, wherever the bytes
    are, as that object; and converting the object to the type gives the value,
    whatever the variable held that it is assigned to.

    Valid are the values with byte texts of less than 2^32 bytes, containers of less
    than 2^32 elements and in the order of the container, floats that are no
    signalling NaN, and pointers whose target is not packed as nil. *)
Theorem pack_convert (t : cpp_type) m_start (v v0 : type_of t) :
  generic t = true -> valid v ->
  exists o b, object_of_value v = Ok o /\ pack_value v = Ok b /\ convert o v0 = Ok v /\
    forall lim pre post,
      fits lim o -> depth o <= limit_depth lim -> Forall is_byte pre -> Forall is_byte post ->
      parse_imp m_start (pre ++ b ++ post) (zlen pre) (Tree lim None []) =
      (Ok (if post is [] then PARSE_SUCCESS else PARSE_EXTRA_BYTES, zlen pre + zlen b), Tree lim (Some o) []).
Proof.
  intros _ Hv. destruct (adaptor_object v Hv) as (o & Eo & Ep & Hw & Ec).
  exists o, (pack o). split; [done|]. split; [done|]. split; [apply Ec|]. intros. by apply parse_packed.
Qed.

(** ** At a concrete input

    The message of a call, its kind, its number, the name of the function and the
    arguments, with a map behind it. *)
Definition call_type : cpp_type :=
  TTuple (EMore (TInt false W8) (EMore (TInt true W32) (EMore TString
    (EMore (TTuple (EMore TString ENone)) (EMore (TMap KString (TVector TDouble)) ENone))))).

Definition a_typed_call : type_of call_type :=
  Tuple (Integer 0, (Integer 3, (StdString [101; 120], (Tuple (StdString [49; 43; 49], ()),
    (StdMap [(StdString [97], [Double 0]); (StdString [97; 98], [])], ()))))).

Definition call_object : object :=
  ARRAY [POSITIVE_INTEGER 0; POSITIVE_INTEGER 3; STR [101; 120]; ARRAY [STR [49; 43; 49]];
         MAP [(STR [97], ARRAY [FLOAT64 0]); (STR [97; 98], ARRAY [])]].

Lemma pack_convert_witness :
  exists b, pack_value a_typed_call = Ok b /\ object_of_value a_typed_call = Ok call_object /\
    convert call_object initial = Ok a_typed_call /\
    parse_imp 0 ([] ++ b ++ [0xc0]) 0 (Tree default_limit None []) =
    (Ok (PARSE_EXTRA_BYTES, 0 + zlen b), Tree default_limit (Some call_object) []).
Proof.
  destruct (pack_convert call_type 0 a_typed_call initial) as (o & b & Eo & Eb & Ec & Hp); [reflexivity| |].
  - simpl. unfold in_range, zlen, pair_valid. simpl.
    repeat first [split|constructor]; unfold zlen, is_byte; simpl; lia || done.
  - exists b. vm_compute in Eo. injection Eo as <-. split; [exact Eb|]. split; [reflexivity|].
    split; [exact Ec|]. apply (Hp default_limit [] [0xc0]).
    + simpl. unfold zlen. simpl. lia.
    + vm_compute. discriminate.
    + constructor.
    + repeat constructor; lia.
Defined.
