(* ===== verification/MsgZone.v ===== *)
(** * MessagePack: the zone

    Include/rpc/msgpack/v1/detail/cpp11_zone.hpp: the memory that unpacked objects live
    in.  A zone takes chunks from [malloc], cuts pieces from the newest one, and frees
    all chunks at once; finalizers that were pushed to it are called before.  The
    theorems: whatever is asked of a zone, the pieces it gave lie in its chunks, aligned
    and apart, and its end gives everything back; a zone that is assigned to frees its
    chunks before it calls the destructors of the objects in them. *)
From S2P Require Import Prelude.

(** ** Memory

    What [malloc] answers at its k-th call, to a request of a size, when the blocks in
    use are given with their sizes. *)
Class Malloc := malloc_at : nat -> gmap Z Z -> Z -> option Z.

(** A function that the zone calls at its end, with its argument: the one of [allocate],
    which calls the destructor of the object, or another. *)
Inductive finalizer :=
| object_destruct (obj : Z)
| other_function (func data : Z).

(** The blocks in use, the member [m_next] that each chunk begins with, the number of
    calls of [malloc], and the finalizers that were called. *)
Record heap := Heap { live : gmap Z Z; next_of : gmap Z Z; calls : nat; ran : list finalizer }.

Definition sizeof_chunk : Z := 8.
Definition sizeof_finalizer : Z := 16.
Definition MSGPACK_ZONE_CHUNK_SIZE : Z := 8192.

(** [chunk_list]: room and place in the newest chunk, and that chunk. *)
Record chunk_list := ChunkList { m_free : Z; m_ptr : Z; m_head : Z }.

(** [finalizer_array]: the array, [m_end - m_array], and what it holds before [m_tail]. *)
Record finalizer_array := FinalizerArray { m_array : Z; m_capacity : Z; m_finalizers : list finalizer }.

(** [zone]. *)
Record zone := Zone { m_chunk_size : Z; m_chunk_list : chunk_list; m_finalizer_array : finalizer_array }.

Abbreviation MZ := (M (zone * heap)).

Section memory.
Context `{Malloc}.

(** [::malloc], [::realloc] and [::free]. *)
Definition malloc (n : Z) : M heap (option Z) := fun h =>
  match malloc_at (calls h) (live h) n with
  | Some a => (Ok (Some a), Heap (<[a := n]> (live h)) (next_of h) (S (calls h)) (ran h))
  | None => (Ok None, Heap (live h) (next_of h) (S (calls h)) (ran h))
  end.

Definition realloc (a n : Z) : M heap (option Z) := fun h =>
  match malloc_at (calls h) (delete a (live h)) n with
  | Some b => (Ok (Some b), Heap (<[b := n]> (delete a (live h))) (next_of h) (S (calls h)) (ran h))
  | None => (Ok None, Heap (live h) (next_of h) (S (calls h)) (ran h))
  end.

Definition free (a : Z) : M heap unit := fun h =>
  if a =? 0 then (Ok (), h)
  else match live h !! a with
  | Some _ => (Ok (), Heap (delete a (live h)) (next_of h) (calls h) (ran h))
  | None => (Crash "free of what is not in use", h)
  end.

(** [c->m_next]. *)
Definition read_next (c : Z) : M heap Z := fun h =>
  match live h !! c with
  | Some _ => (Ok (default 0 (next_of h !! c)), h)
  | None => (Crash "use of a freed chunk", h)
  end.

Definition write_next (c next : Z) : M heap unit := fun h =>
  match live h !! c with
  | Some _ => (Ok (), Heap (live h) (<[c := next]> (next_of h)) (calls h) (ran h))
  | None => (Crash "use of a freed chunk", h)
  end.

(** Whether an address is in a block in use. *)
Definition in_use (h : heap) (a : Z) : bool :=
  existsb (fun b => (b.1 <=? a) && (a <? b.1 + b.2)) (map_to_list (live h)).

(** [m_func(m_data)]: a destructor works on its object. *)
Definition finalizer_call (f : finalizer) : M heap unit := fun h =>
  match f with
  | object_destruct obj =>
      if in_use h obj then (Ok (), Heap (live h) (next_of h) (calls h) (ran h ++ [f]))
      else (Crash "destructor of an object that was freed", h)
  | other_function _ _ => (Ok (), Heap (live h) (next_of h) (calls h) (ran h ++ [f]))
  end.

(** ** The zone *)

Definition no_finalizers : finalizer_array := FinalizerArray 0 0 [].

(** [chunk_list::chunk_list]. *)
Definition new_chunk_list (chunk_size : Z) : M heap chunk_list :=
  r ← malloc (u64 (sizeof_chunk + chunk_size));
  match r with
  | None => raise "bad allocation"
  | Some c => _ ← write_next c 0; mret (ChunkList chunk_size (u64 (c + sizeof_chunk)) c)
  end.

(** [zone::zone], which is [noexcept]. *)
Definition new_zone (chunk_size : Z) : M heap zone := fun h =>
  match new_chunk_list chunk_size h with
  | (Ok cl, h') => (Ok (Zone chunk_size cl no_finalizers), h')
  | (Throw _, h') => (Crash "std::terminate", h')
  | (Crash w, h') => (Crash w, h')
  end.

(** [chunk_list::~chunk_list]; each round frees a block. *)
Fixpoint free_chunks (fuel : nat) (c : Z) : M heap unit :=
  if c =? 0 then mret () else
  match fuel with
  | O => crash "out of fuel"
  | S fuel => n ← read_next c; _ ← free c; free_chunks fuel n
  end.

Definition destroy_chunk_list (cl : chunk_list) : M heap unit :=
  h ← get; free_chunks (size (live h)) (m_head cl).

(** The loop of [chunk_list::clear], which leaves the oldest chunk. *)
Fixpoint free_newer (fuel : nat) (c : Z) : M heap Z :=
  match fuel with
  | O => crash "out of fuel"
  | S fuel => n ← read_next c; if n =? 0 then mret c else _ ← free c; free_newer fuel n
  end.

(** [chunk_list::clear]. *)
Definition clear_chunk_list (chunk_size : Z) (cl : chunk_list) : M heap chunk_list :=
  h ← get;
  c ← free_newer (S (size (live h))) (m_head cl);
  _ ← write_next c 0;
  mret (ChunkList chunk_size (u64 (c + sizeof_chunk)) c).

(** [finalizer_array::call]: the newest first; of what is left to call. *)
Fixpoint call_newest (fins : list finalizer) : M heap unit :=
  match fins with
  | [] => mret ()
  | f :: fins => _ ← finalizer_call f; call_newest fins
  end.

Definition call_finalizers (fa : finalizer_array) : M heap unit := call_newest (reverse (m_finalizers fa)).

(** [finalizer_array::~finalizer_array] and [clear]. *)
Definition destroy_finalizers (fa : finalizer_array) : M heap unit :=
  _ ← call_finalizers fa; free (m_array fa).

Definition clear_finalizers (fa : finalizer_array) : M heap finalizer_array :=
  _ ← call_finalizers fa; mret (FinalizerArray (m_array fa) (m_capacity fa) []).

(** [finalizer_array::push_expand] and [push]. *)
Definition push_expand (f : finalizer) (fa : finalizer_array) : M heap finalizer_array :=
  let nused := m_capacity fa in
  let nnext := if nused =? 0 then (if sizeof_finalizer <? 72 / 2 then 72 / sizeof_finalizer else 8) else u64 (nused * 2) in
  r ← realloc (m_array fa) (u64 (sizeof_finalizer * nnext));
  match r with
  | None => raise "bad allocation"
  | Some tmp => mret (FinalizerArray tmp nnext (m_finalizers fa ++ [f]))
  end.

Definition push (f : finalizer) (fa : finalizer_array) : M heap finalizer_array :=
  if Z.of_nat (length (m_finalizers fa)) =? m_capacity fa then push_expand f fa
  else mret (FinalizerArray (m_array fa) (m_capacity fa) (m_finalizers fa ++ [f])).

(** [~zone]: the members, the last one first. *)
Definition destroy_zone (z : zone) : M heap unit :=
  _ ← destroy_finalizers (m_finalizer_array z); destroy_chunk_list (m_chunk_list z).

(** ** The operations of a zone *)

Definition on_heap {A} (m : M heap A) : MZ A := zoom snd (fun h s => (s.1, h)) m.

Definition set_chunks (cl : chunk_list) (z : zone) : zone := Zone (m_chunk_size z) cl (m_finalizer_array z).
Definition set_finalizers (fa : finalizer_array) (z : zone) : zone := Zone (m_chunk_size z) (m_chunk_list z) fa.
Definition update_zone (f : zone -> zone) : MZ unit := modify (fun s => (f s.1, s.2)).

(** [m_free -= n; m_ptr += n]. *)
Definition advance (n : Z) : MZ unit :=
  update_zone (fun z => let cl := m_chunk_list z in
    set_chunks (ChunkList (u64 (m_free cl - n)) (u64 (m_ptr cl + n)) (m_head cl)) z).

(** [zone::undo_allocate]. *)
Definition undo_allocate (n : Z) : MZ unit :=
  update_zone (fun z => let cl := m_chunk_list z in
    set_chunks (ChunkList (u64 (m_free cl + n)) (u64 (m_ptr cl - n)) (m_head cl)) z).

(** [zone::get_aligned]. *)
Definition get_aligned (ptr align : Z) : Z := u64 (ptr + (align - 1)) / align * align.

(** [zone::allocate_expand]. *)
Definition allocate_expand (n : Z) : MZ Z :=
  '(z, _) ← get;
  let sz := double_size 64 (m_chunk_size z) n in
  r ← on_heap (malloc (u64 (sizeof_chunk + sz)));
  match r with
  | None => raise "bad allocation"
  | Some c =>
      let ptr := u64 (c + sizeof_chunk) in
      _ ← on_heap (write_next c (m_head (m_chunk_list z)));
      _ ← update_zone (set_chunks (ChunkList sz ptr c));
      mret ptr
  end.

(** [zone::allocate_align]. *)
Definition allocate_align (n align : Z) : MZ Z :=
  '(z, _) ← get;
  let aligned := get_aligned (m_ptr (m_chunk_list z)) align in
  let adjusted_size := u64 (n + (aligned - m_ptr (m_chunk_list z))) in
  '(aligned, adjusted_size) ←
    (if m_free (m_chunk_list z) <? adjusted_size then
       let enough_size := u64 (u64 (n + align) - 1) in
       ptr ← allocate_expand enough_size;
       '(z, _) ← get;
       let aligned := get_aligned ptr align in
       mret (aligned, u64 (n + (aligned - m_ptr (m_chunk_list z))))
     else mret (aligned, adjusted_size));
  _ ← advance adjusted_size;
  mret aligned.

(** [zone::allocate_no_align]. *)
Definition allocate_no_align (n : Z) : MZ Z :=
  '(z, _) ← get;
  ptr ← (if m_free (m_chunk_list z) <? n then allocate_expand n else mret (m_ptr (m_chunk_list z)));
  _ ← advance n;
  mret ptr.

(** [zone::push_finalizer]. *)
Definition push_finalizer (f : finalizer) : MZ unit :=
  '(z, _) ← get;
  fa ← on_heap (push f (m_finalizer_array z));
  update_zone (set_finalizers fa).

(** [catch (...) { cleanup; throw; }] *)
Definition catch_all {A} (m : MZ A) (cleanup : MZ unit) : MZ A := fun s =>
  match m s with
  | (Throw e, s') => (_ ← cleanup; throw e) s'
  | r => r
  end.

(** [--m_tail]. *)
Definition drop_finalizer : MZ unit :=
  update_zone (fun z => let fa := m_finalizer_array z in
    set_finalizers (FinalizerArray (m_array fa) (m_capacity fa) (removelast (m_finalizers fa))) z).

(** [zone::allocate], for a type of a size, with the constructor. *)
Definition allocate (sizeof align : Z) (constructor : MZ unit) : MZ Z :=
  x ← allocate_align sizeof align;
  _ ← catch_all (push_finalizer (object_destruct x)) (undo_allocate sizeof);
  _ ← catch_all constructor (_ ← drop_finalizer; undo_allocate sizeof);
  mret x.

(** [zone::clear]. *)
Definition clear : MZ unit :=
  '(z, _) ← get;
  fa ← on_heap (clear_finalizers (m_finalizer_array z));
  _ ← update_zone (set_finalizers fa);
  '(z, _) ← get;
  cl ← on_heap (clear_chunk_list (m_chunk_size z) (m_chunk_list z));
  update_zone (set_chunks cl).

(** ** Moves

    The constructors that move give the new zone and what is left of the old one. *)
Definition move_chunk_list (cl : chunk_list) : chunk_list * chunk_list :=
  (cl, ChunkList (m_free cl) (m_ptr cl) 0).

Definition move_finalizers (fa : finalizer_array) : finalizer_array * finalizer_array := (fa, no_finalizers).

Definition move_zone (z : zone) : zone * zone :=
  let '(cl, cl') := move_chunk_list (m_chunk_list z) in
  let '(fa, fa') := move_finalizers (m_finalizer_array z) in
  (Zone (m_chunk_size z) cl fa, Zone (m_chunk_size z) cl' fa').

(** [zone& operator=(zone&&) = default], member by member in the order of declaration. *)
Definition move_assign (z other : zone) : M heap (zone * zone) :=
  _ ← destroy_chunk_list (m_chunk_list z);
  let '(cl, cl') := move_chunk_list (m_chunk_list other) in
  _ ← destroy_finalizers (m_finalizer_array z);
  let '(fa, fa') := move_finalizers (m_finalizer_array other) in
  mret (Zone (m_chunk_size other) cl fa, Zone (m_chunk_size other) cl' fa').

(** [zone::swap], which is [std::swap]. *)
Definition swap (z other : zone) : M heap (zone * zone) :=
  let '(tmp, z) := move_zone z in
  '(z, other) ← move_assign z other;
  '(other, tmp) ← move_assign other tmp;
  _ ← destroy_zone tmp;
  mret (z, other).
End memory.

(** ** What is asked of a zone *)

(** A piece that was given: its address, size and alignment. *)
Definition piece : Type := Z * Z * Z.

Inductive request :=
| AllocateAlign (n align : Z)
| AllocateNoAlign (n : Z)
| Allocate (sizeof align : Z) (constructor_throws : option exn)
| PushFinalizer (func data : Z)
| Clear.

(** What was given and pushed since the last [clear], and what that called. *)
Record history := History { given : list piece; pushed : list finalizer; called : list finalizer }.

Section requests.
Context `{Malloc}.

Definition construct (constructor_throws : option exn) : MZ unit :=
  match constructor_throws with Some e => throw e | None => mret () end.

(** A request, and the history after it. *)
Definition do_request (r : request) (hist : history) : MZ history :=
  match r with
  | AllocateAlign n align =>
      a ← allocate_align n align; mret (History ((a, n, align) :: given hist) (pushed hist) (called hist))
  | AllocateNoAlign n =>
      a ← allocate_no_align n; mret (History ((a, n, 1) :: given hist) (pushed hist) (called hist))
  | Allocate n align e =>
      a ← allocate n align (construct e);
      mret (History ((a, n, align) :: given hist) (pushed hist ++ [object_destruct a]) (called hist))
  | PushFinalizer func data =>
      _ ← push_finalizer (other_function func data);
      mret (History (given hist) (pushed hist ++ [other_function func data]) (called hist))
  | Clear => _ ← clear; mret (History [] [] (called hist ++ reverse (pushed hist)))
  end.

(** A caller that goes on after an exception; a crash ends it. *)
Fixpoint do_requests (l : list request) (hist : history) (s : zone * heap) : option (history * (zone * heap)) :=
  match l with
  | [] => Some (hist, s)
  | r :: l =>
      match do_request r hist s with
      | (Ok hist', s') => do_requests l hist' s'
      | (Throw _, s') => do_requests l hist s'
      | (Crash _, _) => None
      end
  end.

(** Sizes and alignments that a request may have. *)
Definition request_ok (r : request) : Prop :=
  match r with
  | AllocateAlign n align => 0 <= n < 2 ^ 44 /\ 1 <= align <= 2 ^ 44
  | AllocateNoAlign n => 0 <= n < 2 ^ 44
  | Allocate n align _ => 0 < n < 2 ^ 44 /\ 1 <= align <= 2 ^ 44
  | _ => True
  end.

(** Two blocks that do not overlap. *)
Definition apart (x y : Z * Z) : Prop := x.1 + x.2 <= y.1 \/ y.1 + y.2 <= x.1.

#[export] Instance apart_sym : Symmetric apart.
Proof. intros x y. unfold apart. tauto. Qed.

(** All blocks of a list, each against the later ones. *)
Fixpoint all_apart (l : list (Z * Z)) : Prop :=
  match l with [] => True | x :: l => Forall (apart x) l /\ all_apart l end.

(** What the documentation of [malloc] and the address space promise: a block of the size,
    aligned for every type, below 2^47, that overlaps no block in use. *)
Class MallocLaws := {
  malloc_block k l n a : malloc_at k l n = Some a ->
    0 < a /\ (16 | a) /\ a + n <= 2 ^ 47 /\ l !! a = None /\
    forall b m, l !! b = Some m -> apart (a, n) (b, m);
}.

(** ** The invariant *)

(** The chunks from the newest to the oldest, with the sizes of what they hold. *)
Fixpoint chunks_linked (next : gmap Z Z) (c : Z) (l : list (Z * Z)) : Prop :=
  match l with
  | [] => c = 0
  | x :: l => c = x.1 /\ chunks_linked next (default 0 (next !! c)) l
  end.

(** The blocks of a zone. *)
Definition chunk_block (x : Z * Z) : Z * Z := (x.1, sizeof_chunk + x.2).

Definition array_blocks (fa : finalizer_array) : list (Z * Z) :=
  if m_array fa =? 0 then [] else [(m_array fa, sizeof_finalizer * m_capacity fa)].

Definition zone_blocks (l : list (Z * Z)) (fa : finalizer_array) : list (Z * Z) :=
  map chunk_block l ++ array_blocks fa.

(** The blocks in use are these and those of others. *)
Record owned (others : gmap Z Z) (blocks : list (Z * Z)) (h : heap) : Prop := {
  owned_null : others !! 0 = None;
  owned_live : live h = list_to_map blocks ∪ others;
  owned_nodup : NoDup blocks.*1;
  owned_others : Forall (fun b => others !! b.1 = None) blocks;
  owned_range : Forall (fun b => 0 < b.1 /\ 0 <= b.2 /\ b.1 + b.2 <= 2 ^ 47) blocks;
  owned_apart : all_apart blocks;
}.

Definition array_ok (fa : finalizer_array) : Prop :=
  Z.of_nat (length (m_finalizers fa)) <= m_capacity fa /\ (m_array fa = 0 -> m_capacity fa = 0) /\
  (m_array fa <> 0 -> 0 < m_capacity fa).

(** A piece is in one of the chunks, in the newest one before [m_ptr]. *)
Definition piece_in (ptr : Z) (l : list (Z * Z)) (p : piece) : Prop :=
  (p.2 | p.1.1) /\ 0 <= p.1.2 /\
  exists i x, l !! i = Some x /\ x.1 + sizeof_chunk <= p.1.1 /\ p.1.1 + p.1.2 <= x.1 + sizeof_chunk + x.2 /\
    (i = 0%nat -> p.1.1 + p.1.2 <= ptr).

(** A finalizer that destructs an object of the zone. *)
Definition finalizer_in (g : list piece) (f : finalizer) : Prop :=
  match f with
  | object_destruct obj => exists n align, (obj, n, align) ∈ g /\ 0 < n
  | other_function _ _ => True
  end.

Record zone_ok (others : gmap Z Z) (ran0 : list finalizer) (hist : history) (l : list (Z * Z))
    (s : zone * heap) : Prop := {
  ok_linked : chunks_linked (next_of s.2) (m_head (m_chunk_list s.1)) l;
  ok_size : 0 <= m_chunk_size s.1 < 2 ^ 45;
  ok_oldest : exists c, last l = Some (c, m_chunk_size s.1);
  ok_owned : owned others (zone_blocks l (m_finalizer_array s.1)) s.2;
  ok_room : exists c n, head l = Some (c, n) /\ c + sizeof_chunk <= m_ptr (m_chunk_list s.1) /\
    0 <= m_free (m_chunk_list s.1) /\
    m_ptr (m_chunk_list s.1) + m_free (m_chunk_list s.1) = c + sizeof_chunk + n;
  ok_array : array_ok (m_finalizer_array s.1);
  ok_pushed : m_finalizers (m_finalizer_array s.1) = pushed hist;
  ok_called : ran s.2 = ran0 ++ called hist;
  ok_given : Forall (piece_in (m_ptr (m_chunk_list s.1)) l) (given hist);
  ok_apart : all_apart (map fst (given hist));
  ok_objects : Forall (finalizer_in (given hist)) (pushed hist);
}.

(** ** The memory keeps the blocks of the zone *)

Lemma all_apart_perm l l' : l ≡ₚ l' -> all_apart l -> all_apart l'.
Proof.
  induction 1 as [|x l l' Hp IH|x y l|l1 l2 l3 _ IH1 _ IH2]; simpl; [done| | |by auto].
  - intros [H1 H2]. split; [by rewrite <- Hp|by apply IH].
  - rewrite !Forall_cons. intros ([H1 H2] & H3 & H4). split_and!; try done.
Qed.

Lemma owned_perm others bs bs' h : bs ≡ₚ bs' -> owned others bs h -> owned others bs' h.
Proof.
  intros Hp [H0 H1 H2 H3 H4 H5]. split.
  - done.
  - rewrite H1. f_equal. by apply list_to_map_proper.
  - by rewrite <- Hp.
  - by rewrite <- Hp.
  - by rewrite <- Hp.
  - by eapply all_apart_perm.
Qed.

Lemma owned_lookup others bs h b : owned others bs h -> b ∈ bs -> live h !! b.1 = Some b.2.
Proof.
  intros Ho Hb. rewrite (owned_live _ _ _ Ho). apply lookup_union_Some_l. destruct b.
  apply elem_of_list_to_map_1; [by apply (owned_nodup _ _ _ Ho)|done].
Qed.

Lemma owned_cons others a n bs h h' :
  owned others bs h -> 0 <= n -> 0 < a -> a + n <= 2 ^ 47 -> live h !! a = None ->
  (forall b m, live h !! b = Some m -> apart (a, n) (b, m)) -> live h' = <[a := n]> (live h) ->
  owned others ((a, n) :: bs) h'.
Proof.
  intros Ho Hn Ha Hr Hfree Happ El. pose proof Ho as [H0 H1 H2 H3 H4 H5].
  assert (others !! a = None) as Hoa.
  { rewrite H1 in Hfree. by apply lookup_union_None in Hfree as [_ ?]. }
  split; [done|..].
  - rewrite El, H1. simpl. by rewrite insert_union_l.
  - simpl. apply NoDup_cons. split; [|done]. intros (b & -> & Hb)%list_elem_of_fmap.
    pose proof (owned_lookup _ _ _ _ Ho Hb). congruence.
  - by constructor.
  - by constructor.
  - split; [|done]. apply Forall_forall. intros b Hb. destruct b as [b m].
    apply Happ. exact (owned_lookup _ _ _ _ Ho Hb).
Qed.

Lemma owned_uncons others a n bs h h' :
  owned others ((a, n) :: bs) h -> live h' = delete a (live h) -> owned others bs h'.
Proof.
  intros [H0 H1 H2 H3 H4 H5] El. simpl in *. apply NoDup_cons in H2 as [Hn H2].
  apply Forall_cons in H3 as [Ha H3]. apply Forall_cons in H4 as [_ H4]. destruct H5 as [_ H5].
  split; try done. rewrite El, H1, delete_union. simpl. rewrite delete_insert_id.
  - by rewrite (delete_id others).
  - by apply not_elem_of_list_to_map_1.
Qed.

Context `{!MallocLaws}.

Lemma malloc_ok others bs h n a h' :
  owned others bs h -> 0 <= n -> malloc n h = (Ok (Some a), h') ->
  owned others ((a, n) :: bs) h' /\ next_of h' = next_of h /\ ran h' = ran h.
Proof.
  intros Ho Hn. unfold malloc. destruct (malloc_at _ _ _) as [b|] eqn:E; [|done]. intros [= -> <-].
  apply malloc_block in E as (? & _ & ? & ? & ?). split_and!; try done. by eapply owned_cons.
Qed.

Lemma malloc_null others bs h n h' :
  owned others bs h -> malloc n h = (Ok None, h') ->
  owned others bs h' /\ next_of h' = next_of h /\ ran h' = ran h.
Proof.
  intros Ho. unfold malloc. destruct (malloc_at _ _ _) as [b|] eqn:E; [done|]. intros [= <-].
  split_and!; try done. destruct Ho. by split.
Qed.

Lemma free_ok others a n bs h :
  owned others ((a, n) :: bs) h ->
  exists h', free a h = (Ok (), h') /\ owned others bs h' /\ next_of h' = next_of h /\ ran h' = ran h.
Proof.
  intros Ho. unfold free. pose proof (owned_range _ _ _ Ho) as Hr. apply Forall_cons in Hr as [Hr _]. simpl in Hr.
  rewrite (proj2 (Z.eqb_neq a 0)) by lia.
  pose proof (owned_lookup _ _ _ (a, n) Ho) as El. simpl in El. rewrite El by apply list_elem_of_here. eexists. split; [done|]. simpl.
  split_and!; try done. by eapply owned_uncons.
Qed.

Lemma owned_no_null others bs h : owned others bs h -> live h !! 0 = None.
Proof.
  intros Ho. rewrite (owned_live _ _ _ Ho). apply lookup_union_None. split; [|apply (owned_null _ _ _ Ho)].
  apply not_elem_of_list_to_map_1. intros (b & E & Hb)%list_elem_of_fmap.
  pose proof (owned_range _ _ _ Ho) as Hr. rewrite Forall_forall in Hr. apply Hr in Hb. lia.
Qed.

(** ** Room in the newest chunk *)

(** [z] with [n] bytes more of the newest chunk used. *)
Definition advanced (n : Z) (z : zone) : zone :=
  let cl := m_chunk_list z in set_chunks (ChunkList (m_free cl - n) (m_ptr cl + n) (m_head cl)) z.

Lemma room_bounds o r hist l s :
  zone_ok o r hist l s ->
  8 < m_ptr (m_chunk_list s.1) /\ 0 <= m_free (m_chunk_list s.1) /\
  m_ptr (m_chunk_list s.1) + m_free (m_chunk_list s.1) <= 2 ^ 47.
Proof.
  intros Hok. destruct (ok_room _ _ _ _ _ Hok) as (c & n & Hh & Hp & Hf & E).
  destruct (ok_owned _ _ _ _ _ Hok) as [_ _ _ _ Hr _]. destruct l as [|x l]; [done|]. injection Hh as ->.
  apply Forall_cons in Hr as [Hr _]. unfold sizeof_chunk in *. simpl in Hr. unfold sizeof_chunk in Hr. lia.
Qed.

Lemma advance_exact o r hist l z h n :
  zone_ok o r hist l (z, h) -> 0 <= n <= m_free (m_chunk_list z) -> advance n (z, h) = (Ok (), (advanced n z, h)).
Proof.
  intros Hok Hn. pose proof (room_bounds _ _ _ _ _ Hok). simpl in *.
  unfold advance, advanced, update_zone, modify. simpl. by rewrite !wrap_small by lia.
Qed.

Lemma undo_exact o r hist l z h n fa h' :
  zone_ok o r hist l (z, h) -> 0 <= n <= m_free (m_chunk_list z) ->
  undo_allocate n (set_finalizers fa (advanced n z), h') = (Ok (), (set_finalizers fa z, h')).
Proof.
  intros Hok Hn. pose proof (room_bounds _ _ _ _ _ Hok). simpl in *.
  unfold undo_allocate, advanced, update_zone, modify, set_chunks, set_finalizers. simpl.
  rewrite !wrap_small by lia. destruct z as [cs [fr pt hd] fa']. simpl. do 4 f_equal; f_equal; lia.
Qed.

Lemma piece_in_mono ptr ptr' l p : ptr <= ptr' -> piece_in ptr l p -> piece_in ptr' l p.
Proof.
  intros Hp (Ha & Hn & i & x & Hi & H1 & H2 & H3). do 2 (split; [done|]). exists i, x. split_and!; try done.
  intros E. specialize (H3 E). lia.
Qed.

Lemma skip_ok o r hist l z h n :
  zone_ok o r hist l (z, h) -> 0 <= n <= m_free (m_chunk_list z) -> zone_ok o r hist l (advanced n z, h).
Proof.
  intros [H1 H2 H3 H4 (c & m & Hh & Hp & Hf & E) H6 H7 H8 H9 H10 H11] Hn. simpl in *. split; try done; simpl.
  - exists c, m. split_and!; try done; lia.
  - eapply Forall_impl; [exact H9|]. intros p. apply piece_in_mono. lia.
Qed.

Lemma all_apart_lookup l i j x y : all_apart l -> l !! i = Some x -> l !! j = Some y -> i <> j -> apart x y.
Proof.
  revert i j. induction l as [|z l IH]; intros i j Ha Hi Hj Hne; [done|]. destruct Ha as [Hz Ha].
  destruct i as [|i], j as [|j]; simpl in *; simplify_eq.
  - by eapply Forall_lookup_1 in Hz.
  - symmetry. by eapply Forall_lookup_1 in Hz.
  - eapply IH; eauto.
Qed.

(** A new piece is apart from those that were given. *)
Lemma new_piece_apart o r hist l s n :
  zone_ok o r hist l s -> 0 <= n <= m_free (m_chunk_list s.1) ->
  Forall (apart (m_ptr (m_chunk_list s.1), n)) (map fst (given hist)).
Proof.
  intros Hok Hn. apply Forall_map. eapply Forall_impl; [exact (ok_given _ _ _ _ _ Hok)|].
  intros [[a m] al] (_ & Hm & i & [x k] & Hi & H1 & H2 & H3). simpl in *. unfold apart. simpl.
  destruct (ok_room _ _ _ _ _ Hok) as (c & sz & Hh & Hp & Hf & E).
  destruct (decide (i = 0%nat)) as [->|Hne]; [right; by apply H3|].
  assert (apart (chunk_block (c, sz)) (chunk_block (x, k))) as Ha.
  { eapply (all_apart_lookup _ 0 i); [exact (owned_apart _ _ _ (ok_owned _ _ _ _ _ Hok))|..]; [| |lia].
    - destruct l; [done|]. by injection Hh as ->.
    - unfold zone_blocks. apply lookup_app_l_Some. by rewrite list_lookup_fmap, Hi. }
  unfold apart, chunk_block, sizeof_chunk in *. simpl in *. lia.
Qed.

Definition give (p : piece) (hist : history) : history := History (p :: given hist) (pushed hist) (called hist).

Lemma grant_ok o r hist l z h n align :
  zone_ok o r hist l (z, h) -> 0 <= n <= m_free (m_chunk_list z) -> (align | m_ptr (m_chunk_list z)) ->
  zone_ok o r (give (m_ptr (m_chunk_list z), n, align) hist) l (advanced n z, h).
Proof.
  intros Hok Hn Ha. pose proof (new_piece_apart _ _ _ _ _ n Hok Hn) as Hap.
  destruct (skip_ok _ _ _ _ _ _ n Hok Hn) as [H1 H2 H3 H4 (c & m & Hh & Hp & Hf & E) H6 H7 H8 H9 H10 H11].
  simpl in *. split; try done; simpl.
  - by exists c, m.
  - constructor; [|done]. split; [done|]. split; [simpl; lia|]. exists 0%nat, (c, m). simpl.
    destruct (ok_room _ _ _ _ _ Hok) as (c' & m' & Hh' & Hp' & Hf' & E').
    rewrite Hh in Hh'. injection Hh' as <- <-. simpl in *. split_and!; try lia. by rewrite <- head_lookup.
  - eapply Forall_impl; [exact H11|]. intros [obj|]; simpl; [|done]. intros (k & al & Hin & Hk).
    exists k, al. split; [by apply list_elem_of_further|done].
Qed.

(** ** New chunks *)

(** What [malloc] changes does not matter when it gives nothing. *)
Lemma zone_ok_heap o r hist l z h h' :
  zone_ok o r hist l (z, h) -> owned o (zone_blocks l (m_finalizer_array z)) h' -> next_of h' = next_of h ->
  ran h' = ran h -> zone_ok o r hist l (z, h').
Proof.
  intros [H1 H2 H3 H4 H5 H6 H7 H8 H9 H10 H11] Ho Hn Hr.
  split; [|exact H2|exact H3|exact Ho|exact H5|exact H6|exact H7| |exact H9|exact H10|exact H11]; unfold snd;
    [by rewrite Hn|by rewrite Hr].
Qed.

Lemma chunks_linked_insert next c x hd l :
  c ∉ l.*1 -> chunks_linked next hd l -> chunks_linked (<[c := x]> next) hd l.
Proof.
  revert hd. induction l as [|y l IH]; intros hd Hc; [done|]. simpl in *.
  apply not_elem_of_cons in Hc as [Hne Hc]. intros [-> Hl]. split; [done|].
  rewrite lookup_insert_ne by done. by apply IH.
Qed.

Lemma grow_bounds start n :
  0 <= start < 2 ^ 45 -> 0 <= n < 2 ^ 46 -> n <= double_size 64 start n <= 2 ^ 47 /\ 0 <= double_size 64 start n.
Proof.
  intros Hs Hn. destruct (decide (start = 0)) as [->|Hne].
  - cbn [double_size]. change (u64 (0 * 2) <=? 0) with true. destruct (Z.ltb_spec 0 n); lia.
  - pose proof (double_size_exact 64 start n ltac:(lia) ltac:(lia)) as Hd.
    assert (2 ^ 46 <= start * 2 ^ Z.of_nat 64) by (change (2 ^ Z.of_nat 64) with (2 ^ 64); lia). lia.
Qed.

Lemma chunk_addresses l fa : (map chunk_block l ++ array_blocks fa).*1 = l.*1 ++ (array_blocks fa).*1.
Proof. rewrite fmap_app. f_equal. induction l as [|x l IH]; csimpl; [done|by f_equal]. Qed.

(** The zone on a chunk more. *)
Lemma new_chunk_ok o r hist l z h h1 c sz :
  zone_ok o r hist l (z, h) -> 0 <= sz ->
  owned o ((c, sizeof_chunk + sz) :: zone_blocks l (m_finalizer_array z)) h1 ->
  next_of h1 = next_of h -> ran h1 = ran h ->
  zone_ok o r hist ((c, sz) :: l)
    (set_chunks (ChunkList sz (c + sizeof_chunk) c) z,
     Heap (live h1) (<[c := m_head (m_chunk_list z)]> (next_of h1)) (calls h1) (ran h1)).
Proof.
  intros [H1 H2 [oldest Hlast] H4 H5 H6 H7 H8 H9 H10 H11] Hsz Ho Hnext Hran. simpl in *.
  assert (c ∉ l.*1) as Hc.
  { pose proof (owned_nodup _ _ _ Ho) as Hnd. simpl in Hnd. apply NoDup_cons in Hnd as [Hnd _].
    unfold zone_blocks in Hnd. rewrite chunk_addresses in Hnd. intros ?. apply Hnd, elem_of_app. by left. }
  split; simpl; try done.
  - split; [done|]. rewrite lookup_insert_eq. simpl. apply chunks_linked_insert; [done|by rewrite Hnext].
  - exists oldest. rewrite last_cons, Hlast. done.
  - destruct Ho. by split.
  - exists c, sz. split_and!; done || lia.
  - by rewrite Hran.
  - eapply Forall_impl; [exact H9|]. intros p (Ha & Hn & i & x & Hi & Hx). do 2 (split; [done|]).
    exists (S i), x. split_and!; try done; by destruct Hx as (? & ? & _).
Qed.

Lemma allocate_expand_ok o r hist l z h n :
  zone_ok o r hist l (z, h) -> 0 <= n < 2 ^ 46 ->
  (exists e h', allocate_expand n (z, h) = (Throw e, (z, h')) /\ zone_ok o r hist l (z, h')) \/
  (exists x z' h', allocate_expand n (z, h) = (Ok (m_ptr (m_chunk_list z')), (z', h')) /\
    zone_ok o r hist (x :: l) (z', h') /\ n <= m_free (m_chunk_list z') /\
    m_finalizer_array z' = m_finalizer_array z).
Proof.
  intros Hok Hn. pose proof (ok_size _ _ _ _ _ Hok) as Hcs. pose proof (ok_owned _ _ _ _ _ Hok) as Ho.
  simpl in Hcs, Ho. destruct (grow_bounds (m_chunk_size z) n Hcs Hn) as [Hsz Hsz0].
  set (sz := double_size 64 (m_chunk_size z) n) in *.
  assert (u64 (sizeof_chunk + sz) = sizeof_chunk + sz) as Eu by (apply wrap_small; unfold sizeof_chunk; lia).
  unfold allocate_expand, on_heap, zoom. rewrite bind_get. fold sz. rewrite Eu.
  destruct (malloc (sizeof_chunk + sz) h) as [[[c|]| |] h1] eqn:Em; try (unfold malloc in Em; by destruct (malloc_at _ _ _)).
  - right. apply (malloc_ok _ _ _ _ _ _ Ho) in Em as Hm; [|unfold sizeof_chunk; lia].
    destruct Hm as (Ho1 & Hnext & Hran). pose proof (owned_lookup _ _ _ (c, sizeof_chunk + sz) Ho1) as El. simpl in El.
    pose proof (owned_range _ _ _ Ho1) as Hr. apply Forall_cons in Hr as [Hr _]. simpl in Hr.
    exists (c, sz). eexists (set_chunks (ChunkList sz (c + sizeof_chunk) c) z), _.
    rewrite (bind_ok _ _ _ (Some c) (z, h1)) by (simpl; by rewrite Em).
    rewrite (bind_ok _ _ _ () (z, Heap (live h1) (<[c := m_head (m_chunk_list z)]> (next_of h1)) (calls h1) (ran h1)))
      by (simpl; unfold write_next; rewrite El by apply list_elem_of_here; done).
    unfold update_zone. rewrite bind_modify. simpl.
    assert (u64 (c + sizeof_chunk) = c + sizeof_chunk) as -> by (apply wrap_small; unfold sizeof_chunk in *; lia).
    split; [done|]. split_and!; [by apply (new_chunk_ok _ _ _ _ _ h)|lia|done].
  - left. eexists _, h1. rewrite (bind_ok _ _ _ None (z, h1)) by (simpl; by rewrite Em). split; [done|].
    apply (malloc_null _ _ _ _ _ Ho) in Em as (Ho1 & Hnext & Hran).
    by eapply zone_ok_heap.
Qed.

(** ** Pieces *)

Lemma get_aligned_spec ptr align :
  0 <= ptr <= 2 ^ 47 -> 1 <= align <= 2 ^ 44 ->
  (align | get_aligned ptr align) /\ ptr <= get_aligned ptr align <= ptr + align - 1.
Proof.
  intros Hp Ha. unfold get_aligned. rewrite wrap_small by lia. split; [apply Z.divide_factor_r|].
  pose proof (Z.div_mod (ptr + (align - 1)) align ltac:(lia)) as E.
  pose proof (Z.mod_pos_bound (ptr + (align - 1)) align ltac:(lia)). lia.
Qed.

(** The padding, and the piece after it. *)
Lemma advance_padded o r hist l z h n align :
  let ptr := m_ptr (m_chunk_list z) in let pad := get_aligned ptr align - ptr in
  zone_ok o r hist l (z, h) -> 0 <= n < 2 ^ 44 -> 1 <= align <= 2 ^ 44 -> n + pad <= m_free (m_chunk_list z) ->
  advance (u64 (n + pad)) (z, h) = (Ok (), (advanced n (advanced pad z), h)) /\
  zone_ok o r hist l (advanced pad z, h) /\ n <= m_free (m_chunk_list (advanced pad z)) /\
  m_ptr (m_chunk_list (advanced pad z)) = get_aligned ptr align /\ (align | get_aligned ptr align).
Proof.
  intros ptr pad Hok Hn Ha Hf. pose proof (room_bounds _ _ _ _ _ Hok) as Hb. simpl in Hb. fold ptr in Hb.
  destruct (get_aligned_spec ptr align) as [Hd Hr]; [lia..|]. fold pad in Hf. assert (0 <= pad <= align - 1) by lia.
  rewrite wrap_small by lia. rewrite (advance_exact _ _ _ _ _ _ _ Hok) by lia. split.
  - unfold advanced, set_chunks. simpl. do 4 f_equal; lia.
  - split; [apply skip_ok; [done|lia]|]. unfold advanced. simpl. fold ptr. split_and!; [lia|lia|done].
Qed.

Definition gives (o : gmap Z Z) (r : list finalizer) (hist : history) (l : list (Z * Z)) (z : zone) (h : heap)
    (n align : Z) (m : MZ Z) : Prop :=
  (exists e h', m (z, h) = (Throw e, (z, h')) /\ zone_ok o r hist l (z, h')) \/
  (exists l' z1 h', m (z, h) = (Ok (m_ptr (m_chunk_list z1)), (advanced n z1, h')) /\ zone_ok o r hist l' (z1, h') /\
    n <= m_free (m_chunk_list z1) /\ (align | m_ptr (m_chunk_list z1)) /\
    m_finalizer_array z1 = m_finalizer_array z).

Lemma allocate_align_ok o r hist l z h n align :
  zone_ok o r hist l (z, h) -> 0 <= n < 2 ^ 44 -> 1 <= align <= 2 ^ 44 ->
  gives o r hist l z h n align (allocate_align n align).
Proof.
  intros Hok Hn Ha. pose proof (room_bounds _ _ _ _ _ Hok) as Hb. simpl in Hb.
  destruct (get_aligned_spec (m_ptr (m_chunk_list z)) align) as [Hd Hr]; [lia..|].
  unfold gives, allocate_align. rewrite bind_get. cbv zeta.
  rewrite (wrap_small 64 (n + (get_aligned (m_ptr (m_chunk_list z)) align - m_ptr (m_chunk_list z)))) by lia.
  destruct (Z.ltb_spec (m_free (m_chunk_list z)) (n + (get_aligned (m_ptr (m_chunk_list z)) align - m_ptr (m_chunk_list z)))).
  - rewrite (wrap_small 64 (n + align)), (wrap_small 64 (n + align - 1)) by lia.
    destruct (allocate_expand_ok _ _ _ _ _ _ (n + align - 1) Hok ltac:(lia)) as [(e & h' & E & Hok')|(x & z' & h' & E & Hok' & Hf & Efa)].
    + left. exists e, h'. split; [|done]. apply bind_throw. by apply bind_throw.
    + right. pose proof (room_bounds _ _ _ _ _ Hok') as Hb'. simpl in Hb'.
      destruct (get_aligned_spec (m_ptr (m_chunk_list z')) align) as [Hd' Hr']; [lia..|].
      destruct (advance_padded _ _ _ _ _ _ n align Hok' Hn Ha) as (Ea & Hok1 & Hf1 & Ep & Hal); [lia|].
      eexists (x :: l), (advanced _ z'), h'. split; [|split; [exact Hok1|]].
      * rewrite bind_assoc, (bind_ok _ _ _ _ _ E), bind_assoc, bind_get, bind_ret. cbv beta iota.
        rewrite (bind_ok _ _ _ _ _ Ea). by rewrite Ep.
      * rewrite Ep. split_and!; done.
  - right. destruct (advance_padded _ _ _ _ _ _ n align Hok Hn Ha) as (Ea & Hok1 & Hf1 & Ep & Hal); [lia|].
    eexists l, (advanced _ z), h. split; [|split; [exact Hok1|by rewrite Ep]].
    rewrite bind_ret. cbv beta iota. rewrite <- (wrap_small 64 (n + _)) at 1 by lia. rewrite (bind_ok _ _ _ _ _ Ea). by rewrite Ep.
Qed.

Lemma allocate_no_align_ok o r hist l z h n :
  zone_ok o r hist l (z, h) -> 0 <= n < 2 ^ 44 -> gives o r hist l z h n 1 (allocate_no_align n).
Proof.
  intros Hok Hn. unfold gives, allocate_no_align. rewrite bind_get. cbv beta iota.
  destruct (Z.ltb_spec (m_free (m_chunk_list z)) n).
  - destruct (allocate_expand_ok _ _ _ _ _ _ n Hok ltac:(lia)) as [(e & h' & E & Hok')|(x & z' & h' & E & Hok' & Hf & Efa)].
    + left. exists e, h'. split; [|done]. by apply bind_throw.
    + right. exists (x :: l), z', h'. split; [|split_and!; [done..|apply Z.divide_1_l|done]].
      rewrite (bind_ok _ _ _ _ _ E). by rewrite (bind_ok _ _ _ _ _ (advance_exact _ _ _ _ _ _ n Hok' ltac:(lia))).
  - right. exists l, z, h. split; [|split_and!; [done|lia|apply Z.divide_1_l|done]].
    rewrite bind_ret. by rewrite (bind_ok _ _ _ _ _ (advance_exact _ _ _ _ _ _ n Hok ltac:(lia))).
Qed.

(** ** Finalizers *)

Lemma realloc_ok o fa bs h n :
  owned o (array_blocks fa ++ bs) h -> 0 <= n ->
  (exists b h', realloc (m_array fa) n h = (Ok (Some b), h') /\ owned o ((b, n) :: bs) h' /\ 0 < b /\
    next_of h' = next_of h /\ ran h' = ran h) \/
  (exists h', realloc (m_array fa) n h = (Ok None, h') /\ owned o (array_blocks fa ++ bs) h' /\
    next_of h' = next_of h /\ ran h' = ran h).
Proof.
  intros Ho Hn. unfold realloc. destruct (malloc_at _ _ _) as [b|] eqn:E.
  - left. apply malloc_block in E as (Hb & _ & Hr & Hfree & Hap). do 2 eexists. split; [done|]. split_and!; try done.
    assert (owned o bs (Heap (delete (m_array fa) (live h)) (next_of h) (calls h) (ran h))) as Ho0.
    { unfold array_blocks in Ho. destruct (Z.eqb_spec (m_array fa) 0) as [Ez|]; [|by eapply owned_uncons].
      rewrite Ez, delete_id by (by eapply owned_no_null). destruct Ho. by split. }
    by eapply (owned_cons _ _ _ _ _ _ Ho0).
  - right. eexists. split; [done|]. split_and!; try done. destruct Ho. by split.
Qed.

Lemma zone_blocks_perm l fa : zone_blocks l fa ≡ₚ array_blocks fa ++ map chunk_block l.
Proof. apply Permutation_app_comm. Qed.

(** The zone with its array moved to another block. *)
Lemma zone_ok_array o r hist l z h h' arr cap :
  zone_ok o r hist l (z, h) -> 0 < arr -> m_capacity (m_finalizer_array z) <= cap -> 0 < cap ->
  owned o ((arr, sizeof_finalizer * cap) :: map chunk_block l) h' -> next_of h' = next_of h -> ran h' = ran h ->
  zone_ok o r hist l (set_finalizers (FinalizerArray arr cap (m_finalizers (m_finalizer_array z))) z, h').
Proof.
  intros [H1 H2 H3 H4 H5 H6 H7 H8 H9 H10 H11] Harr Hcap Hpos Ho Hn Hr. unfold fst, snd in *.
  split; try done; unfold fst, snd.
  - by rewrite Hn.
  - apply (owned_perm _ ((arr, sizeof_finalizer * cap) :: map chunk_block l)); [|done].
    rewrite zone_blocks_perm. unfold array_blocks. simpl. by rewrite (proj2 (Z.eqb_neq arr 0)) by lia.
  - unfold array_ok in *. simpl. lia.
  - by rewrite Hr.
Qed.

Lemma push_ok o r hist l z h f :
  let fa := m_finalizer_array z in
  zone_ok o r hist l (z, h) ->
  (exists e h', push f fa h = (Throw e, h') /\ zone_ok o r hist l (z, h')) \/
  (exists arr cap h', push f fa h = (Ok (FinalizerArray arr cap (m_finalizers fa ++ [f])), h') /\
    zone_ok o r hist l (set_finalizers (FinalizerArray arr cap (m_finalizers fa)) z, h') /\
    Z.of_nat (S (length (m_finalizers fa))) <= cap).
Proof.
  intros fa Hok. pose proof (ok_array _ _ _ _ _ Hok) as (Hl & Hz & Hpos). simpl in Hl, Hz, Hpos. fold fa in Hl, Hz, Hpos.
  pose proof (ok_owned _ _ _ _ _ Hok) as Ho. simpl in Ho.
  apply (owned_perm _ _ _ _ (zone_blocks_perm _ _)) in Ho. fold fa in Ho.
  unfold push. destruct (Z.eqb_spec (Z.of_nat (length (m_finalizers fa))) (m_capacity fa)) as [Ee|Hne].
  - unfold push_expand. change (if sizeof_finalizer <? 72 / 2 then 72 / sizeof_finalizer else 8) with 4.
    set (nnext := if m_capacity fa =? 0 then 4 else u64 (m_capacity fa * 2)).
    assert (m_capacity fa < nnext <= 2 ^ 45) as Hnn.
    { unfold nnext. destruct (Z.eqb_spec (m_capacity fa) 0) as [->|Hc]; [lia|].
      pose proof (owned_range _ _ _ Ho) as Hr. unfold array_blocks in Hr.
      rewrite (proj2 (Z.eqb_neq (m_array fa) 0)) in Hr by tauto. apply Forall_cons in Hr as [Hr _].
      unfold sizeof_finalizer in Hr. simpl in Hr. rewrite wrap_small by lia. lia. }
    rewrite (wrap_small 64 (sizeof_finalizer * nnext)) by (unfold sizeof_finalizer; lia).
    destruct (realloc_ok o fa _ h (sizeof_finalizer * nnext) Ho) as [(b & h' & E & Ho' & Hb & Hn & Hr)|(h' & E & Ho' & Hn & Hr)];
      [unfold sizeof_finalizer; lia|right|left].
    + exists b, nnext, h'. rewrite (bind_ok _ _ _ _ _ E). split; [done|]. split; [|lia].
      eapply zone_ok_array; try done; fold fa; lia.
    + eexists _, h'. rewrite (bind_ok _ _ _ _ _ E). split; [done|]. eapply zone_ok_heap; [done|..|done|done].
      by eapply owned_perm; [symmetry; apply zone_blocks_perm|].
  - right. exists (m_array fa), (m_capacity fa), h. split; [done|]. split; [|lia].
    replace (set_finalizers _ z) with z; [done|]. unfold set_finalizers, fa. by destruct z as [? ? []].
Qed.

(** One finalizer more. *)
Definition give_finalizer (f : finalizer) (hist : history) : history :=
  History (given hist) (pushed hist ++ [f]) (called hist).

Lemma append_ok o r hist l z h arr cap fs f :
  zone_ok o r hist l (set_finalizers (FinalizerArray arr cap fs) z, h) -> Z.of_nat (S (length fs)) <= cap ->
  finalizer_in (given hist) f ->
  zone_ok o r (give_finalizer f hist) l (set_finalizers (FinalizerArray arr cap (fs ++ [f])) z, h).
Proof.
  intros [H1 H2 H3 H4 H5 H6 H7 H8 H9 H10 H11] Hc Hf. unfold fst, snd in *. split; try done; unfold fst, snd.
  - unfold array_ok in *. simpl in *. rewrite length_app. simpl. lia.
  - simpl in *. by rewrite H7.
  - simpl. apply Forall_app. by split; [|constructor].
Qed.

(** ** The end *)

Lemma in_use_block o bs h b x : owned o bs h -> b ∈ bs -> b.1 <= x < b.1 + b.2 -> in_use h x = true.
Proof.
  intros Ho Hb Hx. apply existsb_exists. exists b. split; [|lia]. apply list_elem_of_In. destruct b as [a m].
  apply elem_of_map_to_list. exact (owned_lookup _ _ _ _ Ho Hb).
Qed.

Definition callable (h : heap) (f : finalizer) : Prop :=
  match f with object_destruct obj => in_use h obj = true | other_function _ _ => True end.

Lemma call_newest_ok fins h :
  Forall (callable h) fins ->
  call_newest fins h = (Ok (), Heap (live h) (next_of h) (calls h) (ran h ++ fins)).
Proof.
  intros Hf. revert h Hf. induction fins as [|f fins IH]; intros h Hf; simpl.
  - rewrite app_nil_r. by destruct h.
  - apply Forall_cons in Hf as [Hf Hfs]. set (h1 := Heap (live h) (next_of h) (calls h) (ran h ++ [f])).
    assert (finalizer_call f h = (Ok (), h1)) as E by (destruct f; simpl in *; by rewrite ?Hf).
    rewrite (bind_ok _ _ _ _ _ E), IH by exact Hfs. simpl. by rewrite <- app_assoc.
Qed.

(** All that was pushed can be called. *)
Lemma zone_callable o r hist l s : zone_ok o r hist l s -> Forall (callable s.2) (pushed hist).
Proof.
  intros Hok. eapply Forall_impl; [exact (ok_objects _ _ _ _ _ Hok)|]. intros [obj|]; simpl; [|done].
  intros (n & align & Hin & Hn). pose proof (ok_given _ _ _ _ _ Hok) as Hg. rewrite Forall_forall in Hg.
  apply Hg in Hin as (_ & _ & i & x & Hi & Hx1 & Hx2 & _). simpl in *.
  eapply (in_use_block _ _ _ (chunk_block x)); [exact (ok_owned _ _ _ _ _ Hok)|..].
  - unfold zone_blocks. apply elem_of_app. left. apply list_elem_of_fmap. exists x. split; [done|].
    by eapply list_elem_of_lookup_2.
  - unfold chunk_block, sizeof_chunk in *. simpl. lia.
Qed.

Lemma owned_size o bs h : owned o bs h -> (length bs <= size (live h))%nat.
Proof.
  intros Ho. rewrite (owned_live _ _ _ Ho), <- (map_size_list_to_map (M := gmap Z) bs) by apply (owned_nodup _ _ _ Ho).
  apply map_subseteq_size, map_union_subseteq_l.
Qed.

(** The loop of the destructor frees every chunk of the list. *)
Lemma free_chunks_ok o rest l fuel c h :
  owned o (map chunk_block l ++ rest) h -> chunks_linked (next_of h) c l -> (length l <= fuel)%nat ->
  exists h', free_chunks fuel c h = (Ok (), h') /\ owned o rest h' /\ next_of h' = next_of h /\ ran h' = ran h.
Proof.
  revert fuel c h. induction l as [|x l IH]; intros fuel c h Ho Hc Hf; simpl in *.
  - subst c. exists h. by destruct fuel.
  - destruct Hc as [-> Hc]. destruct fuel as [|fuel]; [lia|]. simpl.
    pose proof (owned_range _ _ _ Ho) as Hr. apply Forall_cons in Hr as [Hr _]. simpl in Hr.
    rewrite (proj2 (Z.eqb_neq x.1 0)) by lia.
    pose proof (owned_lookup _ _ _ (chunk_block x) Ho ltac:(apply list_elem_of_here)) as El. simpl in El.
    rewrite (bind_ok _ _ _ (default 0 (next_of h !! x.1)) h) by (unfold read_next; by rewrite El).
    destruct (free_ok _ _ _ _ _ Ho) as (h1 & E1 & Ho1 & Hn1 & Hr1). rewrite (bind_ok _ _ _ _ _ E1).
    destruct (IH fuel (default 0 (next_of h !! x.1)) h1 Ho1) as (h2 & E2 & Ho2 & Hn2 & Hr2); [by rewrite Hn1|lia|].
    exists h2. split_and!; [done|done|congruence|congruence].
Qed.

(** The loop of [clear] frees every chunk but the oldest. *)
Lemma free_newer_ok o rest l oldest fuel c h :
  owned o (map chunk_block l ++ rest) h -> chunks_linked (next_of h) c l -> last l = Some oldest ->
  (length l <= fuel)%nat ->
  exists h', free_newer fuel c h = (Ok oldest.1, h') /\ owned o (chunk_block oldest :: rest) h' /\
    next_of h' = next_of h /\ ran h' = ran h.
Proof.
  revert fuel c h. induction l as [|x l IH]; intros fuel c h Ho Hc Hlast Hf; [done|]. simpl in *.
  destruct Hc as [-> Hc]. destruct fuel as [|fuel]; [lia|]. simpl.
  pose proof (owned_lookup _ _ _ (chunk_block x) Ho ltac:(apply list_elem_of_here)) as El. simpl in El.
  rewrite (bind_ok _ _ _ (default 0 (next_of h !! x.1)) h) by (unfold read_next; by rewrite El).
  destruct l as [|y l].
  - injection Hlast as <-. simpl in Hc. rewrite Hc. by exists h.
  - destruct Hc as [Hy Hc]. pose proof (owned_range _ _ _ Ho) as Hr. apply Forall_cons in Hr as [_ Hr].
    apply Forall_cons in Hr as [Hr _]. simpl in Hr. rewrite Hy, (proj2 (Z.eqb_neq y.1 0)) by lia.
    destruct (free_ok _ _ _ _ _ Ho) as (h1 & E1 & Ho1 & Hn1 & Hr1). rewrite (bind_ok _ _ _ _ _ E1).
    destruct (IH fuel y.1 h1 Ho1) as (h2 & E2 & Ho2 & Hn2 & Hr2); [rewrite Hn1; split; [done|by rewrite <- Hy]|exact Hlast|simpl in *; lia|].
    exists h2. split_and!; [done|done|congruence|congruence].
Qed.

Lemma destroy_zone_ok o r hist l z h :
  zone_ok o r hist l (z, h) ->
  exists h', destroy_zone z h = (Ok (), h') /\ live h' = o /\ ran h' = r ++ called hist ++ reverse (pushed hist).
Proof.
  intros Hok. pose proof (zone_callable _ _ _ _ _ Hok) as Hc. simpl in Hc.
  pose proof (ok_owned _ _ _ _ _ Hok) as Ho. simpl in Ho. apply (owned_perm _ _ _ _ (zone_blocks_perm _ _)) in Ho.
  pose proof (ok_pushed _ _ _ _ _ Hok) as Ep. pose proof (ok_called _ _ _ _ _ Hok) as Er. simpl in Ep, Er.
  unfold destroy_zone, destroy_finalizers, call_finalizers. rewrite bind_assoc, Ep.
  rewrite (bind_ok _ _ _ _ _ (call_newest_ok _ h ltac:(by apply Forall_reverse))).
  set (h1 := Heap (live h) (next_of h) (calls h) (ran h ++ reverse (pushed hist))).
  assert (exists h2, free (m_array (m_finalizer_array z)) h1 = (Ok (), h2) /\ owned o (map chunk_block l) h2 /\
    next_of h2 = next_of h /\ ran h2 = ran h1) as (h2 & E2 & Ho2 & Hn2 & Hr2).
  { assert (owned o (array_blocks (m_finalizer_array z) ++ map chunk_block l) h1) as Ho1 by (destruct Ho; by split).
    unfold array_blocks in Ho1. destruct (Z.eqb_spec (m_array (m_finalizer_array z)) 0) as [Ez|].
    - exists h1. by rewrite Ez.
    - by apply (free_ok _ _ _ _ _ Ho1). }
  rewrite (bind_ok _ _ _ _ _ E2). unfold destroy_chunk_list. rewrite bind_get.
  rewrite <- (app_nil_r (map chunk_block l)) in Ho2. pose proof (owned_size _ _ _ Ho2) as Hs.
  rewrite length_app, length_map in Hs.
  destruct (free_chunks_ok o [] l (size (live h2)) (m_head (m_chunk_list z)) h2 Ho2) as (h3 & E3 & Ho3 & _ & Hr3).
  - rewrite Hn2. exact (ok_linked _ _ _ _ _ Hok).
  - lia.
  - exists h3. split; [done|]. split; [|rewrite Hr3, Hr2; unfold h1; simpl; by rewrite Er, <- app_assoc].
    rewrite (owned_live _ _ _ Ho3). apply map_empty_union.
Qed.

Lemma clear_ok o r hist l z h :
  zone_ok o r hist l (z, h) ->
  exists l' z' h', clear (z, h) = (Ok (), (z', h')) /\
    zone_ok o r (History [] [] (called hist ++ reverse (pushed hist))) l' (z', h').
Proof.
  intros Hok. pose proof (zone_callable _ _ _ _ _ Hok) as Hc. simpl in Hc.
  pose proof (ok_owned _ _ _ _ _ Hok) as Ho. pose proof (ok_size _ _ _ _ _ Hok) as Hsz.
  destruct (ok_oldest _ _ _ _ _ Hok) as [c Hlast].
  pose proof (ok_pushed _ _ _ _ _ Hok) as Ep. pose proof (ok_called _ _ _ _ _ Hok) as Er. simpl in Ho, Hsz, Hlast, Ep, Er.
  set (fa := FinalizerArray (m_array (m_finalizer_array z)) (m_capacity (m_finalizer_array z)) []).
  set (h1 := Heap (live h) (next_of h) (calls h) (ran h ++ reverse (pushed hist))).
  assert (on_heap (clear_finalizers (m_finalizer_array z)) (z, h) = (Ok fa, (z, h1))) as E1.
  { unfold on_heap, zoom, clear_finalizers, call_finalizers. simpl. rewrite Ep.
    by rewrite (bind_ok _ _ _ _ _ (call_newest_ok _ h ltac:(by apply Forall_reverse))). }
  unfold clear. rewrite bind_get. cbv beta iota. rewrite (bind_ok _ _ _ _ _ E1).
  rewrite (bind_ok _ _ _ () (set_finalizers fa z, h1)), bind_get by done. cbv beta iota. pose proof (owned_size _ _ _ Ho) as Hs. unfold zone_blocks in Hs. rewrite length_app, length_map in Hs.
  assert (owned o (zone_blocks l (m_finalizer_array z)) h1) as Ho1 by (destruct Ho; by split).
  destruct (free_newer_ok o _ l (c, m_chunk_size z) (S (size (live h1))) (m_head (m_chunk_list z)) h1 Ho1) as (h2 & E2 & Ho2 & Hn2 & Hr2);
    [exact (ok_linked _ _ _ _ _ Hok)|exact Hlast|simpl; lia|]. simpl in E2.
  set (h3 := Heap (live h2) (<[c := 0]> (next_of h2)) (calls h2) (ran h2)).
  pose proof (owned_lookup _ _ _ (chunk_block (c, m_chunk_size z)) Ho2 ltac:(apply list_elem_of_here)) as El. simpl in El.
  pose proof (owned_range _ _ _ Ho2) as Hr. apply Forall_cons in Hr as [Hr _]. simpl in Hr.
  assert (on_heap (clear_chunk_list (m_chunk_size (set_finalizers fa z)) (m_chunk_list (set_finalizers fa z))) (set_finalizers fa z, h1) =
    (Ok (ChunkList (m_chunk_size z) (c + sizeof_chunk) c), (set_finalizers fa z, h3))) as E3.
  { unfold on_heap, zoom, clear_chunk_list. rewrite bind_get. change (m_chunk_list (set_finalizers fa z)) with (m_chunk_list z).
    unfold fst, snd. rewrite (bind_ok _ _ _ _ _ E2), (bind_ok _ _ _ () h3) by (unfold write_next; by rewrite El).
    rewrite wrap_small by (unfold sizeof_chunk in *; lia). done. }
  rewrite (bind_ok _ _ _ _ _ E3). eexists [(c, m_chunk_size z)], _, _. split; [done|].
  split; simpl; try done.
  - by rewrite lookup_insert_eq.
  - by exists c.
  - destruct Ho2. by split.
  - exists c, (m_chunk_size z). split_and!; done || lia.
  - destruct (ok_array _ _ _ _ _ Hok) as (Hl & H1 & H2). split; [simpl in *; lia|done].
  - rewrite Hr2. simpl. by rewrite Er, <- app_assoc.
Qed.

(** ** Requests keep the zone *)

Lemma set_same_finalizers z : set_finalizers (m_finalizer_array z) z = z.
Proof. by destruct z. Qed.

Lemma push_finalizer_run f z h :
  push_finalizer f (z, h) =
    match push f (m_finalizer_array z) h with
    | (Ok fa, h') => (Ok (), (set_finalizers fa z, h'))
    | (Throw e, h') => (Throw e, (z, h'))
    | (Crash w, h') => (Crash w, (z, h'))
    end.
Proof.
  unfold push_finalizer. rewrite bind_get. unfold on_heap, zoom, mbind, M_bind. simpl.
  by destruct (push _ _ _) as [[] h'].
Qed.

(** What a request comes to. *)
Definition kept (o : gmap Z Z) (r : list finalizer) (hist : history) (x : outcome history * (zone * heap)) : Prop :=
  match x with
  | (Ok hist', s') => exists l', zone_ok o r hist' l' s'
  | (Throw _, s') => exists l', zone_ok o r hist l' s'
  | (Crash _, _) => False
  end.

(** A piece that was asked for and nothing else. *)
Lemma gives_kept o r hist l z h n align m :
  0 <= n -> gives o r hist l z h n align m ->
  kept o r hist ((a ← m; mret (History ((a, n, align) :: given hist) (pushed hist) (called hist))) (z, h)).
Proof.
  intros Hn [(e & h' & E & Hok)|(l' & z1 & h' & E & Hok & Hf & Ha & _)].
  - rewrite (bind_throw _ _ _ _ _ E). by exists l.
  - rewrite (bind_ok _ _ _ _ _ E). exists l'. apply (grant_ok _ _ _ _ _ _ n align Hok); [lia|done].
Qed.

Lemma allocate_kept o r hist l z h n align e :
  zone_ok o r hist l (z, h) -> 0 < n < 2 ^ 44 -> 1 <= align <= 2 ^ 44 ->
  kept o r hist (do_request (Allocate n align e) hist (z, h)).
Proof.
  intros Hok Hn Ha. unfold do_request, allocate. rewrite bind_assoc.
  destruct (allocate_align_ok _ _ _ _ _ _ n align Hok ltac:(lia) Ha) as
    [(x & h1 & E & Hok1)|(l1 & z1 & h1 & E & Hok1 & Hf & Hal & _)].
  { rewrite (bind_throw _ _ _ _ _ E). by exists l. }
  rewrite (bind_ok _ _ _ _ _ E), bind_assoc. set (a := m_ptr (m_chunk_list z1)) in *.
  set (fins := m_finalizers (m_finalizer_array z1)).
  destruct (push_ok _ _ _ _ _ _ (object_destruct a) Hok1) as [(x & h2 & E2 & Hok2)|(arr & cap & h2 & E2 & Hok2 & Hcap)].
  - rewrite (bind_throw _ _ _ x (z1, h2)); [by exists l1|].
    unfold catch_all. rewrite push_finalizer_run. change (m_finalizer_array (advanced n z1)) with (m_finalizer_array z1).
    rewrite E2. apply (bind_ok _ (fun _ => throw x) _ ()). rewrite <- (set_same_finalizers (advanced n z1)).
    rewrite (undo_exact _ _ _ _ _ _ n _ _ Hok2) by lia.
    change (m_finalizer_array (advanced n z1)) with (m_finalizer_array z1). by rewrite set_same_finalizers.
  - set (fa := FinalizerArray arr cap (fins ++ [object_destruct a])).
    rewrite (bind_ok _ _ _ () (set_finalizers fa (advanced n z1), h2));
      [|unfold catch_all; rewrite push_finalizer_run;
        change (m_finalizer_array (advanced n z1)) with (m_finalizer_array z1); by rewrite E2].
    destruct e as [e|].
    + rewrite bind_assoc, (bind_throw _ _ _ e (set_finalizers (FinalizerArray arr cap fins) z1, h2)); [by exists l1|].
      unfold catch_all, construct, throw. rewrite bind_assoc.
      rewrite (bind_ok _ _ _ () (set_finalizers (FinalizerArray arr cap fins) (advanced n z1), h2)).
      * erewrite bind_ok; [reflexivity|]. apply (undo_exact _ _ _ _ _ _ n _ _ Hok1). lia.
      * unfold drop_finalizer, update_zone, modify. simpl. by rewrite removelast_last.
    + exists l1. apply (grant_ok _ _ _ _ _ _ n align) in Hok2; [|simpl; lia|exact Hal].
      apply (append_ok _ _ _ _ (advanced n z1) h2 arr cap fins (object_destruct a) Hok2 Hcap).
      exists n, align. split; [apply list_elem_of_here|lia].
Qed.

Lemma do_request_kept o r hist l s rq :
  zone_ok o r hist l s -> request_ok rq -> kept o r hist (do_request rq hist s).
Proof.
  destruct s as [z h]. intros Hok Hrq. destruct rq as [n align|n|n align e|func data|]; simpl in Hrq.
  - destruct Hrq. apply (gives_kept _ _ _ l); [lia|]. by apply allocate_align_ok.
  - apply (gives_kept _ _ _ l); [lia|]. by apply allocate_no_align_ok.
  - destruct Hrq. by eapply allocate_kept.
  - unfold do_request. destruct (push_ok _ _ _ _ _ _ (other_function func data) Hok) as
      [(x & h2 & E2 & Hok2)|(arr & cap & h2 & E2 & Hok2 & Hcap)].
    + rewrite (bind_throw _ _ _ x (z, h2)); [by exists l|]. by rewrite push_finalizer_run, E2.
    + erewrite bind_ok; [|rewrite push_finalizer_run, E2; reflexivity]. exists l.
      by apply (append_ok _ _ _ _ z h2 arr cap _ (other_function func data) Hok2 Hcap).
  - destruct (clear_ok _ _ _ _ _ _ Hok) as (l' & z' & h' & E & Hok'). unfold do_request.
    rewrite (bind_ok _ _ _ _ _ E). by exists l'.
Qed.

Lemma do_requests_kept o r rqs hist l s :
  zone_ok o r hist l s -> Forall request_ok rqs ->
  exists hist' l' s', do_requests rqs hist s = Some (hist', s') /\ zone_ok o r hist' l' s'.
Proof.
  revert hist l s. induction rqs as [|rq rqs IH]; intros hist l s Hok Hrqs; simpl; [by exists hist, l, s|].
  apply Forall_cons in Hrqs as [Hrq Hrqs]. pose proof (do_request_kept _ _ _ _ _ _ Hok Hrq) as Hk.
  unfold kept in Hk. destruct (do_request rq hist s) as [[hist'| |] s'].
  - destruct Hk as [l' Hok']. by apply (IH _ l').
  - destruct Hk as [l' Hok']. by apply (IH _ l').
  - done.
Qed.

(** A new zone. *)
Definition no_history : history := History [] [] [].

Lemma new_zone_ok chunk_size h0 z h :
  0 <= chunk_size < 2 ^ 45 -> live h0 !! 0 = None -> new_zone chunk_size h0 = (Ok z, h) ->
  exists l, zone_ok (live h0) (ran h0) no_history l (z, h).
Proof.
  intros Hc H0'. assert (owned (live h0) [] h0) as Ho.
  { split; try done; [symmetry; apply map_empty_union|apply NoDup_nil_2]. }
  unfold new_zone, new_chunk_list. rewrite (wrap_small 64 (sizeof_chunk + chunk_size)) by (unfold sizeof_chunk; lia).
  destruct (malloc (sizeof_chunk + chunk_size) h0) as [[[c|]| |] h1] eqn:E.
  - apply (malloc_ok _ _ _ _ _ _ Ho) in E as Hm; [|unfold sizeof_chunk; lia]. destruct Hm as (Ho1 & Hn & Hr).
    rewrite (bind_ok _ _ _ _ _ E). pose proof (owned_range _ _ _ Ho1) as Hrange. apply Forall_cons in Hrange as [Hrange _].
    pose proof (owned_lookup _ _ _ (c, sizeof_chunk + chunk_size) Ho1 ltac:(apply list_elem_of_here)) as El. simpl in El, Hrange.
    set (h2 := Heap (live h1) (<[c := 0]> (next_of h1)) (calls h1) (ran h1)).
    rewrite (bind_ok _ _ _ () h2) by (unfold write_next; by rewrite El).
    assert (u64 (c + sizeof_chunk) = c + sizeof_chunk) as -> by (apply wrap_small; unfold sizeof_chunk in *; lia).
    intros [= <- <-]. exists [(c, chunk_size)]. split; simpl; try done.
    + by rewrite lookup_insert_eq.
    + by exists c.
    + destruct Ho1. by split.
    + exists c, chunk_size. split_and!; done || lia.
    + by rewrite Hr, app_nil_r.
  - by rewrite (bind_ok _ _ _ _ _ E).
  - by rewrite (bind_throw _ _ _ _ _ E).
  - by rewrite (bind_crash _ _ _ _ _ E).
Qed.
End requests.

(** C35 (safety).  A zone, whatever is asked of it in pieces of less than 2^44 bytes,
    with allocations that fail and constructors that throw in between: no memory is
    used after it was freed, and what was given since the last [clear] lies in blocks
    in use that nobody else has, behind the header of its chunk, aligned as asked, no
    piece over another: what a caller writes to its pieces changes no [m_next] and no
    other piece.  Its end gives all memory back, and every finalizer that was pushed
    has then been called once, those pushed last first. *)
Theorem zone_safe `{MallocLaws} chunk_size h0 z h rqs :
  0 <= chunk_size < 2 ^ 45 -> live h0 !! 0 = None -> new_zone chunk_size h0 = (Ok z, h) -> Forall request_ok rqs ->
  exists hist z' h', do_requests rqs no_history (z, h) = Some (hist, (z', h')) /\
    all_apart (map fst (given hist)) /\
    Forall (fun p => (p.2 | p.1.1) /\ exists b n, live h' !! b = Some n /\ live h0 !! b = None /\
      b + sizeof_chunk <= p.1.1 /\ p.1.1 + p.1.2 <= b + n) (given hist) /\
    exists h2, destroy_zone z' h' = (Ok (), h2) /\ live h2 = live h0 /\
      ran h2 = ran h0 ++ called hist ++ reverse (pushed hist).
Proof.
  intros Hc Hz En Hrqs. destruct (new_zone_ok _ _ _ _ Hc Hz En) as [l Hok].
  destruct (do_requests_kept _ _ rqs _ _ _ Hok Hrqs) as (hist & l' & [z' h'] & E & Hok').
  exists hist, z', h'. split; [done|]. split; [by apply (ok_apart _ _ _ _ _ Hok')|]. split.
  - eapply Forall_impl; [exact (ok_given _ _ _ _ _ Hok')|]. intros p (Ha & Hn & i & x & Hi & H1 & H2 & _).
    split; [done|]. pose proof (ok_owned _ _ _ _ _ Hok') as Ho.
    assert (chunk_block x ∈ zone_blocks l' (m_finalizer_array z')) as Hin.
    { apply elem_of_app. left. apply list_elem_of_fmap. exists x. split; [done|]. by eapply list_elem_of_lookup_2. }
    exists x.1, (sizeof_chunk + x.2). split_and!.
    + exact (owned_lookup _ _ _ _ Ho Hin).
    + pose proof (owned_others _ _ _ Ho) as Hot. rewrite Forall_forall in Hot. exact (Hot _ Hin).
    + exact H1.
    + unfold sizeof_chunk in *. lia.
  - exact (destroy_zone_ok _ _ _ _ _ _ Hok').
Qed.

(** Swapping two zones exchanges them, and does nothing else: what is destroyed on the
    way has been moved from. *)
Lemma swap_exchanges `{Malloc} z other h : swap z other h = (Ok (other, z), h).
Proof.
  assert (forall fuel (h : heap), free_chunks fuel 0 h = (Ok (), h)) as Hfree by (by intros []).
  destruct z as [n [] []], other as [n' [] []]. unfold swap, move_zone, move_chunk_list, move_finalizers, move_assign,
    destroy_zone, destroy_finalizers, destroy_chunk_list, call_finalizers. simpl.
  unfold mbind, M_bind, mret, M_ret, get. repeat (cbn; rewrite ?Hfree). done.
Qed.

(** ** An allocator

    Each block begins at the next multiple of 16 behind all blocks in use. *)
Definition behind (l : list (Z * Z)) : Z := foldr (fun b top => Z.max top (b.1 + Z.max b.2 1)) 4096 l.

Definition round_up (a : Z) : Z := (a + 15) / 16 * 16.

Definition bump_malloc (k : nat) (l : gmap Z Z) (n : Z) : option Z :=
  let a := round_up (behind (map_to_list l)) in if a + n <=? 2 ^ 47 then Some a else None.

#[local] Instance bump : Malloc := bump_malloc.

Lemma behind_spec l : 4096 <= behind l /\ forall b, b ∈ l -> b.1 + Z.max b.2 1 <= behind l.
Proof.
  induction l as [|x l [IH1 IH2]]; simpl; [split; [lia|by intros b ?%elem_of_nil]|]. split; [lia|].
  intros b [->|Hb]%elem_of_cons; [lia|]. specialize (IH2 b Hb). lia.
Qed.

#[local] Instance bump_laws : MallocLaws.
Proof.
  split. intros k l n a. unfold malloc_at, bump, bump_malloc.
  destruct (behind_spec (map_to_list l)) as [Hb Hl]. set (top := behind (map_to_list l)) in *.
  destruct (Z.leb_spec (round_up top + n) (2 ^ 47)); [|done]. intros [= <-].
  assert (top <= round_up top /\ (16 | round_up top)) as [Hup Hd].
  { unfold round_up. split; [|apply Z.divide_factor_r]. pose proof (Z.div_mod (top + 15) 16 ltac:(lia)).
    pose proof (Z.mod_pos_bound (top + 15) 16 ltac:(lia)). lia. }
  split_and!; [lia|done|done|..].
  - destruct (l !! round_up top) eqn:E; [|done]. apply elem_of_map_to_list in E. apply Hl in E. simpl in E. lia.
  - intros b m E. apply elem_of_map_to_list in E. apply Hl in E. simpl in E. unfold apart. simpl. lia.
Qed.

Definition empty_heap : heap := Heap ∅ ∅ 0 [].

Definition some_zone : zone := Zone 64 (ChunkList 64 4104 4096) no_finalizers.
Definition some_heap : heap := Heap {[4096 := 72]} {[4096 := 0]} 1 [].

(** Text, an object, an object whose constructor throws, more than a chunk holds, and a
    function to call; then everything is cleared, and two pieces are given again. *)
Definition some_requests : list request :=
  [AllocateAlign 5 1; Allocate 24 8 None; Allocate 16 8 (Some (StdException "constructor")); AllocateNoAlign 100;
   PushFinalizer 1 2; Clear; AllocateAlign 3 1; Allocate 8 16 None].

Lemma zone_safe_witness :
  exists hist z' h', do_requests some_requests no_history (some_zone, some_heap) = Some (hist, (z', h')) /\
    all_apart (map fst (given hist)) /\
    Forall (fun p => (p.2 | p.1.1) /\ exists b n, live h' !! b = Some n /\ live empty_heap !! b = None /\
      b + sizeof_chunk <= p.1.1 /\ p.1.1 + p.1.2 <= b + n) (given hist) /\
    exists h2, destroy_zone z' h' = (Ok (), h2) /\ live h2 = live empty_heap /\
      ran h2 = ran empty_heap ++ called hist ++ reverse (pushed hist).
Proof.
  apply (zone_safe 64 empty_heap some_zone some_heap some_requests).
  - lia.
  - done.
  - vm_compute. reflexivity.
  - repeat constructor; simpl; lia.
Defined.

(** Assigning to a zone with an object frees the chunk before it calls the destructor of
    the object. *)
Lemma move_assign_destructs_freed :
  exists hist z' h', do_requests [Allocate 8 8 None] no_history (some_zone, some_heap) = Some (hist, (z', h')) /\
    forall other, fst (move_assign z' other h') = Crash "destructor of an object that was freed".
Proof. do 3 eexists. split; [vm_compute; reflexivity|]. intros other. vm_compute. reflexivity. Qed.

(** A size near 2^64 wraps around when the header of the chunk is added: the zone gets a
    block of 4 bytes, and the piece it gives is behind it. *)
Lemma allocate_no_align_overflows :
  exists s, allocate_no_align (2 ^ 64 - 4) (some_zone, some_heap) = (Ok 4184, s) /\ live s.2 !! 4176 = Some 4.
Proof. eexists. split; vm_compute; reflexivity. Qed.
