(* ===== verification/MsgClone.v ===== *)
(** * MessagePack: deep copies

    Include/rpc/msgpack/v1/object.hpp: [object_with_zone] of an object, which copies an
    object into a zone, and [clone], which gives the copy a zone of its own.  Objects are
    the cells of MsgVisitor.v.  The theorems: the copy stands for the same object, uses
    the new zone only, and asks the zone for exactly the bytes [aligned_zone_size] counts
    (so that padding can need a second chunk); an extension of the greatest size is not
    copied. *)
From S2P Require Import Prelude MsgObject MsgZone MsgParse MsgStream MsgTree MsgVisitor.

(** The zone that is copied to, and the size and alignment of each piece that was asked
    of it. *)
Record target := Target { made : zone; asked : list (Z * Z) }.

Abbreviation MC := (M target).

Section copy.
(** Whether a zone grants the last of some pieces; the zone that is copied from, with the
    buffers its texts point into. *)
Context (grants : list (Z * Z) -> bool) (m : memory) (source : zone).

(** [o.zone.allocate_align(n, align)]. *)
Definition allocate_align (n align : Z) : MC unit := fun t =>
  let asked' := asked t ++ [(n, align)] in
  ((if grants asked' then Ok () else Throw (StdException "bad allocation")), Target (made t) asked').

(** What a piece is used for: bytes, or [n] objects. *)
Definition new_chars (s : bytes) : MC text_ptr := fun t =>
  (Ok (Copied (length (chars (made t)))), Target (Zone (arrays (made t)) (chars (made t) ++ [s])) (asked t)).

Definition new_array (n : Z) : MC nat := fun t =>
  (Ok (length (arrays (made t))),
   Target (Zone (arrays (made t) ++ [replicate (Z.to_nat n) c_uninitialized]) (chars (made t))) (asked t)).

(** The [n] bytes that [memcpy] reads. *)
Definition read_chars (p : text_ptr) (n : Z) : option bytes :=
  if n =? 0 then Some [] else
  match p with
  | Referenced (Some a) => mem_read m a (Z.to_nat n)
  | Referenced None => None
  | Copied k => chars source !! k ≫= fun s => if n <=? zlen s then Some (take (Z.to_nat n) s) else None
  end.

(** [ptr = allocate_align(n, 1); memcpy(ptr, p, n);] *)
Definition copy_chars (p : text_ptr) (n : Z) : MC text_ptr :=
  _ ← allocate_align n 1;
  match read_chars p n with
  | Some s => new_chars s
  | None => crash "memcpy of what is not there"
  end.

(** [pv[i]], and [po[i] = c] in the block that was allocated. *)
Definition source_item (p : option nat) (i : nat) : option cell :=
  p ≫= fun b => arrays source !! b ≫= fun cells => cells !! i.

Definition put_block (b i : nat) (c : cell) (z : zone) : zone :=
  Zone (alter (insert i c) b (arrays z)) (chars z).

Definition put_item (b i : nat) (c : cell) : MC unit :=
  modify (fun t => Target (put_block b i c (made t)) (asked t)).

Section items.
Context (copy : cell -> MC cell) (p : option nat) (b : nat).

(** [new (po) object(pv[i], o.zone);] *)
Definition copy_item (i : nat) : MC unit :=
  match source_item p i with
  | Some v => c ← copy v; put_item b i c
  | None => crash "read of what is not there"
  end.

(** The loop over an array, for the [n] items from [i] on. *)
Fixpoint copy_items (n i : nat) : MC unit :=
  match n with
  | O => mret ()
  | S n => _ ← copy_item i; copy_items n (S i)
  end.

(** The loop over a map: [new (po) object_kv], then key and value. *)
Fixpoint copy_pairs (n i : nat) : MC unit :=
  match n with
  | O => mret ()
  | S n =>
      _ ← put_item b (2 * i) c_nil;
      _ ← put_item b (S (2 * i)) c_nil;
      _ ← copy_item (2 * i);
      _ ← copy_item (S (2 * i));
      copy_pairs n (S i)
  end.
End items.

(** [object_with_zone<object>]; the fuel counts the blocks that are nested. *)
Fixpoint object_with_zone (fuel : nat) (v : cell) : MC cell :=
  match fuel with
  | O => crash "out of fuel"
  | S fuel =>
      match v with
      | c_uninitialized => crash "copy of what was not initialized"
      | c_str p size => q ← copy_chars p size; mret (c_str q size)
      | c_bin p size => q ← copy_chars p size; mret (c_bin q size)
      | c_ext p size => q ← copy_chars p (u32 (size + 1)); mret (c_ext q size)
      | c_array p size =>
          _ ← allocate_align (sizeof_object * size) 8;
          b ← new_array size;
          _ ← copy_items (object_with_zone fuel) p b (Z.to_nat size) 0;
          mret (c_array (Some b) size)
      | c_map p size =>
          _ ← allocate_align (sizeof_object_kv * size) 8;
          b ← new_array (2 * size);
          _ ← copy_pairs (object_with_zone fuel) p b (Z.to_nat size) 0;
          mret (c_map (Some b) size)
      | _ => mret v
      end
  end.

(** [clone]: the object and its zone, or a null pointer; [new zone(size)] may throw, or
    end the process. *)
Definition clone (new_zone : Z -> outcome unit) (fuel : nat) (obj : cell) : outcome (cell * option zone) :=
  match load_object m source fuel obj with
  | None => Crash "read of what is not there"
  | Some o =>
      let size := aligned_zone_size o in
      if size =? 0 then Ok (obj, None) else
      match new_zone size with
      | Ok _ =>
          match object_with_zone fuel obj (Target (Zone [] []) []) with
          | (Ok newobj, t) => Ok (newobj, Some (made t))
          | (Throw e, _) => Throw e
          | (Crash w, _) => Crash w
          end
      | Throw e => Throw e
      | Crash w => Crash w
      end
  end.

(** ** What a copy asks of its zone *)

Fixpoint pieces (o : object) : list (Z * Z) :=
  match o with
  | STR s | BIN s => [(zlen s, 1)]
  | EXT _ d => [(zlen d + 1, 1)]
  | ARRAY l => (sizeof_object * zlen l, 8) :: concat (map pieces l)
  | MAP l => (sizeof_object_kv * zlen l, 8) :: concat (map (fun kv => pieces kv.1 ++ pieces kv.2) l)
  | _ => []
  end.

(** Every extension has a size whose successor is a [uint32_t]. *)
Fixpoint ext_fits (o : object) : Prop :=
  match o with
  | EXT _ d => zlen d < 2 ^ 32 - 1
  | ARRAY l => foldr (fun o Q => ext_fits o /\ Q) True l
  | MAP l => foldr (fun kv Q => (ext_fits kv.1 /\ ext_fits kv.2) /\ Q) True l
  | _ => True
  end.

(** A run that asks for [rs] and ends in [Q], or is refused one of them. *)
Definition ends {A} (rs : list (Z * Z)) (Q : A -> target -> Prop) (t : target) (r : outcome A * target) : Prop :=
  match r with
  | (Ok a, t') => asked t' = asked t ++ rs /\ Q a t'
  | (Throw e, t') =>
      e = StdException "bad allocation" /\ grants (asked t') = false /\ asked t' `prefix_of` asked t ++ rs
  | (Crash _, _) => False
  end.

Lemma copy_ends_ret {A} (a : A) (Q : A -> target -> Prop) t : Q a t -> ends [] Q t ((mret a : MC A) t).
Proof. intros HQ. split; [by rewrite app_nil_r|done]. Qed.

Lemma copy_ends_bind {A B} (c : MC A) (k : A -> MC B) rs1 rs2 (Q1 : A -> target -> Prop) (Q2 : B -> target -> Prop) t :
  ends rs1 Q1 t (c t) -> (forall a t', Q1 a t' -> ends rs2 Q2 t' (k a t')) -> ends (rs1 ++ rs2) Q2 t ((c ≫= k) t).
Proof.
  intros Hc Hk. unfold mbind, M_bind. destruct (c t) as [[a|e|w] t1]; simpl in Hc; [| |done].
  - destruct Hc as [Ha HQ]. specialize (Hk a t1 HQ). destruct (k a t1) as [[b|e|w] t2]; simpl in *; [| |done].
    + destruct Hk as [-> ?]. by rewrite Ha, (assoc_L (++)).
    + destruct Hk as (? & ? & Hp). by rewrite Ha, <- (assoc_L (++)) in Hp.
  - destruct Hc as (? & ? & Hp). split_and!; [done..|]. rewrite (assoc_L (++)). by apply prefix_app_r.
Qed.

Lemma copy_ends_bind_nil {A B} (c : MC A) (k : A -> MC B) rs (Q1 : A -> target -> Prop) (Q2 : B -> target -> Prop) t :
  ends [] Q1 t (c t) -> (forall a t', Q1 a t' -> ends rs Q2 t' (k a t')) -> ends rs Q2 t ((c ≫= k) t).
Proof. apply (copy_ends_bind c k [] rs). Qed.

(** A run that asks for what is given behind. *)
Lemma copy_ends_last {A B} (c : MC A) (k : A -> MC B) rs (Q1 : A -> target -> Prop) (Q2 : B -> target -> Prop) t :
  ends rs Q1 t (c t) -> (forall a t', Q1 a t' -> ends [] Q2 t' (k a t')) -> ends rs Q2 t ((c ≫= k) t).
Proof. intros Hc Hk. rewrite <- (app_nil_r rs). by eapply copy_ends_bind. Qed.

Lemma ends_allocate n align t : ends [(n, align)] (fun _ t' => made t' = made t) t (allocate_align n align t).
Proof. unfold allocate_align. destruct (grants _) eqn:E; by split_and!. Qed.

(** ** The zone of the copy *)

(** What a zone holds stays when more is put behind it. *)
Definition extends (z z' : zone) : Prop :=
  chars z `prefix_of` chars z' /\ (length (arrays z) <= length (arrays z'))%nat /\
  forall b, (b < length (arrays z))%nat -> arrays z' !! b = arrays z !! b.

(** [c] stands for [o] wherever the buffers are, with the arrays of [z'] behind those of [z]. *)
Definition copied (z : zone) (o : object) (c : cell) (t : target) : Prop :=
  extends z (made t) /\
  forall m', denotes m' (made t) (length (arrays z)) (length (arrays (made t))) c o.

(** Block [b] begins behind [z]; its first items are copies of [l]. *)
Definition filled (z : zone) (n : nat) (l : list object) (t : target) : Prop :=
  let z' := made t in
  let b := length (arrays z) in
  extends z z' /\ exists cells, arrays z' !! b = Some cells /\ length cells = n /\
    forall m', Forall2 (denotes m' z' (S b) (length (arrays z'))) (take (length l) cells) l.

Lemma extends_refl z : extends z z.
Proof. by split_and!. Qed.

Lemma extends_trans z1 z2 z3 : extends z1 z2 -> extends z2 z3 -> extends z1 z3.
Proof.
  intros (Hc & Hl & Hb) (Hc' & Hl' & Hb'). split_and!; [by etrans|lia|].
  intros b Hlt. rewrite Hb' by lia. by apply Hb.
Qed.

Lemma ends_chars s z t :
  made t = z ->
  ends [] (fun p t' => extends z (made t') /\ forall m', load_text m' (made t') p (zlen s) = Some s) t
    (new_chars s t).
Proof.
  intros <-. split; [by rewrite app_nil_r|]. simpl. split.
  - split_and!; simpl; [by apply prefix_app_r|lia|done].
  - intros m'. rewrite lookup_app_r, Nat.sub_diag by lia. simpl. by rewrite Z.eqb_refl.
Qed.

Lemma read_text p s : load_text m source p (zlen s) = Some s -> read_chars p (zlen s) = Some s.
Proof.
  unfold read_chars. destruct (Z.eqb_spec (zlen s) 0) as [Hs|Hs].
  { destruct s; [done|rewrite zlen_cons in Hs; pose proof (zlen_nonneg s); lia]. }
  destruct p as [[a|]|k]; simpl; [done|by destruct (Z.eqb_spec (zlen s) 0)|].
  destruct (chars source !! k) as [s'|]; [|done]. simpl.
  destruct (Z.eqb_spec (zlen s') (zlen s)) as [E|]; [|done]. intros [= ->].
  rewrite Z.leb_refl. unfold zlen. by rewrite Nat2Z.id, firstn_all.
Qed.

Lemma ends_copy_chars p s t :
  load_text m source p (zlen s) = Some s ->
  ends [(zlen s, 1)]
    (fun q t' => extends (made t) (made t') /\ forall m', load_text m' (made t') q (zlen s) = Some s)
    t (copy_chars p (zlen s) t).
Proof.
  intros Hp. eapply copy_ends_last; [apply ends_allocate|]. intros [] t' Ht. rewrite (read_text _ _ Hp).
  by apply ends_chars.
Qed.

Lemma ends_array z n t :
  made t = z -> ends [] (fun b t' => b = length (arrays z) /\ filled z (Z.to_nat n) [] t') t (new_array n t).
Proof.
  intros <-. split; [by rewrite app_nil_r|]. simpl. split; [done|]. split.
  - split_and!; simpl; [done|rewrite length_app; simpl; lia|]. intros b Hb. by apply lookup_app_l.
  - exists (replicate (Z.to_nat n) c_uninitialized). split_and!; [|by rewrite length_replicate|].
    + simpl. by rewrite lookup_app_r, Nat.sub_diag by lia.
    + intros m'. constructor.
Qed.

Lemma put_block_other b i c z b' : b <> b' -> arrays (put_block b i c z) !! b' = arrays z !! b'.
Proof. apply list_lookup_alter_ne. Qed.

Lemma put_block_length b i c z : length (arrays (put_block b i c z)) = length (arrays z).
Proof. apply length_alter. Qed.

(** A write to the block behind [z]. *)
Lemma extends_put z z' i c : extends z z' -> extends z (put_block (length (arrays z)) i c z').
Proof.
  intros (Hc & Hl & Hb). split_and!; [done|by rewrite put_block_length|].
  intros b Hlt. rewrite put_block_other by lia. by apply Hb.
Qed.

(** Items of a block that grew, when the block was written to. *)
Lemma denotes_put m' z z' b i c lo cells l :
  extends z z' -> (b < lo)%nat ->
  Forall2 (denotes m' z lo (length (arrays z))) cells l ->
  Forall2 (denotes m' (put_block b i c z') lo (length (arrays z'))) cells l.
Proof.
  intros (Hc & Hl & Hb) Hlt Hcells. eapply Forall2_impl; [exact Hcells|]. intros v o. apply denotes_kept; [done|done|done|].
  intros b' Hb'. rewrite put_block_other by lia. apply Hb. lia.
Qed.

(** [new (po) object_kv] writes behind what is filled. *)
Lemma ends_put_nil z n l i t :
  filled z n l t -> (length l <= i)%nat ->
  ends [] (fun _ t' => filled z n l t') t (put_item (length (arrays z)) i c_nil t).
Proof.
  intros (He & cells & Hc & Hn & Hl) Hi. split; [by rewrite app_nil_r|]. split; [by apply extends_put|].
  exists (<[i := c_nil]> cells). split_and!.
  - simpl. by rewrite list_lookup_alter_eq, Hc.
  - by rewrite length_insert.
  - intros m'. cbn [made]. rewrite take_insert_ge, put_block_length by done.
    apply denotes_put with (z := made t); [apply extends_refl|lia|done].
Qed.

Section loops.
Context (copy : cell -> MC cell) (p : option nat) (z : zone) (n : nat).

(** A copy of the item that stands for [o]. *)
Definition copies_item (i : nat) (o : object) : Prop :=
  exists c, source_item p i = Some c /\ forall t, ends (pieces o) (copied (made t) o) t (copy c t).

Lemma ends_copy_item l o t :
  filled z n l t -> (length l < n)%nat -> copies_item (length l) o ->
  ends (pieces o) (fun _ => filled z n (l ++ [o])) t (copy_item copy p (length (arrays z)) (length l) t).
Proof.
  intros Hf Hn (c & Hc & Hcopy). unfold copy_item. rewrite Hc.
  eapply copy_ends_last; [apply Hcopy|]. clear c Hc Hcopy. intros c t' [He Hd].
  destruct Hf as (Hz & cells & Hc & Hlen & Hl).
  split; [by rewrite app_nil_r|]. split; [by eapply extends_put, extends_trans|].
  pose proof He as (_ & Hblocks & Hsame). pose proof Hz as (_ & Hzl & _).
  pose proof (lookup_lt_Some _ _ _ Hc) as Hb.
  exists (<[length l := c]> cells). split_and!.
  - simpl. by rewrite list_lookup_alter_eq, Hsame, Hc.
  - by rewrite length_insert.
  - intros m'. cbn [made]. rewrite put_block_length, length_app, Nat.add_1_r.
    rewrite (take_S_r _ _ c) by (apply list_lookup_insert_eq; lia). rewrite take_insert_ge by done.
    apply Forall2_app; [apply denotes_put with (z := made t); [done|lia|done]|]. constructor; [|constructor].
    eapply (denotes_kept m' (made t')); [done| | | |apply Hd]; [lia|done|].
    intros b' Hb'. apply put_block_other. lia.
Qed.

Lemma ends_copy_items l l' t :
  filled z n l t -> n = length (l ++ l') ->
  (forall i o, (l ++ l') !! i = Some o -> copies_item i o) ->
  ends (concat (map pieces l')) (fun _ => filled z n (l ++ l')) t
    (copy_items copy p (length (arrays z)) (length l') (length l) t).
Proof.
  revert l t. induction l' as [|o l' IH]; intros l t Hf Hn Hc.
  { apply copy_ends_ret. by rewrite app_nil_r. }
  cbn [map concat copy_items length]. rewrite length_app in Hn. simpl in Hn.
  eapply copy_ends_bind.
  { apply (ends_copy_item l o); [done|lia|]. apply Hc. by rewrite lookup_app_r, Nat.sub_diag by lia. }
  intros [] t' Hf'. rewrite (cons_middle o l l'), (assoc_L (++)) in Hc |- *.
  replace (S (length l)) with (length (l ++ [o])) by (rewrite length_app; simpl; lia).
  apply IH; [done| |done]. rewrite !length_app. simpl. lia.
Qed.

Lemma ends_copy_pairs l l' t :
  filled z n (flat l) t -> n = length (flat (l ++ l')) ->
  (forall i o, flat (l ++ l') !! i = Some o -> copies_item i o) ->
  ends (concat (map (fun kv => pieces kv.1 ++ pieces kv.2) l')) (fun _ => filled z n (flat (l ++ l'))) t
    (copy_pairs copy p (length (arrays z)) (length l') (length l) t).
Proof.
  revert l t. induction l' as [|[k v] l' IH]; intros l t Hf Hn Hc.
  { apply copy_ends_ret. by rewrite app_nil_r. }
  cbn [map concat copy_pairs length fst snd]. rewrite <- (assoc_L (++)).
  pose proof Hn as Hn'. rewrite flat_app, length_app in Hn'. simpl in Hn'.
  assert (flat (l ++ (k, v) :: l') = (flat l ++ [k]) ++ v :: flat l') as E
    by (rewrite flat_app; simpl; by rewrite <- (assoc_L (++))).
  replace (2 * length l)%nat with (length (flat l)) by apply length_flat.
  eapply copy_ends_bind_nil; [apply (ends_put_nil z n (flat l)); [done|lia]|]. clear t Hf. intros [] t Hf.
  eapply copy_ends_bind_nil; [apply (ends_put_nil z n (flat l)); [done|lia]|]. clear t Hf. intros [] t Hf.
  eapply copy_ends_bind.
  { apply (ends_copy_item (flat l) k); [done|lia|]. apply Hc.
    by rewrite flat_app, lookup_app_r, Nat.sub_diag by lia. }
  clear t Hf. intros [] t Hf. replace (S (length (flat l))) with (length (flat l ++ [k])) by (rewrite length_app; simpl; lia).
  eapply copy_ends_bind.
  { apply (ends_copy_item (flat l ++ [k]) v); [done|rewrite length_app; simpl; lia|]. apply Hc.
    by rewrite E, lookup_app_r, Nat.sub_diag by lia. }
  clear t Hf. intros [] t Hf. rewrite (cons_middle (k, v) l l'), (assoc_L (++)) in Hc, Hn |- *.
  replace (S (length l)) with (length (l ++ [(k, v)])) by (rewrite length_app; simpl; lia).
  apply IH; [|done|done]. rewrite flat_app. simpl. by rewrite <- (assoc_L (++)) in Hf.
Qed.
End loops.

(** An object is copied, whatever cell stands for it. *)
Definition copies (o : object) : Prop :=
  forall fuel lo hi c t, (hi - lo < fuel)%nat -> denotes m source lo hi c o ->
  ends (pieces o) (copied (made t) o) t (object_with_zone fuel c t).

Lemma items_copied b hi cells l fuel :
  arrays source !! b = Some cells -> Forall2 (denotes m source (S b) hi) cells l -> (hi - S b < fuel)%nat ->
  Forall copies l -> forall i o, l !! i = Some o -> copies_item (object_with_zone fuel) (Some b) i o.
Proof.
  intros Hb Hc Hf Hl i o Hi. destruct (Forall2_lookup_r _ _ _ _ _ Hc Hi) as (c & Hci & Hd).
  exists c. split; [simpl; by rewrite Hb|]. intros t. rewrite Forall_lookup in Hl.
  eapply (Hl i o Hi); [|exact Hd]. lia.
Qed.

(** The block of an array that was copied. *)
Lemma filled_all z l t :
  filled z (length l) l t -> extends z (made t) /\ forall m', exists cells,
    (length (arrays z) < length (arrays (made t)))%nat /\ arrays (made t) !! length (arrays z) = Some cells /\
    Forall2 (denotes m' (made t) (S (length (arrays z))) (length (arrays (made t)))) cells l.
Proof.
  intros (He & cells & Hc & Hn & Hl). split; [done|]. intros m'. exists cells.
  split_and!; [by eapply lookup_lt_Some|done|]. specialize (Hl m'). by rewrite <- Hn, firstn_all in Hl.
Qed.

Lemma to_nat_zlen {A} (l : list A) : Z.to_nat (zlen l) = length l.
Proof. apply Nat2Z.id. Qed.

Lemma copies_array l : Forall copies l -> copies (ARRAY l).
Proof.
  intros Hl [|fuel] lo hi c t Hf Hd; [lia|]. destruct c as [| | | | | | | | | |p size|]; try done.
  destruct Hd as [-> Hd]. cbn [pieces object_with_zone]. rewrite to_nat_zlen.
  change (?x :: concat ?y) with ([x] ++ concat y). eapply copy_ends_bind; [apply ends_allocate|]. intros [] t1 Ht1.
  eapply copy_ends_bind_nil; [by apply ends_array|]. intros b t2 [-> Hfill]. rewrite to_nat_zlen in Hfill.
  eapply copy_ends_last.
  - apply (ends_copy_items _ p (made t) (length l) [] l); [done..|]. simpl.
    destruct Hd as [Hs|(b & cells & -> & Hr & Hc & Hcells)].
    + destruct l; [done|rewrite zlen_cons in Hs; pose proof (zlen_nonneg l); lia].
    + rewrite all2_forall2 in Hcells. eapply items_copied; [done|done|lia|done].
  - intros [] t3 Hfill'. apply copy_ends_ret. destruct (filled_all _ _ _ Hfill') as [He Hall]. split; [done|].
    intros m'. destruct (Hall m') as (cells & Hlt & Hc & Hcells). simpl. split; [done|]. right.
    exists (length (arrays (made t))), cells. rewrite all2_forall2. split_and!; done || lia.
Qed.

Lemma copies_map l : Forall (fun kv => copies kv.1 /\ copies kv.2) l -> copies (MAP l).
Proof.
  intros Hl [|fuel] lo hi c t Hf Hd; [lia|]. destruct c as [| | | | | | | | | | |p size]; try done.
  destruct Hd as [-> Hd]. cbn [pieces object_with_zone]. rewrite to_nat_zlen.
  change (?x :: concat ?y) with ([x] ++ concat y). eapply copy_ends_bind; [apply ends_allocate|]. intros [] t1 Ht1.
  eapply copy_ends_bind_nil; [by apply ends_array|]. intros b t2 [-> Hfill].
  replace (Z.to_nat (2 * zlen l)) with (length (flat l)) in Hfill by (rewrite length_flat; unfold zlen; lia).
  eapply copy_ends_last.
  - apply (ends_copy_pairs _ p (made t) (length (flat l)) [] l); [done..|]. simpl.
    destruct Hd as [Hs|(b & cells & -> & Hr & Hc & Hcells)].
    + destruct l; [done|rewrite zlen_cons in Hs; pose proof (zlen_nonneg l); lia].
    + rewrite all2_pairs_flat in Hcells. eapply items_copied; [done|done|lia|by apply flat_forall].
  - intros [] t3 Hfill'. apply copy_ends_ret. destruct (filled_all _ _ _ Hfill') as [He Hall]. split; [done|].
    intros m'. destruct (Hall m') as (cells & Hlt & Hc & Hcells). simpl. split; [done|]. right.
    exists (length (arrays (made t))), cells. rewrite all2_pairs_flat. split_and!; done || lia.
Qed.

(** An object without blocks of its own. *)
Lemma copies_value o :
  pieces o = [] ->
  (forall c fuel t lo hi, denotes m source lo hi c o ->
     object_with_zone (S fuel) c t = (Ok c, t) /\ forall m' z lo' hi', denotes m' z lo' hi' c o) ->
  copies o.
Proof.
  intros Hp Ho [|fuel] lo hi c t Hf Hd; [lia|]. destruct (Ho c fuel t lo hi Hd) as [-> Hd']. rewrite Hp.
  split; [by rewrite app_nil_r|]. split; [apply extends_refl|auto].
Qed.

(** A text, whose cell is made of the pointer to its bytes. *)
Lemma copies_chars o s (cell_of : text_ptr -> cell) :
  pieces o = [(zlen s, 1)] ->
  (forall m' z lo hi p, load_text m' z p (zlen s) = Some s -> denotes m' z lo hi (cell_of p) o) ->
  (forall fuel c t lo hi, denotes m source lo hi c o -> exists p, load_text m source p (zlen s) = Some s /\
     object_with_zone (S fuel) c t = (q ← copy_chars p (zlen s); mret (cell_of q)) t) ->
  copies o.
Proof.
  intros Hp Hmake Hrun [|fuel] lo hi c t Hf Hd; [lia|]. destruct (Hrun fuel c t lo hi Hd) as (p & Hload & ->).
  rewrite Hp. eapply copy_ends_last; [by apply ends_copy_chars|]. intros q t' [He Hq]. apply copy_ends_ret.
  split; [done|]. intros m'. auto.
Qed.

Lemma copies_ext type d : zlen d < 2 ^ 32 - 1 -> copies (EXT type d).
Proof.
  intros Hd. pose proof (zlen_nonneg d).
  apply (copies_chars _ (type :: d) (fun q => c_ext q (zlen d))).
  - by rewrite zlen_cons, Z.add_comm.
  - intros m' z lo hi p Hload. done.
  - intros fuel c t lo hi Hden. destruct c as [| | | | | | | | |p size| |]; try done. destruct Hden as [-> Hload].
    exists p. split; [done|]. cbn [object_with_zone]. unfold u32. rewrite Z.mod_small by lia.
    by rewrite zlen_cons, Z.add_comm.
Qed.

Lemma object_copies o : ext_fits o -> copies o.
Proof.
  induction o as [|b|u|i|f|f|s|s|type d|l IH|l IH] using object_ind_items; intros Hfits.
  1-6: apply copies_value; [done|]; intros c fuel t lo hi Hd; by destruct c.
  - apply (copies_chars _ s (fun q => c_str q (zlen s))); [done|done|].
    intros fuel c t lo hi Hd. destruct c as [| | | | | | |p size| | | |]; try done. destruct Hd as [-> Hd]. by exists p.
  - apply (copies_chars _ s (fun q => c_bin q (zlen s))); [done|done|].
    intros fuel c t lo hi Hd. destruct c as [| | | | | | | |p size| | |]; try done. destruct Hd as [-> Hd]. by exists p.
  - by apply copies_ext.
  - apply copies_array. cbn [ext_fits] in Hfits. rewrite foldr_and in Hfits. rewrite Forall_forall in *. auto.
  - apply copies_map. cbn [ext_fits] in Hfits. rewrite foldr_and in Hfits. rewrite Forall_forall in *.
    intros kv Hkv. specialize (IH kv Hkv). specialize (Hfits kv Hkv). tauto.
Qed.

(** C24 (safety).  [clone] of any object whose extensions have less than 2^32 - 1 bytes:
    the copy is the same object in a zone of its own, whatever becomes of the zone and
    the buffers it was copied from; nothing outside of the object's own memory is read
    or written; and an exception is that of the new zone or [std::bad_alloc], when one
    of the pieces the object is made of was refused.  An object that needs no memory is
    its own clone. *)
Theorem clone_deep new_zone fuel lo hi obj o :
  (hi - lo < fuel)%nat -> denotes m source lo hi obj o -> ext_fits o ->
  match clone new_zone fuel obj with
  | Ok (c, Some z) =>
      aligned_zone_size o <> 0 /\ forall m', load_object m' z (S (length (arrays z))) c = Some o
  | Ok (c, None) => aligned_zone_size o = 0 /\ c = obj
  | Throw e =>
      new_zone (aligned_zone_size o) = Throw e \/
      e = StdException "bad allocation" /\ exists rs, rs `prefix_of` pieces o /\ grants rs = false
  | Crash w => aligned_zone_size o <> 0 /\ new_zone (aligned_zone_size o) = Crash w
  end.
Proof.
  intros Hf Hd Hfits. unfold clone. rewrite (denotes_loads _ _ _ _ _ _ _ Hf Hd).
  destruct (Z.eqb_spec (aligned_zone_size o) 0) as [|Hsize]; [done|].
  destruct (new_zone _) as [[]|e|w]; [|by left|done].
  pose proof (object_copies o Hfits fuel lo hi obj (Target (Zone [] []) []) Hf Hd) as He.
  destruct (object_with_zone _ _ _) as [[c|e|w] t]; simpl in He; [| |done].
  - destruct He as (_ & _ & Hc). split; [done|]. intros m'. eapply denotes_loads; [|apply Hc]. simpl. lia.
  - destruct He as (-> & Hg & Hp). right. split; [done|]. by exists (asked t).
Qed.
End copy.

(** ** The size of the zone *)

Lemma sum_sizes_app l l' : sum (l ++ l') = sum l + sum l'.
Proof. induction l as [|x l IH]; simpl; lia. Qed.

Lemma aligned_size_1 n : aligned_size n 1 = n.
Proof. unfold aligned_size. rewrite Z.add_simpl_r, Z.div_1_r. lia. Qed.

Lemma aligned_size_objects k n : aligned_size (8 * k * n) 8 = 8 * k * n.
Proof.
  unfold aligned_size. replace (8 * k * n + 8 - 1) with (7 + k * n * 8) by ring.
  rewrite Z.div_add by lia. change (7 / 8) with 0. ring.
Qed.

Lemma sum_pieces {A} (f : A -> list (Z * Z)) (g : A -> Z) l :
  Forall (fun x => sum (map fst (f x)) = g x) l -> sum (map fst (concat (map f l))) = sum (map g l).
Proof. induction 1 as [|x l Hx _ IH]; [done|]. cbn. rewrite map_app, sum_sizes_app, Hx. fold (sum (map g l)). by rewrite <- IH. Qed.

(** A copy asks for as many bytes as [aligned_zone_size] counts. *)
Theorem pieces_counted o : sum (map fst (pieces o)) = aligned_zone_size o.
Proof.
  induction o as [| | | | | |s|s|type d|l IH|l IH] using object_ind_items; simpl; [done..| | | | |];
    rewrite ?aligned_size_1; [lia..| |].
  - rewrite (sum_pieces pieces aligned_zone_size) by done. f_equal. symmetry. apply (aligned_size_objects 3).
  - rewrite (sum_pieces _ (fun kv => aligned_zone_size kv.1 + aligned_zone_size kv.2)).
    + f_equal. symmetry. apply (aligned_size_objects 6).
    + eapply Forall_impl; [exact IH|]. intros kv [Hk Hv]. by rewrite map_app, sum_sizes_app, Hk, Hv.
Qed.

Lemma pieces_bounds o : Forall (fun p => 0 <= p.1 /\ (p.2 = 1 \/ p.2 = 8)) (pieces o).
Proof.
  induction o as [| | | | | |s|s|type d|l IH|l IH] using object_ind_items; simpl;
    rewrite ?Forall_cons, ?Forall_nil; unfold sizeof_object, sizeof_object_kv; cbn [fst snd]; [done..| | | | |].
  1-2: pose proof (zlen_nonneg s); lia.
  - pose proof (zlen_nonneg d). lia.
  - split; [pose proof (zlen_nonneg l); lia|]. by apply Forall_concat, Forall_map.
  - split; [pose proof (zlen_nonneg l); lia|]. apply Forall_concat, Forall_map.
    eapply Forall_impl; [exact IH|]. intros kv []. by apply Forall_app.
Qed.

(** The pieces of a copy are requests for which MsgZone.v shows what a zone promises. *)
Lemma pieces_ok o :
  aligned_zone_size o < 2 ^ 44 -> Forall (fun p => request_ok (AllocateAlign p.1 p.2)) (pieces o).
Proof.
  rewrite <- pieces_counted. generalize (pieces_bounds o). induction (pieces o) as [|p l IH]; [constructor|].
  intros [Hp Hl]%Forall_cons Hsum. simpl in Hsum.
  assert (0 <= sum (map fst l)) by (clear -Hl; induction Hl as [|q l [] _ IHl]; simpl; lia).
  constructor; [simpl; lia|]. apply IH; [done|lia].
Qed.

(** But the bytes between the pieces are not counted: behind a text, the objects of an
    array are aligned, and the zone of that size needs a second chunk. *)
Definition zone_for (o : object) : option (history * (MsgZone.zone * heap)) :=
  match @new_zone bump_malloc (aligned_zone_size o) empty_heap with
  | (Ok z, h) => @do_requests bump_malloc (map (fun p => AllocateAlign p.1 p.2) (pieces o)) no_history (z, h)
  | _ => None
  end.

Lemma padding_needs_chunk :
  (exists hist z h, zone_for (ARRAY [STR [97]; ARRAY [NIL]]) = Some (hist, (z, h)) /\ calls h = 2%nat) /\
  (exists hist z h, zone_for (ARRAY [ARRAY [NIL]; STR [97]]) = Some (hist, (z, h)) /\ calls h = 1%nat).
Proof. split; do 3 eexists; split; vm_compute; reflexivity. Qed.

(** ** The greatest extension

    [size + 1] is a [uint32_t]: nothing is copied of an extension of 2^32 - 1 bytes, and
    the new object points to a piece of no bytes. *)
Lemma greatest_ext_not_copied grants m source fuel p t :
  (forall rs, grants rs = true) ->
  exists q t', object_with_zone grants m source (S fuel) (c_ext p (2 ^ 32 - 1)) t = (Ok (c_ext q (2 ^ 32 - 1)), t') /\
    forall m' fuel', load_object m' (made t') fuel' (c_ext q (2 ^ 32 - 1)) = None.
Proof.
  intros Hg. exists (Copied (length (chars (made t)))).
  eexists. split.
  - cbn [object_with_zone]. change (u32 (2 ^ 32 - 1 + 1)) with 0. unfold copy_chars, allocate_align, mbind, M_bind.
    rewrite Hg. reflexivity.
  - intros m' [|fuel']; [done|]. cbn [load_object load_text made chars].
    by rewrite lookup_app_r, Nat.sub_diag by lia.
Qed.

(** ** An example

    A map with a text in a buffer, copied when everything is granted; the memory of the
    buffer is lost. *)
Definition an_object : object := MAP [(STR [97; 98], ARRAY [BIN [1; 2]; NIL])].
Definition a_source : zone := Zone [[c_str (Referenced (Some 100)) 2; c_array (Some 1%nat) 2]; [c_bin (Copied 0) 2; c_nil]] [[1; 2]].
Definition a_memory : memory := fun a => [97; 98] !! Z.to_nat (a - 100).

Definition a_clone : zone :=
  Zone [[c_str (Copied 0) 2; c_array (Some 1%nat) 2]; [c_bin (Copied 1) 2; c_nil]] [[97; 98]; [1; 2]].

Lemma clone_deep_witness :
  clone (fun _ => true) a_memory a_source (fun _ => Ok ()) 3 (c_map (Some 0%nat) 1) =
    Ok (c_map (Some 0%nat) 1, Some a_clone) /\
  forall m', load_object m' a_clone 3 (c_map (Some 0%nat) 1) = Some an_object.
Proof.
  assert (clone (fun _ => true) a_memory a_source (fun _ => Ok ()) 3 (c_map (Some 0%nat) 1) =
    Ok (c_map (Some 0%nat) 1, Some a_clone)) as E by (vm_compute; reflexivity).
  split; [exact E|].
  pose proof (clone_deep (fun _ => true) a_memory a_source (fun _ => Ok ()) 3 0 2 (c_map (Some 0%nat) 1) an_object
    ltac:(lia)) as H.
  rewrite E in H. apply H.
  - simpl. split; [done|]. right. do 2 eexists. split_and!; [done|lia|lia|done|]. simpl. split_and!; try done.
    right. do 2 eexists. split_and!; [done|lia|lia|done|]. done.
  - repeat split.
Defined.
