(* ===== verification/RpcWriter.v ===== *)
(** * rpc: the messages of a connection

    Include/rpc/msgpack/v1/sbuffer.hpp ([sbuffer]), into which a message is packed,
    and Include/rpc/detail/async_writer.h ([async_writer]), which sends the messages
    of a connection: a queue whose front is being written, with the handler of asio
    that goes on to the next one.  asio is an interface: it takes any part of what is
    left of a buffer, and calls the handler when all of it is sent or the connection
    fails. *)
From S2P Require Import Prelude MsgObject MsgParse MsgTree MsgVisitor MsgUnpacker.

(** ** The buffer of a message *)

(** [sbuffer]: what was written to its block, and the members. *)
Record sbuffer := Sbuffer { block : bytes; m_size : Z; m_alloc : Z }.

Definition MSGPACK_SBUFFER_INIT_SIZE : Z := 8192.

Definition new_sbuffer (initsz : Z) : sbuffer := Sbuffer [] 0 initsz.

(** [sbuffer::expand_buffer]; its loop is that of [parser::expand_buffer]. *)
Definition expand_sbuffer (n : Z) : M sbuffer unit :=
  modify (fun s =>
    let nsize :=
      double_size 64 (if 0 <? m_alloc s then u64 (m_alloc s * 2) else MSGPACK_SBUFFER_INIT_SIZE)
        (u64 (m_size s + n)) in
    Sbuffer (take (Z.to_nat nsize) (block s)) (m_size s) nsize).

(** [sbuffer::write]. *)
Definition sbuffer_write (buf : bytes) : M sbuffer unit :=
  s ← get;
  _ ← (if u64 (m_alloc s - m_size s) <? zlen buf then expand_sbuffer (zlen buf) else mret ());
  s ← get;
  if (m_size s + zlen buf <=? m_alloc s) && (m_size s <=? zlen (block s)) then
    let k := Z.to_nat (m_size s) in
    modify (fun s => Sbuffer (take k (block s) ++ buf ++ drop (k + length buf) (block s))
      (u64 (m_size s + zlen buf)) (m_alloc s))
  else crash "write outside of the buffer".

(** [data()] up to [size()]. *)
Definition sbuffer_text (s : sbuffer) : bytes := take (Z.to_nat (m_size s)) (block s).

Definition sbuffer_clear (s : sbuffer) : sbuffer := Sbuffer (block s) 0 (m_alloc s).

(** [release], which gives the block away, and the moves, which leave an empty buffer. *)
Definition sbuffer_release (s : sbuffer) : bytes * sbuffer := (block s, Sbuffer [] 0 0).

Definition sbuffer_move (other : sbuffer) : sbuffer * sbuffer := (other, Sbuffer [] 0 0).

(** The pieces that the packer appends. *)
Fixpoint sbuffer_writes (pieces : list bytes) : M sbuffer unit :=
  match pieces with
  | [] => mret ()
  | b :: pieces => _ ← sbuffer_write b; sbuffer_writes pieces
  end.

Definition sbuffer_ok (s : sbuffer) : Prop :=
  0 <= m_size s <= zlen (block s) /\ zlen (block s) <= m_alloc s < 2 ^ 47.

(** ** The queue of a connection *)

(** [async_writer]: [exit_], [write_queue_], what is left of the buffers that asio is
    writing, what the socket has taken, and whether it is open; and all that was given
    to [write], and whether a handler was called with an error. *)
Record writer := Writer {
  exit_ : bool;
  write_queue : list bytes;
  writing : list bytes;
  sent : bytes;
  socket_open : bool;
  written : list bytes;
  failed : bool;
}.

Abbreviation MW := (M writer).

Definition set_queue (q : list bytes) (w : writer) : writer :=
  Writer (exit_ w) q (writing w) (sent w) (socket_open w) (written w) (failed w).
Definition set_writing (l : list bytes) (w : writer) : writer :=
  Writer (exit_ w) (write_queue w) l (sent w) (socket_open w) (written w) (failed w).
Definition set_sent (b : bytes) (w : writer) : writer :=
  Writer (exit_ w) (write_queue w) (writing w) b (socket_open w) (written w) (failed w).
Definition set_open (b : bool) (w : writer) : writer :=
  Writer (exit_ w) (write_queue w) (writing w) (sent w) b (written w) (failed w).
Definition set_exit (w : writer) : writer :=
  Writer true (write_queue w) (writing w) (sent w) (socket_open w) (written w) (failed w).
Definition set_failed (w : writer) : writer :=
  Writer (exit_ w) (write_queue w) (writing w) (sent w) (socket_open w) (written w) true.
Definition log_written (d : bytes) (w : writer) : writer :=
  Writer (exit_ w) (write_queue w) (writing w) (sent w) (socket_open w) (written w ++ [d]) (failed w).

(** [do_write], up to the return of [async_write]. *)
Definition do_write : MW unit :=
  w ← get;
  if exit_ w then mret ()
  else
    match write_queue w with
    | item :: _ => modify (set_writing (writing w ++ [item]))
    | [] => crash "front of an empty deque"
    end.

(** [write]. *)
Definition write (data : bytes) : MW unit :=
  _ ← modify (log_written data);
  _ ← modify (fun w => set_queue (write_queue w ++ [data]) w);
  w ← get;
  if (1 <? length (write_queue w))%nat then mret () else do_write.

(** The handler of [async_write]: whether there was an error. *)
Definition write_handler (ec : bool) : MW unit :=
  _ ← (if ec then modify set_failed
       else
         w ← get;
         match write_queue w with
         | [] => crash "pop_front of an empty deque"
         | _ :: q =>
             _ ← modify (set_queue q);
             if (0 <? length q)%nat then if negb (exit_ w) then do_write else mret () else mret ()
         end);
  w ← get;
  if exit_ w then modify (set_open false) else mret ().

Definition new_writer : writer := Writer false [] [] [] true [] false.

(** What happens on a connection: a message is given to [write], asio sends a part of
    a buffer, calls the handler, or [exit_] is set.  The handlers of a strand do not
    run at the same time. *)
Inductive writer_step : relation writer :=
| writer_write d w w' : write d w = (Ok (), w') -> writer_step w w'
| writer_part l1 b1 b2 l2 w :
    writing w = l1 ++ (b1 ++ b2) :: l2 -> socket_open w = true ->
    writer_step w (set_sent (sent w ++ b1) (set_writing (l1 ++ b2 :: l2) w))
| writer_done l1 l2 w w' :
    writing w = l1 ++ [] :: l2 -> write_handler false (set_writing (l1 ++ l2) w) = (Ok (), w') ->
    writer_step w w'
| writer_error l1 b l2 w w' :
    writing w = l1 ++ b :: l2 -> write_handler true (set_writing (l1 ++ l2) w) = (Ok (), w') ->
    writer_step w w'
| writer_exit w : writer_step w (set_exit w).

Definition writer_reachable : writer -> Prop := rtc writer_step new_writer.

(** ** The buffer *)

Lemma expand_sbuffer_ok s n :
  sbuffer_ok s -> m_alloc s - m_size s < n -> m_size s + n < 2 ^ 45 ->
  exists s', expand_sbuffer n s = (Ok (), s') /\ sbuffer_ok s' /\ block s' = block s /\
    m_size s' = m_size s /\ m_size s + n <= m_alloc s'.
Proof.
  intros [Hsize Halloc] Hroom Hn. unfold expand_sbuffer.
  assert (u64 (m_size s + n) = m_size s + n) as En by (apply wrap_small; lia).
  set (start := if 0 <? m_alloc s then u64 (m_alloc s * 2) else MSGPACK_SBUFFER_INIT_SIZE).
  assert (1 <= start < 2 ^ 46 /\ m_alloc s <= start) as [Hstart Hle].
  { unfold start, MSGPACK_SBUFFER_INIT_SIZE. destruct (Z.ltb_spec 0 (m_alloc s)); [|lia].
    rewrite (wrap_small 64) by lia. lia. }
  assert (m_size s + n <= start * 2 ^ Z.of_nat 64) as H64 by (change (2 ^ Z.of_nat 64) with (2 ^ 64); lia).
  pose proof (double_size_exact 64 start (m_size s + n) ltac:(lia) ltac:(lia) H64) as Hd.
  eexists. split; [done|]. unfold sbuffer_ok. cbn [block m_size m_alloc]. rewrite En. fold start.
  rewrite take_ge by (unfold zlen in *; lia). split_and!; try done; lia.
Qed.

Lemma sbuffer_put_ok s b :
  sbuffer_ok s -> m_size s + zlen b <= m_alloc s ->
  let k := Z.to_nat (m_size s) in
  let s' := Sbuffer (take k (block s) ++ b ++ drop (k + length b) (block s)) (u64 (m_size s + zlen b)) (m_alloc s) in
  sbuffer_ok s' /\ m_size s' = m_size s + zlen b /\ sbuffer_text s' = sbuffer_text s ++ b.
Proof.
  intros [Hsize Halloc] Hroom k s'. pose proof (zlen_nonneg b).
  assert (u64 (m_size s + zlen b) = m_size s + zlen b) as E by (apply wrap_small; lia).
  unfold sbuffer_ok, sbuffer_text, s'. cbn [block m_size m_alloc]. rewrite E.
  assert (zlen (take k (block s)) = m_size s) as Ek by (unfold zlen, k in *; rewrite length_take; lia).
  split_and!; try lia.
  - rewrite !zlen_app, Ek. pose proof (zlen_nonneg (drop (k + length b) (block s))). lia.
  - rewrite !zlen_app, Ek. unfold zlen in *. rewrite length_drop. lia.
  - assert (Z.to_nat (m_size s + zlen b) = length (take k (block s) ++ b)) as ->
      by (rewrite length_app; unfold zlen in *; lia).
    by rewrite app_assoc, take_app_length.
Qed.

Lemma sbuffer_write_ok s b :
  sbuffer_ok s -> m_size s + zlen b < 2 ^ 45 ->
  exists s', sbuffer_write b s = (Ok (), s') /\ sbuffer_ok s' /\ m_size s' = m_size s + zlen b /\
    sbuffer_text s' = sbuffer_text s ++ b.
Proof.
  intros Hok Hn. pose proof Hok as [Hsize Halloc]. pose proof (zlen_nonneg b).
  assert (exists s1, (if u64 (m_alloc s - m_size s) <? zlen b then expand_sbuffer (zlen b) else mret ()) s = (Ok (), s1) /\
    sbuffer_ok s1 /\ block s1 = block s /\ m_size s1 = m_size s /\ m_size s + zlen b <= m_alloc s1) as
    (s1 & E1 & Hok1 & Eb & Es & Hroom).
  { rewrite (wrap_small 64) by lia. destruct (Z.ltb_spec (m_alloc s - m_size s) (zlen b)).
    - apply expand_sbuffer_ok; [done|lia|lia].
    - exists s. split_and!; try done; lia. }
  pose proof (sbuffer_put_ok s1 b Hok1 ltac:(lia)) as (Hok' & Es' & Et). pose proof Hok1 as [Hsize1 _].
  eexists. split; [|split; [exact Hok'|split]].
  - unfold sbuffer_write. rewrite bind_get, (bind_ok _ _ _ _ _ E1), bind_get.
    rewrite (proj2 (Z.leb_le _ _)) by lia. rewrite (proj2 (Z.leb_le _ _)) by lia. done.
  - by rewrite Es', Es.
  - unfold sbuffer_text in *. rewrite Et. by rewrite Eb, Es.
Qed.

(** The text of a buffer is what was written, whatever the pieces were. *)
Lemma sbuffer_collects pieces : forall s,
  sbuffer_ok s -> m_size s + zlen (concat pieces) < 2 ^ 45 ->
  exists s', sbuffer_writes pieces s = (Ok (), s') /\ sbuffer_ok s' /\
    sbuffer_text s' = sbuffer_text s ++ concat pieces.
Proof.
  induction pieces as [|b pieces IH]; intros s Hok Hn; simpl in *.
  - exists s. by rewrite app_nil_r.
  - rewrite zlen_app in Hn. pose proof (zlen_nonneg (concat pieces)).
    destruct (sbuffer_write_ok s b Hok ltac:(lia)) as (s1 & E1 & Hok1 & Es & Et).
    destruct (IH s1 Hok1 ltac:(lia)) as (s2 & E2 & Hok2 & Et2). exists s2.
    rewrite (bind_ok _ _ _ _ _ E1). split; [done|]. split; [done|]. by rewrite Et2, Et, <- app_assoc.
Qed.

Lemma new_sbuffer_ok : sbuffer_ok (new_sbuffer MSGPACK_SBUFFER_INIT_SIZE).
Proof. unfold sbuffer_ok, MSGPACK_SBUFFER_INIT_SIZE. simpl. unfold zlen. simpl. lia. Qed.

(** ** The queue *)

(** Messages that are gone, and the part of the front that is. *)
Definition writer_ok (w : writer) : Prop :=
  (exit_ w = false -> socket_open w = true) /\
  exists gone p,
    written w = gone ++ write_queue w /\ sent w = concat gone ++ p /\
    match writing w with
    | [] =>
        match write_queue w with
        | [] => p = [] /\ failed w = false
        | front :: _ => p `prefix_of` front /\ (failed w = false -> p = [] /\ exit_ w = true)
        end
    | [rest] => failed w = false /\ exists q, write_queue w = (p ++ rest) :: q
    | _ => False
    end.

(** Running an operation on the fields of a writer. *)
Ltac run_writer E :=
  unfold write, write_handler, do_write, mbind, M_bind, mret, M_ret, get, modify in E; simpl in E.

Lemma writer_ok_write d w w' : writer_ok w -> write d w = (Ok (), w') -> writer_ok w'.
Proof.
  intros (Hopen & gone & p & Hw & Hs & Hm) E. destruct w as [ex queue wr se op wri fa]. simpl in *. subst wri se.
  destruct queue as [|front q].
  - assert (wr = [] /\ p = [] /\ fa = false) as (-> & -> & ->).
    { destruct wr as [|r []]; [tauto| |done]. by destruct Hm as [_ [q E1]]. }
    run_writer E. destruct ex; injection E as <-; (split; [done|]); exists gone, []; simpl; rewrite ?app_nil_r.
    + split_and!; try done. by exists d.
    + split_and!; try done. by exists [].
  - assert ((1 <? length ((front :: q) ++ [d]))%nat = true) as Hl
      by (apply Nat.ltb_lt; rewrite length_app; simpl; lia).
    unfold write in E. rewrite !bind_modify, bind_get in E. cbn [log_written set_queue write_queue] in E.
    rewrite Hl in E. injection E as <-. split; [done|]. exists gone, p. simpl. rewrite <- app_assoc.
    split; [done|]. split; [done|]. destruct wr as [|r []]; [done| |done].
    destruct Hm as [Hf [q' E1]]. split; [done|]. injection E1 as -> ->. by exists (q' ++ [d]).
Qed.

Lemma writer_ok_part l1 b1 b2 l2 w :
  writer_ok w -> writing w = l1 ++ (b1 ++ b2) :: l2 ->
  writer_ok (set_sent (sent w ++ b1) (set_writing (l1 ++ b2 :: l2) w)).
Proof.
  intros (Hopen & gone & p & Hw & Hs & Hm) E. split; [done|]. exists gone, (p ++ b1). simpl.
  rewrite E in Hm. destruct l1 as [|r l1]; [|by destruct l1]. destruct l2; [|done].
  destruct Hm as [Hf [q Eq]]. split; [done|]. split; [by rewrite Hs, app_assoc|]. split; [done|].
  exists q. by rewrite Eq, !app_assoc.
Qed.

Lemma writer_ok_done l1 l2 w w' :
  writer_ok w -> writing w = l1 ++ [] :: l2 -> write_handler false (set_writing (l1 ++ l2) w) = (Ok (), w') ->
  writer_ok w'.
Proof.
  intros (Hopen & gone & p & Hw & Hs & Hm) Ewr E. destruct w as [ex queue wr se op wri fa]. simpl in *. subst wr.
  destruct l1 as [|r l1]; [|by destruct l1]. destruct l2; [|done].
  destruct Hm as [-> [q ->]]. rewrite app_nil_r in *. simpl in E.
  assert (wri = (gone ++ [p]) ++ q /\ se = concat (gone ++ [p]) ++ []) as [-> ->].
  { rewrite Hw, <- app_assoc, concat_app. simpl. by rewrite !app_nil_r. }
  run_writer E. destruct q as [|d q], ex; simpl in E; injection E as <-; (split; [done|]); exists (gone ++ [p]), [];
    simpl; split_and!; first [done|by exists d|by exists q].
Qed.

Lemma writer_ok_error l1 b l2 w w' :
  writer_ok w -> writing w = l1 ++ b :: l2 -> write_handler true (set_writing (l1 ++ l2) w) = (Ok (), w') ->
  writer_ok w'.
Proof.
  intros (Hopen & gone & p & Hw & Hs & Hm) Ewr E. destruct w as [ex queue wr se op wri fa]. simpl in *. subst wr.
  destruct l1 as [|r l1]; [|by destruct l1]. destruct l2; [|done]. destruct Hm as [-> [q ->]].
  run_writer E. destruct ex; injection E as <-; (split; [done|]); exists gone, p; simpl; split_and!; first [done|by exists b].
Qed.

Lemma writer_ok_step w w' : writer_step w w' -> writer_ok w -> writer_ok w'.
Proof.
  intros [d w1 w2 E|l1 b1 b2 l2 w1 E Ho|l1 l2 w1 w2 Ew E|l1 b l2 w1 w2 Ew E|w1] Hok.
  - by eapply writer_ok_write.
  - by apply writer_ok_part.
  - by eapply writer_ok_done.
  - by eapply writer_ok_error.
  - destruct Hok as (_ & gone & p & Hw & Hs & Hm). split; [done|]. exists gone, p. split; [done|]. split; [done|].
    simpl. destruct (writing w1) as [|r []]; [|done|done]. destruct (write_queue w1); [done|].
    destruct Hm as [Hp Hf]. split; [done|]. intros H0. split; [|done]. by apply Hf.
Qed.

Lemma writer_reachable_ok w : writer_reachable w -> writer_ok w.
Proof.
  intros Hr. apply (rtc_invariant writer_step writer_ok) in Hr; [done|intros a b Ha Hab; by eapply writer_ok_step|].
  split; [done|]. by exists [], [].
Qed.

(** Two messages, one byte of the first being gone. *)
Definition some_writer : writer := Writer false [[1; 2]; [3]] [[2]] [1] true [[1; 2]; [3]] false.

Lemma some_writer_reachable : writer_reachable some_writer.
Proof.
  eapply rtc_l; [by apply (writer_write [1; 2])|]. eapply rtc_l; [by apply (writer_write [3])|].
  eapply rtc_l; [by apply (writer_part [] [1] [2] [])|]. apply rtc_refl.
Qed.

(** What is gone, and what is left. *)
Lemma writer_sent w :
  writer_reachable w ->
  sent w `prefix_of` concat (written w) /\
  (writing w = [] -> exit_ w = false -> failed w = false -> sent w = concat (written w)).
Proof.
  intros Hr. destruct (writer_reachable_ok w Hr) as (Hopen & gone & p & Hw & Hs & Hm).
  rewrite Hs, Hw, concat_app. destruct (writing w) as [|rest []]; [| |done]; (split; [apply prefix_app|]).
  - destruct (write_queue w) as [|front q]; [destruct Hm as [-> _]; by exists []|].
    destruct Hm as [[r ->] _]. exists (r ++ concat q). simpl. by rewrite app_assoc.
  - intros _ Hex Hf. destruct (write_queue w) as [|front q]; [by destruct Hm as [-> _]|].
    destruct Hm as [_ Hm]. destruct (Hm Hf) as [_ Hex']. by rewrite Hex' in Hex.
  - destruct Hm as [_ [q ->]]. exists (rest ++ concat q). simpl. by rewrite app_assoc.
  - done.
Qed.

(** C38 (safety).  The messages of a connection.  Whenever messages are given to [write],
    however asio splits them, and whenever the connection fails or is left: at most one
    buffer is being written, what the socket has taken is the start of the messages one
    behind the other, in the order they were given and none inside another; and when
    nothing is being written on a connection that neither failed nor was left, all of
    them are gone. *)
Theorem writer_in_order w :
  writer_reachable w ->
  (length (writing w) <= 1)%nat /\ sent w `prefix_of` concat (written w) /\
  (writing w = [] -> exit_ w = false -> failed w = false -> sent w = concat (written w)).
Proof.
  intros Hr. split; [|by apply writer_sent]. destruct (writer_reachable_ok w Hr) as (_ & gone & p & _ & _ & Hm).
  destruct (writing w) as [|rest []]; simpl; done || lia.
Qed.

Lemma writer_in_order_witness :
  (length (writing some_writer) <= 1)%nat /\ [1] `prefix_of` [1; 2; 3] /\
  (writing some_writer = [] -> exit_ some_writer = false -> failed some_writer = false -> [1] = [1; 2; 3]).
Proof. apply (writer_in_order some_writer). exact some_writer_reachable. Defined.

(** What is waiting can be sent. *)
Lemma writer_drains_from n : forall w,
  length (write_queue w) = n -> writer_ok w -> exit_ w = false -> failed w = false ->
  exists w', rtc writer_step w w' /\ sent w' = concat (written w) /\ written w' = written w /\ writing w' = [].
Proof.
  induction n as [|n IH]; intros w Hn (Hopen & gone & p & Hw & Hs & Hm) Hex Hf.
  - destruct (write_queue w) eqn:Eq; [|done]. exists w. split; [apply rtc_refl|].
    destruct (writing w) as [|rest []] eqn:Ewr; [| |done].
    + destruct Hm as [-> _]. by rewrite Hs, Hw, !app_nil_r.
    + destruct Hm as [_ [q E]]. done.
  - destruct (writing w) as [|rest []] eqn:Ewr; [| |done].
    + exfalso. destruct (write_queue w); [done|]. destruct Hm as [_ Hm]. destruct (Hm Hf) as [_ H]. by rewrite H in Hex.
    + destruct Hm as [_ [q Eq]].
      assert (writer_step w (set_sent (sent w ++ rest) (set_writing [[]] w))) as Hstep1.
      { apply (writer_part [] rest [] []); [by rewrite app_nil_r|by apply Hopen]. }
      assert (exists w2, writer_step (set_sent (sent w ++ rest) (set_writing [[]] w)) w2 /\ write_queue w2 = q /\
        exit_ w2 = false /\ failed w2 = false /\ written w2 = written w) as (w2 & Hstep2 & Eq2 & Hex2 & Hf2 & Hw2).
      { destruct w as [ex queue wr se op wri fa]. simpl in *. subst.
        destruct q; eexists; (split; [by eapply (writer_done [] [])|done]). }
      assert (writer_ok w2) as Hok2.
      { eapply writer_ok_step; [exact Hstep2|]. eapply writer_ok_step; [exact Hstep1|].
        split; [done|]. exists gone, p. rewrite Ewr. split_and!; try done. by exists q. }
      destruct (IH w2) as (w3 & Hr & Hs3 & Hw3 & Hwr3); [by rewrite Eq2; rewrite Eq in Hn; injection Hn|done..|].
      exists w3. split; [by eapply rtc_l; [|eapply rtc_l]|]. by rewrite <- Hw2, Hs3, Hw3.
Qed.

(** C39 (liveness).  A connection that neither failed nor was left can always send all the
    messages that were given to it. *)
Theorem writer_drains w :
  writer_reachable w -> exit_ w = false -> failed w = false ->
  exists w', rtc writer_step w w' /\ sent w' = concat (written w) /\ written w' = written w /\ writing w' = [].
Proof. intros Hr. apply (writer_drains_from _ w eq_refl), writer_reachable_ok, Hr. Qed.

Lemma writer_drains_witness :
  exists w', rtc writer_step some_writer w' /\ sent w' = [1; 2; 3] /\ written w' = [[1; 2]; [3]] /\ writing w' = [].
Proof. apply (writer_drains some_writer); [exact some_writer_reachable|reflexivity|reflexivity]. Defined.
