(* ===== verification/Rpc.v ===== *)
(** * rpc: calls

    Include/rpc/client.inl (how a client packs a call), dispatcher.h and dispatcher.inl
    (how a function is bound to a name and called with the arguments of a message),
    detail/response.h, and the function that v8_wrapper.cpp binds in debug builds and
    that the macro EXECUTE_SCRIPT of the tests calls.  What the library has compiled -
    the checks of names and of counts, and [dispatch] - is an interface. *)
From S2P Require Import Prelude Paths Values Callback Engine MsgObject MsgParse MsgStream MsgTree MsgRoundTrip MsgSafety MsgVisitor MsgSession MsgUnpacker MsgUnpackerRefines MsgClient MsgAdaptor RpcWriter.

(** ** The client *)

(** [client::request_type]. *)
Inductive request_type := request_call | request_notification.

Definition request_type_int (t : request_type) : Z :=
  match t with request_call => 0 | request_notification => 2 end.

(** What [async_call] packs, for the number of the call, the name and the arguments. *)
Definition call_message {A} `{Elements A} (idx : Z) (func_name : bytes) (args : A) : outcome bytes :=
  pack_value (Tuple (Integer (request_type_int request_call) : uint8_t,
    (Integer idx : int, (StdString func_name, (Tuple args, ()))))).

(** What [send] packs. *)
Definition notification_message {A} `{Elements A} (func_name : bytes) (args : A) : outcome bytes :=
  pack_value (Tuple (Integer (request_type_int request_notification) : uint8_t,
    (StdString func_name, (Tuple args, ())))).

(** ** Responses *)

(** [response], the members that its header sets. *)
Record response := Response { id_ : Z; error_ : option object; result_ : option object }.

(** [make_result], of an object handle and of a value, and [make_error]. *)
Definition make_result_handle (id : Z) (r : object) : response := Response id None (Some r).

Definition make_result {T} `{Adaptor T} (id : Z) (result : T) : outcome response :=
  o ← object_of_value result; Ok (Response id None (Some o)).

Definition make_error {T} `{Adaptor T} (id : Z) (error : T) : outcome response :=
  o ← object_of_value error; Ok (Response id (Some o) None).

(** ** The dispatcher *)

(** [dispatcher::call_t]. *)
Definition call_t : Type := tuple (int8_t * (uint32_t * (std_string * (object * unit)))).

Section dispatcher.
(** The state the bound functions work on. *)
Context {St : Type}.

(** [adaptor_type]: a function of the object of the arguments. *)
Definition adaptor_type : Type := object -> M St object.

(** [funcs_]. *)
Definition functions : Type := gmap bytes adaptor_type.

(** [funcs_.insert], which keeps what is there. *)
Definition funcs_insert (name : bytes) (f : adaptor_type) (fs : functions) : functions :=
  match fs !! name with Some _ => fs | None => <[name:=f]> fs end.

(** The library's checks and its [dispatch]. *)
Class RpcServer := {
  enforce_arg_count : bytes -> Z -> Z -> outcome unit;
  enforce_unique_name : bytes -> functions -> outcome unit;
  dispatch : functions -> object -> M St response;
}.

(** [args.via.array.size], which is read whatever the type of the object is: the low 32
    bits of the union, which not every type has written. *)
Definition via_array_size (args : object) : outcome Z :=
  match args with
  | ARRAY l => Ok (zlen l)
  | MAP l => Ok (zlen l)
  | STR s | BIN s | EXT _ s => Ok (zlen s)
  | POSITIVE_INTEGER z | NEGATIVE_INTEGER z | FLOAT32 z | FLOAT64 z => Ok (u32 z)
  | NIL | BOOLEAN _ => Crash "read of a member that was not written"
  end.

Context `{RpcServer}.

(** What the four kinds of functors become. *)
Definition adapt_void_zero_arg (name : bytes) (func : M St unit) : adaptor_type := fun args =>
  n ← lift_outcome (via_array_size args);
  _ ← lift_outcome (enforce_arg_count name 0 n);
  _ ← func;
  mret NIL.

Definition adapt_void_nonzero_arg {A} `{Elements A} (name : bytes) (func : A -> M St unit) : adaptor_type := fun args =>
  n ← lift_outcome (via_array_size args);
  _ ← lift_outcome (enforce_arg_count name (elements_size (A := A)) n);
  args_real ← lift_outcome (convert args (initial : tuple A));
  _ ← func (elements args_real);
  mret NIL.

Definition adapt_nonvoid_zero_arg {R} `{Adaptor R} (name : bytes) (func : M St R) : adaptor_type := fun args =>
  n ← lift_outcome (via_array_size args);
  _ ← lift_outcome (enforce_arg_count name 0 n);
  result ← func;
  lift_outcome (object_of_value result).

Definition adapt_nonvoid_nonzero_arg {A R} `{Elements A} `{Adaptor R} (name : bytes) (func : A -> M St R) :
    adaptor_type := fun args =>
  n ← lift_outcome (via_array_size args);
  _ ← lift_outcome (enforce_arg_count name (elements_size (A := A)) n);
  args_real ← lift_outcome (convert args (initial : tuple A));
  result ← func (elements args_real);
  lift_outcome (object_of_value result).

(** [bind], of what the functor became; the name is checked by [bind] and by the
    function it calls for the kind of the functor. *)
Definition bind (name : bytes) (f : adaptor_type) (fs : functions) : outcome functions :=
  _ ← enforce_unique_name name fs;
  _ ← enforce_unique_name name fs;
  Ok (funcs_insert name f fs).

(** What the documentation of the library says of them. *)
Class RpcServerLaws := {
  enforce_arg_count_ok name n : enforce_arg_count name n n = Ok ();
  enforce_arg_count_throws name n m : n <> m -> exists e, enforce_arg_count name n m = Throw e;
  enforce_unique_name_ok name fs : fs !! name = None -> enforce_unique_name name fs = Ok ();
  (** A message that is a call calls the function of the name, and the response has the
      number of the call. *)
  dispatch_call fs o id name args f s r s' :
    convert o (initial : call_t) =
      Ok (Tuple (Integer 0, (Integer id, (StdString name, (args, ()))))) ->
    fs !! name = Some f -> f args s = (Ok r, s') ->
    dispatch fs o s = (Ok (make_result_handle id r), s');
}.
End dispatcher.

(** ** Remote execution *)

Section execute.
Context {W : Type} `{Host W} `{V8Strings} `{!RpcServer (St := engine W)}.

(** The functor of [load_and_watch], bound to "execute". *)
Definition execute_functor (fuel : nat) (args : std_string * unit) : M (engine W) bool :=
  rpc_execute fuel (string_chars args.1).

Definition execute_adaptor (fuel : nat) : adaptor_type :=
  adapt_nonvoid_nonzero_arg (L "execute") (execute_functor fuel).

Definition rpc_functions (fuel : nat) : outcome functions := bind (L "execute") (execute_adaptor fuel) ∅.

(** [rpc_client.call("execute", std::string(script))]. *)
Definition execute_message (idx : Z) (script : bytes) : outcome bytes :=
  call_message idx (L "execute") (StdString script, ()).

Context `{!RpcServerLaws (St := engine W)}.

(** The object of the message. *)
Definition execute_object (idx : Z) (script : bytes) : object :=
  ARRAY [POSITIVE_INTEGER 0; object_of_int idx; STR (L "execute"); ARRAY [STR script]].

(** A call of a script: its number, of the client's [int], and a text of bytes. *)
Definition script_ok (c : Z * bytes) : Prop :=
  0 <= c.1 < 2 ^ 31 /\ Forall is_byte c.2 /\ zlen c.2 < 2 ^ 31.

Lemma execute_name_bytes : Forall is_byte (L "execute").
Proof. change (L "execute") with [101; 120; 101; 99; 117; 116; 101]. repeat (constructor; [unfold is_byte; lia|]). constructor. Qed.

Lemma execute_message_ok idx script :
  script_ok (idx, script) ->
  execute_message idx script = Ok (pack (execute_object idx script)) /\
  accepted default_limit (execute_object idx script) /\
  convert (execute_object idx script) (initial : call_t) =
    Ok (Tuple (Integer 0, (Integer idx, (StdString (L "execute"), (ARRAY [STR script], ()))))).
Proof.
  intros (Hi & Hs & Hl). simpl in *. set (v := Tuple (Integer (request_type_int request_call) : uint8_t,
    (Integer idx : int, (StdString (L "execute"), (Tuple (StdString script, ()), ()))))).
  assert (valid v) as Hv.
  { cbn. unfold in_range, int_min, int_max. split_and!; try lia; try done; try (by vm_compute).
    exact execute_name_bytes. }
  destruct (adaptor_object v Hv) as (o & Eo & Ep & Hw & _).
  assert (o = execute_object idx script) as ->.
  { unfold v in Eo. cbn [object_of_value tuple_adaptor objects_of_elements more_elements no_elements elements fst snd
      integer_adaptor int_value request_type_int] in Eo.
    rewrite (string_object (L "execute")), (string_object script) in Eo by done || lia. by injection Eo as <-. }
  split; [exact Ep|]. split.
  - assert (depth (object_of_int idx) = 0 /\ fits default_limit (object_of_int idx)) as [Hd Hf]
      by (unfold object_of_int; by destruct (idx <? 0)).
    split; [exact Hw|]. split.
    + change (4 <= 0xffffffff /\ True /\ fits default_limit (object_of_int idx) /\ 7 <= 0xffffffff /\
        (1 <= 0xffffffff /\ zlen script <= 0xffffffff /\ True) /\ True).
      split_and!; done || lia.
    + change (1 + Z.max 0 (Z.max (depth (object_of_int idx)) (Z.max 0 (Z.max (1 + Z.max 0 0) 0))) <= 0xffffffff).
      rewrite Hd. done.
  - unfold execute_object. cbn [convert tuple_adaptor convert_elements more_elements elements fst snd integer_adaptor].
    rewrite convert_integer_object by (apply width_32 || lia). rewrite decide_True by (unfold in_range; simpl; lia).
    done.
Qed.

Lemma execute_adaptor_run fuel script e b e' :
  rpc_execute fuel script e = (Ok b, e') -> execute_adaptor fuel (ARRAY [STR script]) e = (Ok (BOOLEAN b), e').
Proof.
  intros E. unfold execute_adaptor, adapt_nonvoid_nonzero_arg, lift_outcome, mbind, M_bind.
  change (via_array_size (ARRAY [STR script])) with (Ok 1 : outcome Z). cbn -[rpc_execute].
  rewrite enforce_arg_count_ok. unfold execute_functor. cbn -[rpc_execute]. by rewrite E.
Qed.

Lemma rpc_functions_ok fuel :
  exists fs, rpc_functions fuel = Ok fs /\ fs !! L "execute" = Some (execute_adaptor fuel).
Proof.
  assert ((∅ : functions (St := engine W)) !! L "execute" = None) as He by done.
  unfold rpc_functions, bind. rewrite !enforce_unique_name_ok by done. eexists. split; [done|].
  unfold funcs_insert. rewrite He. apply (lookup_insert_eq (M := gmap bytes)).
Qed.

(** Each of the objects, called in turn. *)
Lemma dispatch_execute fuel fs idx script e b e' :
  rpc_functions fuel = Ok fs -> script_ok (idx, script) -> rpc_execute fuel script e = (Ok b, e') ->
  dispatch fs (execute_object idx script) e = (Ok (make_result_handle idx (BOOLEAN b)), e').
Proof.
  intros Efs Hs E. destruct (rpc_functions_ok fuel) as (fs' & Efs' & Hf). rewrite Efs in Efs'. injection Efs' as <-.
  destruct (execute_message_ok idx script Hs) as (_ & _ & Ec).
  eapply dispatch_call; [exact Ec|exact Hf|by apply execute_adaptor_run].
Qed.

(** The start of some messages: whole ones, and a part of the next. *)
Lemma concat_prefix (l : list bytes) : forall s,
  s `prefix_of` concat l ->
  (exists l1 m l2 part more, l = l1 ++ m :: l2 /\ m = part ++ more /\ more <> [] /\ s = concat l1 ++ part) \/
  s = concat l.
Proof.
  induction l as [|m l IH]; intros s [t Et]; simpl in *.
  - right. by destruct s.
  - assert ((exists s', s = m ++ s') \/ exists b more, m = s ++ b :: more) as [[s' ->]|(b & more & ->)].
    { destruct (prefix_weak_total m s (m ++ concat l)) as [[s' ->]|[[|b more] ->]]; [by eexists|by exists t|..].
      - by left; exists s'.
      - left. exists []. by rewrite !app_nil_r.
      - right. by exists b, more. }
    + rewrite <- app_assoc in Et. apply app_inv_head in Et.
      destruct (IH s') as [(l1 & m' & l2 & part & more & -> & -> & Hne & ->)| ->]; [by exists t| |by right].
      left. exists (m :: l1), (part ++ more), l2, part, more. simpl. by rewrite app_assoc.
    + left. by exists [], (s ++ b :: more), l, s, (b :: more).
Qed.

(** The messages of some scripts. *)
Definition execute_objects (calls : list (Z * bytes)) : list object :=
  map (fun c => execute_object c.1 c.2) calls.

Lemma execute_objects_accepted calls :
  Forall script_ok calls -> Forall (accepted default_limit) (execute_objects calls).
Proof.
  intros Hc. apply Forall_map. eapply Forall_impl; [exact Hc|]. intros [idx script] Hs.
  by destruct (execute_message_ok idx script Hs) as (_ & Ha & _).
Qed.

Lemma execute_messages calls msgs :
  Forall script_ok calls -> Forall2 (fun c m => execute_message c.1 c.2 = Ok m) calls msgs ->
  msgs = map pack (execute_objects calls).
Proof.
  intros Hc H2. induction H2 as [|[idx script] m calls msgs E _ IH]; [done|].
  apply Forall_cons in Hc as [Hs Hc]. simpl in *. destruct (execute_message_ok idx script Hs) as (E' & _).
  rewrite E in E'. injection E' as ->. by rewrite IH.
Qed.

(** What arrives of them. *)
Lemma execute_arrives f n l calls s :
  n < 2 ^ 40 -> Forall call_ok l -> zlen l + 2 < 2 ^ 32 -> Forall script_ok calls ->
  let msgs := map pack (execute_objects calls) in
  fed (events_of l) = s -> s `prefix_of` concat msgs -> zlen (concat msgs) + 1 < 2 ^ 32 ->
  exists os c, do_calls l (new_client f n default_limit) = (Ok os, c) /\ os `prefix_of` execute_objects calls /\
    (s = concat msgs -> fst (do_call MsgClient.Next c) = Ok None -> os = execute_objects calls).
Proof.
  intros Hn Hl Hz Hc msgs Ef Hs Hlen. pose proof (execute_objects_accepted calls Hc) as Ha.
  assert (0 <= limit_depth default_limit) as Hlim by (vm_compute; discriminate).
  destruct (concat_prefix msgs s Hs) as [(m1 & m & m2 & part & more & E & Em & Hne & ->)| ->].
  - unfold msgs in E. apply map_eq_app in E as (o1 & o2' & Eo & <- & E2).
    apply map_eq_cons in E2 as (o & o2 & -> & Ep & <-).
    rewrite Eo in Ha. apply Forall_app in Ha as [Ha1 Ha2]. apply Forall_cons in Ha2 as [Ha2 _].
    assert (zlen (concat msgs) = zlen (concat (map pack o1)) + (zlen part + zlen more) + zlen (concat (map pack o2))) as El.
    { unfold msgs. rewrite Eo, map_app, concat_app, zlen_app. simpl. rewrite zlen_app, Ep, Em, zlen_app. lia. }
    pose proof (zlen_nonneg (concat (map pack o2))). assert (0 < zlen more) by (unfold zlen; destruct more; [done|simpl; lia]).
    destruct (unpacker_objects f n default_limit l o1 o part more Hlim Hn Hl Hz Ha1 Ha2) as (os & c & Ed & Hp & Hnext);
      [by rewrite Ep|done|done|rewrite Ef, !zlen_app; lia|].
    exists os, c. split; [done|]. split; [rewrite Eo; by apply prefix_app_r|].
    intros Es. apply (f_equal zlen) in Es. rewrite El, zlen_app in Es. lia.
  - destruct (unpacker_objects f n default_limit l (execute_objects calls) NIL [] [0xc0] Hlim Hn Hl Hz Ha)
      as (os & c & Ed & Hp & Hnext); try done.
    + by rewrite app_nil_r.
    + rewrite Ef, zlen_app. change (zlen [0xc0]) with 1. lia.
    + exists os, c. split; [done|]. split; [done|]. intros _ Hnone. by rewrite Hnone in Hnext.
Qed.
End execute.

(** C34 (functional).  Remote execution.  Scripts are sent by a client, one after the other;
    their messages are queued and sent in parts, and reach the server in any pieces,
    less than 4 GiB in all.  The objects that the server's unpacker has given are those
    of the first scripts, in order and each once, and dispatching one of them does to
    the engine what executing its script does and answers the number of the call with
    the result; once everything has been sent and [next] says that there is none, every
    script has come. *)
Theorem rpc_scripts_executed {W} `{Host W} `{V8Strings} `{!RpcServer (St := engine W)}
    `{!RpcServerLaws (St := engine W)} fuel calls msgs w f n l :
  Forall script_ok calls -> Forall2 (fun c m => execute_message c.1 c.2 = Ok m) calls msgs ->
  writer_reachable w -> written w = msgs -> zlen (concat msgs) + 1 < 2 ^ 32 ->
  n < 2 ^ 40 -> Forall call_ok l -> zlen l + 2 < 2 ^ 32 -> fed (events_of l) = sent w ->
  exists fs os c, rpc_functions fuel = Ok fs /\ do_calls l (new_client f n default_limit) = (Ok os, c) /\
    (length os <= length calls)%nat /\
    (forall i o idx script e b e', os !! i = Some o -> calls !! i = Some (idx, script) ->
      rpc_execute fuel script e = (Ok b, e') ->
      dispatch fs o e = (Ok (make_result_handle idx (BOOLEAN b)), e')) /\
    (writing w = [] -> exit_ w = false -> failed w = false -> fst (do_call MsgClient.Next c) = Ok None ->
      length os = length calls).
Proof.
  intros Hc Hm Hw Ew Hlen Hn Hl Hz Ef. rewrite (execute_messages calls msgs Hc Hm) in *.
  destruct (writer_sent w Hw) as [Hsent Hall]. rewrite Ew in Hsent, Hall.
  destruct (execute_arrives f n l calls (sent w) Hn Hl Hz Hc Ef Hsent Hlen) as (os & c & Ed & Hp & Hnext).
  destruct (rpc_functions_ok fuel) as (fs & Efs & _). exists fs, os, c. split; [done|]. split; [done|].
  split; [apply prefix_length in Hp; unfold execute_objects in Hp; by rewrite length_map in Hp|]. split.
  - intros i o idx script e b e' Ho Ecall E. pose proof (prefix_lookup_Some _ _ _ _ Ho Hp) as Ho'.
    unfold execute_objects in Ho'. rewrite list_lookup_fmap, Ecall in Ho'. injection Ho' as <-.
    apply (dispatch_execute fuel fs idx script e b e' Efs); [|done].
    eapply Forall_lookup_1 in Hc; [exact Hc|exact Ecall].
  - intros H1 H2 H3 Hnone. rewrite (Hnext (Hall H1 H2 H3) Hnone). unfold execute_objects. by rewrite length_map.
Qed.

Section execute_args.
Context {W : Type} `{Host W} `{V8Strings} `{!RpcServer (St := engine W)} `{!RpcServerLaws (St := engine W)}.

(** A function of one argument whose argument does not convert is not called. *)
Lemma execute_rejects fuel args n err e :
  via_array_size args = Ok n -> convert args (initial : tuple (std_string * unit)) = Throw err ->
  exists err', execute_adaptor fuel args e = (Throw err', e).
Proof.
  intros En Ec. unfold execute_adaptor, adapt_nonvoid_nonzero_arg, lift_outcome, mbind, M_bind. rewrite En.
  change (elements_size (A := std_string * unit)) with 1. destruct (decide (1 = n)) as [<-|Hne].
  - rewrite enforce_arg_count_ok, Ec. by eexists.
  - destruct (enforce_arg_count_throws (L "execute") 1 n Hne) as [err' ->]. by eexists.
Qed.

Lemma execute_wrong_count fuel args n e :
  via_array_size args = Ok n -> n <> 1 -> exists err, execute_adaptor fuel args e = (Throw err, e).
Proof.
  intros En Hne. unfold execute_adaptor, adapt_nonvoid_nonzero_arg, lift_outcome, mbind, M_bind. rewrite En.
  change (elements_size (A := std_string * unit)) with 1.
  destruct (enforce_arg_count_throws (L "execute") 1 n) as [err ->]; [lia|by eexists].
Qed.

Lemma execute_runs fuel o s e :
  o = STR s \/ o = BIN s ->
  execute_adaptor fuel (ARRAY [o]) e =
    (b ← rpc_execute fuel s; mret (BOOLEAN b)) e.
Proof.
  intros Ho. unfold execute_adaptor, adapt_nonvoid_nonzero_arg, lift_outcome, mbind, M_bind, mret, M_ret.
  change (via_array_size (ARRAY [o])) with (Ok 1 : outcome Z). cbn -[rpc_execute convert]. rewrite enforce_arg_count_ok.
  unfold execute_functor. destruct Ho as [-> | ->]; cbn -[rpc_execute];
    by destruct (rpc_execute fuel s e) as [[b|err|w] e'].
Qed.
End execute_args.

(** C40 (error).  "execute" on any arguments a message can have.  One text or one binary
    value is executed, and what comes of it, errors included, is what comes of
    executing its bytes; nil and a boolean make the adaptor read a size that was never
    written; every other value ends in an exception before the engine is touched. *)
Theorem execute_only_text {W} `{Host W} `{V8Strings} `{!RpcServer (St := engine W)}
    `{!RpcServerLaws (St := engine W)} fuel args e :
  match args with
  | ARRAY [STR s] | ARRAY [BIN s] =>
      execute_adaptor fuel args e =
        (b ← rpc_execute fuel s; mret (BOOLEAN b)) e
  | NIL | BOOLEAN _ => exists w, execute_adaptor fuel args e = (Crash w, e)
  | _ => exists err, execute_adaptor fuel args e = (Throw err, e)
  end.
Proof.
  destruct args as [| | | | | | | |items| |];
    try (eapply execute_rejects; [by cbn|by cbn]); try (by eexists).
  destruct items as [|o [|o' items]].
  - by eapply (execute_wrong_count _ _ 0).
  - destruct o; try (by apply execute_runs; auto); by eapply (execute_rejects _ _ 1).
  - assert (zlen (o :: o' :: items) <> 1) as Hne by (unfold zlen; simpl; lia).
    destruct o; by eapply execute_wrong_count.
Qed.

(** A server that does what the documentation says. *)
Section spec_server.
Context {St : Type}.

Definition spec_dispatch (fs : functions (St := St)) (o : object) : M St response :=
  match convert o (initial : call_t) with
  | Ok (Tuple (Integer type, (Integer id, (StdString name, (args, ()))))) =>
      match fs !! name with
      | Some f => if type =? 0 then r ← f args; mret (make_result_handle id r) else raise "not a call"
      | None => raise "no such function"
      end
  | Throw e => throw e
  | Crash w => crash w
  end.

#[local] Instance spec_server : RpcServer (St := St) := {|
  enforce_arg_count _ n m := if n =? m then Ok () else Throw (StdException "wrong arity");
  enforce_unique_name name fs := match fs !! name with Some _ => Throw (StdException "bound before") | None => Ok () end;
  dispatch := spec_dispatch;
|}.

#[local] Instance spec_server_laws : RpcServerLaws (St := St).
Proof.
  split.
  - intros name n. cbn. by rewrite Z.eqb_refl.
  - intros name n m Hne. cbn. apply Z.eqb_neq in Hne as ->. by eexists.
  - intros name fs E. unfold enforce_unique_name, spec_server. by rewrite E.
  - intros fs o id name args f s r s' Ec Ef E. change (spec_dispatch fs o s = (Ok (make_result_handle id r), s')).
    unfold spec_dispatch. rewrite Ec. cbv beta iota.
    match goal with |- context [match ?x with Some _ => _ | None => _ end] => replace x with (Some f) by (symmetry; exact Ef) end.
    change (0 =? 0) with true. cbv iota.
    by rewrite (bind_ok _ _ _ _ _ E).
Qed.
End spec_server.

(** Two scripts, the second of them half sent. *)
Definition two_calls : list (Z * bytes) := [(0, L "a"); (1, L "b")].

Definition two_messages : list bytes :=
  [[0x94; 0; 0; 0xa7] ++ L "execute" ++ [0x91; 0xa1; 97]; [0x94; 0; 1; 0xa7] ++ L "execute" ++ [0x91; 0xa1; 98]].

#[local] Existing Instances test_host ascii_strings spec_server spec_server_laws.

Definition half_sent : writer :=
  Writer false (drop 1 two_messages ++ []) [drop 9 (nth 1 two_messages [])]
    (nth 0 two_messages [] ++ take 9 (nth 1 two_messages [])) true two_messages false.

Lemma half_sent_reachable : writer_reachable half_sent.
Proof.
  eapply rtc_l; [by apply (writer_write (nth 0 two_messages []))|].
  eapply rtc_l; [by apply (writer_write (nth 1 two_messages []))|].
  eapply rtc_l; [by apply (writer_part [] (nth 0 two_messages []) [] [])|].
  eapply rtc_l; [by eapply (writer_done [] [])|].
  eapply rtc_l; [by apply (writer_part [] (take 9 (nth 1 two_messages [])) (drop 9 (nth 1 two_messages [])) [])|].
  apply rtc_refl.
Qed.

(** What the server's unpacker is called with. *)
Definition half_sent_pieces : list call :=
  [Receive (take 5 (sent half_sent)); Next; Receive (drop 5 (sent half_sent)); Next; Next].

Lemma half_sent_calls : Forall call_ok half_sent_pieces.
Proof.
  assert (Forall is_byte (sent half_sent)) as Hb.
  { apply Forall_forall. intros b Hb. assert (forallb (fun b => (0 <=? b) && (b <? 256)) (sent half_sent) = true) as E by (vm_compute; reflexivity).
    rewrite forallb_forall in E. apply list_elem_of_In, E in Hb. unfold is_byte. lia. }
  unfold half_sent_pieces, call_ok.
  rewrite !Forall_cons, Forall_nil. split_and!; try done; by apply Forall_take || by apply Forall_drop.
Qed.

Lemma rpc_scripts_executed_witness :
  let l := half_sent_pieces in
  exists fs os c, rpc_functions (W := Z) 2 = Ok fs /\
    do_calls l (new_client None 16 default_limit) = (Ok os, c) /\ (length os <= 2)%nat /\
    (forall i o idx script e b e', os !! i = Some o -> two_calls !! i = Some (idx, script) ->
      rpc_execute 2 script e = (Ok b, e') ->
      dispatch fs o e = (Ok (make_result_handle idx (BOOLEAN b)), e')) /\
    (writing half_sent = [] -> exit_ half_sent = false -> failed half_sent = false ->
      fst (do_call MsgClient.Next c) = Ok None -> length os = 2%nat).
Proof.
  apply (rpc_scripts_executed (W := Z) 2 two_calls two_messages half_sent None 16 half_sent_pieces).
  - repeat constructor; try (vm_compute; discriminate); vm_compute; reflexivity.
  - repeat constructor.
  - exact half_sent_reachable.
  - reflexivity.
  - vm_compute. reflexivity.
  - lia.
  - exact half_sent_calls.
  - vm_compute. reflexivity.
  - reflexivity.
Defined.

Lemma execute_only_text_witness :
  execute_adaptor 2 (ARRAY [STR (L "a")]) reloaded =
    (b ← rpc_execute 2 (L "a"); mret (BOOLEAN b)) reloaded /\
  (exists err, execute_adaptor 2 (ARRAY [POSITIVE_INTEGER 1]) reloaded = (Throw err, reloaded)) /\
  exists w, execute_adaptor 2 NIL reloaded = (Crash w, reloaded).
Proof.
  split; [exact (execute_only_text 2 (ARRAY [STR (L "a")]) reloaded)|].
  split; [exact (execute_only_text 2 (ARRAY [POSITIVE_INTEGER 1]) reloaded)|exact (execute_only_text 2 NIL reloaded)].
Defined.
